(* ===== verification/_CoqProject ===== *)
-Q . S2P
Prelude.v
CritBit.v
Interfaces.v
Snappy.v
SnappyFormat.v
SnappyDecode.v
SnappyEmit.v
SnappyEncode.v
SnappyCodec.v
Rhash.v
Mukv.v
Property.v
PropStore.v
Memcmp.v
Compat.v
Utils.v
System.v
Types.v
Revnum.v
Copyfrom.v
PathRepo.v
Session.v
SessionOpen.v
Log.v
DumpFormat.v
Stream.v
Loader.v
Delta.v
Edits.v
DeltaFacts.v
DeltaDump.v
DeltaCopy.v
DeltaTree.v
DeltaOutput.v
DeltaPlain.v
DeltaRepo.v
DeltaWrite.v
DeltaSafe.v
DeltaLoad.v
DeltaRuns.v
Dump.v
DumpFacts.v
DumpOutput.v
DumpLoad.v
Main.v
MainFacts.v
