(* ===== verification/Prelude.v ===== *)
(** * A model of rsvndump

    rsvndump dumps a Subversion repository (or a subdirectory of one) that is only reachable
    through the remote-access layer, by replaying the differences between its revisions.  This
    development models the C program under src/src, the crit-bit tree (src/lib/critbit89) and the
    Snappy compressor (src/lib/snappy-c) it is linked with and the replacements for C library
    functions in src/lib, and proves what its components promise to each other and to the reader
    of the dump.

    ** How the program works

    [main] (src/src/main.c) reads the arguments, opens the session (src/src/session.c) and calls
    [dump] (src/src/dump.c), which fetches the log of one revision after the other (src/src/log.c),
    writes the revision header, and has the server drive a delta editor (src/src/delta.c) with
    the difference to the revision before.  The editor keeps a tree of the nodes touched in the
    revision, the texts of all files (temporary files, or differences to them), their properties
    (src/src/property.c) and writes one record per node when the drive is complete.  Which nodes
    have to be written as additions, and which are parts of a copy, depends on what existed in
    earlier revisions of the dump: the path repository (src/src/path_repo.c) keeps the set of
    paths of every revision as differences and snapshots in a key-value store (src/src/mukv.c),
    with a crit-bit tree as working set.  The session (src/src/session.c) can obfuscate all names.

    ** Files

    - Prelude.v (this file): bytes and C strings, decimal numbers, machine integers, an iteration
      order of hash tables (class [HashIter]), tactics and shared lemmas.
    - CritBit.v: src/lib/critbit89/critbit.c, the tree as an inductive type with explicit critical
      byte and bits; insertion, deletion, membership and the prefix walk.
    - Interfaces.v: the contracts [KV] (key-value store) and [Codec] (record compression), against
      which the clients are proved.
    - Snappy.v: src/lib/snappy-c/snappy.c, compressor and decompressor over explicit buffers.
      SnappyFormat.v: not a part of the program: what compressed data stands for.
      SnappyDecode.v, SnappyEmit.v, SnappyEncode.v: the proofs about the decompressor, the emission
      of items and the compressor.  SnappyCodec.v: the theorems, and Snappy as a [Codec].
    - Memcmp.v, Compat.v: src/lib/memcmp.c; memset.c, strdup.c, malloc.c and lstat.c.
    - Rhash.v: src/src/rhash.c over an explicit heap of owned keys and values.
    - Mukv.v: src/src/mukv.c over a stdio stream with a buffer, on a device that may fill up and
      whose calls may fail; discharges [KV] where neither happens (or nothing is kept back).
    - Property.v, PropStore.v: src/src/property.c, the text form and the serialisation of
      properties, and the reference-counted storage with its heap of references.
    - Utils.v, System.v: src/src/utils.c; path and array helpers; error chains, temporary files,
      removal of directory trees, the stopwatch.
    - Types.v: log entries, dump options (src/src/log.h, src/src/dump.h) and the class [RA].
    - Revnum.v: [parse_revnum] of src/src/main.c, with the conversions of [sscanf] it uses.
    - Copyfrom.v: the two functions of src/src/delta.c that locate copy sources.
    - PathRepo.v: src/src/path_repo.c.
    - Session.v: src/src/session.c, the obfuscation with an explicit stream of random numbers.
      SessionOpen.v: opening and closing, with the Subversion libraries as the class [SvnClient].
    - Log.v: src/src/log.c, with [svn_ra_get_log] as the class [RALog].
    - DumpFormat.v: not a part of the program: a reader of the dump format that relies on the
      lengths announced in header lines.  Stream.v extends it to whole dump files, as sequences of
      records.  Loader.v says what loading node records does to a tree of paths, properties and
      texts.
    - Delta.v: src/src/delta.c, in a state and error monad.  A state ([de_state]) is the editor
      baton with the static tables, the node store, the files, and what has been written; the
      outcomes are undefined behaviour, a returned error and a result.
    - DeltaFacts.v, DeltaDump.v, DeltaCopy.v, DeltaTree.v, DeltaRuns.v: its theorems (silence of the
      dry run; records; copies and actions; the tree of nodes and the recursive dump; runs over
      several revisions).  DeltaFacts.v also has the rules of a program logic for the monad, which
      separates definedness, failure and the result ([wp]).
      DeltaOutput.v: partial-correctness triples over the monad, and the output of a whole drive
      of the editor.
    - Edits.v: not a part of the program: edits of a tree as drives of the editor, and the changes
      they stand for.  DeltaPlain.v: what the calls of an edit do to the state of the editor, in
      particular to the stored texts and properties ([holds]).  DeltaRepo.v: what they do to the
      path repository.  DeltaSafe.v: that they are defined, and fail only if a store, a digest or a
      temporary file does.  DeltaWrite.v: what is written at the end of the drive; which nodes are
      written as copies, or left out below one, is decided with the path repository.
      DeltaLoad.v: whole drives, and what they have written loaded by Loader.v.
    - Dump.v, DumpFacts.v: src/src/dump.c and its theorems.  DumpOutput.v: the output of a whole
      dump.  DumpLoad.v: whole dumps of histories of edits, loaded again.
    - Main.v, MainFacts.v: src/src/main.c and src/src/logger.c, composed of the rest, and the
      theorems.

    ** Conventions

    A C string is a list of bytes; a [char] buffer that may hold NUL is cut by [c_str] where the
    source uses it as a string.  Undefined behaviour (out-of-bounds reads, use of freed or
    uninitialised memory) is [None], or the outcome [UB] of the monad; return values of C
    functions are integers.  Revisions are unbounded integers except where the source stores
    them in an [int]; sizes stored in an [int] are wrapped ([i32]).  Functions of APR and the
    Subversion libraries are parameters (MD5, directory names, svndiff, property kinds, the
    creation of temporary files), as are the values of uninitialised fields.  Hash tables of APR
    are finite maps, iterated in an order about which nothing is assumed.

    ** Theorems

    - The whole: [dump_loads] (dumping a whole history of edits, with its copies, and loading the
      dump gives the history; the dump is defined, ends and succeeds if nothing it
      depends on fails and the history is [orderly]), [dump_output_wellformed] (a dump that succeeds has
      written a file that can be read from beginning to end, with consecutive revision numbers)
      and, for each revision, [delta_drive_records] (a drive that succeeds has written a sequence
      of complete node records, whatever the order of the calls) and [delta_drive_loads] (the
      records of a drive that edits one tree into another, without text deltas, turn the one into
      the other when they are loaded; what is copied from an earlier revision is written as a
      copy, and nothing below it; again with definedness and success; [dump_loads] composes the
      drives of all revisions).
    - Containers: [cb_tree_refines_set] and [rhash_refines_map] are refinements of a set and a map
      for any sequence of calls; [mukv_store_fetch] says when a store succeeds, what is
      fetched after it, and what a store that fails leaves; the instance [mukv_KV] discharges the
      interface as long as no call fails, and either the device does not fill up or the stream is
      unbuffered; on a full device a buffered stream breaks it
      ([mukv_store_kept_back]).
    - Path repository: [path_repo_refines_history] (any covered sequence of calls behaves as a
      history of path sets), [path_repo_commit_log_correct] (log entries are recorded exactly),
      [pr_encode_apply_roundtrip].
    - Properties: [property_storage_correct] (refinement of a map from paths to tables),
      [property_storage_no_leak], [prop_hash_roundtrip], [property_block_roundtrip].
    - Compression: [snappy_uncompress_correct] (memory safety on any input, equivalence with the
      reference format), [snappy_compress_correct], [snappy_record_roundtrip],
      [snappy_find_match_length_correct]; [codec_snappy] discharges [Codec].
    - C library: [rpl_memcmp_correct] (equivalence with the bytewise comparison for any
      alignment).
    - Delta editor: [delta_dump_node_record] and [delta_dump_replace_records] (what is written for
      a node reads back as what the node says), [delta_propagate_copy_correct],
      [delta_check_action_correct] and [delta_check_copy_correct] (decisions agree with the
      history of the path repository), [delta_dry_run_silent], [delta_tree_invariant] and
      [delta_dump_recursive_complete] (the nodes form a tree, and none of them is forgotten).
    - Dump process: [dump_revision_header_roundtrip], [dump_create_user_prefix_correct],
      [dump_keep_revnums_correct], [dump_loop_terminates].
    - Session and log: [session_obfuscate_injective], [session_make_obfuscated_fresh],
      [log_receiver_correct], [log_get_range_correct].
    - Command line: [main_args_correct] (options in any order; credentials are blanked),
      [parse_revnum_correct], [parse_revnum_accepts_proper], [utils_handle_error_correct].
    - Deviations: [path_repo_gap_loses_paths], [path_repo_stale_cache], [path_repo_delete_absent],
      [cb_tree_walk_prefixed_unmatched], [pr_change_root_copy], [property_store_failure_sticks],
      [property_store_overwrite_leaks], [mukv_store_kept_back], [session_obfuscate_root], [delta_deleted_property_returns],
      [delta_delete_entry_below], [delta_root_properties_lost], [delta_replace_deletes_twice],
      [delta_copy_old_text_lost], [delta_copy_keeps_properties], [dump_incremental_loses_first],
      [delta_get_local_copyfrom_path_sibling], [property_dump_truncates],
      [main_session_failure_succeeds], [main_work_stale] and [parse_revnum_same_field] state what
      the code does where that is not what its comments and names promise.

    ** Bounds and fuel

    Loops over lists are structural.  Fuel is used for: reading back serialised tables (one step
    per byte, shown to be enough); walks up the node tree (one step per node; enough for trees
    built by the editor, [run_copied_parent] and [run_check_parents]); directory levels of a path
    (one step per byte, [run_check_levels]); the recursion of [delta_dump_node], which is at most
    one call deep because a replacement becomes an addition; padding (one step per revision,
    [run_padding]); the user prefix (one step per byte); the dump loop
    ([dump_loop_terminates]; for whole dumps one step per revision, [dump_loads]); the recursive dump (one step per node,
    [delta_dump_recursive_complete]); the loops of the compressor and the decompressor (one step
    per byte of input or output, shown to be enough by totality of [snappy_compress] and
    [snappy_uncompress]); the words of [memcmp] (one round per word); the arguments (one step
    each); the search for a free random name and the recursion over remote
    directories, whose bounds are parameters.

    ** Not modelled

    The texts of messages and of the help screen, the locale, the variant for Windows; the calls of
    session_open and dump that only pass data between the Subversion libraries; debug output
    (DEBUG, DUMP_DEBUG) and the variant USE_SINGLEFILE_DUMP; in Snappy, scatter-gather input (SG)
    and machines that are big-endian or have 32-bit words, for which other code is compiled;
    src/lib/rmdir.c, which starts another program; the test programs.  Memory allocation fails
    only where an argument of the model says so.

    [delta_drive_loads] and [dump_loads] are about drives of edits (Edits.v).  These leave out copies
    that are changed in the revision that makes them: their records depend on what the log says
    of the paths below the copy, and some of them lose data ([delta_copy_old_text_lost],
    [delta_copy_keeps_properties]); properties that are deleted, which the editor stores again
    ([delta_deleted_property_returns]); properties of the root directory, which it does not keep
    from one revision to the next ([delta_root_properties_lost]); paths that are deleted and added
    again in one revision ([delta_replace_deletes_twice]); property values with a NUL, which are
    cut ([property_dump_truncates]); and text and property deltas (DF_USE_DELTAS), for which
    [delta_drive_records] gives the structure of the output only.  Properties that are not regular
    may be sent for any node.  That a dump is defined
    is not shown for histories in which a directory is deleted while there are files in it: the
    editor then removes a file whose name is not initialised, if it keeps a text of one of these
    files ([delta_delete_entry_below]), and what it keeps depends on earlier revisions; nor for log
    entries that leave out deletions, after which it keeps texts of files that do not exist. *)
From Stdlib Require Export Ascii String Lia ZifyNat.
From stdpp Require Export base list gmap strings pretty sorting.

Open Scope Z_scope.

(** * C characters and strings

    A [char] is an [ascii]; a NUL-terminated string is the list of the characters
    before its terminator, so [length] is [strlen]. *)

Declare Scope c_scope.
Delimit Scope c_scope with C.

Abbreviation bytes := (list ascii).

Definition str (s : string) : bytes := list_ascii_of_string s.
Arguments str _%_string.

Definition nul : ascii := "000"%char.
Definition slash : ascii := "/"%char.
Definition nl : ascii := "010"%char.

(** The value of a character read through an [unsigned char *]. *)
Definition u8 (c : ascii) : Z := Z.of_N (N_of_ascii c).

(** A buffer that holds a C string: no terminator before its end. *)
Definition cstr (s : bytes) : Prop := Forall (λ c, c ≠ nul) s.

#[export] Instance cstr_dec s : Decision (cstr s) := _.

(** [s[i]] for a string in a buffer of exactly [strlen(s) + 1] bytes: the terminator is
    readable, anything behind it is outside the object. *)
Definition cread (s : bytes) (i : nat) : option ascii := (s ++ [nul]) !! i.

(** [strcmp]: only the sign of the C result is used by the program. *)
Fixpoint strcmp (a b : bytes) : comparison :=
  match a, b with
  | [], [] => Eq
  | [], _ :: _ => Lt
  | _ :: _, [] => Gt
  | x :: a', y :: b' =>
      match Z.compare (u8 x) (u8 y) with
      | Eq => strcmp a' b'
      | c => c
      end
  end.

(** [strncmp(a, b, n) == 0]. *)
Definition strncmp_eq (a b : bytes) (n : nat) : bool :=
  bool_decide (take n (a ++ [nul]) = take n (b ++ [nul])).

(** * Machine integers *)

Definition wrap_u (w z : Z) : Z := z mod 2 ^ w.
Definition wrap_s (w z : Z) : Z := (z + 2 ^ (w - 1)) mod 2 ^ w - 2 ^ (w - 1).
Abbreviation u32 := (wrap_u 32).
Abbreviation i32 := (wrap_s 32).
Abbreviation u64 := (wrap_u 64).

(** [printf("%ld")], [printf("%lu")] and [apr_itoa] all print plain decimals. *)
Definition digit (d : Z) : ascii := ascii_of_N (Z.to_N (48 + d)).

Fixpoint dec_digits (fuel : nat) (n : Z) (acc : bytes) : bytes :=
  match fuel with
  | O => acc
  | S fuel =>
      let acc := digit (n mod 10) :: acc in
      if n <? 10 then acc else dec_digits fuel (n / 10) acc
  end.

Definition dec_nonneg (n : Z) : bytes := dec_digits (S (Z.to_nat (Z.log2 n))) n [].

Definition dec (z : Z) : bytes :=
  if z <? 0 then "-"%char :: dec_nonneg (- z) else dec_nonneg z.

(** Reading digits back, most significant first. *)
Definition undec (b : bytes) : Z := foldl (λ n c, 10 * n + (u8 c - 48)) 0 b.

(** The C string at a [char *]: everything before the first NUL. *)
Fixpoint c_str (b : bytes) : bytes :=
  match b with
  | [] => []
  | c :: b => if decide (c = nul) then [] else c :: c_str b
  end.

(** * Tactics *)

(** Splits every boolean connective in the context into propositions. *)
Ltac bool_simpl :=
  repeat match goal with
  | H : _ && _ = true |- _ => apply andb_prop in H as [? ?]
  | H : _ || _ = false |- _ => apply orb_false_elim in H as [? ?]
  | H : negb _ = true |- _ => apply negb_true_iff in H
  | H : negb _ = false |- _ => apply negb_false_iff in H
  | H : bool_decide _ = true |- _ => apply bool_decide_eq_true in H
  | H : bool_decide _ = false |- _ => apply bool_decide_eq_false in H
  | H : (_ =? _)%Z = true |- _ => apply Z.eqb_eq in H
  | H : (_ =? _)%Z = false |- _ => apply Z.eqb_neq in H
  | H : (_ <? _)%Z = true |- _ => apply Z.ltb_lt in H
  | H : (_ <? _)%Z = false |- _ => apply Z.ltb_ge in H
  | H : (_ <=? _)%Z = true |- _ => apply Z.leb_le in H
  | H : (_ <=? _)%Z = false |- _ => apply Z.leb_gt in H
  | H : (_ =? _)%nat = true |- _ => apply Nat.eqb_eq in H
  | H : (_ =? _)%nat = false |- _ => apply Nat.eqb_neq in H
  | H : (_ <? _)%nat = true |- _ => apply Nat.ltb_lt in H
  | H : (_ <? _)%nat = false |- _ => apply Nat.ltb_ge in H
  end.

(** Decides a closed proposition by evaluating its decision procedure. *)
Ltac eval_decide := apply (bool_decide_unpack _); vm_compute; exact I.

(** Linear arithmetic with [/] and [mod] by constants. *)
Ltac divlia := zify; Z.to_euclidean_division_equations; lia.

(** * Elementary facts *)

Lemma u8_range c : 0 <= u8 c < 256.
Proof.
  unfold u8. pose proof (N_ascii_bounded c). lia.
Qed.

Lemma u8_inj a b : u8 a = u8 b → a = b.
Proof.
  unfold u8. intros H%N2Z.inj.
  by rewrite <-(ascii_N_embedding a), H, ascii_N_embedding.
Qed.

#[export] Instance u8_Inj : Inj (=) (=) u8 := u8_inj.

Lemma u8_nul : u8 nul = 0.
Proof. reflexivity. Qed.

Lemma u8_eq_0 c : u8 c = 0 ↔ c = nul.
Proof. split; [intros H; apply u8_inj; by rewrite H | by intros ->]. Qed.

Lemma u8_pos c : c ≠ nul → 0 < u8 c.
Proof. intros H. pose proof (u8_range c). rewrite <-u8_eq_0 in H. lia. Qed.

Lemma wrap_s_small w z : 0 < w → - 2 ^ (w - 1) <= z < 2 ^ (w - 1) → wrap_s w z = z.
Proof.
  intros Hw Hz. unfold wrap_s.
  assert (2 ^ w = 2 * 2 ^ (w - 1)) as Hp.
  { rewrite <-Z.pow_succ_r by lia. f_equal. lia. }
  rewrite Z.mod_small; lia.
Qed.

Lemma wrap_u_small w z : 0 <= z < 2 ^ w → wrap_u w z = z.
Proof. intros. unfold wrap_u. by apply Z.mod_small. Qed.

Create HintDb cstrings.

Lemma cstr_nil : cstr [].
Proof. constructor. Qed.

Lemma cstr_app a b : cstr (a ++ b) ↔ cstr a ∧ cstr b.
Proof. unfold cstr. by rewrite Forall_app. Qed.

Lemma cstr_cons c s : cstr (c :: s) ↔ c ≠ nul ∧ cstr s.
Proof. unfold cstr. by rewrite Forall_cons. Qed.

Lemma cstr_drop n s : cstr s → cstr (drop n s).
Proof. apply Forall_drop. Qed.

Lemma cstr_take n s : cstr s → cstr (take n s).
Proof. apply Forall_take. Qed.

#[export] Hint Resolve cstr_nil cstr_drop cstr_take : cstrings.

(** Two C strings agree up to and including their terminators only if they are equal. *)
Lemma cstr_nul_inj a b x y :
  cstr a → cstr b → a ++ nul :: x = b ++ nul :: y → a = b ∧ x = y.
Proof.
  revert b. induction a as [|c a IH]; intros [|d b]; rewrite ?cstr_cons; simpl;
    intros Ha Hb H.
  - by injection H.
  - injection H as H1 H2. naive_solver.
  - injection H as H1 H2. naive_solver.
  - injection H as H1 H2. destruct (IH b) as [-> ->]; naive_solver.
Qed.

Lemma strncmp_eq_prefix p s : cstr p → strncmp_eq p s (length p) = true ↔ p `prefix_of` s.
Proof.
  intros Hp. unfold strncmp_eq. rewrite bool_decide_eq_true, take_app_length. split.
  - intros H. assert (length p ≤ length s)%nat as Hl.
    { destruct (decide (length p ≤ length s)%nat) as [|Hgt]; [done|exfalso].
      assert (nul ∈ p); [|by eapply Forall_forall in Hp].
      rewrite H. rewrite take_ge by (rewrite length_app; simpl; lia). set_solver. }
    rewrite take_app_le in H by done. exists (drop (length p) s).
    by rewrite H at 1; rewrite take_drop.
  - intros [k ->]. rewrite <-app_assoc. by rewrite take_app_length.
Qed.

(** ** Ordering *)

Lemma strcmp_refl a : strcmp a a = Eq.
Proof. induction a as [|c a IH]; simpl; [done|]. by rewrite Z.compare_refl. Qed.

Lemma strcmp_eq a b : strcmp a b = Eq ↔ a = b.
Proof.
  split; [|intros ->; apply strcmp_refl].
  revert b. induction a as [|c a IH]; intros [|d b]; simpl; try done.
  destruct (Z.compare_spec (u8 c) (u8 d)) as [H| |]; [|done..].
  intros ?. apply u8_inj in H. f_equal; auto.
Qed.

Lemma strcmp_antisym a b : strcmp b a = CompOpp (strcmp a b).
Proof.
  revert b. induction a as [|c a IH]; intros [|d b]; simpl; try done.
  rewrite Z.compare_antisym. destruct (u8 c ?= u8 d); simpl; auto.
Qed.

Definition str_lt (a b : bytes) : Prop := strcmp a b = Lt.

#[export] Instance str_lt_trans : Transitive str_lt.
Proof.
  unfold str_lt. intros a. induction a as [|x a IH]; intros [|y b] [|z c]; simpl; try done.
  destruct (Z.compare_spec (u8 x) (u8 y)), (Z.compare_spec (u8 y) (u8 z)),
    (Z.compare_spec (u8 x) (u8 z)); try done; try lia; intros; eauto.
Qed.

#[export] Instance str_lt_irrefl : Irreflexive str_lt.
Proof. intros a. unfold complement, str_lt. by rewrite strcmp_refl. Qed.

#[export] Instance str_lt_antisymm : AntiSymm (=) str_lt.
Proof. intros a b Hab Hba. exfalso. eapply str_lt_irrefl, str_lt_trans; eauto. Qed.

(** A set of strings has one strictly increasing enumeration. *)
Lemma str_sorted_unique l1 l2 :
  StronglySorted str_lt l1 → StronglySorted str_lt l2 → (∀ x, x ∈ l1 ↔ x ∈ l2) → l1 = l2.
Proof.
  intros H1 H2 Hin. apply (StronglySorted_unique str_lt); [done..|].
  assert (∀ l, StronglySorted str_lt l → NoDup l) as Hnd.
  { induction 1 as [|x l Hs IH Hx]; constructor; [|done].
    intros Hx'. rewrite Forall_forall in Hx. by apply Hx, str_lt_irrefl in Hx'. }
  by apply NoDup_Permutation; auto.
Qed.

Lemma str_sorted_filter P `{∀ x, Decision (P x)} l :
  StronglySorted str_lt l → StronglySorted str_lt (filter P l).
Proof.
  induction 1 as [|x l Hs IH Hx]; [constructor|].
  rewrite filter_cons. case_decide; [|done]. constructor; [done|].
  rewrite Forall_forall in Hx |- *. intros y [_ Hy]%list_elem_of_filter. auto.
Qed.

(** ** Decimals *)

Lemma str_inj s1 s2 : str s1 = str s2 → s1 = s2.
Proof.
  unfold str. intros H.
  by rewrite <-(string_of_list_ascii_of_string s1), H, string_of_list_ascii_of_string.
Qed.

Lemma u8_digit d : 0 <= d < 10 → u8 (digit d) = 48 + d.
Proof. intros Hd. unfold u8, digit. rewrite N_ascii_embedding; lia. Qed.

Lemma dec_digits_app fuel n acc : dec_digits fuel n acc = dec_digits fuel n [] ++ acc.
Proof.
  revert n acc. induction fuel as [|fuel IH]; intros n acc; simpl; [done|].
  case_match; [done|]. rewrite (IH _ (_ :: acc)), (IH _ [_]). by rewrite <-app_assoc.
Qed.

Lemma undec_snoc b c : undec (b ++ [c]) = 10 * undec b + (u8 c - 48).
Proof. unfold undec. by rewrite foldl_app. Qed.

Lemma undec_dec_digits fuel n :
  0 <= n < 2 ^ Z.of_nat fuel → undec (dec_digits fuel n []) = n.
Proof.
  revert n. induction fuel as [|fuel IH]; intros n Hn; [simpl in *; unfold undec; simpl; lia|].
  cbn [dec_digits]. pose proof (Z.mod_pos_bound n 10 ltac:(lia)).
  destruct (Z.ltb_spec n 10) as [Hlt|Hge].
  - unfold undec. simpl. rewrite u8_digit, Z.mod_small by lia. lia.
  - rewrite dec_digits_app, undec_snoc, u8_digit, IH by
      (rewrite ?Nat2Z.inj_succ, ?Z.pow_succ_r in Hn by lia; divlia || lia).
    pose proof (Z.div_mod n 10). lia.
Qed.

Lemma undec_dec n : 0 <= n → undec (dec n) = n.
Proof.
  intros Hn. unfold dec, dec_nonneg. rewrite (proj2 (Z.ltb_ge n 0)) by lia.
  apply undec_dec_digits. split; [done|]. rewrite Nat2Z.inj_succ, Z2Nat.id by apply Z.log2_nonneg.
  destruct (decide (n = 0)) as [->|]; [done|]. by apply Z.log2_spec; lia.
Qed.

Lemma dec_digits_Forall fuel n :
  0 <= n → Forall (λ c, 48 <= u8 c < 58) (dec_digits fuel n []).
Proof.
  revert n. induction fuel as [|fuel IH]; intros n Hn; cbn [dec_digits]; [constructor|].
  pose proof (Z.mod_pos_bound n 10 ltac:(lia)).
  assert (Forall (λ c, 48 <= u8 c < 58) [digit (n mod 10)]) as Hd.
  { repeat constructor; rewrite u8_digit by lia; lia. }
  case_match; [done|]. rewrite dec_digits_app. apply Forall_app. split; [|done].
  apply IH. apply Z.div_pos; lia.
Qed.

Lemma dec_Forall n : 0 <= n → Forall (λ c, 48 <= u8 c < 58) (dec n).
Proof.
  intros Hn. unfold dec. rewrite (proj2 (Z.ltb_ge n 0)) by lia. by apply dec_digits_Forall.
Qed.

Lemma dec_inj n1 n2 : 0 <= n1 → 0 <= n2 → dec n1 = dec n2 → n1 = n2.
Proof. intros H1 H2 H. by rewrite <-(undec_dec n1), H, undec_dec. Qed.

Lemma c_str_cstr b : cstr (c_str b).
Proof.
  induction b as [|c b IH]; simpl; [constructor|]. case_decide; [constructor|].
  by apply cstr_cons.
Qed.

Lemma c_str_id b : cstr b → c_str b = b.
Proof.
  induction b as [|c b IH]; simpl; [done|]. rewrite cstr_cons. intros [Hc Hb].
  rewrite decide_False by done. by rewrite IH.
Qed.

Lemma c_str_app a c b : cstr a → c = nul → c_str (a ++ c :: b) = a.
Proof.
  intros Ha ->. induction a as [|d a IH]; simpl; [done|].
  apply cstr_cons in Ha as [Hd Ha]. rewrite decide_False by done. by rewrite IH.
Qed.

#[export] Hint Resolve c_str_cstr : cstrings.

(** * Iteration over APR hash tables

    [apr_hash_first]/[apr_hash_next] visit every entry exactly once, in an order the
    library does not document.  The order is a parameter; nothing but its being a
    permutation of the entries is ever used. *)

Class HashIter := {
  hash_iter : ∀ {V : Type}, gmap bytes V → list (bytes * V);
  hash_iter_perm : ∀ {V : Type} (m : gmap bytes V), hash_iter m ≡ₚ map_to_list m
}.

(** The order used by the concrete examples. *)
#[export] Instance hash_iter_std : HashIter | 100 :=
  {| hash_iter _ m := map_to_list m; hash_iter_perm _ _ := reflexivity _ |}.

Section hash_iter.
Context `{HashIter} {V : Type}.
Implicit Types (m : gmap bytes V).

Lemma hash_iter_elem m k v : (k, v) ∈ hash_iter m ↔ m !! k = Some v.
Proof. by rewrite hash_iter_perm, elem_of_map_to_list. Qed.

Lemma hash_iter_nodup m : NoDup (hash_iter m).*1.
Proof. rewrite hash_iter_perm. apply NoDup_fst_map_to_list. Qed.

Lemma hash_iter_to_map m : list_to_map (hash_iter m) = m.
Proof.
  rewrite (list_to_map_proper (hash_iter m) (map_to_list m)).
  - apply list_to_map_to_list.
  - apply hash_iter_nodup.
  - apply hash_iter_perm.
Qed.
End hash_iter.

(** * Little-endian integers in memory

    Storing an integer through a casted pointer and loading it back, on the machines the
    program is built for. *)

Definition byte_of_Z (z : Z) : ascii := ascii_of_N (Z.to_N (z mod 256)).

Fixpoint le_enc (n : nat) (z : Z) : bytes :=
  match n with
  | O => []
  | S n => byte_of_Z z :: le_enc n (z / 256)
  end.

Fixpoint le_dec (b : bytes) : Z :=
  match b with
  | [] => 0
  | c :: b => u8 c + 256 * le_dec b
  end.

Lemma u8_byte_of_Z z : u8 (byte_of_Z z) = z mod 256.
Proof.
  unfold u8, byte_of_Z. pose proof (Z.mod_pos_bound z 256).
  rewrite N_ascii_embedding; lia.
Qed.

Lemma le_enc_length n z : length (le_enc n z) = n.
Proof. revert z. induction n as [|n IH]; intros z; simpl; auto. Qed.

Lemma le_dec_enc n z : 0 <= z < 256 ^ Z.of_nat n → le_dec (le_enc n z) = z.
Proof.
  revert z. induction n as [|n IH]; intros z Hz; [simpl in *; lia|].
  cbn [le_enc le_dec]. rewrite u8_byte_of_Z, IH.
  - pose proof (Z.div_mod z 256). lia.
  - rewrite Nat2Z.inj_succ, Z.pow_succ_r in Hz by lia.
    split; [apply Z.div_pos; lia|]. apply Z.div_lt_upper_bound; lia.
Qed.

Lemma le_dec_bound b : 0 <= le_dec b < 256 ^ Z.of_nat (length b).
Proof.
  induction b as [|c b IH]; simpl le_dec; [simpl; lia|].
  pose proof (u8_range c). cbn [length]. rewrite Nat2Z.inj_succ, Z.pow_succ_r by lia. lia.
Qed.

Lemma le_dec_app a b : le_dec (a ++ b) = le_dec a + 256 ^ Z.of_nat (length a) * le_dec b.
Proof.
  induction a as [|c a IH]; simpl app; [simpl le_dec; simpl length; rewrite Z.pow_0_r; lia|].
  cbn [le_dec length]. rewrite IH, Nat2Z.inj_succ, Z.pow_succ_r by lia. ring.
Qed.

Lemma le_dec_inj a b : length a = length b → le_dec a = le_dec b → a = b.
Proof.
  revert b. induction a as [|x a IH]; intros [|y b]; simpl; try done.
  intros [= Hl] He. pose proof (u8_range x). pose proof (u8_range y).
  assert (u8 x = u8 y ∧ le_dec a = le_dec b) as [Hxy Hab] by lia.
  f_equal; [by apply u8_inj|by apply IH].
Qed.

Lemma le_dec_mod b k : le_dec b mod 256 ^ Z.of_nat k = le_dec (take k b).
Proof.
  revert b. induction k as [|k IH]; intros b; [apply Z.mod_1_r|].
  destruct b as [|c b]; [apply Z.mod_0_l; lia|]. cbn [le_dec take]. rewrite <-IH.
  rewrite Nat2Z.inj_succ, Z.pow_succ_r by lia. pose proof (u8_range c).
  set (p := 256 ^ Z.of_nat k). assert (0 < p) by (subst p; lia).
  pose proof (Z.mod_pos_bound (le_dec b) p ltac:(lia)).
  rewrite (Z.div_mod (le_dec b) p) at 1 by lia.
  replace (u8 c + _) with (u8 c + 256 * (le_dec b mod p) + le_dec b / p * (256 * p)) by ring.
  rewrite Z_mod_plus_full. apply Z.mod_small. lia.
Qed.

Lemma lor_disjoint a b s : 0 <= s → 0 <= a < 2 ^ s → Z.lor a (Z.shiftl b s) = a + b * 2 ^ s.
Proof.
  intros Hs Ha. rewrite <-(Z.shiftl_mul_pow2 b s) by done.
  rewrite <-Z.add_lor_land. assert (Z.land a (Z.shiftl b s) = 0) as ->; [|lia].
  apply Z.bits_inj'. intros i Hi. rewrite Z.land_spec, Z.bits_0, Z.shiftl_spec by done.
  destruct (decide (i < s)).
  - rewrite (Z.testbit_neg_r b) by lia. apply andb_false_r.
  - rewrite <-(Z.mod_small a (2 ^ s)) by done. by rewrite Z.mod_pow2_bits_high by lia.
Qed.
