(* ===== verification/CritBit.v ===== *)
(** The crit-bit tree of lib/critbit89/critbit.c.

    A tagged pointer of the C code (low bit set: internal node, clear: string) is a value of
    [cb_ptr]; the tree is a possibly NULL root.  The operations follow the C loops; the
    theorems show that a tree built by them is a crit-bit tree ([cb_wf]), that it implements
    a sorted set of C strings, and what the prefix walk visits. *)
From S2P Require Import Prelude.

Open Scope Z_scope.

(** * Data *)

Inductive cb_ptr :=
  | Leaf (s : bytes)
  | Node (byte : nat) (otherbits : Z) (child0 child1 : cb_ptr).

Abbreviation cb_tree := (option cb_ptr).

Definition ENOMEM : Z := 12.

Definition cb_tree_make : cb_tree := None.

(** * Operations *)

(** [c = 0; if (i < ulen) c = ubytes[i];] *)
Definition cb_char (s : bytes) (i : nat) : Z :=
  match s !! i with Some c => u8 c | None => 0 end.

(** [direction = (1 + (q->otherbits | c)) >> 8] *)
Definition cb_direction (byte : nat) (otherbits : Z) (s : bytes) : Z :=
  Z.shiftr (1 + Z.lor otherbits (cb_char s byte)) 8.

Definition cb_child (direction : Z) (child0 child1 : cb_ptr) : cb_ptr :=
  if direction =? 0 then child0 else child1.

(** The descent shared by all operations: the string at the leaf it ends in. *)
Fixpoint cb_walk (p : cb_ptr) (s : bytes) : bytes :=
  match p with
  | Leaf x => x
  | Node b o c0 c1 => if cb_direction b o s =? 0 then cb_walk c0 s else cb_walk c1 s
  end.

Definition cb_tree_contains (tree : cb_tree) (s : bytes) : bool :=
  match tree with
  | None => false
  | Some p => match strcmp s (cb_walk p s) with Eq => true | _ => false end
  end.

(** The loop over [newbyte]: the position of the first byte in which the stored string [p]
    and the new string [u] differ, with the exclusive or of the two bytes. *)
Fixpoint cb_diff (newbyte : nat) (p u : bytes) : option (nat * Z) :=
  match u, p with
  | [], [] => None
  | [], c :: _ => Some (newbyte, u8 c)
  | d :: _, [] => Some (newbyte, Z.lxor 0 (u8 d))
  | d :: u', c :: p' =>
      if u8 c =? u8 d then cb_diff (S newbyte) p' u'
      else Some (newbyte, Z.lxor (u8 c) (u8 d))
  end.

(** The [uint32_t] computation that leaves every bit set but the highest differing one. *)
Definition cb_otherbits (x : Z) : Z :=
  let x := Z.lor x (Z.shiftr x 1) in
  let x := Z.lor x (Z.shiftr x 2) in
  let x := Z.lor x (Z.shiftr x 4) in
  Z.lxor (Z.land x (u32 (Z.lnot (Z.shiftr x 1)))) 255.

(** The second descent: replaces the pointer at the insertion point by the new node. *)
Fixpoint cb_splice (p : cb_ptr) (newbyte : nat) (newotherbits newdirection : Z) (u : bytes)
    : cb_ptr :=
  let newnode q :=
    if newdirection =? 0 then Node newbyte newotherbits q (Leaf u)
    else Node newbyte newotherbits (Leaf u) q in
  match p with
  | Leaf _ => newnode p
  | Node b o c0 c1 =>
      if (newbyte <? b)%nat then newnode p
      else if (b =? newbyte)%nat && (newotherbits <? o) then newnode p
      else if cb_direction b o u =? 0
      then Node b o (cb_splice c0 newbyte newotherbits newdirection u) c1
      else Node b o c0 (cb_splice c1 newbyte newotherbits newdirection u)
  end.

(** [mem k] tells whether the [k]-th call of [tree->malloc_align] succeeds. *)
Definition cb_tree_insert (mem : nat → bool) (tree : cb_tree) (s : bytes) : cb_tree * Z :=
  match tree with
  | None => if mem 0%nat then (Some (Leaf s), 0) else (None, ENOMEM)
  | Some p =>
      let q := cb_walk p s in
      match cb_diff 0 q s with
      | None => (tree, 1)
      | Some (newbyte, x) =>
          let newotherbits := cb_otherbits x in
          let newdirection := cb_direction newbyte newotherbits q in
          if negb (mem 0%nat) then (tree, ENOMEM)
          else if negb (mem 1%nat) then (tree, ENOMEM)
          else (Some (cb_splice p newbyte newotherbits newdirection s), 0)
      end
  end.

(** Unlinks the leaf the descent for [s] ends in; [None] when it was the root. *)
Fixpoint cb_unlink (p : cb_ptr) (s : bytes) : cb_tree :=
  match p with
  | Leaf _ => None
  | Node b o c0 c1 =>
      if cb_direction b o s =? 0 then
        match cb_unlink c0 s with None => Some c1 | Some c0' => Some (Node b o c0' c1) end
      else
        match cb_unlink c1 s with None => Some c0 | Some c1' => Some (Node b o c0 c1') end
  end.

Definition cb_tree_delete (tree : cb_tree) (s : bytes) : cb_tree * Z :=
  match tree with
  | None => (None, 1)
  | Some p =>
      match strcmp s (cb_walk p s) with
      | Eq => (cb_unlink p s, 0)
      | _ => (tree, 1)
      end
  end.

Definition cb_tree_clear (tree : cb_tree) : cb_tree := None.

(** In-order traversal with an early exit when the callback returns non-zero.  A callback may
    have undefined behaviour ([None]); it threads the caller's baton. *)
Fixpoint cbt_traverse_prefixed {B} (top : cb_ptr) (callback : bytes → B → option (B * Z))
    (baton : B) : option (B * Z) :=
  match top with
  | Leaf s => callback s baton
  | Node _ _ c0 c1 =>
      '(baton, ret) ← cbt_traverse_prefixed c0 callback baton;
      if negb (ret =? 0) then Some (baton, ret)
      else
        '(baton, ret) ← cbt_traverse_prefixed c1 callback baton;
        if negb (ret =? 0) then Some (baton, ret) else Some (baton, 0)
  end.

Fixpoint cb_top (p top : cb_ptr) (prefix : bytes) : cb_ptr :=
  match p with
  | Leaf _ => top
  | Node b o c0 c1 =>
      if cb_direction b o prefix =? 0
      then cb_top c0 (if (b <? length prefix)%nat then c0 else top) prefix
      else cb_top c1 (if (b <? length prefix)%nat then c1 else top) prefix
  end.

Definition cb_tree_walk_prefixed {B} (tree : cb_tree) (prefix : bytes)
    (callback : bytes → B → option (B * Z)) (baton : B) : option (B * Z) :=
  match tree with
  | None => Some (baton, 0)
  | Some p => cbt_traverse_prefixed (cb_top p p prefix) callback baton
  end.

(** * Abstract view *)

(** The strings of a tree, left to right. *)
Fixpoint cb_elems (p : cb_ptr) : list bytes :=
  match p with
  | Leaf s => [s]
  | Node _ _ c0 c1 => cb_elems c0 ++ cb_elems c1
  end.

Definition cb_list (tree : cb_tree) : list bytes :=
  match tree with None => [] | Some p => cb_elems p end.

(** Bit [n] of a string, most significant bit of the first byte first, zero behind its end. *)
Definition cb_bit (s : bytes) (n : nat) : bool :=
  Z.testbit (cb_char s (n / 8)) (Z.of_nat (7 - n mod 8)).

(** The bit position a node with byte [b] and [otherbits = 255 - 2^k] decides. *)
Definition cb_crit (b k : nat) : nat := 8 * b + (7 - k).

(** [x] and [y] agree on the bits before [n]. *)
Definition cb_agree (n : nat) (x y : bytes) : Prop := ∀ i, (i < n)%nat → cb_bit x i = cb_bit y i.

Fixpoint cb_wf_ptr (p : cb_ptr) : Prop :=
  match p with
  | Leaf s => cstr s
  | Node b o c0 c1 =>
      cb_wf_ptr c0 ∧ cb_wf_ptr c1 ∧
      ∃ k, (k < 8)%nat ∧ o = 255 - 2 ^ Z.of_nat k ∧
        (∀ x, x ∈ cb_elems c0 → cb_bit x (cb_crit b k) = false) ∧
        (∀ x, x ∈ cb_elems c1 → cb_bit x (cb_crit b k) = true) ∧
        (∀ x y, x ∈ cb_elems c0 ++ cb_elems c1 → y ∈ cb_elems c0 ++ cb_elems c1 →
           cb_agree (cb_crit b k) x y)
  end.

Definition cb_wf (tree : cb_tree) : Prop :=
  match tree with None => True | Some p => cb_wf_ptr p end.

(** * Bits *)

Lemma cb_char_range s i : 0 <= cb_char s i < 256.
Proof. unfold cb_char. destruct (s !! i); [apply u8_range | lia]. Qed.

Lemma cb_crit_div b k : (k < 8)%nat → (cb_crit b k / 8)%nat = b.
Proof. unfold cb_crit. intros. divlia. Qed.

Lemma cb_crit_mod b k : (k < 8)%nat → (7 - cb_crit b k mod 8)%nat = k.
Proof. unfold cb_crit. intros. divlia. Qed.

Lemma cb_bit_crit s b k :
  (k < 8)%nat → cb_bit s (cb_crit b k) = Z.testbit (cb_char s b) (Z.of_nat k).
Proof. intros. unfold cb_bit. by rewrite cb_crit_div, cb_crit_mod. Qed.

(** The two bit tricks of the C code, checked on every byte. *)
Lemma cb_direction_table :
  forallb (λ k, forallb (λ c,
    Z.shiftr (1 + Z.lor (255 - 2 ^ Z.of_nat k) (Z.of_nat c)) 8
      =? (if Z.testbit (Z.of_nat c) (Z.of_nat k) then 1 else 0)) (seq 0 256)) (seq 0 8) = true.
Proof. vm_compute. reflexivity. Qed.

Lemma cb_otherbits_table :
  forallb (λ c, cb_otherbits (Z.of_nat c) =? 255 - 2 ^ Z.log2 (Z.of_nat c)) (seq 1 255) = true.
Proof. vm_compute. reflexivity. Qed.

Lemma cb_direction_bit b k s :
  (k < 8)%nat →
  cb_direction b (255 - 2 ^ Z.of_nat k) s = if cb_bit s (cb_crit b k) then 1 else 0.
Proof.
  intros Hk. rewrite cb_bit_crit by done. unfold cb_direction.
  pose proof cb_direction_table as Ht. rewrite forallb_forall in Ht.
  specialize (Ht k). rewrite in_seq, forallb_forall in Ht. specialize (Ht ltac:(lia)).
  pose proof (cb_char_range s b).
  specialize (Ht (Z.to_nat (cb_char s b))). rewrite in_seq in Ht.
  rewrite Z2Nat.id in Ht by lia. apply Z.eqb_eq, Ht. lia.
Qed.

Lemma cb_otherbits_log2 x : 0 < x < 256 → cb_otherbits x = 255 - 2 ^ Z.log2 x.
Proof.
  intros Hx. pose proof cb_otherbits_table as Ht. rewrite forallb_forall in Ht.
  specialize (Ht (Z.to_nat x)). rewrite in_seq, Z2Nat.id in Ht by lia.
  apply Z.eqb_eq, Ht. lia.
Qed.

(** The order of two nodes as the insertion loop tests it. *)
Lemma cb_crit_lt b k b' k' :
  (k < 8)%nat → (k' < 8)%nat →
  (b <? b')%nat || ((b' =? b)%nat && (255 - 2 ^ Z.of_nat k <? 255 - 2 ^ Z.of_nat k'))
    = (cb_crit b k <? cb_crit b' k')%nat.
Proof.
  intros Hk Hk'. apply eq_iff_eq_true.
  rewrite orb_true_iff, andb_true_iff, !Nat.ltb_lt, Nat.eqb_eq, Z.ltb_lt.
  assert (255 - 2 ^ Z.of_nat k < 255 - 2 ^ Z.of_nat k' ↔ (k' < k)%nat) as ->.
  { split; intros H.
    - assert (2 ^ Z.of_nat k' < 2 ^ Z.of_nat k) as Hp by lia.
      apply Z.pow_lt_mono_r_iff in Hp; lia.
    - assert (2 ^ Z.of_nat k' < 2 ^ Z.of_nat k) by (apply Z.pow_lt_mono_r; lia). lia. }
  unfold cb_crit. lia.
Qed.

(** ** Agreement *)

Lemma cb_agree_refl n x : cb_agree n x x.
Proof. by intros i ?. Qed.

Lemma cb_agree_sym n x y : cb_agree n x y → cb_agree n y x.
Proof. intros H i Hi. symmetry. by apply H. Qed.

Lemma cb_agree_trans n x y z : cb_agree n x y → cb_agree n y z → cb_agree n x z.
Proof. intros H1 H2 i Hi. by rewrite H1, H2. Qed.

Lemma cb_agree_le n m x y : (m ≤ n)%nat → cb_agree n x y → cb_agree m x y.
Proof. intros Hm H i Hi. apply H. lia. Qed.

Lemma cb_agree_cons n c d x y :
  u8 c = u8 d → cb_agree n x y → cb_agree (8 + n) (c :: x) (d :: y).
Proof.
  intros Hcd H i Hi. unfold cb_bit, cb_char.
  destruct (decide (i < 8)%nat) as [Hlt|Hge].
  - rewrite Nat.div_small by done. simpl. by rewrite Hcd.
  - specialize (H (i - 8)%nat ltac:(lia)). unfold cb_bit, cb_char in H.
    replace (i / 8)%nat with (S ((i - 8) / 8)) by divlia.
    replace (i mod 8)%nat with ((i - 8) mod 8)%nat by divlia.
    done.
Qed.

Lemma cb_bit_cons c x n : cb_bit (c :: x) (8 + n) = cb_bit x n.
Proof.
  unfold cb_bit, cb_char.
  replace ((8 + n) / 8)%nat with (S (n / 8)) by divlia.
  by replace ((8 + n) mod 8)%nat with (n mod 8)%nat by divlia.
Qed.

Create HintDb critbit.
#[export] Hint Resolve cb_agree_refl cb_agree_sym cb_agree_trans : critbit.

(** ** The first difference *)

Lemma lxor_top_bit a b :
  0 <= a < 256 → 0 <= b < 256 → a ≠ b →
  0 < Z.lxor a b < 256 ∧
  Z.testbit a (Z.log2 (Z.lxor a b)) ≠ Z.testbit b (Z.log2 (Z.lxor a b)) ∧
  ∀ j, Z.log2 (Z.lxor a b) < j → Z.testbit a j = Z.testbit b j.
Proof.
  intros Ha Hb Hab.
  assert (0 <= Z.lxor a b) as Hnn by (apply Z.lxor_nonneg; lia).
  assert (Z.lxor a b ≠ 0) by (by rewrite Z.lxor_eq_0_iff).
  split_and!; [lia| | |].
  - apply Z.log2_lt_cancel. eapply Z.le_lt_trans; [by apply Z.log2_lxor; lia|].
    assert (∀ c, 0 <= c < 256 → Z.log2 c < 8) as Hl.
    { intros c Hc. destruct (decide (c = 0)) as [->|]; [done|].
      apply Z.log2_lt_pow2; lia. }
    change (Z.log2 256) with 8. pose proof (Hl a Ha). pose proof (Hl b Hb). lia.
  - pose proof (Z.bit_log2 (Z.lxor a b) ltac:(lia)) as Ht. rewrite Z.lxor_spec in Ht.
    destruct (Z.testbit a _), (Z.testbit b _); simpl in *; congruence.
  - intros j Hj. pose proof (Z.bits_above_log2 (Z.lxor a b) j Hnn Hj) as Ht.
    rewrite Z.lxor_spec in Ht. by apply xorb_eq.
Qed.

(** Two strings whose first characters differ (zero for a missing one). *)
Lemma cb_diff_head p u :
  let x := Z.lxor (cb_char p 0) (cb_char u 0) in
  let n := cb_crit 0 (Z.to_nat (Z.log2 x)) in
  cb_char p 0 ≠ cb_char u 0 →
  0 < x < 256 ∧ cb_agree n p u ∧ cb_bit p n ≠ cb_bit u n.
Proof.
  intros x n Hne.
  destruct (lxor_top_bit _ _ (cb_char_range p 0) (cb_char_range u 0) Hne) as (Hx & Hk & Hj).
  fold x in Hx, Hk, Hj.
  assert (Z.log2 x < 8) by (apply Z.log2_lt_pow2; lia).
  assert (0 <= Z.log2 x) by apply Z.log2_nonneg.
  split_and!; [lia..| |].
  - intros i Hi. unfold n, cb_crit in Hi. unfold cb_bit.
    rewrite Nat.div_small by lia. apply Hj. rewrite Nat.mod_small by lia. lia.
  - unfold n. rewrite !cb_bit_crit by lia. by rewrite Z2Nat.id by lia.
Qed.

Lemma cb_diff_spec i p u :
  cstr p → cstr u →
  match cb_diff i p u with
  | None => p = u
  | Some (j, x) =>
      (i ≤ j)%nat ∧ 0 < x < 256 ∧
      let n := cb_crit (j - i) (Z.to_nat (Z.log2 x)) in
      cb_agree n p u ∧ cb_bit p n ≠ cb_bit u n
  end.
Proof.
  revert i p. induction u as [|d u IH]; intros i [|c p]; simpl; [done|..];
    rewrite ?cstr_cons; intros Hp Hu.
  - rewrite Nat.sub_diag. pose proof (cb_diff_head (c :: p) []) as Hh. unfold cb_char in Hh.
    simpl in Hh. rewrite Z.lxor_0_r in Hh. pose proof (u8_pos c (proj1 Hp)).
    destruct (Hh ltac:(lia)) as (? & ? & ?). split_and!; [lia..| |]; done.
  - rewrite Nat.sub_diag. pose proof (cb_diff_head [] (d :: u)) as Hh. unfold cb_char in Hh.
    simpl lookup in Hh. cbv beta iota zeta in Hh. pose proof (u8_pos d (proj1 Hu)).
    destruct (Hh ltac:(lia)) as (? & ? & ?). split_and!; [lia..| |]; done.
  - destruct (Z.eqb_spec (u8 c) (u8 d)) as [Hcd|Hcd].
    + specialize (IH (S i) p (proj2 Hp) (proj2 Hu)).
      destruct (cb_diff (S i) p u) as [[j x]|].
      * destruct IH as (Hij & Hx & Hag & Hbit). split_and!; [lia..| |].
        -- replace (cb_crit (j - i) (Z.to_nat (Z.log2 x)))
             with (8 + cb_crit (j - S i) (Z.to_nat (Z.log2 x)))%nat by (unfold cb_crit; lia).
           by apply cb_agree_cons.
        -- replace (cb_crit (j - i) (Z.to_nat (Z.log2 x)))
             with (8 + cb_crit (j - S i) (Z.to_nat (Z.log2 x)))%nat by (unfold cb_crit; lia).
           by rewrite !cb_bit_cons.
      * apply u8_inj in Hcd. by subst.
    + rewrite Nat.sub_diag. split; [lia|].
      by apply (cb_diff_head (c :: p) (d :: u)).
Qed.

(** ** Bits and the order of strings *)

Lemma byte_high_bit a j : 0 <= a < 256 → 8 <= j → Z.testbit a j = false.
Proof.
  intros Ha Hj. destruct (decide (a = 0)) as [->|]; [apply Z.testbit_0_l|].
  apply Z.bits_above_log2; [lia|]. apply Z.lt_le_trans with 8; [|lia].
  apply Z.log2_lt_pow2; lia.
Qed.

(** The bits of the first character above the [n]-th. *)
Lemma cb_agree_high n x y j :
  cb_agree n x y → 7 - Z.of_nat n < j →
  Z.testbit (cb_char x 0) j = Z.testbit (cb_char y 0) j.
Proof.
  intros Hag Hj. destruct (decide (8 <= j)) as [H8|H8].
  { by rewrite !byte_high_bit by (done || apply cb_char_range). }
  destruct (decide (j < 0)); [by rewrite !Z.testbit_neg_r by done|].
  specialize (Hag (7 - Z.to_nat j)%nat ltac:(lia)). unfold cb_bit in Hag.
  rewrite Nat.div_small, Nat.mod_small in Hag by lia.
  by replace (Z.of_nat (7 - (7 - Z.to_nat j))) with j in Hag by lia.
Qed.

Lemma cb_agree_head n x y : (8 ≤ n)%nat → cb_agree n x y → cb_char x 0 = cb_char y 0.
Proof.
  intros Hn Hag. apply Z.bits_inj'. intros j Hj. apply (cb_agree_high n); [done|lia].
Qed.

Lemma cb_agree_tail n c d x y : cb_agree (8 + n) (c :: x) (d :: y) → cb_agree n x y.
Proof. intros H i Hi. specialize (H (8 + i)%nat ltac:(lia)). by rewrite !cb_bit_cons in H. Qed.

Lemma testbit_lt a b k :
  0 <= k →
  (∀ j, k < j → Z.testbit a j = Z.testbit b j) →
  Z.testbit a k = false → Z.testbit b k = true → a < b.
Proof.
  intros Hk Hj Ha Hb.
  assert (Z.shiftr a (k + 1) = Z.shiftr b (k + 1)) as Hs.
  { apply Z.bits_inj'. intros i Hi. rewrite !Z.shiftr_spec by lia. apply Hj. lia. }
  rewrite !Z.shiftr_div_pow2, Z.pow_add_r, <-!Z.div_div in Hs by lia.
  pose proof (Z.testbit_spec' a k Hk) as Ha'. pose proof (Z.testbit_spec' b k Hk) as Hb'.
  rewrite Ha in Ha'. rewrite Hb in Hb'. simpl in Ha', Hb'.
  assert (a / 2 ^ k < b / 2 ^ k) as Hlt.
  { pose proof (Z.div_mod (a / 2 ^ k) (2 ^ 1) ltac:(lia)).
    pose proof (Z.div_mod (b / 2 ^ k) (2 ^ 1) ltac:(lia)).
    change (2 ^ 1) with 2 in *. lia. }
  assert (¬ b ≤ a); [|lia].
  intros Hle. apply (Z.div_le_mono b a (2 ^ k)) in Hle; [lia|]. by apply Z.pow_pos_nonneg.
Qed.

Lemma cb_bit_nil n : cb_bit [] n = false.
Proof. unfold cb_bit. apply Z.testbit_0_l. Qed.

(** The order of [strcmp] is decided at the first differing bit. *)
Lemma cb_bit_str_lt n x y :
  cb_agree n x y → cb_bit x n = false → cb_bit y n = true → str_lt x y.
Proof.
  unfold str_lt. revert n y. induction x as [|c x IH]; intros n [|d y] Hag Hx Hy; simpl.
  - by rewrite cb_bit_nil in Hy.
  - done.
  - by rewrite cb_bit_nil in Hy.
  - destruct (decide (n < 8)%nat) as [Hn|Hn].
    + assert (u8 c < u8 d) as Hlt.
      { unfold cb_bit in Hx, Hy. rewrite Nat.div_small, Nat.mod_small in Hx, Hy by lia.
        apply (testbit_lt _ _ (Z.of_nat (7 - n))); [lia| |done..].
        intros j Hj. apply (cb_agree_high n (c :: x) (d :: y)); [done|lia]. }
      by rewrite (proj2 (Z.compare_lt_iff _ _) Hlt).
    + assert (u8 c = u8 d) as Hcd.
      { apply (cb_agree_head n (c :: x) (d :: y)); [lia|done]. }
      rewrite Hcd, Z.compare_refl. replace n with (8 + (n - 8))%nat in * by lia.
      rewrite cb_bit_cons in Hx, Hy. apply cb_agree_tail in Hag. eauto.
Qed.

(** * Walking a well-formed tree *)

Lemma cb_elems_nonempty p : ∃ x, x ∈ cb_elems p.
Proof.
  induction p as [s|b o c0 [x Hx] c1 _]; simpl; [exists s; set_solver|].
  exists x. set_solver.
Qed.

Lemma cb_walk_elem p s : cb_walk p s ∈ cb_elems p.
Proof.
  induction p as [x|b o c0 IH0 c1 IH1]; simpl; [set_solver|].
  case_match; set_solver.
Qed.

Lemma cb_wf_cstr p x : cb_wf_ptr p → x ∈ cb_elems p → cstr x.
Proof.
  induction p as [y|b o c0 IH0 c1 IH1]; simpl; [set_solver|].
  intros (H0 & H1 & _). rewrite elem_of_app. naive_solver.
Qed.

(** A node of a well-formed tree, with the branch the descent for [s] takes. *)
Lemma cb_node_cases b o c0 c1 s :
  cb_wf_ptr (Node b o c0 c1) →
  ∃ k, (k < 8)%nat ∧ o = 255 - 2 ^ Z.of_nat k ∧
    (cb_direction b o s =? 0) = negb (cb_bit s (cb_crit b k)) ∧
    (∀ x, x ∈ cb_elems c0 → cb_bit x (cb_crit b k) = false) ∧
    (∀ x, x ∈ cb_elems c1 → cb_bit x (cb_crit b k) = true) ∧
    (∀ x y, x ∈ cb_elems c0 ++ cb_elems c1 → y ∈ cb_elems c0 ++ cb_elems c1 →
       cb_agree (cb_crit b k) x y).
Proof.
  intros (_ & _ & k & Hk & -> & Hrest). exists k.
  split_and!; try apply Hrest; [done..|].
  rewrite cb_direction_bit by done. by destruct (cb_bit s _).
Qed.

(** A string of the tree is found by its own descent. *)
Lemma cb_walk_found p s : cb_wf_ptr p → s ∈ cb_elems p → cb_walk p s = s.
Proof.
  induction p as [x|b o c0 IH0 c1 IH1]; intros Hwf; [simpl; set_solver|].
  destruct (cb_node_cases b o c0 c1 s Hwf) as (k & _ & _ & Hdir & H0 & H1 & _).
  destruct Hwf as (Hw0 & Hw1 & _). simpl. rewrite Hdir, elem_of_app.
  intros [Hs|Hs].
  - rewrite (H0 s Hs). simpl. auto.
  - rewrite (H1 s Hs). simpl. auto.
Qed.

(** The elements of a well-formed tree are strictly increasing. *)
Lemma cb_elems_sorted p : cb_wf_ptr p → StronglySorted str_lt (cb_elems p).
Proof.
  induction p as [x|b o c0 IH0 c1 IH1]; simpl; [repeat constructor|].
  intros (Hw0 & Hw1 & k & _ & _ & H0 & H1 & Hag).
  apply StronglySorted_app_2; [|auto|auto].
  intros x y Hx Hy. apply (cb_bit_str_lt (cb_crit b k)); [|auto..].
  apply Hag; set_solver.
Qed.

Lemma cb_elems_nodup p : cb_wf_ptr p → NoDup (cb_elems p).
Proof.
  intros Hs%cb_elems_sorted. induction Hs as [|x l Hs IH Hx]; constructor; [|done].
  intros Hin. rewrite Forall_forall in Hx. by apply Hx, str_lt_irrefl in Hin.
Qed.

(** ** Insertion *)

(** Building a node over strings that agree up to the crit bit. *)
Lemma cb_wf_node b k p0 p1 :
  (k < 8)%nat → cb_wf_ptr p0 → cb_wf_ptr p1 →
  (∀ x, x ∈ cb_elems p0 → cb_bit x (cb_crit b k) = false) →
  (∀ x, x ∈ cb_elems p1 → cb_bit x (cb_crit b k) = true) →
  (∀ l, (∀ x, x ∈ cb_elems p0 ++ cb_elems p1 → cb_agree (cb_crit b k) l x) →
     cb_wf_ptr (Node b (255 - 2 ^ Z.of_nat k) p0 p1)).
Proof.
  intros Hk Hw0 Hw1 H0 H1 l Hl. simpl. split_and!; [done..|].
  exists k. split_and!; [done..|].
  intros x y Hx Hy. apply cb_agree_trans with l; [apply cb_agree_sym|]; auto.
Qed.

(** The new node over [q], all of whose strings agree with [l] past the difference. *)
Lemma cb_wf_newnode b k q l u :
  (k < 8)%nat → cb_wf_ptr q → cstr u →
  cb_agree (cb_crit b k) l u → cb_bit l (cb_crit b k) ≠ cb_bit u (cb_crit b k) →
  (∀ x, x ∈ cb_elems q → cb_agree (S (cb_crit b k)) l x) →
  let o := 255 - 2 ^ Z.of_nat k in
  let d := cb_direction b o l in
  let t := if d =? 0 then Node b o q (Leaf u) else Node b o (Leaf u) q in
  cb_wf_ptr t ∧ cb_elems t ≡ₚ u :: cb_elems q.
Proof.
  intros Hk Hq Hu Hlu Hbit Hag o d t. unfold t, d, o.
  rewrite cb_direction_bit by done.
  assert (∀ x, x ∈ cb_elems q → cb_bit x (cb_crit b k) = cb_bit l (cb_crit b k)) as Hx.
  { intros x Hx. symmetry. apply Hag; [done|lia]. }
  destruct (cb_bit l (cb_crit b k)) eqn:Hl; simpl (_ =? _); cbv iota.
  - split; [|done]. apply cb_wf_node with l; [done..| |done|].
    + simpl. intros x ->%list_elem_of_singleton. by destruct (cb_bit u _).
    + simpl. intros x [->|Hin]%elem_of_cons; [done|].
      apply cb_agree_le with (S (cb_crit b k)); [lia|auto].
  - split; [|simpl; by rewrite Permutation_app_comm]. apply cb_wf_node with l; [done..| |].
    + simpl. intros x ->%list_elem_of_singleton. by destruct (cb_bit u _).
    + simpl. intros x [Hin| ->%list_elem_of_singleton]%elem_of_app; [|done].
      apply cb_agree_le with (S (cb_crit b k)); [lia|auto].
Qed.

Lemma cb_splice_spec p u b k l :
  let o := 255 - 2 ^ Z.of_nat k in
  let n := cb_crit b k in
  l = cb_walk p u →
  (k < 8)%nat → cb_wf_ptr p → cstr u → cb_agree n l u → cb_bit l n ≠ cb_bit u n →
  let t := cb_splice p b o (cb_direction b o l) u in
  cb_wf_ptr t ∧ cb_elems t ≡ₚ u :: cb_elems p.
Proof.
  intros o n. unfold o. clear o.
  induction p as [x|b' o' c0 IH0 c1 IH1]; intros Hl Hk Hwf Hu Hag Hbit.
  { simpl in Hl. subst l. apply (cb_wf_newnode b k (Leaf x) x); [done..|].
    simpl. intros y ->%list_elem_of_singleton. apply cb_agree_refl. }
  assert (l ∈ cb_elems (Node b' o' c0 c1)) as Hin by (subst l; apply cb_walk_elem).
  destruct (cb_node_cases b' o' c0 c1 u Hwf) as (k' & Hk' & -> & Hdir & H0 & H1 & Hall).
  pose proof (cb_crit_lt b k b' k' Hk Hk') as Hlt. fold n in Hlt.
  simpl.
  destruct (decide (n < cb_crit b' k')%nat) as [Hn|Hn].
  { rewrite (proj2 (Nat.ltb_lt _ _) Hn) in Hlt.
    assert (∀ A (x y : A), (if (b <? b')%nat then x else
      if (b' =? b)%nat && (255 - 2 ^ Z.of_nat k <? 255 - 2 ^ Z.of_nat k') then x else y)
        = x) as ->.
    { intros. destruct (b <? b')%nat; [done|]. simpl in Hlt. by rewrite Hlt. }
    apply cb_wf_newnode; [done..|].
    intros x Hx. apply cb_agree_le with (cb_crit b' k'); [lia|]. by apply Hall. }
  rewrite (proj2 (Nat.ltb_ge n (cb_crit b' k')) ltac:(lia)) in Hlt.
  apply orb_false_iff in Hlt as [-> ->].
  simpl in Hl. rewrite Hdir in Hl |- *.
  destruct Hwf as (Hw0 & Hw1 & _).
  assert (cb_bit l (cb_crit b' k') = cb_bit u (cb_crit b' k')) as Hul.
  { destruct (cb_bit u (cb_crit b' k')); simpl in Hl; subst l;
      [apply H1 | apply H0]; apply cb_walk_elem. }
  assert (n ≠ cb_crit b' k') as Hnn by (intros Heq; by rewrite Heq in Hbit).
  assert (∀ x, x ∈ cb_elems c0 ++ cb_elems c1 → cb_agree (cb_crit b' k') u x) as Hux.
  { intros x Hx. apply cb_agree_trans with l; [|by apply Hall].
    apply cb_agree_sym. apply cb_agree_le with n; [lia|done]. }
  destruct (cb_bit u (cb_crit b' k')) eqn:Hbu; simpl in Hl |- *.
  - destruct (IH1 Hl Hk Hw1 Hu Hag Hbit) as [Hwt Het].
    split; [|by rewrite Het, Permutation_middle].
    apply cb_wf_node with u; [done..| |].
    + intros x. rewrite Het. intros [->|Hx]%elem_of_cons; auto.
    + intros x. rewrite Het, <-Permutation_middle. intros [->|Hx]%elem_of_cons; auto.
      apply cb_agree_refl.
  - destruct (IH0 Hl Hk Hw0 Hu Hag Hbit) as [Hwt Het].
    split; [|by rewrite Het].
    apply cb_wf_node with u; [done..| |done|].
    + intros x. rewrite Het. intros [->|Hx]%elem_of_cons; auto.
    + intros x. rewrite Het. intros [->|Hx]%elem_of_cons; auto.
      apply cb_agree_refl.
Qed.

(** ** Deletion *)

Lemma cb_unlink_spec p s :
  cb_wf_ptr p → s ∈ cb_elems p →
  cb_wf (cb_unlink p s) ∧ s :: cb_list (cb_unlink p s) ≡ₚ cb_elems p.
Proof.
  induction p as [x|b o c0 IH0 c1 IH1]; intros Hwf.
  { simpl. by intros ->%list_elem_of_singleton. }
  destruct (cb_node_cases b o c0 c1 s Hwf) as (k & Hk & -> & Hdir & H0 & H1 & Hall).
  destruct Hwf as (Hw0 & Hw1 & _). simpl. rewrite Hdir, elem_of_app. intros Hs.
  destruct (cb_elems_nonempty c0) as [x0 Hx0], (cb_elems_nonempty c1) as [x1 Hx1].
  destruct (cb_bit s (cb_crit b k)) eqn:Hb; simpl.
  - destruct Hs as [Hs|Hs]; [by rewrite (H0 s Hs) in Hb|].
    destruct (IH1 Hw1 Hs) as [Hwf Hel].
    destruct (cb_unlink c1 s) as [c1'|]; simpl in *.
    + split; [|by rewrite Permutation_middle, Hel].
      eapply cb_wf_node with x0; [done..| |].
      * intros x Hx. apply H1. rewrite <-Hel. set_solver.
      * intros x Hx. apply Hall; [set_solver|]. rewrite <-Hel. set_solver.
    + split; [done|]. by rewrite <-Hel, Permutation_app_comm.
  - destruct Hs as [Hs|Hs]; [|by rewrite (H1 s Hs) in Hb].
    destruct (IH0 Hw0 Hs) as [Hwf Hel].
    destruct (cb_unlink c0 s) as [c0'|]; simpl in *.
    + split; [|by rewrite <-Hel].
      eapply cb_wf_node with x1; [done..| |done|].
      * intros x Hx. apply H0. rewrite <-Hel. set_solver.
      * intros x Hx. apply Hall; [set_solver|]. rewrite <-Hel. set_solver.
    + split; [done|]. by rewrite <-Hel.
Qed.

(** ** Prefix walk *)

Lemma cb_agree_prefix u x : cstr u → u `prefix_of` x ↔ cb_agree (8 * length u) u x.
Proof.
  revert x. induction u as [|c u IH]; intros x.
  - intros _. split; [intros _ i Hi; simpl in Hi; lia|]. intros _. apply prefix_nil.
  - rewrite cstr_cons. intros [Hc Hu]. destruct x as [|d x]; simpl length.
    { split; [by intros ?%prefix_nil_not|].
      intros Hag%cb_agree_head; [|lia]. exfalso. by apply Hc, u8_eq_0. }
    replace (8 * S (length u))%nat with (8 + 8 * length u)%nat by lia. split.
    + intros Hpre. apply prefix_cons_inv_1 in Hpre as Hcd.
      apply prefix_cons_inv_2, IH in Hpre; [|done]. subst d. by apply cb_agree_cons.
    + intros Hag. assert (u8 c = u8 d) as ->%u8_inj.
      { apply (cb_agree_head _ (c :: u) (d :: x)) in Hag; [done|lia]. }
      apply prefix_cons, IH; [done|]. by apply cb_agree_tail in Hag.
Qed.

(** A tree whose strings all agree on the bytes of [u] is not descended into. *)
Lemma cb_top_stop p top u :
  cb_wf_ptr p →
  (∀ x y, x ∈ cb_elems p → y ∈ cb_elems p → cb_agree (8 * length u) x y) →
  cb_top p top u = top.
Proof.
  revert top. induction p as [x|b o c0 IH0 c1 IH1]; intros top Hwf Hag; [done|].
  destruct (cb_node_cases b o c0 c1 u Hwf) as (k & Hk & -> & Hdir & H0 & H1 & Hall).
  destruct Hwf as (Hw0 & Hw1 & _). simpl in Hag |- *. rewrite Hdir.
  assert ((b <? length u)%nat = false) as ->.
  { apply Nat.ltb_ge. destruct (decide (length u ≤ b)%nat) as [|Hlt]; [done|exfalso].
    destruct (cb_elems_nonempty c0) as [x0 Hx0], (cb_elems_nonempty c1) as [x1 Hx1].
    specialize (Hag x0 x1 (proj2 (elem_of_app _ _ _) (or_introl Hx0))
      (proj2 (elem_of_app _ _ _) (or_intror Hx1)) (cb_crit b k)).
    rewrite (H0 x0), (H1 x1) in Hag by done. unfold cb_crit in Hag.
    discriminate Hag. lia. }
  destruct (cb_bit u (cb_crit b k)); simpl; [apply IH1 | apply IH0]; try done;
    intros x y Hx Hy; apply Hag; apply elem_of_app; auto.
Qed.

Lemma filter_none {A} (P : A → Prop) `{∀ x, Decision (P x)} (l : list A) :
  (∀ x, x ∈ l → ¬ P x) → filter P l = [].
Proof.
  induction l as [|x l IH]; intros Hl; [done|].
  rewrite filter_cons_False by (apply Hl; set_solver). apply IH. set_solver.
Qed.

Lemma filter_all {A} (P : A → Prop) `{∀ x, Decision (P x)} (l : list A) :
  (∀ x, x ∈ l → P x) → filter P l = l.
Proof.
  induction l as [|x l IH]; intros Hl; [done|].
  rewrite filter_cons_True by (apply Hl; set_solver). f_equal. apply IH. set_solver.
Qed.

(** The subtree the walk ends up traversing holds exactly the strings with the prefix, provided
    there is one. *)
Lemma cb_top_spec p top u :
  cb_wf_ptr p → cstr u → (∃ x, x ∈ cb_elems p ∧ u `prefix_of` x) →
  (cb_top p top u = top ∧ ∀ x, x ∈ cb_elems p → u `prefix_of` x) ∨
  cb_elems (cb_top p top u) = filter (prefix u) (cb_elems p).
Proof.
  revert top. induction p as [x|b o c0 IH0 c1 IH1]; intros top Hwf Hu (z & Hz & Hpre).
  { left. split; [done|]. simpl in *. set_solver. }
  destruct (cb_node_cases b o c0 c1 u Hwf) as (k & Hk & -> & Hdir & H0 & H1 & Hall).
  destruct (decide (b < length u)%nat) as [Hb|Hb].
  - right. assert (∀ x, u `prefix_of` x → cb_bit x (cb_crit b k) = cb_bit u (cb_crit b k))
      as Hbit.
    { intros x Hx%cb_agree_prefix; [|done]. symmetry. apply Hx. unfold cb_crit. lia. }
    destruct Hwf as (Hw0 & Hw1 & _). simpl in Hz |- *. rewrite Hdir.
    rewrite (proj2 (Nat.ltb_lt _ _) Hb), filter_app.
    destruct (cb_bit u (cb_crit b k)) eqn:Hbu; simpl.
    + rewrite (filter_none _ (cb_elems c0)).
      2:{ intros x Hx Hp. specialize (Hbit x Hp). by rewrite (H0 x Hx) in Hbit. }
      assert (z ∈ cb_elems c1) as Hz1.
      { apply elem_of_app in Hz as [Hz|Hz]; [|done].
        specialize (Hbit z Hpre). by rewrite (H0 z Hz) in Hbit. }
      destruct (IH1 c1 Hw1 Hu) as [[-> Hall1]|Heq]; [by exists z| |done].
      by rewrite filter_all.
    + rewrite (filter_none _ (cb_elems c1)), app_nil_r.
      2:{ intros x Hx Hp. specialize (Hbit x Hp). by rewrite (H1 x Hx) in Hbit. }
      assert (z ∈ cb_elems c0) as Hz0.
      { apply elem_of_app in Hz as [Hz|Hz]; [done|].
        specialize (Hbit z Hpre). by rewrite (H1 z Hz) in Hbit. }
      destruct (IH0 c0 Hw0 Hu) as [[-> Hall0]|Heq]; [by exists z| |done].
      by rewrite filter_all.
  - left. split.
    + apply cb_top_stop; [done|]. intros x y Hx Hy. apply cb_agree_le with (cb_crit b k).
      { unfold cb_crit. lia. } by apply Hall.
    + intros x Hx. apply cb_agree_prefix; [done|]. apply cb_agree_trans with z.
      { by apply cb_agree_prefix. }
      apply cb_agree_le with (cb_crit b k); [unfold cb_crit; lia|]. by apply Hall.
Qed.

Lemma cb_top_sub p top u x :
  x ∈ cb_elems (cb_top p top u) → x ∈ cb_elems p ∨ x ∈ cb_elems top.
Proof.
  revert top. induction p as [y|b o c0 IH0 c1 IH1]; intros top; simpl; [auto|].
  rewrite elem_of_app.
  destruct (cb_direction b o u =? 0); [intros [?|?]%IH0 | intros [?|?]%IH1]; auto;
    destruct (b <? length u)%nat; auto.
Qed.

(** The traversal calls the callback on the strings in order until it asks to stop. *)
Fixpoint cb_walk_list {B} (l : list bytes) (callback : bytes → B → option (B * Z))
    (baton : B) : option (B * Z) :=
  match l with
  | [] => Some (baton, 0)
  | s :: l =>
      '(baton, ret) ← callback s baton;
      if negb (ret =? 0) then Some (baton, ret) else cb_walk_list l callback baton
  end.

Lemma cb_walk_list_app {B} l1 l2 callback (baton : B) :
  cb_walk_list (l1 ++ l2) callback baton =
    '(baton, ret) ← cb_walk_list l1 callback baton;
    if negb (ret =? 0) then Some (baton, ret) else cb_walk_list l2 callback baton.
Proof.
  revert baton. induction l1 as [|s l1 IH]; intros baton; simpl; [done|].
  destruct (callback s baton) as [[baton' ret]|]; simpl; [|done].
  destruct (ret =? 0) eqn:Hr; simpl; [apply IH | by rewrite Hr].
Qed.

Lemma cbt_traverse_prefixed_list {B} p callback (baton : B) :
  cbt_traverse_prefixed p callback baton = cb_walk_list (cb_elems p) callback baton.
Proof.
  revert baton. induction p as [s|b o c0 IH0 c1 IH1]; intros baton; simpl.
  - destruct (callback s baton) as [[baton' ret]|]; simpl; [|done].
    by destruct (Z.eqb_spec ret 0) as [->|].
  - rewrite cb_walk_list_app, IH0.
    destruct (cb_walk_list _ _ _) as [[baton' ret]|]; simpl; [|done].
    destruct (ret =? 0); simpl; [|done]. rewrite IH1.
    destruct (cb_walk_list _ _ _) as [[baton'' ret']|]; simpl; [|done].
    by destruct (Z.eqb_spec ret' 0) as [->|].
Qed.

(** * Correctness of the operations *)

Lemma cb_list_sorted t : cb_wf t → StronglySorted str_lt (cb_list t).
Proof. destruct t as [p|]; simpl; [apply cb_elems_sorted | constructor]. Qed.

Lemma cb_list_nodup t : cb_wf t → NoDup (cb_list t).
Proof. destruct t as [p|]; simpl; [apply cb_elems_nodup | constructor]. Qed.

Lemma cb_list_cstr t x : cb_wf t → x ∈ cb_list t → cstr x.
Proof. destruct t as [p|]; simpl; [apply cb_wf_cstr | set_solver]. Qed.

#[export] Hint Resolve cb_list_sorted cb_list_nodup cb_list_cstr : critbit.

Lemma cb_contains_spec t s : cb_wf t → cb_tree_contains t s = true ↔ s ∈ cb_list t.
Proof.
  destruct t as [p|]; simpl; [|set_solver]. intros Hwf. split.
  - intros H. assert (strcmp s (cb_walk p s) = Eq) as Heq by (by case_match).
    apply strcmp_eq in Heq. rewrite Heq. apply cb_walk_elem.
  - intros Hs. by rewrite cb_walk_found, strcmp_refl.
Qed.

Lemma cb_insert_spec mem t s :
  cb_wf t → cstr s →
  let '(t', ret) := cb_tree_insert mem t s in
  cb_wf t' ∧
  ((s ∈ cb_list t ∧ ret = 1 ∧ t' = t) ∨
   (s ∉ cb_list t ∧ ret = 0 ∧ cb_list t' ≡ₚ s :: cb_list t) ∨
   (s ∉ cb_list t ∧ ret = ENOMEM ∧ t' = t ∧ (mem 0%nat = false ∨ mem 1%nat = false))).
Proof.
  intros Hwf Hs. destruct t as [p|]; simpl.
  2:{ destruct (mem 0%nat); simpl; set_solver. }
  simpl in Hwf. pose proof (cb_walk_elem p s) as Hl.
  pose proof (cb_diff_spec 0 (cb_walk p s) s (cb_wf_cstr _ _ Hwf Hl) Hs) as Hd.
  destruct (cb_diff 0 (cb_walk p s) s) as [[b x]|].
  2:{ split; [done|]. left. by rewrite Hd in Hl. }
  destruct Hd as (_ & Hx & Hag & Hbit). rewrite Nat.sub_0_r in Hag, Hbit.
  assert (s ∉ cb_elems p) as Hni.
  { intros Hin. apply Hbit. by rewrite (cb_walk_found p s). }
  destruct (mem 0%nat) eqn:Hm0; simpl; [|by eauto 10].
  destruct (mem 1%nat) eqn:Hm1; simpl; [|by eauto 10].
  assert (0 <= Z.log2 x < 8).
  { split; [apply Z.log2_nonneg|]. apply Z.log2_lt_pow2; lia. }
  rewrite cb_otherbits_log2 by done.
  rewrite <-(Z2Nat.id (Z.log2 x)) by lia.
  destruct (cb_splice_spec p s b (Z.to_nat (Z.log2 x)) (cb_walk p s)) as [Hw He]; try done.
  { lia. }
  split; [done|]. right. left. done.
Qed.

Lemma cb_delete_spec t s :
  cb_wf t →
  let '(t', ret) := cb_tree_delete t s in
  cb_wf t' ∧
  ((s ∈ cb_list t ∧ ret = 0 ∧ s :: cb_list t' ≡ₚ cb_list t) ∨
   (s ∉ cb_list t ∧ ret = 1 ∧ t' = t)).
Proof.
  intros Hwf. pose proof (cb_contains_spec t s Hwf) as Hc.
  destruct t as [p|]; simpl in *; [|set_solver].
  destruct (strcmp s (cb_walk p s)) eqn:Hcmp.
  - apply proj1 in Hc. specialize (Hc eq_refl).
    destruct (cb_unlink_spec p s Hwf Hc). split; [done|]. left. done.
  - split; [done|]. right. split; [|done]. by rewrite <-Hc.
  - split; [done|]. right. split; [|done]. by rewrite <-Hc.
Qed.

Lemma cb_walk_prefixed_spec {B} t u callback (baton : B) :
  cb_wf t → cstr u →
  (∃ x, x ∈ cb_list t ∧ u `prefix_of` x) ∨ cb_list t = [] →
  cb_tree_walk_prefixed t u callback baton =
    cb_walk_list (filter (prefix u) (cb_list t)) callback baton.
Proof.
  intros Hwf Hu Hex. destruct t as [p|]; simpl in *; [|done].
  destruct Hex as [Hex|Hnil].
  2:{ destruct (cb_elems_nonempty p) as [x Hx]. rewrite Hnil in Hx. set_solver. }
  rewrite cbt_traverse_prefixed_list.
  destruct (cb_top_spec p p u Hwf Hu Hex) as [[-> Hall]| ->]; [|done].
  by rewrite filter_all.
Qed.

(** Without a string that has the prefix the walk still visits a subtree. *)
Lemma cb_walk_prefixed_absent {B} p u :
  cb_wf_ptr p → (∀ x, x ∈ cb_elems p → ¬ u `prefix_of` x) →
  ∃ l, l ≠ [] ∧ (∀ x, x ∈ l → x ∈ cb_elems p ∧ ¬ u `prefix_of` x) ∧
    ∀ callback (baton : B),
      cb_tree_walk_prefixed (Some p) u callback baton = cb_walk_list l callback baton.
Proof.
  intros Hwf Hno. exists (cb_elems (cb_top p p u)). split_and!.
  - destruct (cb_elems_nonempty (cb_top p p u)) as [x Hx]. intros Hnil.
    rewrite Hnil in Hx. set_solver.
  - intros x [Hx|Hx]%cb_top_sub; auto.
  - intros callback baton. apply cbt_traverse_prefixed_list.
Qed.

(** ** Canonicity: the shape of the tree is determined by its strings *)

Lemma cb_crit_inj b k b' k' :
  (k < 8)%nat → (k' < 8)%nat → cb_crit b k = cb_crit b' k' → b = b' ∧ k = k'.
Proof. unfold cb_crit. lia. Qed.

Lemma cb_leaf_node_absurd x b o c0 c1 :
  cb_wf_ptr (Node b o c0 c1) → ¬ (∀ y, y ∈ cb_elems (Node b o c0 c1) ↔ y ∈ [x]).
Proof.
  intros (_ & _ & k & _ & _ & H0 & H1 & _) Heq. simpl in Heq.
  destruct (cb_elems_nonempty c0) as [x0 Hx0], (cb_elems_nonempty c1) as [x1 Hx1].
  assert (x0 = x) as -> by (apply list_elem_of_singleton, Heq, elem_of_app; auto).
  assert (x1 = x) as -> by (apply list_elem_of_singleton, Heq, elem_of_app; auto).
  specialize (H0 _ Hx0). specialize (H1 _ Hx1). congruence.
Qed.

(** Two well-formed nodes over the same strings decide the same bit. *)
Lemma cb_node_crit_le b c0 c1 b' c0' c1' k k' :
  (∀ x, x ∈ cb_elems c0 → cb_bit x (cb_crit b k) = false) →
  (∀ x, x ∈ cb_elems c1 → cb_bit x (cb_crit b k) = true) →
  (∀ x y, x ∈ cb_elems c0' ++ cb_elems c1' → y ∈ cb_elems c0' ++ cb_elems c1' →
       cb_agree (cb_crit b' k') x y) →
  (∀ y, y ∈ cb_elems c0 ++ cb_elems c1 → y ∈ cb_elems c0' ++ cb_elems c1') →
  (cb_crit b' k' ≤ cb_crit b k)%nat.
Proof.
  intros H0 H1 Hall Hsub.
  destruct (decide (cb_crit b' k' ≤ cb_crit b k)%nat) as [|Hgt]; [done|exfalso].
  destruct (cb_elems_nonempty c0) as [x0 Hx0], (cb_elems_nonempty c1) as [x1 Hx1].
  specialize (Hall x0 x1 (Hsub _ (proj2 (elem_of_app _ _ _) (or_introl Hx0)))
    (Hsub _ (proj2 (elem_of_app _ _ _) (or_intror Hx1))) (cb_crit b k) ltac:(lia)).
  rewrite H0, H1 in Hall by done. done.
Qed.

Lemma cb_ptr_canonical p1 p2 :
  cb_wf_ptr p1 → cb_wf_ptr p2 → (∀ x, x ∈ cb_elems p1 ↔ x ∈ cb_elems p2) → p1 = p2.
Proof.
  revert p2. induction p1 as [x|b o c0 IH0 c1 IH1]; intros [y|b' o' c0' c1'] Hw Hw' Heq.
  - f_equal. apply list_elem_of_singleton, Heq. simpl. set_solver.
  - by destruct (cb_leaf_node_absurd x b' o' c0' c1' Hw').
  - by destruct (cb_leaf_node_absurd y b o c0 c1 Hw).
  - pose proof Hw as (Hw0 & Hw1 & k & Hk & -> & H0 & H1 & Hall).
    pose proof Hw' as (Hw0' & Hw1' & k' & Hk' & -> & H0' & H1' & Hall').
    simpl in Heq.
    destruct (cb_crit_inj b k b' k') as [<- <-]; [done..| |].
    { apply Nat.le_antisymm; eapply cb_node_crit_le; eauto; intros y; apply Heq. }
    f_equal; [apply IH0 | apply IH1]; try done; intros x; specialize (Heq x);
      rewrite !elem_of_app in Heq; split; intros Hx.
    + destruct (proj1 Heq (or_introl Hx)) as [|Hx']; [done|].
      apply H0 in Hx. apply H1' in Hx'. congruence.
    + destruct (proj2 Heq (or_introl Hx)) as [|Hx']; [done|].
      apply H0' in Hx. apply H1 in Hx'. congruence.
    + destruct (proj1 Heq (or_intror Hx)) as [Hx'|]; [|done].
      apply H1 in Hx. apply H0' in Hx'. congruence.
    + destruct (proj2 Heq (or_intror Hx)) as [Hx'|]; [|done].
      apply H1' in Hx. apply H0 in Hx'. congruence.
Qed.

Lemma cb_canonical t1 t2 :
  cb_wf t1 → cb_wf t2 → (∀ x, x ∈ cb_list t1 ↔ x ∈ cb_list t2) → t1 = t2.
Proof.
  destruct t1 as [p1|], t2 as [p2|]; simpl; intros H1 H2 Heq; [| | |done].
  - f_equal. by apply cb_ptr_canonical.
  - destruct (cb_elems_nonempty p1) as [x Hx]. apply Heq in Hx. set_solver.
  - destruct (cb_elems_nonempty p2) as [x Hx]. apply Heq in Hx. set_solver.
Qed.

(** ** Sequences of operations against a set of strings *)

Inductive cb_op := CbInsert (s : bytes) | CbDelete (s : bytes) | CbContains (s : bytes).

Definition cb_op_arg (op : cb_op) : bytes :=
  match op with CbInsert s | CbDelete s | CbContains s => s end.

Definition cb_step (t : cb_tree) (op : cb_op) : cb_tree * Z :=
  match op with
  | CbInsert s => cb_tree_insert (λ _, true) t s
  | CbDelete s => cb_tree_delete t s
  | CbContains s => (t, if cb_tree_contains t s then 1 else 0)
  end.

Fixpoint cb_run (t : cb_tree) (ops : list cb_op) : cb_tree * list Z :=
  match ops with
  | [] => (t, [])
  | op :: ops =>
      let '(t, r) := cb_step t op in
      let '(t, rs) := cb_run t ops in (t, r :: rs)
  end.

(** What the operations mean for a set. *)
Definition set_step (X : gset bytes) (op : cb_op) : gset bytes * Z :=
  match op with
  | CbInsert s => if decide (s ∈ X) then (X, 1) else ({[s]} ∪ X, 0)
  | CbDelete s => if decide (s ∈ X) then (X ∖ {[s]}, 0) else (X, 1)
  | CbContains s => (X, if decide (s ∈ X) then 1 else 0)
  end.

Fixpoint set_run (X : gset bytes) (ops : list cb_op) : gset bytes * list Z :=
  match ops with
  | [] => (X, [])
  | op :: ops =>
      let '(X, r) := set_step X op in
      let '(X, rs) := set_run X ops in (X, r :: rs)
  end.

(** The set a tree stands for. *)
Definition cb_abs (t : cb_tree) : gset bytes := list_to_set (cb_list t).

Lemma elem_of_cb_abs t s : s ∈ cb_abs t ↔ s ∈ cb_list t.
Proof. apply elem_of_list_to_set. Qed.

Lemma cb_step_refines t op :
  cb_wf t → cstr (cb_op_arg op) →
  let '(t', r) := cb_step t op in
  cb_wf t' ∧ set_step (cb_abs t) op = (cb_abs t', r).
Proof.
  intros Hwf Hs. destruct op as [s|s|s]; simpl in *.
  - pose proof (cb_insert_spec (λ _, true) t s Hwf Hs) as Hi.
    destruct (cb_tree_insert _ t s) as [t' r].
    destruct Hi as [Hw [(Hin & -> & ->)|[(Hin & -> & Hp)|(? & ? & ? & [?|?])]]]; try done.
    + rewrite decide_True by by apply elem_of_cb_abs. done.
    + split; [done|]. rewrite decide_False by by rewrite elem_of_cb_abs.
      f_equal. unfold cb_abs. rewrite Hp. by rewrite list_to_set_cons.
  - pose proof (cb_delete_spec t s Hwf) as Hd.
    destruct (cb_tree_delete t s) as [t' r].
    destruct Hd as [Hw [(Hin & -> & Hp)|(Hin & -> & ->)]].
    + split; [done|]. rewrite decide_True by by apply elem_of_cb_abs.
      f_equal. unfold cb_abs. rewrite <-Hp, list_to_set_cons.
      pose proof (cb_list_nodup t Hwf) as Hnd. rewrite <-Hp in Hnd.
      apply NoDup_cons in Hnd as [Hnd _]. apply set_eq. intros x. set_solver.
    + by rewrite decide_False by by rewrite elem_of_cb_abs.
  - split; [done|]. pose proof (cb_contains_spec t s Hwf) as Hc.
    destruct (cb_tree_contains t s).
    + by rewrite decide_True by by apply elem_of_cb_abs, Hc.
    + rewrite decide_False; [done|]. rewrite elem_of_cb_abs, <-Hc. done.
Qed.

Lemma cb_run_refines t ops :
  cb_wf t → Forall (λ op, cstr (cb_op_arg op)) ops →
  let '(t', rs) := cb_run t ops in
  cb_wf t' ∧ set_run (cb_abs t) ops = (cb_abs t', rs).
Proof.
  intros Hwf Hops. revert t Hwf.
  induction Hops as [|op ops Hop Hops IH]; intros t Hwf; simpl; [done|].
  pose proof (cb_step_refines t op Hwf Hop) as Hs. destruct (cb_step t op) as [t1 r].
  destruct Hs as [Hw1 ->]. specialize (IH t1 Hw1).
  destruct (cb_run t1 ops) as [t2 rs]. destruct IH as [Hw2 ->]. done.
Qed.

(** * Properties *)

(** C28. Any sequence of insertions, deletions and lookups on a fresh tree returns what the same
    sequence returns on a set of strings; the final tree is well formed, enumerates exactly the
    resulting set in strictly increasing [strcmp] order, and depends on that set only (two
    histories with the same set build the same tree). *)
Theorem cb_tree_refines_set (ops : list cb_op) :
  Forall (λ op, cstr (cb_op_arg op)) ops →
  let '(t, rs) := cb_run cb_tree_make ops in
  let '(X, rs') := set_run ∅ ops in
  rs = rs' ∧ StronglySorted str_lt (cb_list t) ∧ (∀ s, s ∈ cb_list t ↔ s ∈ X) ∧
  ∀ ops2, Forall (λ op, cstr (cb_op_arg op)) ops2 →
    (set_run ∅ ops2).1 = X → (cb_run cb_tree_make ops2).1 = t.
Proof.
  intros Hops. pose proof (cb_run_refines None ops I Hops) as Hr.
  change cb_tree_make with (None : cb_tree). destruct (cb_run None ops) as [t rs].
  destruct Hr as [Hwf Hr]. change (cb_abs None) with (∅ : gset bytes) in Hr. rewrite Hr.
  split_and!; [done|by apply cb_list_sorted|by intros; rewrite elem_of_cb_abs|].
  intros ops2 Hops2. pose proof (cb_run_refines None ops2 I Hops2) as Hr2.
  destruct (cb_run None ops2) as [t2 rs2].
  destruct Hr2 as [Hwf2 Hr2]. change (cb_abs None) with (∅ : gset bytes) in Hr2.
  rewrite Hr2. simpl. intros Heq. apply cb_canonical; [done..|].
  intros x. by rewrite <-!elem_of_cb_abs, Heq.
Qed.

Lemma cb_tree_refines_set_witness :
  let ops := [CbInsert (str "trunk"); CbInsert (str "branches"); CbInsert (str "trunk");
              CbInsert (str "trunk/a"); CbDelete (str "trunk"); CbContains (str "trunk/a")] in
  Forall (λ op, cstr (cb_op_arg op)) ops ∧
  (cb_run cb_tree_make ops).2 = [0; 0; 1; 0; 0; 1] ∧
  (cb_run cb_tree_make ops).2 = (set_run ∅ ops).2.
Proof.
  assert (Forall (λ op, cstr (cb_op_arg op))
    [CbInsert (str "trunk"); CbInsert (str "branches"); CbInsert (str "trunk");
     CbInsert (str "trunk/a"); CbDelete (str "trunk"); CbContains (str "trunk/a")]) as Hops.
  { eval_decide. }
  split; [exact Hops|]. split; [vm_compute; reflexivity|].
  pose proof (cb_tree_refines_set _ Hops) as H. revert H.
  destruct (cb_run _ _) as [t rs], (set_run _ _) as [X rs']. intros (H & _). exact H.
Defined.

(** C33. A prefix walk over a tree that holds at least one string with the prefix (or none at all)
    calls the callback on exactly the strings with that prefix, in increasing order, and stops
    at the first non-zero return value. *)
Theorem cb_tree_walk_prefixed_correct {B} (t : cb_tree) (u : bytes)
    (callback : bytes → B → option (B * Z)) (baton : B) :
  cb_wf t → cstr u →
  (∃ x, x ∈ cb_list t ∧ u `prefix_of` x) ∨ cb_list t = [] →
  ∃ l, StronglySorted str_lt l ∧ (∀ x, x ∈ l ↔ x ∈ cb_list t ∧ u `prefix_of` x) ∧
    cb_tree_walk_prefixed t u callback baton = cb_walk_list l callback baton.
Proof.
  intros Hwf Hu Hex. exists (filter (prefix u) (cb_list t)). split_and!.
  - by apply str_sorted_filter, cb_list_sorted.
  - intros x. rewrite list_elem_of_filter. naive_solver.
  - by apply cb_walk_prefixed_spec.
Qed.

Lemma cb_tree_walk_prefixed_correct_witness :
  let t := (cb_run None [CbInsert (str "a/b"); CbInsert (str "c"); CbInsert (str "a")]).1 in
  cb_wf t ∧ ∃ l, (∀ x, x ∈ l ↔ x ∈ cb_list t ∧ str "a" `prefix_of` x) ∧
    cb_tree_walk_prefixed t (str "a") (λ s acc, Some (acc ++ [s], 0)) []
      = cb_walk_list l (λ s acc, Some (acc ++ [s], 0)) [] ∧
    cb_tree_walk_prefixed t (str "a") (λ s acc, Some (acc ++ [s], 0)) []
      = Some ([str "a"; str "a/b"], 0).
Proof.
  assert (cb_wf (cb_run None [CbInsert (str "a/b"); CbInsert (str "c"); CbInsert (str "a")]).1)
    as Hwf.
  { pose proof (cb_run_refines None [CbInsert (str "a/b"); CbInsert (str "c");
      CbInsert (str "a")] I) as Hr.
    destruct (cb_run None _) as [t rs]. apply Hr.
    eval_decide. }
  split; [exact Hwf|].
  edestruct (cb_tree_walk_prefixed_correct
    (cb_run None [CbInsert (str "a/b"); CbInsert (str "c"); CbInsert (str "a")]).1 (str "a")
    (λ s acc, Some (acc ++ [s], 0)) []) as (l & _ & Hl & Heq).
  - exact Hwf.
  - eval_decide.
  - left. exists (str "a"). split; eval_decide.
  - exists l. split; [exact Hl|]. split; [exact Heq|]. vm_compute. reflexivity.
Defined.

(** The walk never compares the subtree it stops in with the prefix: in a non-empty tree in
    which no string has the prefix, the callback is still called, at least once, and only on
    strings that do not have the prefix. *)
Theorem cb_tree_walk_prefixed_unmatched (p : cb_ptr) (u : bytes) :
  cb_wf (Some p) → (∀ x, x ∈ cb_list (Some p) → ¬ u `prefix_of` x) →
  ∃ l, l ≠ [] ∧ (∀ x, x ∈ l → x ∈ cb_list (Some p) ∧ ¬ u `prefix_of` x) ∧
    cb_tree_walk_prefixed (Some p) u (λ s acc, Some (acc ++ [s], 0)) [] = Some (l, 0).
Proof.
  intros Hwf Hno. destruct (cb_walk_prefixed_absent (B := list bytes) p u Hwf Hno)
    as (l & Hl & Hin & Heq).
  exists l. split_and!; [done..|]. rewrite Heq.
  assert (∀ acc, cb_walk_list l (λ s acc, Some (acc ++ [s], 0)) acc = Some (acc ++ l, 0))
    as Hc; [|by rewrite Hc].
  clear. induction l as [|s l IH]; intros acc; simpl; [by rewrite app_nil_r|].
  by rewrite IH, <-app_assoc.
Qed.

Lemma cb_tree_walk_prefixed_unmatched_witness :
  cb_wf (Some (Leaf (str "tags"))) ∧
  ∃ l, l ≠ [] ∧
    cb_tree_walk_prefixed (Some (Leaf (str "tags"))) (str "trunk")
      (λ s acc, Some (acc ++ [s], 0)) [] = Some (l, 0).
Proof.
  assert (cb_wf (Some (Leaf (str "tags")))) as Hwf.
  { eval_decide. }
  split; [exact Hwf|].
  edestruct (cb_tree_walk_prefixed_unmatched (Leaf (str "tags")) (str "trunk") Hwf)
    as (l & Hl & _ & Heq).
  - simpl. intros x ->%list_elem_of_singleton. eval_decide.
  - exists l. split; [exact Hl|exact Heq].
Defined.
