(* ===== verification/Interfaces.v ===== *)
(** The contracts between components.

    [KV]: what the path repository and the property storage rely on in the key-value store of
    src/mukv.c (the instance is in Mukv.v; it needs a device that does not fill up behind the
    stream's buffer).  [Codec]: what they rely on in the compressor
    selected by [USE_SNAPPY] in src/main.h. *)
From S2P Require Import Prelude.

Open Scope Z_scope.

(** [None] stands for undefined behaviour; the [Z] is the C return value. *)
Class KV (T : Type) := {
  (** the store holds the finite map *)
  kv_models : T → gmap bytes bytes → Prop;
  kv_store : T → bytes → bytes → option (T * Z);
  (** a NULL [dptr] is [None] *)
  kv_fetch : T → bytes → option (T * option bytes);
  kv_delete : T → bytes → option (T * Z);
  kv_exists : T → bytes → option bool;
  (** a store either succeeds or leaves every record as it was *)
  kv_store_spec kv m k v : kv_models kv m →
    ∃ kv' r, kv_store kv k v = Some (kv', r) ∧
      ((r = 0 ∧ kv_models kv' (<[k := v]> m)) ∨ (r ≠ 0 ∧ kv_models kv' m));
  kv_fetch_spec kv m k : kv_models kv m →
    ∃ kv', kv_fetch kv k = Some (kv', m !! k) ∧ kv_models kv' m;
  kv_delete_spec kv m k : kv_models kv m →
    ∃ kv', kv_delete kv k = Some (kv', 0) ∧ kv_models kv' (delete k m);
  kv_exists_spec kv m k : kv_models kv m →
    kv_exists kv k = Some (bool_decide (is_Some (m !! k)))
}.

(** A store that never fails: the map itself. *)
#[export] Instance map_kv : KV (gmap bytes bytes).
Proof.
  refine {| kv_models kv m := kv = m; kv_store kv k v := Some (<[k := v]> kv, 0);
            kv_fetch kv k := Some (kv, kv !! k); kv_delete kv k := Some (delete k kv, 0);
            kv_exists kv k := Some (bool_decide (is_Some (kv !! k))) |}.
  - intros kv m k v ->. eexists _, 0. split; [done|]. by left.
  - intros kv m k ->. by eexists.
  - intros kv m k ->. by eexists.
  - by intros kv m k ->.
Defined.

(** Compression of stored records: [None] is a non-zero return value.  What has been compressed
    successfully can be decompressed, when its size fits an [int]. *)
Class Codec := {
  compress : bytes → option bytes;
  uncompress : bytes → option bytes;
  uncompress_compress b c :
    Z.of_nat (length b) < 2 ^ 31 → compress b = Some c → uncompress c = Some b
}.

(** Without [USE_SNAPPY] the data is stored as it is. *)
#[export] Instance codec_raw : Codec | 100 :=
  {| compress := Some; uncompress := Some;
     uncompress_compress b c _ H := match H with eq_refl => eq_refl end |}.
