(* ===== verification/Snappy.v ===== *)
(** The Snappy compressor and decompressor of src/lib/snappy-c/snappy.c, as it is built here: without
    scatter-gather input (SG), on a little-endian machine with 64-bit words.

    A buffer is a list of bytes and a pointer into it an offset.  Loads and stores fail ([None])
    outside of the buffer, as do the assertions [CHECK] and [DCHECK].  The contents of buffers that
    are not initialised are arbitrary. *)
From S2P Require Import Prelude.

Open Scope Z_scope.

(** * Memory *)

Definition mlen (m : bytes) : Z := Z.of_nat (length m).

(** The [n] bytes at [i]. *)
Definition sub_bytes (m : bytes) (i n : Z) : bytes := take (Z.to_nat n) (drop (Z.to_nat i) m).

Definition mload (m : bytes) (i n : Z) : option bytes :=
  if (0 <=? i) && (0 <=? n) && (i + n <=? mlen m) then Some (sub_bytes m i n) else None.

Definition mstore (m : bytes) (i : Z) (b : bytes) : option bytes :=
  if (0 <=? i) && (i + mlen b <=? mlen m)
  then Some (take (Z.to_nat i) m ++ b ++ drop (Z.to_nat (i + mlen b)) m) else None.

(** [UNALIGNED_LOAD32], [UNALIGNED_LOAD64], and a store of a loaded value. *)
Definition load32 (m : bytes) (i : Z) : option Z := b ← mload m i 4; Some (le_dec b).
Definition load64 (m : bytes) (i : Z) : option Z := b ← mload m i 8; Some (le_dec b).
Definition copy64 (src : bytes) (i : Z) (m : bytes) (op : Z) : option bytes :=
  b ← mload src i 8; mstore m op b.

Definition store8 (m : bytes) (op v : Z) : option bytes := mstore m op [byte_of_Z v].
Definition load8 (m : bytes) (i : Z) : option Z := b ← mload m i 1; Some (le_dec b).

(** [CHECK] and [DCHECK]. *)
Definition check (b : bool) : option unit := if b then Some tt else None.

(** * Integers *)

Definition log2_floor (n : Z) : Z := if n =? 0 then -1 else Z.log2 n.

(** The number of trailing zeros. *)
Fixpoint pos_ctz (p : positive) : Z :=
  match p with
  | xO p => 1 + pos_ctz p
  | _ => 0
  end.

Definition find_lsb_set_non_zero64 (n : Z) : Z :=
  match n with Zpos p => pos_ctz p | _ => 0 end.

(** The bytes from [ptr] on are parsed, at most five; [shift] is the position of the next group.
    Returns the value and the number of bytes read. *)
Fixpoint varint_groups (k : nat) (b : bytes) (shift result : Z) (n : Z) : option (Z * Z) :=
  match k, b with
  | O, _ | _, [] => None
  | S k, c :: b =>
      let result := Z.lor result (u32 (Z.shiftl (Z.land (u8 c) 127) shift)) in
      if u8 c <? (if (k =? 0)%nat then 16 else 128) then Some (result, n + 1)
      else varint_groups k b (shift + 7) result (n + 1)
  end.

Definition varint_parse32_with_limit (b : bytes) : option (Z * Z) := varint_groups 5 b 0 0 0.

Definition varint_encode32 (v : Z) : bytes :=
  let B := 128 in
  byte_of_Z <$>
  (if v <? 2 ^ 7 then [v]
   else if v <? 2 ^ 14 then [Z.lor v B; Z.shiftr v 7]
   else if v <? 2 ^ 21 then [Z.lor v B; Z.lor (Z.shiftr v 7) B; Z.shiftr v 14]
   else if v <? 2 ^ 28 then
     [Z.lor v B; Z.lor (Z.shiftr v 7) B; Z.lor (Z.shiftr v 14) B; Z.shiftr v 21]
   else [Z.lor v B; Z.lor (Z.shiftr v 7) B; Z.lor (Z.shiftr v 14) B; Z.lor (Z.shiftr v 21) B;
         Z.shiftr v 28]).

(** The result is the return value and [*result]. *)
Definition snappy_uncompressed_length (b : bytes) : option Z := fst <$> varint_parse32_with_limit b.

(** * Sources, sinks and writers *)

Record source := mk_source { s_ptr : Z; s_left : Z }.

Definition available (s : source) : Z := i32 (s_left s).
Definition source_peek (s : source) : Z * Z := (s_ptr s, s_left s).
Definition source_skip (s : source) (n : Z) : source :=
  mk_source (s_ptr s + n) (u64 (s_left s - n)).

(** The buffer the sink writes to, and [dest]. *)
Record sink := mk_sink { k_mem : bytes; k_dest : Z }.

(** [append] of bytes that are not in place yet. *)
Definition sink_append (s : sink) (data : bytes) : option sink :=
  m ← mstore (k_mem s) (k_dest s) data; Some (mk_sink m (k_dest s + mlen data)).

(** [append] of [n] bytes that are in place. *)
Definition sink_advance (s : sink) (n : Z) : sink := mk_sink (k_mem s) (k_dest s + n).

(** [base] is the beginning of the buffer. *)
Record writer := mk_writer { w_mem : bytes; w_op : Z; w_limit : Z }.

Definition writer_set_expected_length (w : writer) (len : Z) : writer :=
  mk_writer (w_mem w) (w_op w) (w_op w + len).

Definition writer_check_length (w : writer) : bool := w_op w =? w_limit w.

(** [const int space_left = w->op_limit - op] *)
Definition space_left (w : writer) : Z := i32 (w_limit w - w_op w).

Fixpoint copy_bytes (k : nat) (m : bytes) (src op : Z) : option bytes :=
  match k with
  | O => Some m
  | S k => b ← mload m src 1; m ← mstore m op b; copy_bytes k m (src + 1) (op + 1)
  end.

Definition incremental_copy (m : bytes) (src op len : Z) : option bytes :=
  _ ← check (0 <? len); copy_bytes (Z.to_nat len) m src op.

(** The first loop expands a pattern shorter than eight bytes, at most three times. *)
Fixpoint expand_pattern (k : nat) (m : bytes) (src op len : Z) : option (bytes * Z * Z) :=
  match k with
  | O => None
  | S k =>
      if op - src <? 8 then
        m ← copy64 m src m op; expand_pattern k m src (op + (op - src)) (len - (op - src))
      else Some (m, op, len)
  end.

Fixpoint copy_words (k : nat) (m : bytes) (src op len : Z) : option bytes :=
  match k with
  | O => None
  | S k =>
      if 0 <? len then m ← copy64 m src m op; copy_words k m (src + 8) (op + 8) (len - 8)
      else Some m
  end.

Definition incremental_copy_fast_path (m : bytes) (src op len : Z) : option bytes :=
  '(m, op, len) ← expand_pattern 4 m src op len;
  copy_words (S (Z.to_nat len)) m src op len.

Definition kmax_increment_copy_overflow : Z := 10.

(** In the comparisons with [len] the signed [space_left] is converted to an unsigned number. *)
Definition writer_append_from_self (w : writer) (offset len : Z) : option (writer * bool) :=
  let op := w_op w in
  let m := w_mem w in
  if op <=? u32 (offset - 1) then Some (w, false)
  else if (len <=? 16) && (8 <=? offset) && (16 <=? space_left w) then
    m ← copy64 m (op - offset) m op;
    m ← copy64 m (op - offset + 8) m (op + 8);
    Some (mk_writer m (op + len) (w_limit w), true)
  else if u32 (len + kmax_increment_copy_overflow) <=? u32 (space_left w) then
    m ← incremental_copy_fast_path m (op - offset) op (i32 len);
    Some (mk_writer m (op + len) (w_limit w), true)
  else if u32 (space_left w) <? len then Some (w, false)
  else
    m ← incremental_copy m (op - offset) op (i32 len);
    Some (mk_writer m (op + len) (w_limit w), true).

(** [src] is the buffer [ip] points into. *)
Definition writer_append (w : writer) (src : bytes) (ip len : Z) : option (writer * bool) :=
  if u32 (space_left w) <? len then Some (w, false)
  else
    b ← mload src ip len;
    m ← mstore (w_mem w) (w_op w) b;
    Some (mk_writer m (w_op w + len) (w_limit w), true).

Definition writer_try_fast_append (w : writer) (src : bytes) (ip avail len : Z)
    : option (writer * bool) :=
  if (len <=? 16) && (16 <=? avail) && (16 <=? space_left w) then
    m ← copy64 src ip (w_mem w) (w_op w);
    m ← copy64 src (ip + 8) m (w_op w + 8);
    Some (mk_writer m (w_op w + len) (w_limit w), true)
  else Some (w, false).

(** * Decompression *)

Definition LITERAL : Z := 0.
Definition COPY_1_BYTE_OFFSET : Z := 1.
Definition COPY_2_BYTE_OFFSET : Z := 2.
Definition COPY_4_BYTE_OFFSET : Z := 3.

Definition wordmask : list Z := [0; 0xff; 0xffff; 0xffffff; 0xffffffff].

Definition char_table : list Z :=
  [0x0001; 0x0804; 0x1001; 0x2001; 0x0002; 0x0805; 0x1002; 0x2002;
   0x0003; 0x0806; 0x1003; 0x2003; 0x0004; 0x0807; 0x1004; 0x2004;
   0x0005; 0x0808; 0x1005; 0x2005; 0x0006; 0x0809; 0x1006; 0x2006;
   0x0007; 0x080a; 0x1007; 0x2007; 0x0008; 0x080b; 0x1008; 0x2008;
   0x0009; 0x0904; 0x1009; 0x2009; 0x000a; 0x0905; 0x100a; 0x200a;
   0x000b; 0x0906; 0x100b; 0x200b; 0x000c; 0x0907; 0x100c; 0x200c;
   0x000d; 0x0908; 0x100d; 0x200d; 0x000e; 0x0909; 0x100e; 0x200e;
   0x000f; 0x090a; 0x100f; 0x200f; 0x0010; 0x090b; 0x1010; 0x2010;
   0x0011; 0x0a04; 0x1011; 0x2011; 0x0012; 0x0a05; 0x1012; 0x2012;
   0x0013; 0x0a06; 0x1013; 0x2013; 0x0014; 0x0a07; 0x1014; 0x2014;
   0x0015; 0x0a08; 0x1015; 0x2015; 0x0016; 0x0a09; 0x1016; 0x2016;
   0x0017; 0x0a0a; 0x1017; 0x2017; 0x0018; 0x0a0b; 0x1018; 0x2018;
   0x0019; 0x0b04; 0x1019; 0x2019; 0x001a; 0x0b05; 0x101a; 0x201a;
   0x001b; 0x0b06; 0x101b; 0x201b; 0x001c; 0x0b07; 0x101c; 0x201c;
   0x001d; 0x0b08; 0x101d; 0x201d; 0x001e; 0x0b09; 0x101e; 0x201e;
   0x001f; 0x0b0a; 0x101f; 0x201f; 0x0020; 0x0b0b; 0x1020; 0x2020;
   0x0021; 0x0c04; 0x1021; 0x2021; 0x0022; 0x0c05; 0x1022; 0x2022;
   0x0023; 0x0c06; 0x1023; 0x2023; 0x0024; 0x0c07; 0x1024; 0x2024;
   0x0025; 0x0c08; 0x1025; 0x2025; 0x0026; 0x0c09; 0x1026; 0x2026;
   0x0027; 0x0c0a; 0x1027; 0x2027; 0x0028; 0x0c0b; 0x1028; 0x2028;
   0x0029; 0x0d04; 0x1029; 0x2029; 0x002a; 0x0d05; 0x102a; 0x202a;
   0x002b; 0x0d06; 0x102b; 0x202b; 0x002c; 0x0d07; 0x102c; 0x202c;
   0x002d; 0x0d08; 0x102d; 0x202d; 0x002e; 0x0d09; 0x102e; 0x202e;
   0x002f; 0x0d0a; 0x102f; 0x202f; 0x0030; 0x0d0b; 0x1030; 0x2030;
   0x0031; 0x0e04; 0x1031; 0x2031; 0x0032; 0x0e05; 0x1032; 0x2032;
   0x0033; 0x0e06; 0x1033; 0x2033; 0x0034; 0x0e07; 0x1034; 0x2034;
   0x0035; 0x0e08; 0x1035; 0x2035; 0x0036; 0x0e09; 0x1036; 0x2036;
   0x0037; 0x0e0a; 0x1037; 0x2037; 0x0038; 0x0e0b; 0x1038; 0x2038;
   0x0039; 0x0f04; 0x1039; 0x2039; 0x003a; 0x0f05; 0x103a; 0x203a;
   0x003b; 0x0f06; 0x103b; 0x203b; 0x003c; 0x0f07; 0x103c; 0x203c;
   0x0801; 0x0f08; 0x103d; 0x203d; 0x1001; 0x0f09; 0x103e; 0x203e;
   0x1801; 0x0f0a; 0x103f; 0x203f; 0x2001; 0x0f0b; 0x1040; 0x2040].

(** The buffer [ip] and [ip_limit] point into: the input or [scratch]. *)
Inductive area := InSource | InScratch.

(** [NULL] pointers are represented by offsets 0. *)
Record snappy_decompressor := mk_decompressor {
  d_reader : source;
  d_area : area;
  d_ip : Z;
  d_ip_limit : Z;
  d_peeked : Z;
  d_eof : bool;
  d_scratch : bytes
}.

Section decompress.

(** The compressed buffer. *)
Variable compressed : bytes.

Definition area_mem (d : snappy_decompressor) : bytes :=
  match d_area d with InSource => compressed | InScratch => d_scratch d end.

(** The contents of [scratch] are those of the stack. *)
Definition init_snappy_decompressor (reader : source) (scratch : bytes) : snappy_decompressor :=
  mk_decompressor reader InSource 0 0 0 false scratch.

Definition set_reader (d : snappy_decompressor) (r : source) : snappy_decompressor :=
  mk_decompressor r (d_area d) (d_ip d) (d_ip_limit d) (d_peeked d) (d_eof d) (d_scratch d).

Definition set_ip (d : snappy_decompressor) (ip : Z) : snappy_decompressor :=
  mk_decompressor (d_reader d) (d_area d) ip (d_ip_limit d) (d_peeked d) (d_eof d) (d_scratch d).

Definition exit_snappy_decompressor (d : snappy_decompressor) : snappy_decompressor :=
  set_reader d (source_skip (d_reader d) (d_peeked d)).

(** The loop of [read_uncompressed_length]; the result is the source and [*result], if the length
    could be read. *)
Fixpoint read_length_loop (k : nat) (r : source) (shift result : Z) : option (option (source * Z)) :=
  match k with
  | O => None
  | S k =>
      if 32 <=? shift then Some None
      else
        let '(ip, n) := source_peek r in
        if n =? 0 then Some None
        else
          c ← load8 compressed ip;
          let r := source_skip r 1 in
          let result := Z.lor result (u32 (Z.shiftl (Z.land c 0x7f) shift)) in
          if c <? 128 then Some (Some (r, result)) else read_length_loop k r (shift + 7) result
  end.

Definition read_uncompressed_length (d : snappy_decompressor)
    : option (option (snappy_decompressor * Z)) :=
  res ← read_length_loop 6 (d_reader d) 0 0;
  match res with
  | None => Some None
  | Some (r, result) => Some (Some (set_reader d r, result))
  end.

(** The loop that completes a tag from the reader; [None] in the result leaves the function. *)
Fixpoint stitch (k : nat) (r : source) (scratch : bytes) (nbuf needed : Z)
    : option (source * bytes * option Z) :=
  match k with
  | O => None
  | S k =>
      if nbuf <? needed then
        let '(src, length) := source_peek r in
        if length =? 0 then Some (r, scratch, None)
        else
          let to_add := Z.min (u32 (needed - nbuf)) (u32 length) in
          b ← mload compressed src to_add;
          scratch ← mstore scratch nbuf b;
          stitch k (source_skip r to_add) scratch (nbuf + to_add) needed
      else Some (r, scratch, Some nbuf)
  end.

(** The part of [refill_tag] behind the fetching of a new fragment. *)
Definition refill_scratch (d : snappy_decompressor) (ip : Z) : option (snappy_decompressor * bool) :=
  _ ← check (ip <? d_ip_limit d);
  c ← load8 (area_mem d) ip;
  entry ← char_table !! Z.to_nat c;
  let needed := Z.shiftr entry 11 + 1 in
  _ ← check (needed <=? 5);
  let nbuf := u32 (d_ip_limit d - ip) in
  if nbuf <? needed then
    b ← mload (area_mem d) ip nbuf;
    scratch ← mstore (d_scratch d) 0 b;
    '(r, scratch, res) ← stitch 6 (source_skip (d_reader d) (d_peeked d)) scratch nbuf needed;
    match res with
    | None => Some (mk_decompressor r (d_area d) (d_ip d) (d_ip_limit d) 0 (d_eof d) scratch, false)
    | Some nbuf =>
        _ ← check (nbuf =? needed);
        Some (mk_decompressor r InScratch 0 needed 0 (d_eof d) scratch, true)
    end
  else if nbuf <? 5 then
    b ← mload (area_mem d) ip nbuf;
    scratch ← mstore (d_scratch d) 0 b;
    Some (mk_decompressor (source_skip (d_reader d) (d_peeked d)) InScratch 0 nbuf 0 (d_eof d)
            scratch, true)
  else Some (set_ip d ip, true).

Definition refill_tag (d : snappy_decompressor) : option (snappy_decompressor * bool) :=
  if d_ip d =? d_ip_limit d then
    let r := source_skip (d_reader d) (d_peeked d) in
    let '(ip, n) := source_peek r in
    if n =? 0 then
      Some (mk_decompressor r (d_area d) (d_ip d) (d_ip_limit d) (u32 n) true (d_scratch d), false)
    else
      refill_scratch (mk_decompressor r InSource (d_ip d) (ip + n) (u32 n) (d_eof d) (d_scratch d)) ip
  else refill_scratch d (d_ip d).

(** [MAYBE_REFILL]; [false] leaves the function. *)
Definition maybe_refill (d : snappy_decompressor) (ip : Z)
    : option (snappy_decompressor * Z * bool) :=
  if d_ip_limit d - ip <? 5 then
    '(d, ok) ← refill_tag (set_ip d ip);
    Some (d, d_ip d, ok)
  else Some (d, ip, true).

(** The loop over the fragments of a literal; [None] in the result leaves the function. *)
Fixpoint literal_loop (k : nat) (d : snappy_decompressor) (w : writer) (ip avail len : Z)
    : option (snappy_decompressor * writer * option (Z * Z)) :=
  match k with
  | O => None
  | S k =>
      if avail <? len then
        '(w, ok) ← writer_append w (area_mem d) ip avail;
        if negb (ok : bool) then Some (d, w, None)
        else
          let len := u32 (len - avail) in
          let r := source_skip (d_reader d) (d_peeked d) in
          let '(ip, n) := source_peek r in
          let avail := u32 n in
          if avail =? 0 then
            Some (mk_decompressor r (d_area d) (d_ip d) (d_ip_limit d) avail (d_eof d)
                    (d_scratch d), w, None)
          else
            literal_loop k (mk_decompressor r InSource (d_ip d) (ip + avail) avail (d_eof d)
                              (d_scratch d)) w ip avail len
      else Some (d, w, Some (ip, len))
  end.

(** The two branches of the loop behind the tag [c]; the result is the new [ip], or [None] where
    the function is left. *)
Definition literal_tag (d : snappy_decompressor) (w : writer) (ip c : Z)
    : option (snappy_decompressor * writer * option Z) :=
  let literal_length := Z.shiftr c 2 + 1 in
  '(w, fast) ← writer_try_fast_append w (area_mem d) ip (u32 (d_ip_limit d - ip)) literal_length;
  if (fast : bool) then
    _ ← check (literal_length <? 61);
    Some (d, w, Some (ip + literal_length))
  else
    '(literal_length, ip) ←
      (if 61 <=? literal_length then
         let literal_ll := literal_length - 60 in
         v ← load32 (area_mem d) ip;
         mask ← wordmask !! Z.to_nat literal_ll;
         Some (u32 (Z.land v mask + 1), ip + literal_ll)
       else Some (literal_length, ip));
    let avail := u32 (d_ip_limit d - ip) in
    '(d, w, res) ← literal_loop (S (S (length compressed))) d w ip avail literal_length;
    match res with
    | None => Some (d, w, None)
    | Some (ip, len) =>
        '(w, ok) ← writer_append w (area_mem d) ip len;
        Some (d, w, if (ok : bool) then Some (ip + len) else None)
    end.

Definition copy_tag (d : snappy_decompressor) (w : writer) (ip c : Z)
    : option (snappy_decompressor * writer * option Z) :=
  entry ← char_table !! Z.to_nat c;
  v ← load32 (area_mem d) ip;
  mask ← wordmask !! Z.to_nat (Z.shiftr entry 11);
  let trailer := Z.land v mask in
  let length := Z.land entry 0xff in
  let ip := ip + Z.shiftr entry 11 in
  let copy_offset := Z.land entry 0x700 in
  '(w, ok) ← writer_append_from_self w (u32 (copy_offset + trailer)) length;
  Some (d, w, if (ok : bool) then Some ip else None).

(** The loop of [decompress_all_tags]. *)
Fixpoint decompress_loop (k : nat) (d : snappy_decompressor) (w : writer) (ip : Z)
    : option (snappy_decompressor * writer) :=
  match k with
  | O => None
  | S k =>
      '(d, ip, ok) ← maybe_refill d ip;
      if negb (ok : bool) then Some (d, w)
      else
        c ← load8 (area_mem d) ip;
        let ip := ip + 1 in
        '(d, w, res) ← (if Z.land c 3 =? LITERAL then literal_tag d w ip c else copy_tag d w ip c);
        match res with
        | None => Some (d, w)
        | Some ip =>
            '(d, ip, ok) ← maybe_refill d ip;
            if negb (ok : bool) then Some (d, w) else decompress_loop k d w ip
        end
  end.

Definition decompress_all_tags (d : snappy_decompressor) (w : writer)
    : option (snappy_decompressor * writer) :=
  '(d, ip, ok) ← maybe_refill d (d_ip d);
  if negb (ok : bool) then Some (d, w)
  else decompress_loop (S (length compressed)) d w ip.

Definition EIO : Z := 5.

Definition internal_uncompress (r : source) (w : writer) (max_len : Z) (scratch : bytes)
    : option (writer * Z) :=
  res ← read_uncompressed_length (init_snappy_decompressor r scratch);
  match res with
  | None => Some (w, - EIO)
  | Some (d, uncompressed_len) =>
      if max_len <? uncompressed_len then Some (w, - EIO)
      else
        '(d, w) ← decompress_all_tags d (writer_set_expected_length w uncompressed_len);
        let d := exit_snappy_decompressor d in
        Some (w, if d_eof d && writer_check_length w then 0 else - EIO)
  end.

(** The result is the buffer [uncompressed] and the return value. *)
Definition snappy_uncompress (uncompressed scratch : bytes) : option (bytes * Z) :=
  '(w, ret) ← internal_uncompress (mk_source 0 (mlen compressed)) (mk_writer uncompressed 0 0)
    0xffffffff scratch;
  Some (w_mem w, ret).

End decompress.

(** * Compression *)

Definition hash_bytes (b shift : Z) : Z := Z.shiftr (u32 (b * 0x1e35a7bd)) shift.

Definition hash (m : bytes) (p shift : Z) : option Z := b ← load32 m p; Some (hash_bytes b shift).

Definition snappy_max_compressed_length (source_len : Z) : Z := 32 + source_len + source_len / 6.

(** The loop that writes the length of a long literal; returns [op] and [count]. *)
Fixpoint literal_length_loop (k : nat) (m : bytes) (op n count : Z) : option (bytes * Z * Z) :=
  match k with
  | O => None
  | S k =>
      if 0 <? n then
        m ← store8 m op (Z.land n 0xff); literal_length_loop k m (op + 1) (Z.shiftr n 8) (count + 1)
      else Some (m, op, count)
  end.

(** [input] is the buffer [literal] points into, [m] the one of [op]. *)
Definition emit_literal (input m : bytes) (op literal len : Z) (allow_fast_path : bool)
    : option (bytes * Z) :=
  let n := len - 1 in
  if n <? 60 then
    m ← store8 m op (Z.lor LITERAL (Z.shiftl n 2));
    let op := op + 1 in
    if allow_fast_path && (len <=? 16) then
      m ← copy64 input literal m op;
      m ← copy64 input (literal + 8) m (op + 8);
      Some (m, op + len)
    else
      b ← mload input literal len; m ← mstore m op b; Some (m, op + len)
  else
    '(m, op', count) ← literal_length_loop 5 m (op + 1) n 0;
    _ ← check (1 <=? count);
    _ ← check (count <=? 4);
    m ← store8 m op (Z.lor LITERAL (Z.shiftl (59 + count) 2));
    b ← mload input literal len; m ← mstore m op' b; Some (m, op' + len).

Definition emit_copy_less_than64 (m : bytes) (op offset len : Z) : option (bytes * Z) :=
  _ ← check (len <=? 64);
  _ ← check (4 <=? len);
  _ ← check (offset <? 65536);
  if (len <? 12) && (offset <? 2048) then
    let len_minus_4 := len - 4 in
    _ ← check (len_minus_4 <? 8);
    m ← store8 m op (Z.lor (Z.lor COPY_1_BYTE_OFFSET (Z.shiftl len_minus_4 2))
                       (Z.shiftl (Z.shiftr offset 8) 5));
    m ← store8 m (op + 1) (Z.land offset 0xff);
    Some (m, op + 2)
  else
    m ← store8 m op (Z.lor COPY_2_BYTE_OFFSET (Z.shiftl (len - 1) 2));
    m ← mstore m (op + 1) (le_enc 2 offset);
    Some (m, op + 3).

(** The loop of [emit_copy]. *)
Fixpoint emit_copy_loop (k : nat) (m : bytes) (op offset len : Z) : option (bytes * Z * Z) :=
  match k with
  | O => None
  | S k =>
      if 68 <=? len then
        '(m, op) ← emit_copy_less_than64 m op offset 64; emit_copy_loop k m op offset (len - 64)
      else Some (m, op, len)
  end.

Definition emit_copy (m : bytes) (op offset len : Z) : option (bytes * Z) :=
  '(m, op, len) ← emit_copy_loop (S (Z.to_nat len)) m op offset len;
  '(m, op, len) ←
    (if 64 <? len then
       '(m, op) ← emit_copy_less_than64 m op offset 60; Some (m, op, len - 60)
     else Some (m, op, len));
  emit_copy_less_than64 m op offset len.

Definition kblock_size : Z := Z.shiftl 1 15.
Definition kmax_hash_table_size : Z := Z.shiftl 1 14.

Fixpoint table_size_loop (k : nat) (htsize input_size : Z) : Z :=
  match k with
  | O => htsize
  | S k =>
      if (htsize <? kmax_hash_table_size) && (htsize <? input_size)
      then table_size_loop k (Z.shiftl htsize 1) input_size else htsize
  end.

(** The table and its size. *)
Definition get_hash_table (input_size : Z) : option (list Z * Z) :=
  let htsize := table_size_loop 7 256 input_size in
  _ ← check (0 =? Z.land htsize (htsize - 1));
  _ ← check (htsize <=? kmax_hash_table_size);
  Some (replicate (Z.to_nat htsize) 0, htsize).

(** [find_match_length]: a difference in a block of eight bytes is located by its first bit. *)
Fixpoint match_bytes (k : nat) (input : bytes) (s1 s2 s2_limit matched : Z) : option Z :=
  match k with
  | O => None
  | S k =>
      if s2 <? s2_limit then
        a ← load8 input (s1 + matched); b ← load8 input s2;
        if a =? b then match_bytes k input s1 (s2 + 1) s2_limit (matched + 1) else Some matched
      else Some matched
  end.

Fixpoint match_words (k : nat) (input : bytes) (s1 s2 s2_limit matched : Z) : option Z :=
  match k with
  | O => None
  | S k =>
      if s2 <=? s2_limit - 8 then
        b ← load64 input s2; a ← load64 input (s1 + matched);
        if b =? a then match_words k input s1 (s2 + 8) s2_limit (matched + 8)
        else Some (matched + Z.shiftr (find_lsb_set_non_zero64 (Z.lxor b a)) 3)
      else match_bytes (S k) input s1 s2 s2_limit matched
  end.

Definition find_match_length (input : bytes) (s1 s2 s2_limit : Z) : option Z :=
  _ ← check (s2 <=? s2_limit);
  match_words (S (Z.to_nat (s2_limit - s2))) input s1 s2 s2_limit 0.

Definition get_u32_at_offset (v offset : Z) : Z := u32 (Z.shiftr v (8 * offset)).

Section fragment.

(** The fragment, [shift], and the end of the part in which matches are looked for. *)
Variables (input : bytes) (shift ip_limit : Z).

Definition ip_end : Z := mlen input.

(** [table[i] = v] with 16-bit entries. *)
Definition table_set (table : list Z) (i v : Z) : option (list Z) :=
  if (0 <=? i) && (i <? Z.of_nat (length table))
  then Some (<[Z.to_nat i := wrap_u 16 v]> table) else None.

Definition table_get (table : list Z) (i : Z) : option Z :=
  if 0 <=? i then table !! Z.to_nat i else None.

(** Step 1: the search for a match of four bytes: [ip], [candidate] and the table, or [None] for
    [goto emit_remainder]. *)
Fixpoint scan (k : nat) (next_ip next_hash skip : Z) (table : list Z)
    : option (option (Z * Z * list Z)) :=
  match k with
  | O => None
  | S k =>
      let ip := next_ip in
      let hval := next_hash in
      h ← hash input ip shift;
      _ ← check (hval =? h);
      let next_ip := ip + Z.shiftr skip 5 in
      if ip_limit <? next_ip then Some None
      else
        next_hash ← hash input next_ip shift;
        candidate ← table_get table hval;
        _ ← check (candidate <? ip);
        table ← table_set table hval ip;
        a ← load32 input ip; b ← load32 input candidate;
        if a =? b then Some (Some (ip, candidate, table))
        else scan k next_ip next_hash (u32 (skip + 1)) table
  end.

(** Step 3: copies without literals in between; the result is [None] for [goto emit_remainder],
    else the [next_hash] and the table. *)
Fixpoint copy_loop (k : nat) (ip candidate : Z) (table : list Z) (m : bytes) (op : Z)
    : option (bytes * Z * Z * option (Z * list Z)) :=
  match k with
  | O => None
  | S k =>
      let base := ip in
      len ← find_match_length input (candidate + 4) (ip + 4) ip_end;
      let matched := 4 + len in
      let ip := ip + matched in
      let offset := base - candidate in
      a ← mload input base matched; b ← mload input candidate matched;
      _ ← check (bool_decide (a = b));
      '(m, op) ← emit_copy m op offset matched;
      if ip_limit <=? ip then Some (m, op, ip, None)
      else
        input_bytes ← load64 input (ip - 1);
        table ← table_set table (hash_bytes (get_u32_at_offset input_bytes 0) shift) (ip - 1);
        let cur_hash := hash_bytes (get_u32_at_offset input_bytes 1) shift in
        candidate ← table_get table cur_hash;
        candidate_bytes ← load32 input candidate;
        table ← table_set table cur_hash ip;
        if get_u32_at_offset input_bytes 1 =? candidate_bytes
        then copy_loop k ip candidate table m op
        else Some (m, op, ip, Some (hash_bytes (get_u32_at_offset input_bytes 2) shift, table))
  end.

(** The outer loop: [op] and [next_emit] at [emit_remainder]. *)
Fixpoint fragment_loop (k : nat) (ip next_hash next_emit : Z) (table : list Z) (m : bytes) (op : Z)
    : option (bytes * Z * Z) :=
  match k with
  | O => None
  | S k =>
      _ ← check (next_emit <? ip);
      res ← scan (S (length input)) ip next_hash 32 table;
      match res with
      | None => Some (m, op, next_emit)
      | Some (ip, candidate, table) =>
          _ ← check (next_emit + 16 <=? ip_end);
          '(m, op) ← emit_literal input m op next_emit (ip - next_emit) true;
          '(m, op, ip, next) ← copy_loop (S (length input)) ip candidate table m op;
          match next with
          | None => Some (m, op, ip)
          | Some (next_hash, table) => fragment_loop k (ip + 1) next_hash ip table m op
          end
      end
  end.

End fragment.

Definition kinput_margin_bytes : Z := 15.

Definition compress_fragment (input m : bytes) (op : Z) (table : list Z) (table_size : Z)
    : option (bytes * Z) :=
  let input_size := mlen input in
  _ ← check (input_size <=? kblock_size);
  _ ← check (Z.land table_size (table_size - 1) =? 0);
  let shift := 32 - log2_floor table_size in
  _ ← check (Z.shiftr 0xffffffff shift =? table_size - 1);
  '(m, op, next_emit) ←
    (if kinput_margin_bytes <=? input_size then
       h ← hash input 1 shift;
       fragment_loop input shift (input_size - kinput_margin_bytes) (S (length input)) 1 h 0 table m op
     else Some (m, op, 0));
  if next_emit <? input_size then emit_literal input m op next_emit (input_size - next_emit) false
  else Some (m, op).

(** The loop of [compress] over the blocks: the reader and the sink behind it, or [-EIO].  A peek
    yields all of the input, so that the branch that collects a block in [env->scratch], which is
    never allocated without SG, would be undefined. *)
Fixpoint compress_loop (k : nat) (input : bytes) (N : Z) (reader : source) (s : sink)
    : option (sink * Z) :=
  match k with
  | O => None
  | S k =>
      if 0 <? N then
        let '(fragment, fragment_size) := source_peek reader in
        if fragment_size =? 0 then Some (s, - EIO)
        else
          let num_to_read := Z.min N kblock_size in
          _ ← check (num_to_read <=? fragment_size);
          '(table, table_size) ← get_hash_table num_to_read;
          block ← mload input fragment num_to_read;
          '(m, end_) ← compress_fragment block (k_mem s) (k_dest s) table table_size;
          let s := sink_advance (mk_sink m (k_dest s)) (end_ - k_dest s) in
          compress_loop k input (N - num_to_read) (source_skip reader num_to_read) s
      else Some (s, 0)
  end.

(** [compress] *)
Definition compress_all (input : bytes) (reader : source) (s : sink) : option (sink * Z) :=
  let N := available reader in
  s ← sink_append s (varint_encode32 (u32 N));
  compress_loop (S (length input)) input N reader s.

(** The result is the buffer [compressed], [*compressed_length] and the return value. *)
Definition snappy_compress (input compressed : bytes) : option (bytes * Z * Z) :=
  '(s, err) ← compress_all input (mk_source 0 (mlen input)) (mk_sink compressed 0);
  Some (k_mem s, k_dest s, err).
