(* ===== verification/SnappyFormat.v ===== *)
(** The Snappy format as a reference for src/lib/snappy-c/snappy.c (Snappy.v): compressed data is a
    length and a sequence of items, literals and copies of what has been output before.  Also the
    lemmas about loads and stores that the compressor and the decompressor share. *)
From S2P Require Import Prelude Snappy.

Open Scope Z_scope.

(** * The format *)

Inductive item :=
  | Lit (b : bytes)
  | Copy (offset len : Z).

(** An item is a tag byte, up to four bytes of a number, and the bytes of a literal. *)
Definition item_extra (c : Z) : nat :=
  if Z.land c 3 =? 0 then if Z.shiftr c 2 <? 60 then 0%nat else Z.to_nat (Z.shiftr c 2 - 59)
  else if Z.land c 3 =? 1 then 1%nat else if Z.land c 3 =? 2 then 2%nat else 4%nat.

(** The length of a literal; the largest 32-bit number is not a length. *)
Definition literal_len (c number : Z) : Z :=
  if Z.shiftr c 2 <? 60 then Z.shiftr c 2 + 1 else u32 (number + 1).

Definition copy_len (c : Z) : Z :=
  if Z.land c 3 =? 1 then Z.land (Z.shiftr c 2) 7 + 4 else Z.shiftr c 2 + 1.

Definition copy_offset (c number : Z) : Z :=
  if Z.land c 3 =? 1 then 256 * Z.shiftr c 5 + number else number.

Definition parse_item (b : bytes) : option (item * bytes) :=
  match b with
  | [] => None
  | ch :: b =>
      let c := u8 ch in
      let k := item_extra c in
      if (length b <? k)%nat then None
      else
        let number := le_dec (take k b) in
        let b := drop k b in
        if Z.land c 3 =? 0 then
          let n := literal_len c number in
          if mlen b <? n then None
          else Some (Lit (take (Z.to_nat n) b), drop (Z.to_nat n) b)
        else Some (Copy (copy_offset c number) (copy_len c), b)
  end.

(** Repeats the byte that is [offset] back, [k] times. *)
Fixpoint copy_back (k : nat) (out : bytes) (offset : nat) : bytes :=
  match k with
  | O => out
  | S k =>
      match out !! (length out - offset)%nat with
      | Some c => copy_back k (out ++ [c]) offset
      | None => out
      end
  end.

Definition apply_item (out : bytes) (i : item) : option bytes :=
  match i with
  | Lit b => Some (out ++ b)
  | Copy offset len =>
      if (1 <=? offset) && (offset <=? mlen out)
      then Some (copy_back (Z.to_nat len) out (Z.to_nat offset)) else None
  end.

Fixpoint decode_fuel (k : nat) (out b : bytes) : option bytes :=
  match k, b with
  | _, [] => Some out
  | O, _ => None
  | S k, _ => '(i, b) ← parse_item b; out ← apply_item out i; decode_fuel k out b
  end.

(** The output behind [out] of the items [b]. *)
Definition decode (out b : bytes) : option bytes := decode_fuel (length b) out b.

(** What compressed data stands for. *)
Definition snappy_format (b : bytes) : option bytes :=
  '(len, n) ← varint_parse32_with_limit b;
  out ← decode [] (drop (Z.to_nat n) b);
  if mlen out =? len then Some out else None.

(** * Facts about the format *)

Lemma length_copy_back k out o :
  (1 <= o <= length out)%nat → length (copy_back k out o) = (length out + k)%nat.
Proof.
  revert out. induction k as [|k IH]; intros out Ho; simpl; [lia|].
  destruct (out !! (length out - o)%nat) eqn:Hc.
  - rewrite IH; rewrite length_app; simpl; lia.
  - apply lookup_ge_None in Hc. lia.
Qed.

Lemma mlen_nonneg m : 0 <= mlen m.
Proof. unfold mlen. lia. Qed.

Lemma mlen_app a b : mlen (a ++ b) = mlen a + mlen b.
Proof. unfold mlen. rewrite length_app. lia. Qed.

Lemma parse_item_shorter b i b' : parse_item b = Some (i, b') → (length b' < length b)%nat.
Proof.
  destruct b as [|c b]; [done|]. cbn [parse_item]. case_match; [done|].
  repeat case_match; intros [= _ <-]; rewrite ?length_drop; simpl; lia.
Qed.

Lemma decode_fuel_enough k k' out b :
  (length b <= k)%nat → (length b <= k')%nat → decode_fuel k out b = decode_fuel k' out b.
Proof.
  revert k' out b. induction k as [|k IH]; intros [|k'] out [|c b] Hk Hk'; simpl in Hk, Hk'; try lia; try done.
  cbn [decode_fuel]. destruct (parse_item (c :: b)) as [[i b']|] eqn:Hp; [|done]. simpl.
  apply parse_item_shorter in Hp. simpl in Hp. destruct (apply_item out i); [|done]. simpl.
  apply IH; lia.
Qed.

Lemma decode_nil out : decode out [] = Some out.
Proof. done. Qed.

Lemma decode_step out b i b' :
  parse_item b = Some (i, b') → decode out b = (out' ← apply_item out i; decode out' b').
Proof.
  intros Hp. pose proof (parse_item_shorter _ _ _ Hp) as Hl. unfold decode.
  destruct b as [|c b]; [done|]. cbn [length decode_fuel]. rewrite Hp. cbn [mbind option_bind].
  destruct (apply_item out i); [|done]. cbn [mbind option_bind]. simpl in Hl. apply decode_fuel_enough; lia.
Qed.

Lemma decode_stuck out c b : parse_item (c :: b) = None → decode out (c :: b) = None.
Proof. intros Hp. unfold decode. cbn [length decode_fuel]. by rewrite Hp. Qed.

Lemma apply_item_longer out i out' : apply_item out i = Some out' → mlen out <= mlen out'.
Proof.
  destruct i as [b|o l]; simpl; [intros [= <-]; rewrite mlen_app; pose proof (mlen_nonneg b); lia|].
  case_match; [|done]. bool_simpl. intros [= <-]. unfold mlen in *. rewrite length_copy_back; lia.
Qed.

Lemma decode_longer out b out' : decode out b = Some out' → mlen out <= mlen out'.
Proof.
  remember (length b) as n eqn:Hn. revert out b Hn. induction n as [n IH] using lt_wf_ind.
  intros out [|c b] -> Hd; [injection Hd as <-; lia|].
  destruct (parse_item (c :: b)) as [[i b']|] eqn:Hp; [|by rewrite decode_stuck in Hd].
  rewrite (decode_step _ _ _ _ Hp) in Hd. apply parse_item_shorter in Hp.
  destruct (apply_item out i) as [out1|] eqn:Ha; [|done]. apply apply_item_longer in Ha.
  simpl in Hd. pose proof (IH _ Hp _ _ eq_refl Hd). lia.
Qed.

(** The output of a copy is the only extension in which every byte equals the one [o] before. *)
Lemma copy_back_unique k out o m :
  (1 <= o <= length out)%nat → take (length out) m = out → (length out + k <= length m)%nat →
  (∀ i, (length out <= i < length out + k)%nat → m !! i = m !! (i - o)%nat) →
  take (length out + k) m = copy_back k out o.
Proof.
  revert out. induction k as [|k IH]; intros out Ho Hout Hlen Hper; simpl.
  { by rewrite Nat.add_0_r. }
  assert (out !! (length out - o)%nat = m !! (length out)) as Hc.
  { rewrite Hper by lia. rewrite <-(lookup_take_lt m (length out)) by lia. by rewrite Hout. }
  destruct (lookup_lt_is_Some_2 m (length out)) as [c Hm]; [lia|].
  rewrite Hc, Hm. rewrite <-(IH (out ++ [c])); rewrite ?length_app; simpl.
  - f_equal. lia.
  - lia.
  - rewrite Nat.add_1_r, (take_S_r _ _ _ Hm). by rewrite Hout.
  - lia.
  - intros i Hi. apply Hper. lia.
Qed.

(** * Loads and stores *)

Lemma sub_bytes_length m i n :
  0 <= i → 0 <= n → i + n <= mlen m → length (sub_bytes m i n) = Z.to_nat n.
Proof. unfold sub_bytes, mlen. intros. rewrite length_take, length_drop. lia. Qed.

Lemma sub_bytes_lookup m i n j :
  0 <= i → (j < Z.to_nat n)%nat → sub_bytes m i n !! j = m !! (Z.to_nat i + j)%nat.
Proof. intros. unfold sub_bytes. by rewrite lookup_take_lt, lookup_drop. Qed.

Lemma mload_some m i n : 0 <= i → 0 <= n → i + n <= mlen m → mload m i n = Some (sub_bytes m i n).
Proof.
  intros. unfold mload. rewrite !(proj2 (Z.leb_le _ _)) by lia. done.
Qed.

Lemma mstore_some m i b :
  0 <= i → i + mlen b <= mlen m →
  ∃ m', mstore m i b = Some m' ∧ length m' = length m ∧
    ∀ j, m' !! j = if decide (i <= Z.of_nat j < i + mlen b) then b !! (j - Z.to_nat i)%nat else m !! j.
Proof.
  intros Hi Hb. unfold mstore. rewrite !(proj2 (Z.leb_le _ _)) by lia. eexists. split; [done|].
  unfold mlen in *. split.
  { rewrite !length_app, length_take, length_drop. lia. }
  intros j. case_decide as Hj.
  - rewrite lookup_app_r; rewrite length_take; [|lia]. rewrite lookup_app_l by lia. f_equal. lia.
  - destruct (decide (j < Z.to_nat i)%nat).
    + rewrite lookup_app_l by (rewrite length_take; lia). by rewrite lookup_take_lt by lia.
    + rewrite lookup_app_r; rewrite length_take; [|lia]. rewrite lookup_app_r by lia.
      rewrite lookup_drop. f_equal. lia.
Qed.

(** A store of eight bytes from a buffer that is not the one stored to, or is. *)
Lemma copy64_some src i m op :
  0 <= i → i + 8 <= mlen src → 0 <= op → op + 8 <= mlen m →
  ∃ m', copy64 src i m op = Some m' ∧ length m' = length m ∧
    ∀ j, m' !! j = if decide (op <= Z.of_nat j < op + 8)
                   then src !! (Z.to_nat i + (j - Z.to_nat op))%nat else m !! j.
Proof.
  intros Hi Hs Ho Hm. unfold copy64. rewrite mload_some by lia. cbn [mbind option_bind].
  assert (mlen (sub_bytes src i 8) = 8) as Hl by (unfold mlen; rewrite sub_bytes_length; lia).
  destruct (mstore_some m op (sub_bytes src i 8)) as (m' & -> & Hlen & Hm'); [lia..|].
  exists m'. split_and!; [done..|]. intros j. rewrite Hm', Hl. case_decide; [|done].
  apply sub_bytes_lookup; lia.
Qed.

(** ** Writing at the end of what has been written *)

(** [m'] is [m] with [b] written at [op]; what is behind it may have changed as well. *)
Definition writes (m : bytes) (op : Z) (m' : bytes) (b : bytes) : Prop :=
  length m' = length m ∧ 0 <= op ∧ op + mlen b <= mlen m ∧
  take (Z.to_nat (op + mlen b)) m' = take (Z.to_nat op) m ++ b.

Lemma writes_nil m op : 0 <= op <= mlen m → writes m op m [].
Proof.
  intros. split_and!; [done|lia|unfold mlen at 1; simpl; lia|].
  rewrite app_nil_r. f_equal. unfold mlen. simpl. lia.
Qed.

Lemma writes_app m op m1 b1 m2 b2 :
  writes m op m1 b1 → writes m1 (op + mlen b1) m2 b2 → writes m op m2 (b1 ++ b2).
Proof.
  intros (L1 & O1 & B1 & T1) (L2 & O2 & B2 & T2).
  assert (mlen m1 = mlen m) by (unfold mlen; by rewrite L1).
  split_and!; [congruence|done|rewrite mlen_app; lia|].
  rewrite mlen_app, Z.add_assoc, T2, T1. by rewrite app_assoc.
Qed.

Lemma lookup_writes m op m' b :
  length m' = length m → 0 <= op → op + mlen b <= mlen m →
  (∀ j, (j < Z.to_nat op)%nat → m' !! j = m !! j) →
  (∀ j, (j < length b)%nat → m' !! (Z.to_nat op + j)%nat = b !! j) → writes m op m' b.
Proof.
  intros Hl Ho Hb Hbelow Hin. split_and!; [done..|].
  unfold mlen in *. apply list_eq. intros j.
  destruct (decide (j < Z.to_nat (op + Z.of_nat (length b)))%nat).
  - rewrite lookup_take_lt by lia. destruct (decide (j < Z.to_nat op)%nat).
    + rewrite lookup_app_l by (rewrite length_take; lia). rewrite lookup_take_lt by lia. auto.
    + rewrite lookup_app_r by (rewrite length_take; lia). rewrite length_take.
      rewrite <-Hin by lia. f_equal. lia.
  - rewrite lookup_take_ge by lia. symmetry. apply lookup_ge_None.
    rewrite length_app, length_take. lia.
Qed.

Lemma mstore_writes m op b :
  0 <= op → op + mlen b <= mlen m → ∃ m', mstore m op b = Some m' ∧ writes m op m' b.
Proof.
  intros Ho Hb. destruct (mstore_some m op b Ho Hb) as (m' & Hm & Hl & Hj). exists m'.
  split; [done|]. apply lookup_writes; [done..| |].
  - intros j Hlt. rewrite Hj, decide_False by lia. done.
  - intros j Hlt. rewrite Hj, decide_True by (unfold mlen; lia). f_equal. lia.
Qed.

Lemma store8_writes m op v :
  0 <= op → op < mlen m → ∃ m', store8 m op v = Some m' ∧ writes m op m' [byte_of_Z v].
Proof. intros. apply mstore_writes; [done|]. change (mlen [byte_of_Z v]) with 1. lia. Qed.

(** Sixteen bytes are stored of which only the first [len] count. *)
Lemma copy128_writes src i m op len :
  0 <= i → i + 16 <= mlen src → 0 <= op → op + 16 <= mlen m → 0 <= len <= 16 →
  ∃ m1 m2, copy64 src i m op = Some m1 ∧ copy64 src (i + 8) m1 (op + 8) = Some m2 ∧
    writes m op m2 (sub_bytes src i len).
Proof.
  intros Hi Hs Ho Hm Hl.
  destruct (copy64_some src i m op) as (m1 & H1 & L1 & J1); [lia..|].
  assert (mlen m1 = mlen m) by (unfold mlen; by rewrite L1).
  destruct (copy64_some src (i + 8) m1 (op + 8)) as (m2 & H2 & L2 & J2); [lia..|].
  exists m1, m2. split_and!; [done..|].
  assert (mlen (sub_bytes src i len) = len) as Hsub by (unfold mlen; rewrite sub_bytes_length; lia).
  apply lookup_writes; [congruence|done|lia| |].
  - intros j Hj. rewrite J2, decide_False by lia. rewrite J1, decide_False by lia. done.
  - intros j Hj. assert (Z.of_nat j < len) by (unfold mlen in Hsub; lia).
    rewrite sub_bytes_lookup by lia. rewrite J2. case_decide.
    + f_equal. lia.
    + rewrite J1, decide_True by lia. f_equal. lia.
Qed.
