(* ===== verification/SnappyDecode.v ===== *)
(** The decompressor of Snappy.v implements the format of SnappyFormat.v, on any input and without
    accesses out of bounds. *)
From S2P Require Import Prelude Snappy SnappyFormat.

Open Scope Z_scope.

(** * Tags *)

(** What the lookup table says of a tag. *)
Definition tag_entry_ok (c : Z) : bool :=
  match char_table !! Z.to_nat c, wordmask !! item_extra c with
  | Some e, Some mask =>
      (Z.shiftr e 11 =? Z.of_nat (item_extra c)) && (mask =? Z.ones (8 * Z.of_nat (item_extra c))) &&
      ((Z.land c 3 =? 0) ||
       ((Z.land e 0xff =? copy_len c) && (1 <=? copy_len c) && (copy_len c <=? 64) &&
        (Z.land e 0x700 =? if Z.land c 3 =? 1 then 256 * Z.shiftr c 5 else 0)))
  | _, _ => false
  end.

Lemma tag_entries : forallb (λ n, tag_entry_ok (Z.of_nat n)) (seq 0 256) = true.
Proof. vm_compute. reflexivity. Qed.

Lemma tag_entry c :
  0 <= c < 256 →
  ∃ e, char_table !! Z.to_nat c = Some e ∧ Z.shiftr e 11 = Z.of_nat (item_extra c) ∧
    wordmask !! item_extra c = Some (Z.ones (8 * Z.of_nat (item_extra c))) ∧
    (Z.land c 3 ≠ 0 → Z.land e 0xff = copy_len c ∧ 1 <= copy_len c <= 64 ∧
       Z.land e 0x700 = if Z.land c 3 =? 1 then 256 * Z.shiftr c 5 else 0).
Proof.
  intros Hc. pose proof (proj1 (forallb_forall _ _) tag_entries (Z.to_nat c)) as Hok.
  cbn beta in Hok. rewrite Z2Nat.id in Hok by lia. specialize (Hok ltac:(apply in_seq; lia)).
  unfold tag_entry_ok in Hok. destruct (char_table !! Z.to_nat c) as [e|]; [|done].
  destruct (wordmask !! item_extra c) as [mask|]; [|done]. bool_simpl. subst. exists e.
  split_and!; [done..|]. intros Hne.
  match goal with H : _ || _ = true |- _ => apply orb_prop in H as [H|H] end; bool_simpl; [done|].
  by split_and!.
Qed.

Lemma item_extra_le c : 0 <= c < 256 → (item_extra c <= 4)%nat.
Proof.
  intros Hc. unfold item_extra.
  assert (Z.shiftr c 2 < 64) by (rewrite Z.shiftr_div_pow2 by lia; divlia).
  repeat case_match; lia.
Qed.

Lemma mask_number b k : Z.land (le_dec b) (Z.ones (8 * Z.of_nat k)) = le_dec (take k b).
Proof.
  rewrite Z.land_ones by lia. rewrite Z.pow_mul_r by lia. apply le_dec_mod.
Qed.

(** * Machine arithmetic *)

Lemma u32_small z : 0 <= z < 2 ^ 32 → u32 z = z.
Proof. apply wrap_u_small. Qed.

Lemma u64_small z : 0 <= z < 2 ^ 64 → u64 z = z.
Proof. apply wrap_u_small. Qed.

Lemma space_left_unsigned w : 0 <= w_limit w - w_op w < 2 ^ 32 → u32 (space_left w) = w_limit w - w_op w.
Proof. unfold space_left, wrap_s, wrap_u. intros. divlia. Qed.

Lemma space_left_signed w k :
  0 <= w_limit w - w_op w < 2 ^ 32 → 0 <= k → k <= space_left w → k <= w_limit w - w_op w.
Proof. unfold space_left, wrap_s. intros. divlia. Qed.

(** * The writer *)

(** [out] has been written; [n] bytes are expected, and [size] is the size of the buffer. *)
Record writer_ok (w : writer) (out : bytes) (n size : Z) : Prop := {
  wo_limit : w_limit w = n;
  wo_op : w_op w = mlen out;
  wo_room : mlen out <= n;
  wo_n : n < 2 ^ 32;
  wo_size : mlen (w_mem w) = size;
  wo_fits : n <= size;
  wo_out : take (length out) (w_mem w) = out
}.

(** The result of an operation that appends to [out], if there is room. *)
Definition appends (w : writer) (n size : Z) (res : option (writer * bool)) (out' : bytes) : Prop :=
  if decide (mlen out' <= n)
  then ∃ w', res = Some (w', true) ∧ writer_ok w' out' n size
  else res = Some (w, false).

Lemma writer_ok_writes w out n size m b :
  writer_ok w out n size → writes (w_mem w) (w_op w) m b → mlen (out ++ b) <= n →
  writer_ok (mk_writer m (w_op w + mlen b) (w_limit w)) (out ++ b) n size.
Proof.
  intros [Hl Ho Hr Hn Hs Hf Hout] (Hlen & H1 & H2 & Ht) Hroom. rewrite mlen_app in Hroom.
  split; simpl; [done|rewrite mlen_app; lia|rewrite mlen_app; lia|done|..].
  - unfold mlen in *. lia.
  - done.
  - replace (length (out ++ b)) with (Z.to_nat (w_op w + mlen b)).
    + rewrite Ht, Ho. unfold mlen. by rewrite Nat2Z.id, Hout.
    + rewrite Ho, length_app. unfold mlen. lia.
Qed.

Lemma writer_append_spec w out n size src ip len :
  writer_ok w out n size → 0 <= ip → 0 <= len < 2 ^ 32 → ip + len <= mlen src →
  appends w n size (writer_append w src ip len) (out ++ sub_bytes src ip len).
Proof.
  intros Hw Hip Hlen Hsrc. pose proof Hw as [Hl Ho Hr Hn Hs Hf Hout].
  pose proof (mlen_nonneg out).
  assert (mlen (sub_bytes src ip len) = len) as Hb by (unfold mlen; rewrite sub_bytes_length; lia).
  unfold appends, writer_append. rewrite space_left_unsigned by lia. rewrite mlen_app, Hb.
  case_decide as Hroom.
  - rewrite (proj2 (Z.ltb_ge _ _)) by lia. rewrite mload_some by lia. cbn [mbind option_bind].
    destruct (mstore_writes (w_mem w) (w_op w) (sub_bytes src ip len)) as (m & -> & Hwr); [lia..|].
    cbn [mbind option_bind]. eexists. split; [done|].
    rewrite <-Hb at 1. apply writer_ok_writes; [done..|]. rewrite mlen_app. lia.
  - by rewrite (proj2 (Z.ltb_lt _ _)) by lia.
Qed.

Lemma writer_try_fast_append_spec w out n size src ip avail len :
  writer_ok w out n size → 0 <= ip → 1 <= len → ip + avail <= mlen src →
  writer_try_fast_append w src ip avail len = Some (w, false) ∨
  ∃ w', writer_try_fast_append w src ip avail len = Some (w', true) ∧ len <= 16 ∧ 16 <= avail ∧
    writer_ok w' (out ++ sub_bytes src ip len) n size ∧ mlen out + len <= n.
Proof.
  intros Hw Hip Hlen Hsrc. pose proof Hw as [Hl Ho Hr Hn Hs Hf Hout].
  pose proof (mlen_nonneg out). unfold writer_try_fast_append. case_match eqn:Hfast; [right|by left].
  bool_simpl. assert (16 <= w_limit w - w_op w) by (apply space_left_signed; lia).
  destruct (copy128_writes src ip (w_mem w) (w_op w) len) as (m1 & m2 & -> & Hc2 & Hwr); [lia..|].
  cbn [mbind option_bind]. rewrite Hc2. cbn [mbind option_bind].
  assert (mlen (sub_bytes src ip len) = len) as Hb by (unfold mlen; rewrite sub_bytes_length; lia).
  eexists. split_and!; [done|lia..| |lia].
  rewrite <-Hb at 1. apply writer_ok_writes; [done..|]. rewrite mlen_app. lia.
Qed.

(** * Copies *)

(** [m'] is [m] extended at [op] by [k] bytes, each equal to the one [o] before. *)
Definition extends (m : bytes) (op o k : nat) (m' : bytes) : Prop :=
  length m' = length m ∧ (∀ j, (j < op)%nat → m' !! j = m !! j) ∧
  ∀ i, (op <= i < op + k)%nat → m' !! i = m' !! (i - o)%nat.

Lemma copy_bytes_spec k m (op o : nat) :
  (1 <= o <= op)%nat → (op + k <= length m)%nat →
  ∃ m', copy_bytes k m (Z.of_nat (op - o)) (Z.of_nat op) = Some m' ∧ extends m op o k m'.
Proof.
  revert m op. induction k as [|k IH]; intros m op Ho Hm; cbn [copy_bytes].
  { exists m. split; [done|]. split; [done|]. split; [done|]. intros i Hi. lia. }
  assert (mlen (sub_bytes m (Z.of_nat (op - o)) 1) = 1) as Hone.
  { unfold mlen. rewrite sub_bytes_length; unfold mlen; lia. }
  rewrite mload_some by (unfold mlen; lia). cbn [mbind option_bind].
  destruct (mstore_some m (Z.of_nat op) (sub_bytes m (Z.of_nat (op - o)) 1)) as
    (m1 & -> & Hl1 & Hj1); [unfold mlen in *; lia..|]. cbn [mbind option_bind]. rewrite Hone in Hj1.
  replace (Z.of_nat (op - o) + 1) with (Z.of_nat (S op - o)) by lia.
  replace (Z.of_nat op + 1) with (Z.of_nat (S op)) by lia.
  destruct (IH m1 (S op)) as (m' & Hrun & Hl & Hlow & Hper); [lia|lia|].
  exists m'. split; [done|]. split; [congruence|]. split.
  - intros j Hj. rewrite Hlow by lia. rewrite Hj1, decide_False by lia. done.
  - intros i Hi. destruct (decide (i = op)) as [->|]; [|apply Hper; lia].
    rewrite !Hlow by lia. rewrite !Hj1, decide_True, decide_False by lia.
    rewrite sub_bytes_lookup by lia. f_equal. lia.
Qed.

(** The bytes from [src] to [op] repeat a pattern of [o] bytes. *)
Definition pattern (m0 : bytes) (src o op : nat) (m : bytes) : Prop :=
  length m = length m0 ∧ (∀ j, (j < src + o)%nat → m !! j = m0 !! j) ∧
  ∀ i, (src <= i < op)%nat → m !! i = m0 !! (src + (i - src) mod o)%nat.

Lemma pattern_start m0 src o : (1 <= o)%nat → pattern m0 src o (src + o) m0.
Proof.
  intros Ho. do 2 (split; [done|]). intros i Hi. rewrite Nat.mod_small by lia. f_equal. lia.
Qed.

Lemma pattern_extends m0 src o op len m :
  (1 <= o)%nat → (src + o + len <= op)%nat → pattern m0 src o op m → extends m0 (src + o) o len m.
Proof.
  intros Ho Hlen (Hl & Hlow & Hpat). do 2 (split; [done|]). intros i Hi. rewrite !Hpat by lia.
  f_equal. f_equal. replace (i - src)%nat with (i - o - src + 1 * o)%nat by lia.
  apply Nat.Div0.mod_add.
Qed.

(** A store of eight bytes from [d] bytes before, of which [a] are kept. *)
Lemma pattern_copy64 m0 src o op m d q a :
  (1 <= o)%nat → pattern m0 src o op m → d = (q * o)%nat → (src <= op - d)%nat →
  (a <= 8)%nat → (a <= d <= op)%nat → (src + o <= op)%nat → (op + 8 <= length m)%nat →
  ∃ m', copy64 m (Z.of_nat (op - d)) m (Z.of_nat op) = Some m' ∧ pattern m0 src o (op + a) m'.
Proof.
  intros Ho (Hl & Hlow & Hpat) Hd Hsrc Ha8 Had Hop Hm.
  destruct (copy64_some m (Z.of_nat (op - d)) m (Z.of_nat op)) as (m' & Hrun & Hl' & Hj);
    [unfold mlen; lia..|]. exists m'. split; [done|]. split; [congruence|]. split.
  - intros j Hlt. rewrite Hj, decide_False by lia. auto.
  - intros i Hi. rewrite Hj. case_decide as Hin; [|apply Hpat; lia].
    rewrite Hpat by lia. f_equal. f_equal.
    replace (i - src)%nat with (Z.to_nat (Z.of_nat (op - d)) + (i - Z.to_nat (Z.of_nat op)) - src + q * o)%nat by lia.
    symmetry. apply Nat.Div0.mod_add.
Qed.

(** The distance grows by doubling, so that three rounds are enough. *)
Lemma expand_pattern_spec m0 src o q k m op len :
  (1 <= o)%nat → pattern m0 src o op m → (op = src + q * o)%nat →
  (q = 1 ∧ k = 4 ∨ q = 2 ∧ k = 3 ∨ q = 4 ∧ k = 2 ∨ q = 8 ∧ k = 1)%nat →
  (src + o + 11 <= length m0)%nat →
  ∃ m' op' q', expand_pattern k m (Z.of_nat src) (Z.of_nat op) len
      = Some (m', Z.of_nat op', len - (Z.of_nat op' - Z.of_nat op)) ∧
    pattern m0 src o op' m' ∧ (op <= op')%nat ∧ (op' = src + q' * o)%nat ∧ (8 <= op' - src)%nat.
Proof.
  intros Ho. revert q m op len. induction k as [|k IH]; intros q m op len Hpat Hop Hq Hlen; [lia|].
  cbn [expand_pattern]. destruct (Z.ltb_spec (Z.of_nat op - Z.of_nat src) 8) as [Hlt|Hge].
  - assert (length m = length m0) as Hl by apply Hpat.
    destruct (pattern_copy64 m0 src o op m (q * o) q (q * o)) as (m1 & Hrun & Hpat1);
      [done..|lia|lia|nia|nia|nia|].
    replace (Z.of_nat (op - q * o)) with (Z.of_nat src) in Hrun by lia. rewrite Hrun.
    cbn [mbind option_bind].
    replace (Z.of_nat op + _) with (Z.of_nat (op + q * o)) by lia.
    destruct (IH (2 * q)%nat m1 (op + q * o)%nat (len - (Z.of_nat op - Z.of_nat src))) as
      (m' & op' & q' & -> & ? & ? & ? & ?); [done|lia| |done|].
    { assert (q * o < 8)%nat by lia. assert (q < 8)%nat by nia. lia. }
    exists m', op', q'. split_and!; [|done|lia|done|done]. do 2 f_equal. lia.
  - exists m, op, q. split_and!; [|done|lia|done|lia]. do 2 f_equal. lia.
Qed.

Lemma copy_words_spec m0 src o q k m op (len : Z) :
  (1 <= o)%nat → pattern m0 src o op m → (8 <= q * o <= op)%nat → (src <= op - q * o)%nat →
  (src + o <= op)%nat → Z.of_nat op + len + 7 <= mlen m0 → (Z.to_nat len < k)%nat →
  ∃ m' op', copy_words k m (Z.of_nat (op - q * o)) (Z.of_nat op) len = Some m' ∧
    pattern m0 src o op' m' ∧ Z.of_nat op + len <= Z.of_nat op'.
Proof.
  intros Ho. revert m op len. induction k as [|k IH]; intros m op len Hpat Hq Hsrc Hop Hlen Hk; [lia|].
  cbn [copy_words]. destruct (Z.ltb_spec 0 len); [|exists m, op; split_and!; [done..|lia]].
  assert (length m = length m0) as Hl by apply Hpat. unfold mlen in Hlen.
  destruct (pattern_copy64 m0 src o op m (q * o) q 8) as (m1 & -> & Hpat1); [done|done|done|lia..|].
  cbn [mbind option_bind].
  replace (Z.of_nat (op - q * o) + 8) with (Z.of_nat (op + 8 - q * o)) by lia.
  replace (Z.of_nat op + 8) with (Z.of_nat (op + 8)) by lia.
  destruct (IH m1 (op + 8)%nat (len - 8)) as (m' & op' & -> & ? & ?); [done|lia|lia|lia|unfold mlen; lia|lia|].
  exists m', op'. split_and!; [done..|lia].
Qed.

Lemma incremental_copy_fast_path_spec m (op o : nat) (len : Z) :
  (1 <= o <= op)%nat → 1 <= len → Z.of_nat op + len + 10 <= mlen m →
  ∃ m', incremental_copy_fast_path m (Z.of_nat (op - o)) (Z.of_nat op) len = Some m' ∧
    extends m op o (Z.to_nat len) m'.
Proof.
  intros Ho Hlen Hm. unfold incremental_copy_fast_path.
  remember (op - o)%nat as src eqn:Hsrc. assert (op = src + o)%nat as -> by lia. clear Hsrc.
  destruct (expand_pattern_spec m src o 1 4 m (src + o) len) as
    (m1 & op1 & q & -> & Hpat & Hle & Hop1 & Hd); [lia|apply pattern_start; lia|lia|lia|unfold mlen in Hm; lia|].
  cbn [mbind option_bind].
  destruct (copy_words_spec m src o q (S (Z.to_nat (len - (Z.of_nat op1 - Z.of_nat (src + o)))))
    m1 op1 (len - (Z.of_nat op1 - Z.of_nat (src + o)))) as (m2 & op2 & Hrun & Hpat2 & Hend);
    [lia|done|lia|lia|lia|lia|lia|].
  replace (op1 - q * o)%nat with src in Hrun by lia. rewrite Hrun.
  exists m2. split; [done|]. apply (pattern_extends _ _ _ op2); [lia|lia|done].
Qed.

Lemma writer_ok_extends w out n size m o len :
  writer_ok w out n size → (1 <= o <= length out)%nat → 0 <= len →
  extends (w_mem w) (length out) o (Z.to_nat len) m → mlen out + len <= n →
  writer_ok (mk_writer m (w_op w + len) (w_limit w)) (copy_back (Z.to_nat len) out o) n size.
Proof.
  intros [Hl Ho Hr Hn Hs Hf Hout] Hoff Hlen (Hlm & Hlow & Hper) Hroom.
  assert (mlen (copy_back (Z.to_nat len) out o) = mlen out + len) as Hcb.
  { unfold mlen. rewrite length_copy_back; lia. }
  split; simpl; [done|lia|lia|done| |done|].
  - unfold mlen in *. lia.
  - rewrite length_copy_back by done. apply copy_back_unique; [done| | |done].
    + apply list_eq. intros j. destruct (decide (j < length out)%nat).
      * rewrite lookup_take_lt, Hlow by lia. by rewrite <-Hout, lookup_take_lt by lia.
      * rewrite lookup_take_ge by lia. symmetry. apply lookup_ge_None. lia.
    + unfold mlen in *. lia.
Qed.

(** Two stores of eight bytes, at least eight bytes apart from their source. *)
Lemma copy128_extends m (op o : nat) (len : Z) :
  (8 <= o <= op)%nat → 0 <= len <= 16 → Z.of_nat op + 16 <= mlen m →
  ∃ m1 m2, copy64 m (Z.of_nat op - Z.of_nat o) m (Z.of_nat op) = Some m1 ∧
    copy64 m1 (Z.of_nat op - Z.of_nat o + 8) m1 (Z.of_nat op + 8) = Some m2 ∧
    extends m op o (Z.to_nat len) m2.
Proof.
  intros Ho Hlen Hm.
  destruct (copy64_some m (Z.of_nat op - Z.of_nat o) m (Z.of_nat op)) as (m1 & R1 & L1 & J1); [lia..|].
  assert (mlen m1 = mlen m) by (unfold mlen; by rewrite L1).
  destruct (copy64_some m1 (Z.of_nat op - Z.of_nat o + 8) m1 (Z.of_nat op + 8)) as (m2 & R2 & L2 & J2);
    [lia..|].
  exists m1, m2. split; [done|]. split; [done|]. split; [congruence|]. split.
  - intros j Hj. rewrite J2, decide_False by lia. by rewrite J1, decide_False by lia.
  - intros i Hi. rewrite !J2, (decide_False (P := _ <= Z.of_nat (i - o) < _)) by lia.
    case_decide; [f_equal; lia|]. rewrite !J1, decide_True, decide_False by lia. f_equal. lia.
Qed.

Lemma writer_append_from_self_spec w out n size offset len :
  writer_ok w out n size → 0 <= offset < 2 ^ 32 → 1 <= len <= 64 →
  match apply_item out (Copy offset len) with
  | Some out' => appends w n size (writer_append_from_self w offset len) out'
  | None => writer_append_from_self w offset len = Some (w, false)
  end.
Proof.
  intros Hw Hoff Hlen. pose proof Hw as [Hl Ho Hr Hn Hs Hf Hout]. pose proof (mlen_nonneg out).
  unfold writer_append_from_self, apply_item. rewrite Ho.
  assert ((mlen out <=? u32 (offset - 1)) = negb ((1 <=? offset) && (offset <=? mlen out))) as ->.
  { destruct (Z.leb_spec 1 offset); simpl.
    - rewrite u32_small by lia. destruct (Z.leb_spec offset (mlen out)); simpl;
        [apply Z.leb_gt|apply Z.leb_le]; lia.
    - assert (offset = 0) as -> by lia. apply Z.leb_le. unfold wrap_u. simpl. lia. }
  destruct ((1 <=? offset) && (offset <=? mlen out)) eqn:Hrange; simpl; [|done]. bool_simpl.
  set (o := Z.to_nat offset). assert (1 <= o <= length out)%nat as Hobound by (unfold o, mlen in *; lia).
  assert (Hd : mlen out - offset = mlen out - Z.of_nat o) by (unfold o; lia).
  assert (Hd' : mlen out - Z.of_nat o = Z.of_nat (length out - o)) by (unfold mlen; lia).
  assert (mlen (copy_back (Z.to_nat len) out o) = mlen out + len) as Hcb.
  { unfold mlen. rewrite length_copy_back; lia. }
  unfold appends, kmax_increment_copy_overflow.
  rewrite Hcb, space_left_unsigned, Ho by lia. rewrite u32_small, wrap_s_small by (simpl; lia).
  pose proof (λ m, writer_ok_extends w out n size m o len Hw Hobound ltac:(lia)) as Hext.
  rewrite Ho in Hext. rewrite Hd.
  destruct ((len <=? 16) && (8 <=? offset) && (16 <=? space_left w)) eqn:Hfast;
    [|destruct (len + 10 <=? w_limit w - mlen out) eqn:Hmid;
      [|destruct (w_limit w - mlen out <? len) eqn:Hslow]]; bool_simpl.
  - assert (16 <= w_limit w - w_op w) by (apply space_left_signed; lia).
    rewrite decide_True by lia.
    destruct (copy128_extends (w_mem w) (length out) o len) as (m1 & m2 & R1 & R2 & He);
      [unfold o; lia|lia|unfold mlen in *; lia|].
    change (Z.of_nat (length out)) with (mlen out) in R1, R2. rewrite R1. cbn [mbind option_bind]. rewrite R2. cbn [mbind option_bind].
    eexists. split; [done|]. apply Hext; [done|lia].
  - rewrite decide_True by lia. rewrite Hd'.
    destruct (incremental_copy_fast_path_spec (w_mem w) (length out) o len) as (m & R & He);
      [done|lia|unfold mlen in *; lia|].
    change (Z.of_nat (length out)) with (mlen out) in R. rewrite R. cbn [mbind option_bind]. eexists. split; [done|]. apply Hext; [done|lia].
  - by rewrite decide_False by lia.
  - rewrite decide_True by lia. rewrite Hd'. unfold incremental_copy.
    rewrite (proj2 (Z.ltb_lt _ _)) by lia. cbn [check mbind option_bind].
    destruct (copy_bytes_spec (Z.to_nat len) (w_mem w) (length out) o) as (m & R & He);
      [done|unfold mlen in *; lia|].
    change (Z.of_nat (length out)) with (mlen out) in R. rewrite R. cbn [mbind option_bind]. eexists. split; [done|]. apply Hext; [done|lia].
Qed.

(** * The buffered input *)

Section decompress.
Variable compressed : bytes.
Hypothesis Hsmall : mlen compressed < 2 ^ 32.

(** [R] is what is left of the input: it is in the buffer, and the reader holds nothing else. *)
Record buffered (d : snappy_decompressor) (ip : Z) (R : bytes) : Prop := {
  bf_eof : d_eof d = false;
  bf_scratch : length (d_scratch d) = 5%nat;
  bf_ip : 0 <= ip <= d_ip_limit d;
  bf_limit : d_ip_limit d <= mlen (area_mem compressed d);
  bf_rest : R = sub_bytes (area_mem compressed d) ip (d_ip_limit d - ip);
  bf_peeked : s_left (d_reader d) = d_peeked d;
  bf_left : 0 <= d_peeked d < 2 ^ 32
}.

(** Before the first refill everything is with the reader. *)
Definition fresh (d : snappy_decompressor) (ip : Z) (R : bytes) : Prop :=
  d_eof d = false ∧ length (d_scratch d) = 5%nat ∧ ip = 0 ∧ d_ip_limit d = 0 ∧ d_peeked d = 0 ∧
  0 <= s_ptr (d_reader d) ∧ 0 <= s_left (d_reader d) ∧
  s_ptr (d_reader d) + s_left (d_reader d) = mlen compressed ∧
  R = sub_bytes compressed (s_ptr (d_reader d)) (s_left (d_reader d)).

Lemma area_small d : length (d_scratch d) = 5%nat → mlen (area_mem compressed d) < 2 ^ 32.
Proof. unfold area_mem. destruct (d_area d); [done|]. unfold mlen. intros ->. done. Qed.

Lemma buffered_length d ip R : buffered d ip R → mlen R = d_ip_limit d - ip.
Proof.
  intros [_ Hs Hip Hl -> _ _]. unfold mlen. rewrite sub_bytes_length; lia.
Qed.

Lemma buffered_small d ip R : buffered d ip R → 0 <= d_ip_limit d - ip < 2 ^ 32.
Proof. intros Hb. pose proof (area_small d (bf_scratch _ _ _ Hb)). destruct Hb. lia. Qed.

Lemma sub_bytes_drop m i n k : 0 <= i → 0 <= k → sub_bytes m (i + k) (n - k) = drop (Z.to_nat k) (sub_bytes m i n).
Proof.
  intros Hi Hk. unfold sub_bytes. rewrite skipn_firstn_comm, drop_drop.
  f_equal; [lia|]. f_equal. lia.
Qed.

Lemma sub_bytes_take m i n k : k <= n → sub_bytes m i k = take (Z.to_nat k) (sub_bytes m i n).
Proof. intros Hk. unfold sub_bytes. rewrite take_take. f_equal. lia. Qed.

Lemma buffered_advance d ip R k :
  buffered d ip R → 0 <= k <= mlen R → buffered d (ip + k) (drop (Z.to_nat k) R).
Proof.
  intros Hb Hk. pose proof (buffered_length _ _ _ Hb). destruct Hb as [? ? ? ? -> ? ?].
  split; [done|done|lia|done| |done|done]. rewrite <-sub_bytes_drop by lia. f_equal. lia.
Qed.

(** The next bytes of the buffer are the next ones of the input. *)
Lemma buffered_sub d ip R n :
  buffered d ip R → n <= mlen R → sub_bytes (area_mem compressed d) ip n = take (Z.to_nat n) R.
Proof.
  intros Hb Hn. rewrite (buffered_length _ _ _ Hb) in Hn. rewrite (bf_rest _ _ _ Hb). by apply sub_bytes_take.
Qed.

Lemma le_dec_one c : le_dec [c] = u8 c.
Proof. simpl. lia. Qed.

Lemma buffered_head d ip c R :
  buffered d ip (c :: R) → load8 (area_mem compressed d) ip = Some (u8 c).
Proof.
  intros Hb. pose proof (buffered_length _ _ _ Hb) as Hl. pose proof (mlen_nonneg R).
  unfold mlen in Hl. simpl in Hl. pose proof Hb as [? ? ? ? HR ? ?]. unfold load8.
  rewrite mload_some by lia. cbn [mbind option_bind]. rewrite (buffered_sub d ip (c :: R) 1).
  - simpl. f_equal. lia.
  - exact Hb.
  - unfold mlen. simpl. lia.
Qed.

Lemma source_drained r n : s_left r = n → s_left (source_skip r n) = 0.
Proof. intros <-. simpl. rewrite Z.sub_diag. done. Qed.

(** When fewer than five bytes are left in the buffer, they are moved to [scratch]. *)
Lemma refill_scratch_spec d ip c R :
  buffered d ip (c :: R) →
  ∃ d', refill_scratch compressed d ip = Some (d', bool_decide (item_extra (u8 c) <= length R)%nat) ∧
    d_eof d' = false ∧
    ((item_extra (u8 c) <= length R)%nat →
       buffered d' (d_ip d') (c :: R) ∧ d_ip d' + 5 <= mlen (area_mem compressed d')).
Proof.
  intros Hb. pose proof (buffered_length _ _ _ Hb) as Hlen. pose proof (buffered_small _ _ _ Hb).
  pose proof (mlen_nonneg R). assert (mlen (c :: R) = 1 + mlen R) as HcR by (unfold mlen; simpl; lia).
  pose proof (item_extra_le (u8 c) (u8_range c)) as Hextra.
  destruct (tag_entry (u8 c) (u8_range c)) as (e & He & Hx & _).
  pose proof Hb as [Heof Hscr Hip Hlim HR Hpk Hleft].
  unfold refill_scratch. rewrite (proj2 (Z.ltb_lt ip _)) by lia. cbn [check mbind option_bind].
  rewrite (buffered_head d ip c R Hb). cbn [mbind option_bind]. rewrite He. cbn [mbind option_bind].
  rewrite Hx, (proj2 (Z.leb_le _ 5)) by lia. cbn [check mbind option_bind]. rewrite u32_small by lia.
  assert (source_peek (source_skip (d_reader d) (d_peeked d)) =
    (s_ptr (d_reader d) + d_peeked d, 0)) as Hdry.
  { unfold source_peek. rewrite source_drained by done. done. }
  destruct (Z.ltb_spec (d_ip_limit d - ip) (Z.of_nat (item_extra (u8 c)) + 1)) as [Hlt|Hge].
  - assert (mlen (c :: R) < 5) as Hfew by lia. rewrite mload_some, <-HR by lia.
    cbn [mbind option_bind].
    destruct (mstore_writes (d_scratch d) 0 (c :: R)) as (scr & -> & Hl & _); [lia|unfold mlen in *; lia|].
    cbn [mbind option_bind stitch]. rewrite (proj2 (Z.ltb_lt _ _)) by lia. rewrite Hdry.
    cbn [mbind option_bind Z.eqb].
    rewrite bool_decide_eq_false_2 by (unfold mlen in *; lia). eexists. split_and!; [done..|].
    unfold mlen in *. lia.
  - rewrite bool_decide_eq_true_2 by (unfold mlen in *; lia).
    destruct (Z.ltb_spec (d_ip_limit d - ip) 5) as [Hlt5|Hge5].
    + rewrite mload_some, <-HR by lia. cbn [mbind option_bind].
      destruct (mstore_writes (d_scratch d) 0 (c :: R)) as (scr & -> & Hl & _ & _ & Ht);
        [lia|unfold mlen in *; lia|].
      cbn [mbind option_bind]. eexists. split_and!; [done..|]. intros _.
      assert (mlen scr = 5) as Hscr5 by (unfold mlen; rewrite Hl, Hscr; done).
      split; [split|]; simpl; unfold area_mem; simpl; try done; try lia.
      * unfold sub_bytes. rewrite Z.sub_0_r, drop_0, <-Hlen. rewrite Z.add_0_l in Ht. by rewrite Ht.
      * rewrite Hpk, Z.sub_diag. done.
    + eexists. split_and!; [done..|]. intros _. split; [by split|].
      simpl. unfold area_mem in *. simpl. lia.
Qed.

(** ** Refilling *)

(** What a refill finds: the end of the input, a truncated tag, or a tag that can be read. *)
Definition refilled (res : option (snappy_decompressor * Z * bool)) (R : bytes) : Prop :=
  match R with
  | [] => ∃ d' ip', res = Some (d', ip', false) ∧ d_eof d' = true
  | c :: R =>
      ∃ d' ip', res = Some (d', ip', bool_decide (item_extra (u8 c) <= length R)%nat) ∧
        d_eof d' = false ∧
        ((item_extra (u8 c) <= length R)%nat →
           buffered d' ip' (c :: R) ∧ ip' + 5 <= mlen (area_mem compressed d'))
  end.

Lemma refill_scratch_refilled d ip R :
  buffered d ip R → R ≠ [] →
  refilled ('(d, ok) ← refill_scratch compressed d ip; Some (d, d_ip d, ok)) R.
Proof.
  intros Hb HR. destruct R as [|c R]; [done|].
  destruct (refill_scratch_spec d ip c R Hb) as (d' & -> & He & Hok). simpl. eauto.
Qed.

Lemma buffered_set_ip d ip ip' R : buffered d ip R → buffered (set_ip d ip') ip R.
Proof. intros [? ? ? ? ? ? ?]. by split. Qed.

Lemma maybe_refill_buffered d ip R : buffered d ip R → refilled (maybe_refill compressed d ip) R.
Proof.
  intros Hb. pose proof (buffered_length _ _ _ Hb) as Hlen. unfold maybe_refill.
  destruct (Z.ltb_spec (d_ip_limit d - ip) 5) as [Hlt|Hge].
  - unfold refill_tag. cbn [d_ip set_ip d_ip_limit d_reader d_peeked].
    destruct (Z.eqb_spec ip (d_ip_limit d)) as [Heq|Hne].
    + assert (R = []) as -> by (apply nil_length_inv; unfold mlen in Hlen; lia).
      unfold source_peek. rewrite source_drained by apply Hb. cbn [Z.eqb]. simpl. eauto.
    + apply refill_scratch_refilled; [by apply buffered_set_ip|]. intros ->. unfold mlen in Hlen.
      simpl in Hlen. lia.
  - destruct R as [|c R]; [unfold mlen in Hlen; simpl in Hlen; lia|].
    pose proof (item_extra_le (u8 c) (u8_range c)). unfold mlen in Hlen. simpl in Hlen.
    exists d, ip. rewrite bool_decide_eq_true_2 by lia. split_and!; [done|apply Hb|].
    intros _. split; [done|]. pose proof (bf_limit _ _ _ Hb). lia.
Qed.

Lemma maybe_refill_fresh d ip R : fresh d ip R → refilled (maybe_refill compressed d ip) R.
Proof.
  intros (Heof & Hscr & -> & Hlim & Hpk & Hptr & Hleft & Hsum & HR). unfold maybe_refill.
  rewrite Hlim. simpl (0 - 0 <? 5). cbn match. unfold refill_tag. cbn [d_ip set_ip d_ip_limit].
  rewrite Hlim. cbn [Z.eqb d_reader d_peeked set_ip]. rewrite Hpk.
  assert (source_skip (d_reader d) 0 = d_reader d) as ->.
  { unfold source_skip. rewrite Z.add_0_r, Z.sub_0_r, u64_small by (unfold mlen in *; lia).
    by destruct (d_reader d). }
  unfold source_peek. destruct (Z.eqb_spec (s_left (d_reader d)) 0) as [H0|H0].
  - assert (R = []) as ->; [|simpl; eauto]. rewrite HR, H0. done.
  - rewrite u32_small by lia. apply refill_scratch_refilled.
    + split; unfold area_mem; simpl; try done; try lia. rewrite HR. f_equal. lia.
    + intros ->. assert (length (sub_bytes compressed (s_ptr (d_reader d)) (s_left (d_reader d))) = 0%nat)
        as Hz by (by rewrite <-HR). rewrite sub_bytes_length in Hz by lia. lia.
Qed.

(** ** Items *)

(** The result of a branch: the item is appended to [out] and [R'] is left, or the function is left
    without the end of the input having been reached. *)
Definition item_done (n size : Z) (res : option (snappy_decompressor * writer * option Z))
    (out' : bytes) (R' : bytes) : Prop :=
  ∃ d' w' ip', res = Some (d', w', Some ip') ∧ buffered d' ip' R' ∧ writer_ok w' out' n size.

Definition item_failed (res : option (snappy_decompressor * writer * option Z)) : Prop :=
  ∃ d' w', res = Some (d', w', None) ∧ d_eof d' = false.

Lemma literal_loop_spec k d w ip R out n size len :
  buffered d ip R → writer_ok w out n size → 0 <= len < 2 ^ 32 → (2 <= k)%nat →
  let res := literal_loop compressed k d w ip (u32 (d_ip_limit d - ip)) len in
  if decide (len <= mlen R) then res = Some (d, w, Some (ip, len))
  else ∃ d' w', res = Some (d', w', None) ∧ d_eof d' = false.
Proof.
  intros Hb Hw Hlen Hk res. pose proof (buffered_length _ _ _ Hb) as HR.
  pose proof (buffered_small _ _ _ Hb). destruct k as [|k]; [lia|].
  unfold res. cbn [literal_loop]. rewrite u32_small by lia. case_decide as Hle.
  - by rewrite (proj2 (Z.ltb_ge _ _)) by lia.
  - rewrite (proj2 (Z.ltb_lt _ _)) by lia. pose proof Hb as [Heof _ Hip Hlim _ Hpk _].
    pose proof (writer_append_spec w out n size (area_mem compressed d) ip (d_ip_limit d - ip) Hw
      ltac:(lia) ltac:(lia) ltac:(lia)) as Happ.
    unfold appends in Happ. case_decide.
    + destruct Happ as (w' & -> & _). cbn [mbind option_bind]. simpl negb. cbn match.
      unfold source_peek. rewrite source_drained by done. simpl. eauto.
    + rewrite Happ. simpl. eauto.
Qed.

(** The length of a literal behind its tag. *)
Lemma literal_length_spec d ip R c :
  buffered d ip R → ip + 4 <= mlen (area_mem compressed d) → 0 <= c < 256 → Z.land c 3 = 0 →
  (item_extra c <= length R)%nat →
  (if 61 <=? Z.shiftr c 2 + 1 then
     v ← load32 (area_mem compressed d) ip;
     mask ← wordmask !! Z.to_nat (Z.shiftr c 2 + 1 - 60);
     Some (u32 (Z.land v mask + 1), ip + (Z.shiftr c 2 + 1 - 60))
   else Some (Z.shiftr c 2 + 1, ip))
  = Some (literal_len c (le_dec (take (item_extra c) R)), ip + Z.of_nat (item_extra c)).
Proof.
  intros Hb Hroom Hc Htag Hextra. destruct (tag_entry c Hc) as (e & _ & _ & Hmask & _).
  revert Hextra Hmask. unfold literal_len, item_extra. rewrite (proj2 (Z.eqb_eq _ _) Htag).
  pose proof (bf_ip _ _ _ Hb). pose proof (buffered_length _ _ _ Hb) as HR.
  destruct (Z.ltb_spec (Z.shiftr c 2) 60).
  - intros _ _. rewrite (proj2 (Z.leb_gt _ _)) by lia. do 2 f_equal. lia.
  - intros Hextra Hmask. rewrite (proj2 (Z.leb_le _ _)) by lia. unfold load32.
    assert (Z.shiftr c 2 < 64) by (rewrite Z.shiftr_div_pow2 by lia; divlia).
    rewrite mload_some by lia. cbn [mbind option_bind].
    replace (Z.to_nat (Z.shiftr c 2 + 1 - 60)) with (Z.to_nat (Z.shiftr c 2 - 59)) by lia.
    rewrite Hmask. cbn [mbind option_bind]. rewrite mask_number. do 2 f_equal; [|lia].
    do 3 f_equal. rewrite <-(Nat2Z.id (Z.to_nat _)) at 1. rewrite <-sub_bytes_take by lia.
    rewrite (buffered_sub d ip R) by (try done; unfold mlen in *; lia). f_equal. lia.
Qed.

Lemma literal_len_range c b :
  0 <= c < 256 → Z.land c 3 = 0 → 0 <= literal_len c (le_dec (take (item_extra c) b)) < 2 ^ 32 ∧
  (Z.shiftr c 2 < 60 → literal_len c (le_dec (take (item_extra c) b)) = Z.shiftr c 2 + 1).
Proof.
  intros Hc Htag. unfold literal_len. assert (0 <= Z.shiftr c 2) by (apply Z.shiftr_nonneg; lia).
  split; [|intros ?; by rewrite (proj2 (Z.ltb_lt _ _)) by lia].
  case_match; bool_simpl; [lia|]. unfold wrap_u. divlia.
Qed.

Lemma literal_tag_spec d w ip R out n size c :
  buffered d ip R → ip + 4 <= mlen (area_mem compressed d) → writer_ok w out n size →
  0 <= c < 256 → Z.land c 3 = 0 → (item_extra c <= length R)%nat →
  let len := literal_len c (le_dec (take (item_extra c) R)) in
  let R1 := drop (item_extra c) R in
  if decide (len <= mlen R1 ∧ mlen out + len <= n)
  then item_done n size (literal_tag compressed d w ip c) (out ++ take (Z.to_nat len) R1)
         (drop (Z.to_nat len) R1)
  else item_failed (literal_tag compressed d w ip c).
Proof.
  intros Hb Hroom Hw Hc Htag Hextra len R1. pose proof (buffered_length _ _ _ Hb) as HR.
  pose proof (buffered_small _ _ _ Hb). pose proof Hb as [_ _ Hip Hlim _ _ _].
  destruct (literal_len_range c R Hc Htag) as [Hlen Hshort]. fold len in Hlen, Hshort.
  assert (0 <= Z.shiftr c 2) by (apply Z.shiftr_nonneg; lia).
  unfold literal_tag. rewrite u32_small by lia.
  destruct (writer_try_fast_append_spec w out n size (area_mem compressed d) ip (d_ip_limit d - ip)
    (Z.shiftr c 2 + 1)) as [->|(w' & -> & Hl16 & Hav & Hw' & Hfit)]; [done|lia|lia|lia|..];
    cbn [mbind option_bind].
  - rewrite literal_length_spec with (R := R) by done. cbn [mbind option_bind]. fold len.
    pose proof (buffered_advance d ip R (Z.of_nat (item_extra c)) Hb ltac:(unfold mlen; lia)) as Hb1.
    rewrite Nat2Z.id in Hb1. fold R1 in Hb1. pose proof (buffered_length _ _ _ Hb1) as HR1.
    pose proof (bf_ip _ _ _ Hb1).
    pose proof (literal_loop_spec (S (S (length compressed))) d w _ R1 out n size len Hb1 Hw Hlen
      ltac:(lia)) as Hloop. cbv zeta in Hloop.
    destruct (decide (len <= mlen R1)) as [Hle|Hgt].
    + rewrite Hloop. cbn [mbind option_bind].
      pose proof (writer_append_spec w out n size (area_mem compressed d) _ len Hw
        (proj1 (bf_ip _ _ _ Hb1)) Hlen ltac:(lia)) as Happ.
      unfold appends in Happ. rewrite mlen_app, (buffered_sub d _ R1) in Happ by done.
      assert (mlen (take (Z.to_nat len) R1) = len) as Htl.
      { unfold mlen in *. rewrite length_take. lia. }
      rewrite Htl in Happ. destruct (decide (mlen out + len <= n)) as [Hfit|Hno].
      * rewrite decide_True by done. destruct Happ as (w' & -> & Hw'). cbn [mbind option_bind].
        eexists d, w', _. split_and!; [done| |done]. apply buffered_advance; [done|lia].
      * rewrite decide_False by tauto. rewrite Happ. eexists _, _. split; [done|apply Hb].
    + rewrite decide_False by tauto. destruct Hloop as (d' & w' & -> & ?). by exists d', w'.
  - rewrite (proj2 (Z.ltb_lt _ _)) by lia. cbn [check mbind option_bind].
    assert (item_extra c = 0%nat) as Hz.
    { unfold item_extra. rewrite (proj2 (Z.eqb_eq _ _) Htag). by rewrite (proj2 (Z.ltb_lt _ _)) by lia. }
    assert (R1 = R) as -> by (unfold R1; rewrite Hz; apply drop_0).
    assert (len = Z.shiftr c 2 + 1) as -> by (apply Hshort; lia).
    rewrite decide_True by lia. eexists d, w', _. split; [done|].
    rewrite <-(buffered_sub d ip R) by (try done; lia). split; [|done].
    apply buffered_advance; [done|lia].
Qed.

Lemma copy_tag_spec d w ip R out n size c :
  buffered d ip R → ip + 4 <= mlen (area_mem compressed d) → writer_ok w out n size →
  0 <= c < 256 → Z.land c 3 ≠ 0 → (item_extra c <= length R)%nat →
  match apply_item out (Copy (copy_offset c (le_dec (take (item_extra c) R))) (copy_len c)) with
  | Some out' =>
      if decide (mlen out' <= n)
      then item_done n size (copy_tag compressed d w ip c) out' (drop (item_extra c) R)
      else item_failed (copy_tag compressed d w ip c)
  | None => item_failed (copy_tag compressed d w ip c)
  end.
Proof.
  intros Hb Hroom Hw Hc Htag Hextra. pose proof (item_extra_le c Hc).
  destruct (tag_entry c Hc) as (e & He & Hx & Hmask & Hcopy). destruct (Hcopy Htag) as (Hl & Hl64 & Ho).
  pose proof (bf_ip _ _ _ Hb). pose proof (buffered_length _ _ _ Hb) as HR.
  unfold copy_tag. rewrite He. cbn [mbind option_bind]. unfold load32. rewrite mload_some by lia.
  cbn [mbind option_bind]. rewrite Hx, Nat2Z.id, Hmask. cbn [mbind option_bind].
  rewrite mask_number, Hl, Ho.
  assert (take (item_extra c) (sub_bytes (area_mem compressed d) ip 4) = take (item_extra c) R) as ->.
  { rewrite <-(Nat2Z.id (item_extra c)), <-sub_bytes_take by lia.
    rewrite (buffered_sub d ip R) by (try done; unfold mlen; lia). done. }
  set (number := le_dec (take (item_extra c) R)).
  assert (0 <= number < 256 ^ Z.of_nat (item_extra c)) as Hnum.
  { pose proof (le_dec_bound (take (item_extra c) R)) as Hbd. by rewrite length_take, Nat.min_l in Hbd by lia. }
  assert (u32 ((if Z.land c 3 =? 1 then 256 * Z.shiftr c 5 else 0) + number) = copy_offset c number ∧
    0 <= copy_offset c number < 2 ^ 32) as [-> Hoff].
  { unfold copy_offset. unfold item_extra in Hnum. rewrite (proj2 (Z.eqb_neq _ _) Htag) in Hnum.
    assert (0 <= Z.shiftr c 5 < 8) by (rewrite Z.shiftr_div_pow2 by lia; divlia).
    repeat case_match; simpl in Hnum; rewrite u32_small; lia. }
  pose proof (writer_append_from_self_spec w out n size (copy_offset c number) (copy_len c) Hw Hoff Hl64) as Happ.
  destruct (apply_item out _) as [out'|].
  - unfold appends in Happ. case_decide.
    + destruct Happ as (w' & -> & Hw'). cbn [mbind option_bind]. eexists d, w', _.
      split; [done|]. split; [|done].
      pose proof (buffered_advance d ip R (Z.of_nat (item_extra c)) Hb ltac:(unfold mlen; lia)) as Hb1.
      by rewrite Nat2Z.id in Hb1.
    + rewrite Happ. eexists _, _. split; [done|apply Hb].
  - rewrite Happ. eexists _, _. split; [done|apply Hb].
Qed.

(** ** The loop *)

(** When the function is left at the end of the input, all of it has been decoded; otherwise the
    input is malformed or stands for more than was expected. *)
Definition finished (res : option (snappy_decompressor * writer)) (out R : bytes) (n size : Z) : Prop :=
  ∃ d' w', res = Some (d', w') ∧
    if d_eof d' then ∃ out', decode out R = Some out' ∧ writer_ok w' out' n size
    else ∀ out', decode out R = Some out' → n < mlen out'.

Lemma parse_truncated c R : (length R < item_extra (u8 c))%nat → parse_item (c :: R) = None.
Proof. intros Hl. cbn [parse_item]. by rewrite (proj2 (Nat.ltb_lt _ _)). Qed.

(** One tag, and the rest of the input behind it. *)
Lemma tag_step d w ip c R out n size :
  buffered d ip (c :: R) → ip + 5 <= mlen (area_mem compressed d) → writer_ok w out n size →
  (item_extra (u8 c) <= length R)%nat →
  let res := if Z.land (u8 c) 3 =? LITERAL then literal_tag compressed d w (ip + 1) (u8 c)
             else copy_tag compressed d w (ip + 1) (u8 c) in
  (∃ i out' R', parse_item (c :: R) = Some (i, R') ∧ apply_item out i = Some out' ∧
     item_done n size res out' R') ∨
  item_failed res ∧ ∀ out', decode out (c :: R) = Some out' → n < mlen out'.
Proof.
  intros Hb Hroom Hw Hextra res. pose proof (mlen_nonneg R).
  assert (mlen (c :: R) = 1 + mlen R) as HcR by (unfold mlen; simpl; lia).
  pose proof (buffered_advance d ip (c :: R) 1 Hb ltac:(lia)) as Hb1. change (drop _ _) with R in Hb1.
  pose proof (u8_range c) as Hc. unfold res, LITERAL. destruct (Z.eqb_spec (Z.land (u8 c) 3) 0) as [Ht|Ht].
  - pose proof (literal_tag_spec d w (ip + 1) R out n size (u8 c) Hb1 ltac:(lia) Hw Hc Ht Hextra) as Hlit.
    cbv zeta in Hlit. set (len := literal_len _ _) in Hlit. set (R1 := drop _ R) in Hlit.
    destruct (literal_len_range (u8 c) R Hc Ht) as [Hlen _]. fold len in Hlen.
    assert (parse_item (c :: R) = if mlen R1 <? len then None
      else Some (Lit (take (Z.to_nat len) R1), drop (Z.to_nat len) R1)) as Hp.
    { cbn [parse_item]. rewrite (proj2 (Nat.ltb_ge _ _)) by lia. by rewrite (proj2 (Z.eqb_eq _ _) Ht). }
    destruct (Z.ltb_spec (mlen R1) len).
    + right. rewrite decide_False in Hlit by lia. split; [done|]. intros out'. by rewrite decode_stuck.
    + assert (mlen (take (Z.to_nat len) R1) = len) as Htl by (unfold mlen in *; rewrite length_take; lia).
      case_decide as Hfit; [left; eexists _, _, _; split; [done|]; by split|].
      right. split; [done|]. intros out'. rewrite (decode_step _ _ _ _ Hp). simpl.
      intros Hd%decode_longer. rewrite mlen_app in Hd. lia.
  - pose proof (copy_tag_spec d w (ip + 1) R out n size (u8 c) Hb1 ltac:(lia) Hw Hc Ht Hextra) as Hcp.
    assert (parse_item (c :: R) = Some (Copy (copy_offset (u8 c) (le_dec (take (item_extra (u8 c)) R)))
      (copy_len (u8 c)), drop (item_extra (u8 c)) R)) as Hp.
    { cbn [parse_item]. rewrite (proj2 (Nat.ltb_ge _ _)) by lia. by rewrite (proj2 (Z.eqb_neq _ _) Ht). }
    destruct (apply_item out _) as [out1|] eqn:Ha.
    + case_decide; [left; eexists _, _, _; split; [done|]; by split|]. right. split; [done|].
      intros out'. rewrite (decode_step _ _ _ _ Hp), Ha. simpl. intros Hd%decode_longer. lia.
    + right. split; [done|]. intros out'. by rewrite (decode_step _ _ _ _ Hp), Ha.
Qed.

Lemma refilled_end d' w ip R out n size :
  refilled (Some (d', ip, false)) R → writer_ok w out n size → finished (Some (d', w)) out R n size.
Proof.
  intros Hr Hw. exists d', w. split; [done|]. destruct R as [|c R].
  - destruct Hr as (? & ? & [= <- <-] & ->). by exists out.
  - destruct Hr as (? & ? & [= <- <- Hex] & -> & _). symmetry in Hex. apply bool_decide_eq_false in Hex.
    intros out'. rewrite decode_stuck; [done|]. apply parse_truncated. lia.
Qed.

Lemma decompress_loop_spec k d w ip R out n size :
  refilled (maybe_refill compressed d ip) R → writer_ok w out n size → (length R < k)%nat →
  finished (decompress_loop compressed k d w ip) out R n size.
Proof.
  revert d w ip R out. induction k as [|k IH]; intros d w ip R out Hr Hw Hk; [lia|].
  cbn [decompress_loop]. destruct (maybe_refill compressed d ip) as [[[d1 ip1] ok]|] eqn:Hm;
    [|destruct R; simpl in Hr; naive_solver]. cbn [mbind option_bind].
  destruct ok; [|by eapply refilled_end]. simpl negb. cbn match.
  destruct R as [|c R]; [destruct Hr as (? & ? & [=] & _)|].
  destruct Hr as (? & ? & [= <- <- Hex] & _ & Hok). symmetry in Hex. apply bool_decide_eq_true in Hex.
  destruct (Hok Hex) as [Hb Hroom]. rewrite (buffered_head d1 ip1 c R Hb). cbn [mbind option_bind].
  destruct (tag_step d1 w ip1 c R out n size Hb Hroom Hw Hex) as
    [(i & out1 & R1 & Hp & Ha & d2 & w2 & ip2 & -> & Hb2 & Hw2)|[(d2 & w2 & -> & Heof) Hbad]];
    cbn [mbind option_bind]; [|exists d2, w2; by rewrite Heof].
  assert (∀ res, finished res out1 R1 n size → finished res out (c :: R) n size) as Hstep.
  { intros res (d' & w' & -> & Hf). exists d', w'. split; [done|].
    rewrite (decode_step _ _ _ _ Hp), Ha. done. }
  apply Hstep. pose proof (maybe_refill_buffered d2 ip2 R1 Hb2) as Hr2.
  pose proof (parse_item_shorter _ _ _ Hp) as Hsh. simpl in Hsh, Hk.
  destruct (maybe_refill compressed d2 ip2) as [[[d3 ip3] ok]|] eqn:Hm2;
    [|destruct R1; simpl in Hr2; naive_solver]. cbn [mbind option_bind].
  destruct ok; [|by eapply refilled_end]. simpl negb. cbn match.
  apply IH; [|done|lia]. destruct R1 as [|c1 R1]; [destruct Hr2 as (? & ? & [=] & _)|].
  destruct Hr2 as (? & ? & [= <- <- Hex2] & _ & Hok2). symmetry in Hex2. apply bool_decide_eq_true in Hex2.
  apply maybe_refill_buffered. by apply Hok2.
Qed.

End decompress.

(** * The length *)

Lemma lor_bound a b k : 0 <= a < 2 ^ k → 0 <= b < 2 ^ k → 0 <= Z.lor a b < 2 ^ k.
Proof.
  intros Ha Hb. split; [apply Z.lor_nonneg; lia|].
  destruct (decide (Z.lor a b = 0)) as [->|Hne]; [lia|].
  assert (0 < Z.lor a b) by (pose proof (proj2 (Z.lor_nonneg a b)); lia).
  assert (∀ x, 0 <= x < 2 ^ k → 0 < x → Z.log2 x < k) as Hlog.
  { intros x Hx Hpos. apply Z.log2_lt_pow2; lia. }
  apply Z.log2_lt_pow2; [done|]. rewrite Z.log2_lor by lia.
  assert (0 < k).
  { destruct (decide (0 < k)); [done|]. exfalso. assert (2 ^ k <= 1).
    { destruct (decide (k = 0)) as [->|]; [done|]. rewrite Z.pow_neg_r by lia. lia. }
    assert (a = 0) as -> by lia. assert (b = 0) as -> by lia. done. }
  apply Z.max_lub_lt; [destruct (decide (a = 0)) as [->|]|destruct (decide (b = 0)) as [->|]];
    try (apply Hlog; lia); simpl; lia.
Qed.

Lemma u32_range z : 0 <= u32 z < 2 ^ 32.
Proof. apply Z.mod_pos_bound. lia. Qed.

Lemma varint_groups_range k b shift result n v n1 :
  varint_groups k b shift result n = Some (v, n1) → 0 <= result < 2 ^ 32 →
  0 <= v < 2 ^ 32 ∧ n <= n1 <= n + mlen b.
Proof.
  revert b shift result n. induction k as [|k IH]; intros [|c b] shift result n; [done..|].
  cbn [varint_groups]. intros Hv Hr. assert (mlen (c :: b) = 1 + mlen b) as Hl by (unfold mlen; simpl; lia).
  pose proof (mlen_nonneg b).
  pose proof (lor_bound _ _ 32 Hr (u32_range (Z.shiftl (Z.land (u8 c) 127) shift))) as Hr'.
  revert Hv. case_match; [intros [= <- <-]; lia|]. intros Hv.
  destruct (IH _ _ _ _ Hv Hr') as [? ?]. lia.
Qed.

(** The decompressor reads the same length. *)
Lemma read_length_loop_groups compressed k ptr shift result n v n1 :
  varint_groups k (drop ptr compressed) shift result n = Some (v, n1) →
  (k <= 5)%nat → shift = 7 * (5 - Z.of_nat k) → mlen compressed < 2 ^ 32 → (ptr <= length compressed)%nat →
  read_length_loop compressed (S k) (mk_source (Z.of_nat ptr) (mlen compressed - Z.of_nat ptr)) shift result
  = Some (Some (mk_source (Z.of_nat ptr + (n1 - n)) (mlen compressed - Z.of_nat ptr - (n1 - n)), v)).
Proof.
  intros Hv Hk Hshift Hsmall Hptr. revert ptr shift result n Hv Hk Hshift Hptr.
  induction k as [|k IH]; intros ptr shift result n Hv Hk Hshift Hptr; [by destruct (drop ptr compressed)|].
  destruct (drop ptr compressed) as [|c b] eqn:Hd; [done|]. cbn [varint_groups] in Hv.
  assert (compressed !! ptr = Some c) as Hc.
  { rewrite <-(Nat.add_0_r ptr), <-lookup_drop, Hd. done. }
  pose proof (lookup_lt_Some _ _ _ Hc) as Hlt.
  remember (S k) as k1 eqn:Hk1. cbn [read_length_loop]. rewrite (proj2 (Z.leb_gt _ _)) by lia. unfold source_peek. cbn [s_left s_ptr].
  rewrite (proj2 (Z.eqb_neq _ 0)) by (unfold mlen; lia). unfold load8.
  rewrite mload_some by (unfold mlen; lia). cbn [mbind option_bind].
  assert (sub_bytes compressed (Z.of_nat ptr) 1 = [c]) as ->.
  { unfold sub_bytes. rewrite Nat2Z.id, Hd. done. }
  rewrite le_dec_one. unfold source_skip. cbn [s_left s_ptr].
  rewrite u64_small by (unfold mlen in *; lia).
  change 0x7f with 127. set (result' := Z.lor result _) in *.
  destruct (Z.ltb_spec (u8 c) (if (k =? 0)%nat then 16 else 128)) as [Hb|Hb].
  - injection Hv as <- <-. rewrite (proj2 (Z.ltb_lt _ 128)) by (destruct (k =? 0)%nat; lia).
    do 4 f_equal; lia.
  - destruct (Nat.eqb_spec k 0) as [->|Hk0]; [by destruct b|]. rewrite (proj2 (Z.ltb_ge _ 128)) by lia.
    replace (Z.of_nat ptr + 1) with (Z.of_nat (S ptr)) by lia.
    replace (mlen compressed - Z.of_nat ptr - 1) with (mlen compressed - Z.of_nat (S ptr)) by lia.
    assert (drop (S ptr) compressed = b) as Hb'.
    { replace (S ptr) with (ptr + 1)%nat by lia. rewrite <-drop_drop, Hd. done. }
    subst k1. rewrite (IH (S ptr) (shift + 7) result' (n + 1)); [|by rewrite Hb'|lia..].
    do 4 f_equal; lia.
Qed.

(** * The decompressor *)

Lemma uncompress_run compressed uncompressed scratch n k :
  mlen compressed < 2 ^ 32 → length scratch = 5%nat →
  varint_parse32_with_limit compressed = Some (n, k) → n <= mlen uncompressed →
  ∃ m ret, snappy_uncompress compressed uncompressed scratch = Some (m, ret) ∧
    match snappy_format compressed with
    | Some out => ret = 0 ∧ mlen m = mlen uncompressed ∧ take (Z.to_nat n) m = out
    | None => ret = - EIO
    end.
Proof.
  intros Hsmall Hscr Hlen Hbuf. unfold snappy_uncompress, internal_uncompress, read_uncompressed_length.
  pose proof (varint_groups_range _ _ _ _ _ _ _ Hlen ltac:(lia)) as [Hn Hk].
  pose proof (read_length_loop_groups compressed 5 0 0 0 0 n k) as Hread.
  change (Z.of_nat 0) with 0 in Hread. rewrite drop_0, !Z.sub_0_r, Z.add_0_l in Hread. cbn [d_reader init_snappy_decompressor].
  rewrite Hread by (try done; lia). cbn [mbind option_bind].
  rewrite (proj2 (Z.ltb_ge _ _)) by lia.
  set (d := set_reader _ _). set (w := writer_set_expected_length _ _).
  set (R := drop (Z.to_nat k) compressed).
  assert (refilled compressed (maybe_refill compressed d (d_ip d)) R) as Hr.
  { apply maybe_refill_fresh; [done|]. unfold fresh. cbn [d set_reader d_eof d_scratch d_ip d_ip_limit
      d_peeked d_reader s_ptr s_left init_snappy_decompressor]. split_and!; try done; try lia.
    unfold sub_bytes, R. symmetry. apply take_ge. rewrite length_drop. unfold mlen. lia. }
  assert (writer_ok w [] n (mlen uncompressed)) as Hw.
  { split; simpl; try done; try lia. unfold mlen. simpl. lia. }
  assert (finished (decompress_all_tags compressed d w) [] R n (mlen uncompressed)) as
    (d' & w' & Hrun & Hfin).
  { unfold decompress_all_tags. destruct (maybe_refill compressed d (d_ip d)) as [[[d1 ip1] ok]|] eqn:Hm;
      [|destruct R; simpl in Hr; naive_solver]. cbn [mbind option_bind].
    destruct ok; [|by eapply refilled_end]. simpl negb. cbn match.
    apply decompress_loop_spec; [done| |done|]; [|unfold R; rewrite length_drop; lia].
    destruct R as [|c R]; [destruct Hr as (? & ? & [=] & _)|].
    destruct Hr as (? & ? & [= <- <- Hex] & _ & Hok). symmetry in Hex. apply bool_decide_eq_true in Hex.
    apply maybe_refill_buffered; [done|]. by apply Hok. }
  rewrite Hrun. cbn [mbind option_bind]. eexists _, _. split; [done|].
  unfold snappy_format. rewrite Hlen. cbn [mbind option_bind]. fold R.
  unfold exit_snappy_decompressor, set_reader. cbn [d_eof].
  destruct (d_eof d').
  - destruct Hfin as (out & -> & [Hl Ho Hroom _ Hs _ Hout]). cbn [mbind option_bind].
    unfold writer_check_length. rewrite Ho, Hl. destruct (Z.eqb_spec (mlen out) n) as [He|He]; [|done].
    simpl. split; [done|]. split; [lia|]. rewrite <-Hout. f_equal. rewrite <-He. unfold mlen. lia.
  - destruct (decode [] R) as [out|]; [|done]. cbn [mbind option_bind]. specialize (Hfin out eq_refl).
    by rewrite (proj2 (Z.eqb_neq _ _)) by lia.
Qed.
