(* ===== verification/SnappyEmit.v ===== *)
(** What the compressor of Snappy.v emits, a length, literals and copies, is what the format of
    SnappyFormat.v reads. *)
From S2P Require Import Prelude Snappy SnappyFormat.

Open Scope Z_scope.

(** * Emitted bytes *)

(** Decoding the bytes [e] turns the output [o1] into [o2]. *)
Definition emits (e o1 o2 : bytes) : Prop := ∀ rest, decode o1 (e ++ rest) = decode o2 rest.

Lemma emits_nil o : emits [] o o.
Proof. by intros rest. Qed.

Lemma emits_app e1 e2 o1 o2 o3 : emits e1 o1 o2 → emits e2 o2 o3 → emits (e1 ++ e2) o1 o3.
Proof. intros H1 H2 rest. rewrite <-app_assoc. by rewrite H1, H2. Qed.

Lemma emits_item e i o1 o2 :
  (∀ rest, parse_item (e ++ rest) = Some (i, rest)) → apply_item o1 i = Some o2 → emits e o1 o2.
Proof. intros Hp Ha rest. rewrite (decode_step _ _ _ _ (Hp rest)), Ha. done. Qed.

Lemma copy_back_add a b out o :
  (1 <= o <= length out)%nat → copy_back (a + b) out o = copy_back b (copy_back a out o) o.
Proof.
  revert out. induction a as [|a IH]; intros out Ho; simpl; [done|].
  destruct (lookup_lt_is_Some_2 out (length out - o)%nat) as [c ->]; [lia|].
  apply IH. rewrite length_app. simpl. lia.
Qed.

(** ** Reading back what [writes] says *)

Lemma writes_lookup m op m' b :
  writes m op m' b →
  (∀ j, (j < Z.to_nat op)%nat → m' !! j = m !! j) ∧
  (∀ j, (j < length b)%nat → m' !! (Z.to_nat op + j)%nat = b !! j).
Proof.
  intros (Hl & Ho & Hb & Ht). unfold mlen in *. split; intros j Hj.
  - rewrite <-(lookup_take_lt m' (Z.to_nat (op + Z.of_nat (length b)))) by lia.
    rewrite Ht, lookup_app_l by (rewrite length_take; lia). by rewrite lookup_take_lt.
  - rewrite <-(lookup_take_lt m' (Z.to_nat (op + Z.of_nat (length b)))) by lia.
    rewrite Ht, lookup_app_r by (rewrite length_take; lia). f_equal. rewrite length_take. lia.
Qed.

(** The byte in front of what has been written is filled in later. *)
Lemma writes_fill m op m1 b v :
  0 <= op → op + 1 + mlen b <= mlen m → writes m (op + 1) m1 b →
  ∃ m2, store8 m1 op v = Some m2 ∧ writes m op m2 (byte_of_Z v :: b).
Proof.
  intros Ho Hb Hw. destruct (writes_lookup _ _ _ _ Hw) as [Hlow Hin]. destruct Hw as (Hl & _).
  assert (mlen m1 = mlen m) as Hm1 by (unfold mlen; by rewrite Hl).
  pose proof (mlen_nonneg b). unfold store8.
  destruct (mstore_some m1 op [byte_of_Z v]) as (m2 & Hrun & Hl2 & Hj);
    [done|change (mlen [byte_of_Z v]) with 1; lia|]. change (mlen [byte_of_Z v]) with 1 in Hj.
  exists m2. split; [done|]. apply lookup_writes; [congruence|done| | |].
  - unfold mlen in *. simpl. lia.
  - intros j Hlt. rewrite Hj, decide_False by lia. apply Hlow. lia.
  - intros [|j] Hlt; rewrite Hj.
    + rewrite decide_True by lia. simpl. by replace (Z.to_nat op + 0 - Z.to_nat op)%nat with 0%nat by lia.
    + rewrite decide_False by lia. simpl in *. rewrite <-Hin by lia. f_equal. lia.
Qed.

(** * Literals *)

(** Bit operations on bytes, checked on all of them. *)
Lemma all_bytes (P : Z → bool) n x :
  forallb (λ k, P (Z.of_nat k)) (seq 0 n) = true → 0 <= x < Z.of_nat n → P x = true.
Proof.
  intros Hall Hx. pose proof (proj1 (forallb_forall _ _) Hall (Z.to_nat x)) as Hok. cbn beta in Hok.
  rewrite Z2Nat.id in Hok by lia. apply Hok. apply in_seq. lia.
Qed.

Definition literal_cost (len : Z) : Z :=
  len + (if len <=? 60 then 1 else if len <=? 256 then 2 else 3).

Lemma u8_byte_small v : 0 <= v < 256 → u8 (byte_of_Z v) = v.
Proof. intros Hv. rewrite u8_byte_of_Z. by apply Z.mod_small. Qed.

(** A literal tag, with the number of bytes that follow. *)
Definition literal_tag_ok (n : Z) : bool :=
  let c := Z.lor LITERAL (Z.shiftl n 2) in
  (c <? 256) && (0 <=? c) && (Z.land c 3 =? 0) && (Z.shiftr c 2 =? n).

Lemma literal_tag_bits n :
  0 <= n < 64 → let c := Z.lor LITERAL (Z.shiftl n 2) in
  0 <= c < 256 ∧ Z.land c 3 = 0 ∧ Z.shiftr c 2 = n.
Proof.
  intros Hn c. pose proof (all_bytes literal_tag_ok 64 n ltac:(vm_compute; reflexivity) Hn) as Hok.
  unfold literal_tag_ok in Hok. bool_simpl. done.
Qed.

Lemma emits_short_literal out b :
  1 <= mlen b <= 60 → emits (byte_of_Z (Z.lor LITERAL (Z.shiftl (mlen b - 1) 2)) :: b) out (out ++ b).
Proof.
  intros Hb. destruct (literal_tag_bits (mlen b - 1)) as (Hc & Ht & Hs); [lia|].
  apply (emits_item _ (Lit b)); [|done]. intros rest. cbn [app parse_item]. rewrite u8_byte_small by done.
  unfold item_extra, literal_len. rewrite Ht, Hs, (proj2 (Z.ltb_lt _ 60)) by lia. cbn [Z.eqb].
  simpl (_ <? 0)%nat. cbn match. rewrite drop_0, mlen_app, Z.sub_add.
  pose proof (mlen_nonneg rest). rewrite (proj2 (Z.ltb_ge _ _)) by lia. unfold mlen.
  by rewrite Nat2Z.id, take_app_length, drop_app_length.
Qed.

Lemma emits_long_literal out b num :
  (1 <= length num <= 4)%nat → le_dec num = mlen b - 1 → mlen b < 2 ^ 32 →
  emits (byte_of_Z (Z.lor LITERAL (Z.shiftl (59 + Z.of_nat (length num)) 2)) :: num ++ b) out (out ++ b).
Proof.
  intros Hnum Hle Hb. destruct (literal_tag_bits (59 + Z.of_nat (length num))) as (Hc & Ht & Hs); [lia|].
  apply (emits_item _ (Lit b)); [|done]. intros rest. cbn [app parse_item]. rewrite u8_byte_small by done.
  unfold item_extra, literal_len. rewrite Ht, Hs, (proj2 (Z.ltb_ge _ 60)) by lia. cbn [Z.eqb].
  replace (Z.to_nat _) with (length num) by lia. rewrite <-app_assoc, take_app_length, drop_app_length.
  rewrite length_app, (proj2 (Nat.ltb_ge _ _)) by lia.
  pose proof (le_dec_bound num). pose proof (mlen_nonneg rest).
  rewrite Hle, Z.sub_add. unfold wrap_u. rewrite Z.mod_small by lia.
  rewrite mlen_app, (proj2 (Z.ltb_ge _ _)) by lia. unfold mlen.
  by rewrite Nat2Z.id, take_app_length, drop_app_length.
Qed.

(** The bytes of the length, least significant first. *)
Lemma literal_length_loop_spec m op n :
  0 <= op → 1 <= n < 65536 → op + 2 <= mlen m →
  ∃ m' num, literal_length_loop 5 m op n 0
      = Some (m', op + mlen num, Z.of_nat (length num)) ∧
    writes m op m' num ∧ le_dec num = n ∧ length num = (if (n <? 256)%Z then 1 else 2)%nat.
Proof.
  intros Ho Hn Hm. cbn [literal_length_loop]. rewrite (proj2 (Z.ltb_lt 0 n)) by lia.
  destruct (store8_writes m op (Z.land n 0xff)) as (m1 & -> & W1); [done|lia|].
  assert (mlen m1 = mlen m) as Hm1 by (unfold mlen; by rewrite (proj1 W1)).
  cbn [mbind option_bind]. rewrite Z.shiftr_div_pow2 by done. change (2 ^ 8) with 256.
  assert (Z.land n 0xff = n mod 256) as Hland by apply (Z.land_ones n 8 ltac:(lia)).
  destruct (Z.ltb_spec n 256).
  - rewrite (Z.div_small n), Z.ltb_irrefl by lia. exists m1, [byte_of_Z (n mod 256)].
    rewrite Hland in W1. split_and!; [done|done| |done]. cbn [le_dec]. rewrite u8_byte_small by divlia.
    rewrite Z.mod_small by lia. lia.
  - rewrite (proj2 (Z.ltb_lt 0 _)) by divlia. cbn [literal_length_loop].
    destruct (store8_writes m1 (op + 1) (Z.land (n / 256) 0xff)) as (m2 & -> & W2); [lia|lia|].
    cbn [mbind option_bind]. rewrite Z.shiftr_div_pow2 by done. change (2 ^ 8) with 256.
    assert (n / 256 / 256 = 0) as -> by divlia. cbn [Z.ltb Z.compare].
    assert (Z.land (n / 256) 0xff = n / 256) as Hl2.
    { rewrite (Z.land_ones _ 8) by lia. apply Z.mod_small. divlia. }
    rewrite Hland in W1. rewrite Hl2 in W2. exists m2, [byte_of_Z (n mod 256); byte_of_Z (n / 256)].
    split_and!; [|exact (writes_app _ _ _ _ _ _ W1 W2)| |done].
    + unfold mlen. simpl. do 3 f_equal. lia.
    + cbn [le_dec]. rewrite !u8_byte_small by divlia. divlia.
Qed.

(** [emit_literal]: on the fast path sixteen bytes are read and written. *)
Lemma emit_literal_short input m op lit len fast :
  0 <= op → 1 <= len <= 60 → 0 <= lit → lit + len <= mlen input →
  op + literal_cost len <= mlen m →
  (fast = true → lit + 16 <= mlen input ∧ op + 17 <= mlen m) →
  ∃ m' e, emit_literal input m op lit len fast = Some (m', op + mlen e) ∧ writes m op m' e ∧
    mlen e = literal_cost len ∧ ∀ out, emits e out (out ++ sub_bytes input lit len).
Proof.
  intros Ho Hlen Hlit Hin Hm Hfast.
  unfold literal_cost in Hm. set (b := sub_bytes input lit len).
  assert (mlen b = len) as Hb by (unfold mlen, b; rewrite sub_bytes_length; lia).
  unfold emit_literal. rewrite (proj2 (Z.ltb_lt (len - 1) 60)) by lia.
  rewrite (proj2 (Z.leb_le len 60)) in Hm by lia.
  destruct (store8_writes m op (Z.lor LITERAL (Z.shiftl (len - 1) 2))) as (m1 & -> & W1); [done|lia|].
  assert (mlen m1 = mlen m) as Hm1 by (unfold mlen; by rewrite (proj1 W1)).
  cbn [mbind option_bind].
  assert (∃ m2, (if fast && (len <=? 16)
    then m ← copy64 input lit m1 (op + 1); m ← copy64 input (lit + 8) m (op + 1 + 8);
         Some (m, op + 1 + len)
    else b ← mload input lit len; m ← mstore m1 (op + 1) b; Some (m, op + 1 + len))
    = Some (m2, op + 1 + len) ∧ writes m1 (op + 1) m2 b) as (m2 & -> & W2).
  { destruct (fast && (len <=? 16)) eqn:Hf.
    - bool_simpl. destruct Hfast as [H16 H17]; [done|].
      destruct (copy128_writes input lit m1 (op + 1) len) as (m2 & m3 & R2 & R3 & W); [lia..|].
      rewrite R2. cbn [mbind option_bind]. rewrite R3. cbn [mbind option_bind]. eauto.
    - rewrite mload_some by lia. cbn [mbind option_bind]. fold b.
      destruct (mstore_writes m1 (op + 1) b) as (m2 & -> & W); [lia|lia|]. simpl. eauto. }
  exists m2, (byte_of_Z (Z.lor LITERAL (Z.shiftl (len - 1) 2)) :: b).
  assert (mlen (byte_of_Z (Z.lor LITERAL (Z.shiftl (len - 1) 2)) :: b) = 1 + len) as Hml
    by (rewrite <-Hb; unfold mlen; simpl; lia).
  split_and!.
  + rewrite Hml. do 2 f_equal. lia.
  + exact (writes_app _ _ _ _ _ _ W1 W2).
  + unfold literal_cost. rewrite Hml, (proj2 (Z.leb_le len 60)) by lia. lia.
  + intros out. rewrite <-Hb. apply emits_short_literal. lia.
Qed.

Lemma emit_literal_long input m op lit len fast :
  0 <= op → 60 < len <= 65536 → 0 <= lit → lit + len <= mlen input →
  op + literal_cost len <= mlen m →
  ∃ m' e, emit_literal input m op lit len fast = Some (m', op + mlen e) ∧ writes m op m' e ∧
    mlen e = literal_cost len ∧ ∀ out, emits e out (out ++ sub_bytes input lit len).
Proof.
  intros Ho Hlen Hlit Hin Hm.
  unfold literal_cost in Hm. set (b := sub_bytes input lit len).
  assert (mlen b = len) as Hb by (unfold mlen, b; rewrite sub_bytes_length; lia).
  unfold emit_literal. rewrite (proj2 (Z.ltb_ge (len - 1) 60)) by lia.
  rewrite (proj2 (Z.leb_gt len 60)) in Hm by lia.
  destruct (literal_length_loop_spec m (op + 1) (len - 1)) as (m1 & num & -> & W1 & Hnum & Hln);
    [lia|lia|case_match; lia|].
  assert (mlen m1 = mlen m) as Hm1 by (unfold mlen; by rewrite (proj1 W1)).
  cbn [mbind option_bind].
  assert (Z.of_nat (length num) = (if len <=? 256 then 1 else 2)) as Hnl.
  { rewrite Hln. destruct (Z.ltb_spec (len - 1) 256), (Z.leb_spec len 256); lia. }
  assert (1 <= Z.of_nat (length num) <= 2) as Hn12 by (rewrite Hnl; case_match; lia).
  rewrite !(proj2 (Z.leb_le _ _)) by lia. cbn [check mbind option_bind].
  destruct (writes_fill m op m1 num (Z.lor LITERAL (Z.shiftl (59 + Z.of_nat (length num)) 2)))
    as (m2 & -> & W2); [done|unfold mlen at 1; case_match; lia|done|].
  assert (mlen m2 = mlen m) as Hm2 by (unfold mlen; by rewrite (proj1 W2)).
  set (tag := byte_of_Z _) in *. cbn [mbind option_bind].
  rewrite mload_some by lia. cbn [mbind option_bind]. fold b.
  assert (mlen (tag :: num) = 1 + Z.of_nat (length num)) as Ht by (unfold mlen; simpl; lia).
  assert (op + 1 + mlen num = op + mlen (tag :: num)) as Hop by (unfold mlen; simpl; lia).
  rewrite Hop. destruct (mstore_writes m2 (op + mlen (tag :: num)) b) as (m3 & -> & W3);
    [lia|rewrite Hb, Hm2, Ht; case_match; lia|]. cbn [mbind option_bind].
  exists m3, ((tag :: num) ++ b). split_and!.
  + rewrite mlen_app. do 2 f_equal. lia.
  + by eapply writes_app.
  + rewrite mlen_app, Ht, Hb. unfold literal_cost. rewrite (proj2 (Z.leb_gt len 60)), Hnl by lia.
    case_match; lia.
  + intros out. rewrite <-app_comm_cons. apply emits_long_literal; lia.
Qed.

Lemma emit_literal_spec input m op lit len fast :
  0 <= op → 1 <= len <= 65536 → 0 <= lit → lit + len <= mlen input →
  op + literal_cost len <= mlen m →
  (fast = true → lit + 16 <= mlen input ∧ op + 17 <= mlen m) →
  ∃ m' e, emit_literal input m op lit len fast = Some (m', op + mlen e) ∧ writes m op m' e ∧
    mlen e = literal_cost len ∧ ∀ out, emits e out (out ++ sub_bytes input lit len).
Proof.
  intros. destruct (decide (len <= 60)); [apply emit_literal_short|apply emit_literal_long]; auto; lia.
Qed.

(** * Copies *)

Definition copy1_tag_ok (x : Z) : bool :=
  let l := x mod 8 in
  let h := x / 8 in
  let c := Z.lor (Z.lor COPY_1_BYTE_OFFSET (Z.shiftl l 2)) (Z.shiftl h 5) in
  (0 <=? c) && (c <? 256) && (Z.land c 3 =? 1) && (Z.land (Z.shiftr c 2) 7 =? l) && (Z.shiftr c 5 =? h).

Lemma copy1_tag_bits l h :
  0 <= l < 8 → 0 <= h < 8 →
  let c := Z.lor (Z.lor COPY_1_BYTE_OFFSET (Z.shiftl l 2)) (Z.shiftl h 5) in
  0 <= c < 256 ∧ Z.land c 3 = 1 ∧ Z.land (Z.shiftr c 2) 7 = l ∧ Z.shiftr c 5 = h.
Proof.
  intros Hl Hh c. pose proof (all_bytes copy1_tag_ok 64 (8 * h + l) ltac:(vm_compute; reflexivity) ltac:(lia)) as Hok.
  unfold copy1_tag_ok in Hok. assert ((8 * h + l) mod 8 = l) as E1 by divlia.
  assert ((8 * h + l) / 8 = h) as E2 by divlia. rewrite E1, E2 in Hok. bool_simpl. by split_and!.
Qed.

Definition copy2_tag_ok (n : Z) : bool :=
  let c := Z.lor COPY_2_BYTE_OFFSET (Z.shiftl n 2) in
  (0 <=? c) && (c <? 256) && (Z.land c 3 =? 2) && (Z.shiftr c 2 =? n).

Lemma copy2_tag_bits n :
  0 <= n < 64 → let c := Z.lor COPY_2_BYTE_OFFSET (Z.shiftl n 2) in
  0 <= c < 256 ∧ Z.land c 3 = 2 ∧ Z.shiftr c 2 = n.
Proof.
  intros Hn c. pose proof (all_bytes copy2_tag_ok 64 n ltac:(vm_compute; reflexivity) Hn) as Hok.
  unfold copy2_tag_ok in Hok. bool_simpl. by split_and!.
Qed.

Lemma apply_copy out offset len :
  1 <= offset <= mlen out →
  apply_item out (Copy offset len) = Some (copy_back (Z.to_nat len) out (Z.to_nat offset)).
Proof. intros Ho. simpl. by rewrite !(proj2 (Z.leb_le _ _)) by lia. Qed.

Lemma emits_copy1 out offset len :
  4 <= len < 12 → 1 <= offset < 2048 → offset <= mlen out →
  emits [byte_of_Z (Z.lor (Z.lor COPY_1_BYTE_OFFSET (Z.shiftl (len - 4) 2)) (Z.shiftl (Z.shiftr offset 8) 5));
         byte_of_Z (Z.land offset 0xff)] out (copy_back (Z.to_nat len) out (Z.to_nat offset)).
Proof.
  intros Hlen Hoff Hout. assert (Z.shiftr offset 8 = offset / 256) as Hsh by by rewrite Z.shiftr_div_pow2.
  assert (Z.land offset 0xff = offset mod 256) as Hmod by apply (Z.land_ones offset 8 ltac:(lia)).
  destruct (copy1_tag_bits (len - 4) (offset / 256)) as (Hc & Ht & Hl & Hh); [lia|divlia|].
  apply (emits_item _ (Copy offset len)); [|apply apply_copy; lia].
  intros rest. cbn [app parse_item]. rewrite Hsh, Hmod, u8_byte_small by done. unfold item_extra.
  rewrite Ht. cbn [Z.eqb Pos.eqb]. cbn [length take drop]. rewrite (proj2 (Nat.ltb_ge _ _)) by lia.
  unfold copy_offset, copy_len. rewrite Ht, Hl, Hh. cbn [Z.eqb Pos.eqb le_dec].
  rewrite u8_byte_small by divlia. rewrite Z.sub_add.
  change (le_dec (take 0 rest)) with 0.
  by replace (256 * (offset / 256) + _) with offset by divlia.
Qed.

Lemma emits_copy2 out offset len :
  1 <= len <= 64 → 1 <= offset < 65536 → offset <= mlen out →
  emits (byte_of_Z (Z.lor COPY_2_BYTE_OFFSET (Z.shiftl (len - 1) 2)) :: le_enc 2 offset) out
    (copy_back (Z.to_nat len) out (Z.to_nat offset)).
Proof.
  intros Hlen Hoff Hout. destruct (copy2_tag_bits (len - 1)) as (Hc & Ht & Hs); [lia|].
  apply (emits_item _ (Copy offset len)); [|apply apply_copy; lia].
  intros rest. cbn [app parse_item]. rewrite u8_byte_small by done. unfold item_extra.
  rewrite Ht. cbn [Z.eqb Pos.eqb].
  rewrite length_app, le_enc_length, (proj2 (Nat.ltb_ge _ _)) by lia.
  rewrite take_app_le, drop_app_le, take_ge, drop_ge by (rewrite le_enc_length; lia).
  unfold copy_offset, copy_len. rewrite Ht, Hs. cbn [Z.eqb Pos.eqb].
  rewrite le_dec_enc by (simpl; lia). do 3 f_equal. lia.
Qed.

(** A piece of at most 64 bytes. *)
Lemma emit_copy_less_than64_spec m op offset len :
  0 <= op → 4 <= len <= 64 → 1 <= offset < 65536 → op + 3 <= mlen m →
  ∃ m' e, emit_copy_less_than64 m op offset len = Some (m', op + mlen e) ∧ writes m op m' e ∧
    mlen e <= 3 ∧
    ∀ out, offset <= mlen out → emits e out (copy_back (Z.to_nat len) out (Z.to_nat offset)).
Proof.
  intros Ho Hlen Hoff Hm. unfold emit_copy_less_than64.
  rewrite !(proj2 (Z.leb_le _ _)), (proj2 (Z.ltb_lt offset 65536)) by lia. cbn [check mbind option_bind].
  destruct ((len <? 12) && (offset <? 2048)) eqn:Hsmall; bool_simpl.
  - rewrite (proj2 (Z.ltb_lt _ 8)) by lia. cbn [check mbind option_bind].
    destruct (store8_writes m op (Z.lor (Z.lor COPY_1_BYTE_OFFSET (Z.shiftl (len - 4) 2))
      (Z.shiftl (Z.shiftr offset 8) 5))) as (m1 & -> & W1); [done|lia|].
    assert (mlen m1 = mlen m) as Hm1 by (unfold mlen; by rewrite (proj1 W1)). cbn [mbind option_bind].
    destruct (store8_writes m1 (op + 1) (Z.land offset 0xff)) as (m2 & -> & W2); [lia|lia|].
    cbn [mbind option_bind]. eexists m2, [_; _].
    split; [done|]. split; [exact (writes_app _ _ _ _ _ _ W1 W2)|]. split; [done|].
    intros out Hout. apply emits_copy1; lia.
  - destruct (store8_writes m op (Z.lor COPY_2_BYTE_OFFSET (Z.shiftl (len - 1) 2))) as (m1 & -> & W1);
      [done|lia|].
    assert (mlen m1 = mlen m) as Hm1 by (unfold mlen; by rewrite (proj1 W1)). cbn [mbind option_bind].
    destruct (mstore_writes m1 (op + 1) (le_enc 2 offset)) as (m2 & -> & W2); [lia|unfold mlen in *; simpl; lia|].
    cbn [mbind option_bind]. eexists m2, (_ :: le_enc 2 offset).
    split; [done|]. split; [exact (writes_app _ _ _ _ _ _ W1 W2)|]. split; [done|].
    intros out Hout. apply emits_copy2; lia.
Qed.

Lemma mlen_copy_back k out o :
  1 <= o <= mlen out → mlen (copy_back k out (Z.to_nat o)) = mlen out + Z.of_nat k.
Proof. intros Ho. unfold mlen in *. rewrite length_copy_back; lia. Qed.

Lemma emits_copy_app e1 e2 out offset l1 l2 :
  1 <= offset <= mlen out → 0 <= l1 → 0 <= l2 →
  (∀ out, offset <= mlen out → emits e1 out (copy_back (Z.to_nat l1) out (Z.to_nat offset))) →
  (∀ out, offset <= mlen out → emits e2 out (copy_back (Z.to_nat l2) out (Z.to_nat offset))) →
  emits (e1 ++ e2) out (copy_back (Z.to_nat (l1 + l2)) out (Z.to_nat offset)).
Proof.
  intros Ho H1 H2 E1 E2. rewrite Z2Nat.inj_add by done. rewrite copy_back_add by (unfold mlen in *; lia).
  eapply emits_app; [apply E1; lia|]. apply E2. rewrite mlen_copy_back by done. lia.
Qed.

Lemma emit_copy_loop_spec k m op offset len :
  0 <= op → 4 <= len → 1 <= offset < 65536 → 4 * op + 3 * len <= 4 * mlen m → (Z.to_nat len < k)%nat →
  ∃ m' e len', emit_copy_loop k m op offset len = Some (m', op + mlen e, len') ∧ writes m op m' e ∧
    4 <= len' < 68 ∧ len' <= len ∧ 4 * mlen e <= 3 * (len - len') ∧
    ∀ out, offset <= mlen out → emits e out (copy_back (Z.to_nat (len - len')) out (Z.to_nat offset)).
Proof.
  revert m op len. induction k as [|k IH]; intros m op len Ho Hlen Hoff Hm Hk; [lia|].
  cbn [emit_copy_loop]. destruct (Z.leb_spec 68 len).
  - destruct (emit_copy_less_than64_spec m op offset 64) as (m1 & e1 & -> & W1 & L1 & E1); [lia..|].
    assert (mlen m1 = mlen m) as Hm1 by (unfold mlen; by rewrite (proj1 W1)).
    pose proof (mlen_nonneg e1). cbn [mbind option_bind].
    destruct (IH m1 (op + mlen e1) (len - 64)) as (m2 & e2 & len' & -> & W2 & ? & ? & ? & E2); [lia..|].
    exists m2, (e1 ++ e2), len'. rewrite mlen_app. split_and!; try lia.
    + do 3 f_equal. lia.
    + by eapply writes_app.
    + intros out Hout. replace (len - len') with (64 + (len - 64 - len')) by lia.
      apply emits_copy_app; [lia..|done|done].
  - exists m, [], len. change (mlen []) with 0. rewrite Z.add_0_r, Z.sub_diag.
    split_and!; [done|apply writes_nil; lia|lia..|]. intros out _. apply emits_nil.
Qed.

Lemma emit_copy_spec m op offset len :
  0 <= op → 4 <= len → 1 <= offset < 65536 → 4 * op + 3 * len <= 4 * mlen m →
  ∃ m' e, emit_copy m op offset len = Some (m', op + mlen e) ∧ writes m op m' e ∧
    4 * mlen e <= 3 * len ∧
    ∀ out, offset <= mlen out → emits e out (copy_back (Z.to_nat len) out (Z.to_nat offset)).
Proof.
  intros Ho Hlen Hoff Hm. unfold emit_copy.
  destruct (emit_copy_loop_spec (S (Z.to_nat len)) m op offset len) as
    (m1 & e1 & len1 & -> & W1 & Hr1 & Hle1 & L1 & E1); [lia..|].
  assert (mlen m1 = mlen m) as Hm1 by (unfold mlen; by rewrite (proj1 W1)).
  pose proof (mlen_nonneg e1). cbn [mbind option_bind].
  assert (∃ m2 e2 len2, (if 64 <? len1
      then '(m, op) ← emit_copy_less_than64 m1 (op + mlen e1) offset 60; Some (m, op, len1 - 60)
      else Some (m1, op + mlen e1, len1)) = Some (m2, op + mlen e1 + mlen e2, len2) ∧
    writes m1 (op + mlen e1) m2 e2 ∧ 4 <= len2 <= 64 ∧ len2 <= len1 ∧ 4 * mlen e2 <= 3 * (len1 - len2) ∧
    ∀ out, offset <= mlen out → emits e2 out (copy_back (Z.to_nat (len1 - len2)) out (Z.to_nat offset)))
    as (m2 & e2 & len2 & -> & W2 & Hr2 & Hle2 & L2 & E2).
  { destruct (Z.ltb_spec 64 len1).
    - destruct (emit_copy_less_than64_spec m1 (op + mlen e1) offset 60) as (m2 & e2 & -> & W2 & L2 & E2);
        [lia..|]. exists m2, e2, (len1 - 60). replace (len1 - (len1 - 60)) with 60 by lia.
      split_and!; [done|done|lia..|done].
    - exists m1, [], len1. change (mlen []) with 0. rewrite Z.add_0_r, Z.sub_diag.
      split_and!; [done|apply writes_nil; lia|lia..|]. intros out _. apply emits_nil. }
  assert (mlen m2 = mlen m) as Hm2 by (unfold mlen in *; rewrite (proj1 W2); lia).
  pose proof (mlen_nonneg e2). cbn [mbind option_bind].
  destruct (emit_copy_less_than64_spec m2 (op + mlen e1 + mlen e2) offset len2) as
    (m3 & e3 & -> & W3 & L3 & E3); [lia..|].
  exists m3, (e1 ++ e2 ++ e3). rewrite !mlen_app. split_and!; try lia.
  - do 2 f_equal. lia.
  - eapply writes_app; [done|]. by eapply writes_app.
  - intros out Hout. replace len with (len - len1 + (len1 - len2 + len2)) at 1 by lia.
    apply emits_copy_app; [lia..|done|]. intros out' Hout'. apply emits_copy_app; [lia..|done|done].
Qed.

(** * The length *)

Definition high_bit_ok (x : Z) : bool := Z.lor x 128 =? x mod 128 + 128.

(** A byte with its high bit set, as it is stored. *)
Lemma u8_more x : 0 <= x → u8 (byte_of_Z (Z.lor x 128)) = x mod 128 + 128.
Proof.
  intros Hx. rewrite u8_byte_of_Z. change 256 with (2 ^ 8). rewrite <-Z.land_ones, Z.land_lor_distr_l by done.
  rewrite Z.land_ones by done. change (Z.land 128 (Z.ones 8)) with 128.
  pose proof (all_bytes high_bit_ok 256 (x mod 256) ltac:(vm_compute; reflexivity) ltac:(divlia)) as Hok.
  apply Z.eqb_eq in Hok. change (2 ^ 8) with 256. rewrite Hok. divlia.
Qed.

(** One group of seven bits. *)
Lemma varint_group k c b shift result n :
  0 <= shift → 0 <= result < 2 ^ shift → Z.land (u8 c) 127 * 2 ^ shift < 2 ^ 32 →
  varint_groups (S k) (c :: b) shift result n =
  if u8 c <? (if (k =? 0)%nat then 16 else 128)
  then Some (result + Z.land (u8 c) 127 * 2 ^ shift, n + 1)
  else varint_groups k b (shift + 7) (result + Z.land (u8 c) 127 * 2 ^ shift) (n + 1).
Proof.
  intros Hs Hr Hsmall. cbn [varint_groups]. pose proof (u8_range c).
  assert (0 <= Z.land (u8 c) 127) by (apply Z.land_nonneg; lia).
  assert (Z.lor result (u32 (Z.shiftl (Z.land (u8 c) 127) shift)) = result + Z.land (u8 c) 127 * 2 ^ shift)
    as ->; [|done].
  assert (0 < 2 ^ shift) by lia.
  unfold wrap_u. rewrite Z.mod_small by (rewrite Z.shiftl_mul_pow2 by done; nia). by apply lor_disjoint.
Qed.

Lemma land127 x : Z.land x 127 = x mod 128.
Proof. apply (Z.land_ones x 7). lia. Qed.

(** The last byte of a length, and one that is not the last. *)
Lemma varint_last k v b shift result n :
  0 <= shift → 0 <= result < 2 ^ shift → 0 <= v < 128 → v * 2 ^ shift < 2 ^ 32 → (k ≠ 0%nat ∨ v < 16) →
  varint_groups (S k) (byte_of_Z v :: b) shift result n = Some (result + v * 2 ^ shift, n + 1).
Proof.
  intros Hs Hr Hv Hsmall Hk. assert (Z.land (u8 (byte_of_Z v)) 127 = v) as Hl.
  { rewrite land127, u8_byte_small by lia. apply Z.mod_small. lia. }
  rewrite varint_group by (rewrite ?Hl; done). rewrite Hl, u8_byte_small by lia.
  rewrite (proj2 (Z.ltb_lt _ _)); [done|]. destruct (Nat.eqb_spec k 0); lia.
Qed.

Lemma varint_more k x b shift result n :
  0 <= shift → 0 <= result < 2 ^ shift → 0 <= x → (1 <= k)%nat → shift <= 21 →
  varint_groups (S k) (byte_of_Z (Z.lor x 128) :: b) shift result n =
  varint_groups k b (shift + 7) (result + (x mod 128) * 2 ^ shift) (n + 1).
Proof.
  intros Hs Hr Hx Hk Hsh.
  assert (Z.land (u8 (byte_of_Z (Z.lor x 128))) 127 = x mod 128) as Hl.
  { rewrite land127, u8_more by done. divlia. }
  assert (x mod 128 * 2 ^ shift < 2 ^ 32) as Hbig.
  { assert (2 ^ shift <= 2 ^ 21) by (apply Z.pow_le_mono_r; lia). pose proof (Z.mod_pos_bound x 128). nia. }
  rewrite varint_group by (rewrite ?Hl; done). rewrite Hl, u8_more by done.
  pose proof (Z.mod_pos_bound x 128 ltac:(lia)).
  rewrite (proj2 (Z.ltb_ge _ _)); [done|]. destruct (Nat.eqb_spec k 0); lia.
Qed.

Lemma varint_roundtrip v rest :
  0 <= v < 2 ^ 32 →
  varint_parse32_with_limit (varint_encode32 v ++ rest) = Some (v, mlen (varint_encode32 v)).
Proof.
  intros Hv. unfold varint_parse32_with_limit, varint_encode32. cbv zeta.
  assert (∀ k, 0 <= k → 0 <= Z.shiftr v k) as Hpos by (intros; apply Z.shiftr_nonneg; lia).
  assert (Z.shiftr v 7 = v / 2 ^ 7 ∧ Z.shiftr v 14 = v / 2 ^ 14 ∧ Z.shiftr v 21 = v / 2 ^ 21 ∧
    Z.shiftr v 28 = v / 2 ^ 28) as (E7 & E14 & E21 & E28) by (by rewrite !Z.shiftr_div_pow2).
  rewrite E7, E14, E21, E28.
  repeat case_match; bool_simpl; cbn [fmap list_fmap app];
    rewrite ?varint_more by (first [lia|simpl in *; divlia]);
    (rewrite varint_last; [unfold mlen; simpl; do 2 f_equal|..]);
    try lia; simpl in *; divlia.
Qed.
