(* ===== verification/SnappyEncode.v ===== *)
(** The compressor of Snappy.v: what it writes stands for its input, and fits into the buffer that
    [snappy_max_compressed_length] asks for. *)
From S2P Require Import Prelude Snappy SnappyFormat SnappyEmit.

Open Scope Z_scope.

(** * Finding matches *)

Lemma find_lsb_even z : 0 < z → find_lsb_set_non_zero64 (2 * z) = 1 + find_lsb_set_non_zero64 z.
Proof. by destruct z. Qed.

Lemma find_lsb_divides z : 0 < z → (2 ^ find_lsb_set_non_zero64 z | z) ∧ 0 <= find_lsb_set_non_zero64 z.
Proof.
  intros Hz. destruct z as [|p|p]; [lia| |lia]. simpl. induction p as [p _|p IH|]; cbn [pos_ctz].
  - split; [apply Z.divide_1_l|done].
  - destruct (IH ltac:(lia)) as [Hd Hp]. split; [|lia]. rewrite Z.pow_add_r by lia.
    rewrite (Pos2Z.inj_xO p). by apply Z.mul_divide_mono_l.
  - split; [apply Z.divide_1_l|done].
Qed.

Lemma find_lsb_shift k z :
  0 < z → find_lsb_set_non_zero64 (2 ^ Z.of_nat k * z) = Z.of_nat k + find_lsb_set_non_zero64 z.
Proof.
  intros Hz. induction k as [|k IH]; [rewrite Z.mul_1_l; lia|].
  rewrite Nat2Z.inj_succ, Z.pow_succ_r, <-Z.mul_assoc by lia. rewrite find_lsb_even by lia. lia.
Qed.

Lemma find_lsb_low z : 0 < z → z mod 256 ≠ 0 → find_lsb_set_non_zero64 z < 8.
Proof.
  intros Hz Hlow. destruct (find_lsb_divides z Hz) as [Hd Hp].
  destruct (Z.lt_ge_cases (find_lsb_set_non_zero64 z) 8) as [|Hge]; [done|]. exfalso. apply Hlow.
  apply Z.mod_divide; [done|]. etrans; [|exact Hd]. exists (2 ^ (find_lsb_set_non_zero64 z - 8)).
  change 256 with (2 ^ 8). rewrite <-Z.pow_add_r by lia. f_equal. lia.
Qed.

(** The exclusive or of two words, byte by byte. *)
Lemma lxor_bytes x y a b :
  0 <= x < 256 → 0 <= y < 256 → 0 <= a → 0 <= b →
  let z := Z.lxor (x + 256 * a) (y + 256 * b) in
  z / 256 = Z.lxor a b ∧ z mod 256 = Z.lxor x y.
Proof.
  intros Hx Hy Ha Hb z. split.
  - change 256 with (2 ^ 8) in *. unfold z. rewrite <-Z.shiftr_div_pow2, Z.shiftr_lxor by done.
    rewrite !Z.shiftr_div_pow2 by done. f_equal; divlia.
  - change 256 with (2 ^ 8) in *. unfold z. apply Z.bits_inj'. intros i Hi.
    destruct (decide (i < 8)).
    + rewrite Z.mod_pow2_bits_low, !Z.lxor_spec by lia.
      rewrite <-!(Z.mod_pow2_bits_low (_ + _) 8 i) by lia. f_equal; f_equal; divlia.
    + rewrite Z.mod_pow2_bits_high by lia. rewrite Z.lxor_spec.
      assert (∀ v, 0 <= v < 2 ^ 8 → Z.testbit v i = false) as Hhigh.
      { intros v Hv. rewrite <-(Z.mod_small v (2 ^ 8)) by done. apply Z.mod_pow2_bits_high. lia. }
      by rewrite !Hhigh.
Qed.

(** The first bit in which two words of [n] bytes differ is in the first byte in which they do. *)
Lemma first_difference a b :
  length a = length b → le_dec a ≠ le_dec b →
  let k := Z.to_nat (Z.shiftr (find_lsb_set_non_zero64 (Z.lxor (le_dec a) (le_dec b))) 3) in
  take k a = take k b ∧ (k < length a)%nat ∧ a !! k ≠ b !! k.
Proof.
  intros Hl Hne. cbv zeta. revert b Hl Hne. induction a as [|x a IH]; intros [|y b] Hl Hne; try done.
  injection Hl as Hl. cbn [le_dec] in *.
  pose proof (u8_range x). pose proof (u8_range y). pose proof (le_dec_bound a). pose proof (le_dec_bound b).
  destruct (lxor_bytes (u8 x) (u8 y) (le_dec a) (le_dec b)) as [Hdiv Hmod]; [lia..|].
  set (z := Z.lxor _ _) in *.
  assert (0 <= z) as Hz0 by (apply Z.lxor_nonneg; lia).
  assert (z ≠ 0) as Hz by (intros Hz; by apply Z.lxor_eq in Hz).
  rewrite Z.shiftr_div_pow2 by done. change (2 ^ 3) with 8.
  destruct (decide (u8 x = u8 y)) as [Hxy|Hxy].
  - apply u8_inj in Hxy as ->. rewrite Z.lxor_nilpotent in Hmod.
    assert (le_dec a ≠ le_dec b) as Hab by lia. destruct (IH b Hl Hab) as (Ht & Hlt & Hd).
    rewrite Z.shiftr_div_pow2 in Ht, Hlt, Hd by done. change (2 ^ 3) with 8 in Ht, Hlt, Hd.
    assert (0 < Z.lxor (le_dec a) (le_dec b)) by divlia.
    assert (z = 2 ^ Z.of_nat 8 * Z.lxor (le_dec a) (le_dec b)) as -> by (simpl; divlia).
    rewrite find_lsb_shift by done.
    pose proof (proj2 (find_lsb_divides (Z.lxor (le_dec a) (le_dec b)) ltac:(done))).
    replace (Z.to_nat _) with (S (Z.to_nat (find_lsb_set_non_zero64 (Z.lxor (le_dec a) (le_dec b)) / 8)))
      by divlia.
    simpl. split_and!; [by f_equal|lia|done].
  - assert (find_lsb_set_non_zero64 z < 8).
    { apply find_lsb_low; [lia|]. rewrite Hmod. intros Hx%Z.lxor_eq. done. }
    pose proof (proj2 (find_lsb_divides z ltac:(lia))). rewrite Z.div_small by lia. simpl.
    split_and!; [done|lia|]. by intros [= ->].
Qed.

(** The longest common prefix, as the comment of the function describes it. *)
Definition matches (input : bytes) (s1 s2 s2_limit r : Z) : Prop :=
  0 <= r <= s2_limit - s2 ∧
  sub_bytes input s1 r = sub_bytes input s2 r ∧
  (r < s2_limit - s2 → input !! Z.to_nat (s1 + r) ≠ input !! Z.to_nat (s2 + r)).

(** [n] bytes of a match have been found. *)
Definition matched_so_far (input : bytes) (s1 s2 n : Z) : Prop :=
  0 <= n ∧ sub_bytes input s1 n = sub_bytes input s2 n.

Lemma sub_bytes_app m i a b :
  0 <= i → 0 <= a → 0 <= b → sub_bytes m i (a + b) = sub_bytes m i a ++ sub_bytes m (i + a) b.
Proof.
  intros Hi Ha Hb. unfold sub_bytes. rewrite Z2Nat.inj_add, <-take_take_drop by lia.
  rewrite drop_drop. do 3 f_equal. lia.
Qed.

Lemma matched_app input s1 s2 a b :
  0 <= s1 → 0 <= s2 → 0 <= b → matched_so_far input s1 s2 a →
  sub_bytes input (s1 + a) b = sub_bytes input (s2 + a) b → matched_so_far input s1 s2 (a + b).
Proof.
  intros H1 H2 Hb [Ha He] He2. split; [lia|]. rewrite !sub_bytes_app by lia. congruence.
Qed.

Lemma load8_lookup m i : 0 <= i < mlen m → ∃ c, m !! Z.to_nat i = Some c ∧ load8 m i = Some (u8 c) ∧
  sub_bytes m i 1 = [c].
Proof.
  intros Hi. destruct (lookup_lt_is_Some_2 m (Z.to_nat i)) as [c Hc]; [unfold mlen in Hi; lia|].
  assert (sub_bytes m i 1 = [c]) as Hs.
  { unfold sub_bytes. by rewrite (drop_S _ c _ Hc). }
  exists c. split_and!; [done| |done]. unfold load8. rewrite mload_some, Hs by lia. simpl. f_equal. lia.
Qed.

Lemma match_bytes_spec k input s1 s2 s2_limit n :
  0 <= s1 < s2 → s2 + n <= s2_limit <= mlen input → matched_so_far input s1 s2 n →
  s2_limit - (s2 + n) < Z.of_nat k →
  ∃ r, match_bytes k input s1 (s2 + n) s2_limit n = Some r ∧ matches input s1 s2 s2_limit r.
Proof.
  revert n. induction k as [|k IH]; intros n Hs Hl Hm Hk; [lia|]. pose proof Hm as [Hn He].
  cbn [match_bytes]. destruct (Z.ltb_spec (s2 + n) s2_limit).
  - destruct (load8_lookup input (s1 + n)) as (x & Hx & -> & Sx); [lia|].
    destruct (load8_lookup input (s2 + n)) as (y & Hy & -> & Sy); [lia|]. cbn [mbind option_bind].
    destruct (Z.eqb_spec (u8 x) (u8 y)) as [Hxy|Hxy].
    + rewrite <-Z.add_assoc. apply IH; [done|lia| |lia]. apply matched_app; [lia..|done|].
      apply u8_inj in Hxy. congruence.
    + exists n. split; [done|]. split; [lia|]. split; [done|]. intros _. rewrite Hx, Hy. congruence.
  - exists n. split; [done|]. split; [lia|]. split; [done|]. lia.
Qed.

Lemma match_words_spec k input s1 s2 s2_limit n :
  0 <= s1 < s2 → s2 + n <= s2_limit <= mlen input → matched_so_far input s1 s2 n →
  s2_limit - (s2 + n) < Z.of_nat k →
  ∃ r, match_words k input s1 (s2 + n) s2_limit n = Some r ∧ matches input s1 s2 s2_limit r.
Proof.
  revert n. induction k as [|k IH]; intros n Hs Hl Hm Hk; [lia|]. pose proof Hm as [Hn He].
  cbn [match_words]. destruct (Z.leb_spec (s2 + n) (s2_limit - 8)); [|by apply match_bytes_spec].
  unfold load64. rewrite !mload_some by lia. cbn [mbind option_bind].
  assert (length (sub_bytes input (s2 + n) 8) = 8%nat) as L2 by (rewrite sub_bytes_length; lia).
  assert (length (sub_bytes input (s1 + n) 8) = 8%nat) as L1 by (rewrite sub_bytes_length; lia).
  destruct (Z.eqb_spec (le_dec (sub_bytes input (s2 + n) 8)) (le_dec (sub_bytes input (s1 + n) 8))) as [Heq|Hne].
  - rewrite <-Z.add_assoc. apply IH; [done|lia| |lia]. apply matched_app; [lia..|done|].
    symmetry. apply le_dec_inj; [congruence|done].
  - destruct (first_difference (sub_bytes input (s2 + n) 8) (sub_bytes input (s1 + n) 8)) as (Ht & Hlt & Hd);
      [congruence|done|]. set (j := Z.shiftr _ 3) in *.
    assert (0 <= j) as Hj.
    { unfold j. apply Z.shiftr_nonneg. apply find_lsb_divides.
      assert (0 <= Z.lxor (le_dec (sub_bytes input (s2 + n) 8)) (le_dec (sub_bytes input (s1 + n) 8))).
      { pose proof (le_dec_bound (sub_bytes input (s2 + n) 8)).
        pose proof (le_dec_bound (sub_bytes input (s1 + n) 8)). apply Z.lxor_nonneg. lia. }
      pose proof (Z.lxor_eq (le_dec (sub_bytes input (s2 + n) 8)) (le_dec (sub_bytes input (s1 + n) 8))).
      lia. }
    rewrite L2 in Hlt. exists (n + j). split; [done|].
    assert (∀ s, sub_bytes input (s + n) j = take (Z.to_nat j) (sub_bytes input (s + n) 8)) as Hsub.
    { intros s. unfold sub_bytes. rewrite take_take. f_equal. lia. }
    destruct (matched_app input s1 s2 n j) as [_ Hall]; [lia..|done|by rewrite !Hsub|].
    split; [lia|]. split; [done|]. intros _.
    rewrite !sub_bytes_lookup in Hd by lia. intros Hc. apply Hd.
    replace (Z.to_nat (s2 + n) + Z.to_nat j)%nat with (Z.to_nat (s2 + (n + j))) by lia.
    replace (Z.to_nat (s1 + n) + Z.to_nat j)%nat with (Z.to_nat (s1 + (n + j))) by lia. done.
Qed.

Lemma find_match_length_spec input s1 s2 s2_limit :
  0 <= s1 < s2 → s2 <= s2_limit <= mlen input →
  ∃ r, find_match_length input s1 s2 s2_limit = Some r ∧ matches input s1 s2 s2_limit r.
Proof.
  intros Hs Hl. unfold find_match_length. rewrite (proj2 (Z.leb_le _ _)) by lia. cbn [check mbind option_bind].
  pose proof (match_words_spec (S (Z.to_nat (s2_limit - s2))) input s1 s2 s2_limit 0) as Hw.
  rewrite Z.add_0_r in Hw. apply Hw; [done|lia| |lia]. by split.
Qed.

(** * Fragments *)

Section fragment.
Variable input : bytes.
Hypothesis Hblock : mlen input <= kblock_size.

(** The output buffer at the beginning of the fragment; in [op0 + 7/6 n + 20] bytes everything
    that is written finds room. *)
Variables (m0 : bytes) (op0 : Z).
Hypothesis Hop0 : 0 <= op0.
Hypothesis Hroom : 6 * op0 + 7 * mlen input + 120 <= 6 * mlen m0.

(** ** What has been written *)

(** The items up to [op] stand for the first [pos] bytes of the fragment. *)
Definition written (m : bytes) (op pos : Z) : Prop :=
  ∃ e, writes m0 op0 m e ∧ op = op0 + mlen e ∧
    ∀ prev, emits e prev (prev ++ take (Z.to_nat pos) input).

Lemma written_range m op pos : written m op pos → op0 <= op ∧ mlen m = mlen m0.
Proof.
  intros (e & (Hl & _) & -> & _). pose proof (mlen_nonneg e). split; [lia|]. unfold mlen. by rewrite Hl.
Qed.

Lemma written_start : written m0 op0 0.
Proof.
  pose proof (mlen_nonneg input).
  exists []. split_and!; [apply writes_nil; lia|change (mlen []) with 0; lia|].
  intros prev. rewrite app_nil_r. apply emits_nil.
Qed.

Lemma written_step m op pos m' e l :
  written m op pos → 0 <= pos → 0 <= l → writes m op m' e →
  (∀ prev, emits e (prev ++ take (Z.to_nat pos) input) (prev ++ take (Z.to_nat (pos + l)) input)) →
  written m' (op + mlen e) (pos + l).
Proof.
  intros (e0 & W0 & -> & E0) Hpos Hl W E. exists (e0 ++ e). split_and!.
  - by eapply writes_app.
  - rewrite mlen_app. lia.
  - intros prev. eapply emits_app; [apply E0|apply E].
Qed.

Lemma literal_cost_bounds len : 1 <= len → len + 1 <= literal_cost len ∧ 6 * literal_cost len <= 7 * len + 5 ∧
  (6 <= len → 6 * literal_cost len <= 7 * len).
Proof. intros Hl. unfold literal_cost. repeat case_match; bool_simpl; lia. Qed.

Lemma written_literal m op pos len fast :
  written m op pos → 0 <= pos → 1 <= len → pos + len <= mlen input →
  6 * (op - op0) <= 7 * pos + 5 → (fast = true → pos + 16 <= mlen input) →
  ∃ m', emit_literal input m op pos len fast = Some (m', op + literal_cost len) ∧
    written m' (op + literal_cost len) (pos + len).
Proof.
  intros Hw Hpos Hlen Hin Hcost Hfast. destruct (written_range _ _ _ Hw) as [Hop Hm].
  destruct (literal_cost_bounds len Hlen) as (Hlow & Hup & _).
  assert (kblock_size = 32768) as Hk by done.
  destruct (emit_literal_spec input m op pos len fast) as (m' & e & -> & W & <- & E); [lia|lia|lia|lia|lia| |].
  { intros Hf. specialize (Hfast Hf). split; [done|]. lia. }
  exists m'. split; [done|]. apply (written_step m _ _ m' e len Hw Hpos ltac:(lia) W).
  intros prev. rewrite Z2Nat.inj_add, <-take_take_drop, app_assoc by lia. apply E.
Qed.

(** A copy within the fragment continues the fragment. *)
Lemma copy_back_fragment prev pos cand l :
  0 <= cand < pos → 0 <= l → pos + l <= mlen input → sub_bytes input pos l = sub_bytes input cand l →
  copy_back (Z.to_nat l) (prev ++ take (Z.to_nat pos) input) (Z.to_nat (pos - cand))
  = prev ++ take (Z.to_nat (pos + l)) input.
Proof.
  intros Hc Hl Hin Hmatch. unfold mlen in Hin.
  assert (length (prev ++ take (Z.to_nat pos) input) = (length prev + Z.to_nat pos)%nat) as Hlen.
  { rewrite length_app, length_take. lia. }
  rewrite <-(copy_back_unique _ _ _ (prev ++ input)).
  - rewrite Hlen, <-Nat.add_assoc, take_app_add. do 2 f_equal. lia.
  - lia.
  - by rewrite Hlen, take_app_add.
  - rewrite Hlen, length_app. lia.
  - intros i Hi. rewrite Hlen in Hi. rewrite !lookup_app_r by lia.
    assert (i = length prev + Z.to_nat pos + (i - length prev - Z.to_nat pos))%nat as Hi' by lia.
    set (j := (i - length prev - Z.to_nat pos)%nat) in *.
    transitivity (sub_bytes input pos l !! j).
    + rewrite sub_bytes_lookup by lia. f_equal. lia.
    + rewrite Hmatch, sub_bytes_lookup by lia. f_equal. lia.
Qed.

Lemma written_copy m op pos cand l :
  written m op pos → 0 <= cand < pos → 4 <= l → pos + l <= mlen input →
  sub_bytes input pos l = sub_bytes input cand l → 6 * (op - op0) <= 7 * pos + 5 →
  ∃ m' op', emit_copy m op (pos - cand) l = Some (m', op') ∧ written m' op' (pos + l) ∧
    6 * (op' - op0) + 5 <= 7 * (pos + l).
Proof.
  intros Hw Hc Hl Hin Hmatch Hcost. destruct (written_range _ _ _ Hw) as [Hop Hm].
  assert (kblock_size = 32768) as Hk by done.
  destruct (emit_copy_spec m op (pos - cand) l) as (m' & e & -> & W & Hle & E); [lia..|].
  exists m', (op + mlen e). split; [done|]. split; [|lia].
  apply (written_step m _ _ m' e l Hw ltac:(lia) ltac:(lia) W).
  intros prev. rewrite <-(copy_back_fragment prev pos cand l) by (done || lia). apply E.
  rewrite mlen_app. pose proof (mlen_nonneg prev). unfold mlen at 2. rewrite length_take.
  unfold mlen in *. lia.
Qed.

(** ** The table *)

Variable shift : Z.

Lemma hash_some p : 0 <= p → p + 4 <= mlen input →
  ∃ b, hash input p shift = Some (hash_bytes b shift).
Proof. intros Hp Hn. unfold hash, load32. rewrite mload_some by lia. simpl. eauto. Qed.

Variable size : nat.
Hypothesis Hshift : 0 <= shift.
Hypothesis Hsize : Z.shiftr 0xffffffff shift = Z.of_nat size - 1.

(** All entries are positions before [bound]. *)
Definition table_ok (table : list Z) (bound : Z) : Prop :=
  length table = size ∧ ∀ i v, table !! i = Some v → 0 <= v < bound.

Lemma hash_range b : 0 <= hash_bytes b shift < Z.of_nat size.
Proof.
  unfold hash_bytes. rewrite Z.shiftr_div_pow2 in * by done.
  pose proof (Z.mod_pos_bound (b * 0x1e35a7bd) (2 ^ 32) ltac:(lia)). fold (u32 (b * 0x1e35a7bd)) in *.
  assert (0 < 2 ^ shift) by lia. split; [apply Z.div_pos; unfold wrap_u; lia|].
  assert (u32 (b * 0x1e35a7bd) / 2 ^ shift <= 0xffffffff / 2 ^ shift); [|lia].
  apply Z.div_le_mono; [done|]. unfold wrap_u. lia.
Qed.

Lemma table_get_ok table bound b :
  table_ok table bound → ∃ v, table_get table (hash_bytes b shift) = Some v ∧ 0 <= v < bound.
Proof.
  intros [Hl Hv]. pose proof (hash_range b). unfold table_get. rewrite (proj2 (Z.leb_le _ _)) by lia.
  destruct (lookup_lt_is_Some_2 table (Z.to_nat (hash_bytes b shift))) as [v Hlook]; [lia|]. eauto.
Qed.

Lemma table_set_ok table bound b v bound' :
  table_ok table bound → 0 <= v < bound' → bound <= bound' → v < 65536 →
  ∃ table', table_set table (hash_bytes b shift) v = Some table' ∧ table_ok table' bound'.
Proof.
  intros [Hl Hv] Hb Hle Hsmall. pose proof (hash_range b). unfold table_set.
  rewrite (proj2 (Z.leb_le _ _)), (proj2 (Z.ltb_lt _ _)) by lia. cbn [andb].
  eexists. split; [done|]. split; [by rewrite length_insert|].
  intros i x Hx. rewrite list_lookup_insert in Hx. unfold wrap_u in Hx. rewrite Z.mod_small in Hx by lia.
  case_decide; [injection Hx as <-; lia|]. apply Hv in Hx. lia.
Qed.

(** ** The loops *)

Abbreviation ip_limit := (mlen input - kinput_margin_bytes).

(** The candidates are behind the position that is looked at, and a match is one of four bytes. *)
Lemma scan_spec k ip h skip table :
  1 <= ip → ip + 4 <= mlen input → hash input ip shift = Some h → table_ok table ip →
  32 <= skip → skip + Z.of_nat k < 2 ^ 32 → mlen input - ip < Z.of_nat k →
  ∃ res, scan input shift ip_limit k ip h skip table = Some res ∧
    match res with
    | None => True
    | Some (ip', cand, table') =>
        ip <= ip' ∧ ip' + 16 <= mlen input ∧ 0 <= cand < ip' ∧ table_ok table' (ip' + 1) ∧
        sub_bytes input ip' 4 = sub_bytes input cand 4
    end.
Proof.
  assert (kblock_size = 32768) as Hkb by done.
  revert ip h skip table. induction k as [|k IH]; intros ip h skip table Hip Hn Hh Ht Hskip Hsk Hk; [lia|].
  cbn [scan]. rewrite Hh. cbn [mbind option_bind]. rewrite Z.eqb_refl. cbn [check mbind option_bind].
  assert (1 <= Z.shiftr skip 5) as Hstep by (rewrite Z.shiftr_div_pow2 by done; change (2 ^ 5) with 32; divlia).
  destruct (Z.ltb_spec ip_limit (ip + Z.shiftr skip 5)); [by exists None|].
  unfold kinput_margin_bytes in *.
  destruct (hash_some (ip + Z.shiftr skip 5)) as [b' Hh']; [lia|lia|]. rewrite Hh'. cbn [mbind option_bind].
  destruct (hash_some ip) as [b Hhb]; [lia|lia|]. rewrite Hhb in Hh. injection Hh as <-.
  destruct (table_get_ok table ip b Ht) as (cand & -> & Hc). cbn [mbind option_bind].
  rewrite (proj2 (Z.ltb_lt cand ip)) by lia. cbn [check mbind option_bind].
  destruct (table_set_ok table ip b ip (ip + 1) Ht) as (table' & -> & Ht'); [lia..|]. cbn [mbind option_bind].
  unfold load32. rewrite !mload_some by lia. cbn [mbind option_bind].
  destruct (Z.eqb_spec (le_dec (sub_bytes input ip 4)) (le_dec (sub_bytes input cand 4))) as [He|He].
  - eexists. split; [done|]. split_and!; [lia..|done|].
    apply le_dec_inj; [rewrite !sub_bytes_length by lia; done|done].
  - unfold wrap_u. rewrite Z.mod_small by lia.
    destruct (IH (ip + Z.shiftr skip 5) (hash_bytes b' shift) (skip + 1) table') as (res & Hrun & Hres);
      [lia|lia|done| |lia|lia|lia|].
    { destruct Ht' as [Hl Hv]. split; [done|]. intros i v Hi. apply Hv in Hi. lia. }
    exists res. split; [done|]. destruct res as [[[ip' cand'] tb]|]; [|done]. destruct Hres as (? & ?). split; [lia|done].
Qed.

(** [get_u32_at_offset] of a word is the load at the offset. *)
Lemma get_u32_at_offset_sub i o :
  0 <= i → i + 8 <= mlen input → 0 <= o <= 4 →
  get_u32_at_offset (le_dec (sub_bytes input i 8)) o = le_dec (sub_bytes input (i + o) 4).
Proof.
  intros Hi Hn Ho. unfold get_u32_at_offset.
  replace 8 with (o + (4 + (4 - o))) at 1 by lia.
  rewrite (sub_bytes_app input i o), (sub_bytes_app input (i + o) 4) by lia.
  assert (∀ j l, 0 <= j → 0 <= l → j + l <= mlen input → Z.of_nat (length (sub_bytes input j l)) = l) as Hlen.
  { intros. rewrite sub_bytes_length; lia. }
  rewrite le_dec_app, le_dec_app, !Hlen by lia. rewrite Z.shiftr_div_pow2 by lia.
  rewrite Z.pow_mul_r by lia. change (2 ^ 8) with 256.
  pose proof (le_dec_bound (sub_bytes input i o)) as B1. rewrite Hlen in B1 by lia.
  pose proof (le_dec_bound (sub_bytes input (i + o) 4)) as B2. rewrite Hlen in B2 by lia.
  rewrite Z.mul_comm, Z.div_add by lia. rewrite Z.div_small, Z.add_0_l by lia.
  unfold wrap_u. change (256 ^ 4) with (2 ^ 32) in *. rewrite (Z.mul_comm (2 ^ 32)), Z.mod_add by lia.
  apply Z.mod_small. lia.
Qed.

Lemma find_match_copy ip cand :
  0 <= cand < ip → ip + 4 <= mlen input → sub_bytes input ip 4 = sub_bytes input cand 4 →
  ∃ len, find_match_length input (cand + 4) (ip + 4) (mlen input) = Some len ∧ 0 <= len ∧
    ip + (4 + len) <= mlen input ∧ sub_bytes input ip (4 + len) = sub_bytes input cand (4 + len).
Proof.
  intros Hc Hn Hm. destruct (find_match_length_spec input (cand + 4) (ip + 4) (mlen input)) as
    (len & Hrun & Hr & He & _); [lia|lia|]. exists len. split_and!; [done|lia|lia|].
  rewrite !sub_bytes_app by lia. congruence.
Qed.

Lemma copy_loop_spec k ip cand table m op :
  0 <= cand < ip → ip + 4 <= mlen input → sub_bytes input ip 4 = sub_bytes input cand 4 →
  table_ok table (ip + 1) → written m op ip → 6 * (op - op0) <= 7 * ip + 5 →
  mlen input - ip < Z.of_nat k →
  ∃ m' op' ip' next, copy_loop input shift ip_limit k ip cand table m op = Some (m', op', ip', next) ∧
    ip < ip' <= mlen input ∧ written m' op' ip' ∧ 6 * (op' - op0) + 5 <= 7 * ip' ∧
    match next with
    | None => True
    | Some (h, table') => ip' < ip_limit ∧ hash input (ip' + 1) shift = Some h ∧ table_ok table' (ip' + 1)
    end.
Proof.
  assert (kblock_size = 32768) as Hkb by done.
  revert ip cand table m op. induction k as [|k IH]; intros ip cand table m op Hc Hn Hm Ht Hw Hcost Hk; [lia|].
  cbn [copy_loop]. unfold ip_end.
  destruct (find_match_copy ip cand Hc Hn Hm) as (len & -> & Hlen & Hin & Hall). cbn [mbind option_bind].
  rewrite !mload_some by lia. cbn [mbind option_bind]. rewrite bool_decide_eq_true_2 by done.
  cbn [check mbind option_bind].
  destruct (written_copy m op ip cand (4 + len) Hw Hc ltac:(lia) Hin Hall Hcost) as (m1 & op1 & -> & Hw1 & Hcost1).
  cbn [mbind option_bind]. set (ip1 := ip + (4 + len)) in *.
  destruct (Z.leb_spec ip_limit ip1).
  { exists m1, op1, ip1, None. split_and!; [done|lia|lia|done..]. }
  unfold kinput_margin_bytes in *. unfold load64. rewrite mload_some by lia. cbn [mbind option_bind].
  destruct (table_set_ok table (ip + 1) (get_u32_at_offset (le_dec (sub_bytes input (ip1 - 1) 8)) 0) (ip1 - 1) ip1 Ht)
    as (table1 & -> & Ht1); [lia..|]. cbn [mbind option_bind].
  destruct (table_get_ok table1 ip1 (get_u32_at_offset (le_dec (sub_bytes input (ip1 - 1) 8)) 1) Ht1)
    as (cand1 & -> & Hc1). cbn [mbind option_bind].
  unfold load32. rewrite mload_some by lia. cbn [mbind option_bind].
  destruct (table_set_ok table1 ip1 (get_u32_at_offset (le_dec (sub_bytes input (ip1 - 1) 8)) 1) ip1 (ip1 + 1) Ht1)
    as (table2 & -> & Ht2); [lia..|]. cbn [mbind option_bind].
  rewrite !get_u32_at_offset_sub by lia. replace (ip1 - 1 + 1) with ip1 by lia.
  destruct (Z.eqb_spec (le_dec (sub_bytes input ip1 4)) (le_dec (sub_bytes input cand1 4))) as [He|He].
  - destruct (IH ip1 cand1 table2 m1 op1) as (m' & op' & ip' & next & -> & ? & ?);
      [lia|lia| |done|done|lia|lia|].
    { apply le_dec_inj; [rewrite !sub_bytes_length by lia; done|done]. }
    exists m', op', ip', next. split; [done|]. split; [lia|done].
  - exists m1, op1, ip1. eexists. split; [done|]. split_and!; [lia|lia|done|done|lia| |done].
    unfold hash, load32. rewrite mload_some by lia. simpl. do 4 f_equal. lia.
Qed.

(** The state between two literals: either nothing has been written, or something was gained. *)
Definition settled (op pos : Z) : Prop := 6 * (op - op0) + 5 <= 7 * pos ∨ op = op0 ∧ pos = 0.

Lemma fragment_loop_spec k ip h next_emit table m op :
  0 <= next_emit < ip → ip + 4 <= mlen input → hash input ip shift = Some h → table_ok table ip →
  written m op next_emit → settled op next_emit → mlen input - ip < Z.of_nat k →
  ∃ m' op' pos, fragment_loop input shift ip_limit k ip h next_emit table m op = Some (m', op', pos) ∧
    0 <= pos <= mlen input ∧ written m' op' pos ∧ settled op' pos.
Proof.
  assert (kblock_size = 32768) as Hkb by done. unfold mlen in Hblock.
  revert ip h next_emit table m op.
  induction k as [|k IH]; intros ip h next_emit table m op Hne Hn Hh Ht Hw Hset Hk; [lia|].
  cbn [fragment_loop]. rewrite (proj2 (Z.ltb_lt next_emit ip)) by lia. cbn [check mbind option_bind].
  destruct (scan_spec (S (length input)) ip h 32 table) as (res & -> & Hres); [lia|lia|done|done|lia|lia|unfold mlen; lia|].
  cbn [mbind option_bind]. destruct res as [[[ip1 cand] table1]|].
  2: { exists m, op, next_emit. split; [done|]. split; [lia|done]. }
  destruct Hres as (Hle & H16 & Hc & Ht1 & Hm4). unfold ip_end.
  rewrite (proj2 (Z.leb_le (next_emit + 16) _)) by lia. cbn [check mbind option_bind].
  destruct (literal_cost_bounds (ip1 - next_emit)) as (_ & Hup & _); [lia|].
  destruct (written_literal m op next_emit (ip1 - next_emit) true) as (m1 & -> & Hw1); [done|lia|lia|lia| |lia|].
  { destruct Hset as [?|[-> ->]]; lia. }
  cbn [mbind option_bind]. replace (next_emit + (ip1 - next_emit)) with ip1 in Hw1 by lia.
  destruct (copy_loop_spec (S (length input)) ip1 cand table1 m1 (op + literal_cost (ip1 - next_emit))) as
    (m2 & op2 & ip2 & next & -> & Hip2 & Hw2 & Hcost2 & Hnext); [done|lia|done|done|done| |unfold mlen; lia|].
  { destruct Hset as [?|[-> ->]]; lia. }
  cbn [mbind option_bind]. destruct next as [[h2 table2]|].
  - destruct Hnext as (Hlim & Hh2 & Ht2). unfold kinput_margin_bytes in Hlim.
    apply IH; [lia|lia|done|done|done|by left|lia].
  - exists m2, op2, ip2. split; [done|]. split; [lia|]. split; [done|by left].
Qed.

End fragment.

(** * Blocks *)

Lemma table_size_loop_spec j k n :
  (8 <= k <= 14)%nat →
  ∃ k', table_size_loop j (2 ^ Z.of_nat k) n = 2 ^ Z.of_nat k' ∧ (8 <= k' <= 14)%nat.
Proof.
  revert k. induction j as [|j IH]; intros k Hk; cbn [table_size_loop]; [by exists k|].
  destruct (Z.ltb_spec (2 ^ Z.of_nat k) kmax_hash_table_size) as [Hlt|]; [|by exists k].
  destruct (2 ^ Z.of_nat k <? n); [|by exists k]. cbn [andb].
  rewrite Z.shiftl_mul_pow2 by done. rewrite <-Z.pow_add_r by lia.
  replace (Z.of_nat k + 1) with (Z.of_nat (S k)) by lia. apply IH.
  change kmax_hash_table_size with (2 ^ 14) in Hlt. apply Z.pow_lt_mono_r_iff in Hlt; lia.
Qed.

(** The facts about the sizes of tables that are checked at run time. *)
Definition table_size_ok (k : nat) : bool :=
  let size := 2 ^ Z.of_nat k in
  let shift := 32 - log2_floor size in
  (0 =? Z.land size (size - 1)) && (size <=? kmax_hash_table_size) && (0 <=? shift) &&
  (Z.shiftr 0xffffffff shift =? size - 1) && (Z.of_nat (Z.to_nat size) =? size) && (1 <=? size).

Lemma table_size_facts k : (8 <= k <= 14)%nat → table_size_ok k = true.
Proof. intros Hk. do 15 (destruct k as [|k]; [first [lia|vm_compute; reflexivity]|]). lia. Qed.

Lemma get_hash_table_spec n :
  ∃ k, get_hash_table n = Some (replicate (Z.to_nat (2 ^ Z.of_nat k)) 0, 2 ^ Z.of_nat k) ∧ (8 <= k <= 14)%nat.
Proof.
  unfold get_hash_table. destruct (table_size_loop_spec 7 8 n) as (k & Hk & Hr); [lia..|].
  change (2 ^ Z.of_nat 8) with 256 in Hk. rewrite Hk. pose proof (table_size_facts k Hr) as Hok.
  unfold table_size_ok in Hok. bool_simpl. exists k. split; [|done].
  rewrite (proj2 (Z.eqb_eq _ _)), (proj2 (Z.leb_le _ _)) by done. done.
Qed.

Lemma compress_fragment_spec input m op k :
  0 < mlen input <= kblock_size → 0 <= op → 6 * op + 7 * mlen input + 120 <= 6 * mlen m →
  (8 <= k <= 14)%nat →
  ∃ m' e, compress_fragment input m op (replicate (Z.to_nat (2 ^ Z.of_nat k)) 0) (2 ^ Z.of_nat k)
      = Some (m', op + mlen e) ∧ writes m op m' e ∧ (∀ prev, emits e prev (prev ++ input)) ∧
    6 * mlen e <= 7 * mlen input + 5 ∧ (6 <= mlen input → 6 * mlen e <= 7 * mlen input).
Proof.
  intros Hn Hop Hroom Hk. pose proof (table_size_facts k Hk) as Hok. unfold table_size_ok in Hok.
  bool_simpl. unfold compress_fragment. rewrite (proj2 (Z.leb_le _ kblock_size)) by lia.
  cbn [check mbind option_bind]. rewrite (proj2 (Z.eqb_eq (Z.land _ _) 0)) by done.
  cbn [check mbind option_bind]. set (size := 2 ^ Z.of_nat k) in *. set (shift := 32 - _) in *.
  rewrite (proj2 (Z.eqb_eq (Z.shiftr _ _) _)) by done. cbn [check mbind option_bind].
  assert (∃ m1 op1 pos, (if kinput_margin_bytes <=? mlen input
    then h ← hash input 1 shift;
         fragment_loop input shift (mlen input - kinput_margin_bytes) (S (length input)) 1 h 0
           (replicate (Z.to_nat size) 0) m op
    else Some (m, op, 0)) = Some (m1, op1, pos) ∧ 0 <= pos <= mlen input ∧ written input m op m1 op1 pos ∧
    settled op op1 pos) as (m1 & op1 & pos & -> & Hpos & Hw & Hset).
  { destruct (Z.leb_spec kinput_margin_bytes (mlen input)) as [Hbig|].
    - unfold kinput_margin_bytes in Hbig. destruct (hash_some input shift 1) as [b Hb]; [lia..|].
      rewrite Hb. cbn [mbind option_bind].
      apply (fragment_loop_spec input ltac:(lia) m op Hop Hroom shift (Z.to_nat size)); try done; try lia.
      + split; [apply length_replicate|]. intros i v [-> _]%lookup_replicate. lia.
      + apply written_start; [lia|lia].
      + by right.
      + unfold mlen. lia.
    - exists m, op, 0. split_and!; [done|lia|lia|apply written_start; [lia|lia]|by right]. }
  cbn [mbind option_bind]. destruct (Z.ltb_spec pos (mlen input)).
  - destruct (literal_cost_bounds (mlen input - pos)) as (_ & Hup & Hup6); [lia|].
    destruct (written_literal input ltac:(lia) m op Hop Hroom m1 op1 pos (mlen input - pos) false) as
      (m2 & -> & e & W & Heq & E); [done|lia..| |done|].
    { destruct Hset as [?|[-> ->]]; lia. }
    replace (pos + (mlen input - pos)) with (mlen input) in E by lia.
    rewrite take_ge in E by (unfold mlen; lia). exists m2, e.
    split_and!; [by rewrite Heq|done|done|destruct Hset as [?|[-> ->]]; lia|].
    intros H6. destruct Hset as [?|[-> ->]]; lia.
  - destruct Hw as (e & W & -> & E). rewrite take_ge in E by (unfold mlen in *; lia).
    exists m1, e. split_and!; [done..| |]; destruct Hset as [?|[? ->]]; lia.
Qed.

Lemma compress_loop_spec k input N reader m dest :
  0 <= N < 2 ^ 31 → s_left reader = N → 0 <= s_ptr reader → s_ptr reader + N = mlen input →
  0 <= dest → 6 * dest + 7 * N + 120 <= 6 * mlen m → N < Z.of_nat k →
  ∃ m' e, compress_loop k input N reader (mk_sink m dest) = Some (mk_sink m' (dest + mlen e), 0) ∧
    writes m dest m' e ∧ (∀ prev, emits e prev (prev ++ drop (Z.to_nat (s_ptr reader)) input)) ∧
    6 * mlen e <= 7 * N + 5.
Proof.
  assert (kblock_size = 32768) as Hkb by done. revert N reader m dest.
  induction k as [|k IH]; intros N reader m dest HN Hleft Hptr Hsum Hdest Hroom Hk; [lia|].
  cbn [compress_loop]. destruct (Z.ltb_spec 0 N).
  2: { exists m, []. change (mlen []) with 0. rewrite Z.add_0_r.
       split_and!; [done|apply writes_nil; lia| |lia]. intros prev.
       rewrite drop_ge by (unfold mlen in *; lia). rewrite app_nil_r. apply emits_nil. }
  unfold source_peek. rewrite Hleft, (proj2 (Z.eqb_neq N 0)) by lia.
  set (s := Z.min N kblock_size). rewrite (proj2 (Z.leb_le s N)) by lia. cbn [check mbind option_bind].
  destruct (get_hash_table_spec s) as (j & -> & Hj). cbn [mbind option_bind].
  rewrite mload_some by lia. cbn [mbind option_bind k_mem k_dest].
  assert (mlen (sub_bytes input (s_ptr reader) s) = s) as Hs.
  { unfold mlen. rewrite sub_bytes_length; lia. }
  destruct (compress_fragment_spec (sub_bytes input (s_ptr reader) s) m dest j) as
    (m1 & e1 & -> & W1 & E1 & C1 & C6); [lia..|]. cbn [mbind option_bind]. rewrite Hs in C1, C6.
  pose proof (mlen_nonneg e1). assert (mlen m1 = mlen m) as Hm1 by (unfold mlen; by rewrite (proj1 W1)).
  unfold sink_advance. cbn [k_mem k_dest]. replace (dest + (dest + mlen e1 - dest)) with (dest + mlen e1) by lia.
  assert (s = N ∨ s = 32768) as Hcase by lia.
  destruct (IH (N - s) (source_skip reader s) m1 (dest + mlen e1)) as (m2 & e2 & -> & W2 & E2 & C2);
    try lia; [|simpl; lia..|].
  { simpl. rewrite Hleft. unfold wrap_u. rewrite Z.mod_small; lia. }
  exists m2, (e1 ++ e2). rewrite mlen_app. split_and!.
  - do 3 f_equal. lia.
  - by eapply writes_app.
  - intros prev. eapply emits_app; [apply E1|]. cbn [source_skip s_ptr] in E2.
    replace (drop (Z.to_nat (s_ptr reader)) input) with
      (sub_bytes input (s_ptr reader) s ++ drop (Z.to_nat (s_ptr reader + s)) input).
    + rewrite app_assoc. apply E2.
    + unfold sub_bytes. rewrite Z2Nat.inj_add, <-drop_drop by lia. apply take_drop.
  - pose proof (mlen_nonneg e2). lia.
Qed.

(** * The compressor *)

Lemma varint_encode32_length v : 1 <= mlen (varint_encode32 v) <= 5.
Proof. unfold varint_encode32. repeat case_match; unfold mlen; simpl; lia. Qed.

Lemma compress_run input compressed :
  mlen input < 2 ^ 31 → snappy_max_compressed_length (mlen input) <= mlen compressed →
  ∃ m len, snappy_compress input compressed = Some (m, len, 0) ∧ mlen m = mlen compressed ∧
    0 <= len <= snappy_max_compressed_length (mlen input) ∧
    snappy_format (take (Z.to_nat len) m) = Some input.
Proof.
  intros Hsmall Hroom. pose proof (mlen_nonneg input). unfold snappy_max_compressed_length in *.
  assert (6 * (mlen input / 6) >= mlen input - 5) as Hdiv by divlia.
  unfold snappy_compress, compress_all, available. cbn [s_left].
  rewrite wrap_s_small by (simpl; lia). unfold wrap_u. rewrite Z.mod_small by lia.
  set (v := varint_encode32 (mlen input)). pose proof (varint_encode32_length (mlen input)) as Hv.
  fold v in Hv. unfold sink_append. cbn [k_mem k_dest].
  destruct (mstore_writes compressed 0 v) as (m1 & -> & W1); [lia|lia|]. cbn [mbind option_bind].
  assert (mlen m1 = mlen compressed) as Hm1 by (unfold mlen; by rewrite (proj1 W1)).
  destruct (compress_loop_spec (S (length input)) input (mlen input) (mk_source 0 (mlen input)) m1 (0 + mlen v))
    as (m2 & e & -> & W2 & E & C); cbn [s_left s_ptr]; try lia; [unfold mlen; lia|].
  cbn [mbind option_bind k_mem k_dest]. pose proof (mlen_nonneg e).
  pose proof (writes_app _ _ _ _ _ _ W1 W2) as (Hl & _ & _ & Ht). rewrite mlen_app in Ht.
  exists m2, (0 + mlen v + mlen e). split_and!; [done|unfold mlen; by rewrite Hl|lia|lia|].
  replace (0 + mlen v + mlen e) with (0 + (mlen v + mlen e)) by lia. rewrite Ht. change (Z.to_nat 0) with 0%nat.
  rewrite take_0, app_nil_l. unfold snappy_format, v. rewrite varint_roundtrip by lia. fold v.
  cbn [mbind option_bind].
  replace (drop (Z.to_nat (mlen v)) (v ++ e)) with e
    by (unfold mlen; by rewrite Nat2Z.id, drop_app_length).
  pose proof (E [] []) as He. rewrite app_nil_r in He.
  rewrite He, decode_nil. cbn [mbind option_bind app s_ptr]. rewrite drop_0, Z.eqb_refl. done.
Qed.
