(* ===== verification/SnappyCodec.v ===== *)
(** What src/lib/snappy-c/snappy.c promises to its callers, put together from SnappyDecode.v and
    SnappyEncode.v, and the record compression of src/src/path_repo.c and src/src/property.c under
    [USE_SNAPPY] as an instance of the [Codec] contract. *)
From S2P Require Import Prelude Interfaces Snappy SnappyFormat SnappyDecode SnappyEmit SnappyEncode.

Open Scope Z_scope.

(** * The reference for match lengths *)

Fixpoint common_prefix (a b : bytes) : Z :=
  match a, b with
  | x :: a, y :: b => if decide (x = y) then 1 + common_prefix a b else 0
  | _, _ => 0
  end.

Lemma common_prefix_unique a b r :
  (r <= length a)%nat → (r <= length b)%nat → take r a = take r b →
  ((r < length b)%nat → a !! r ≠ b !! r) → common_prefix a b = Z.of_nat r.
Proof.
  revert a b. induction r as [|r IH]; intros [|x a] [|y b] Ha Hb Heq Hne; simpl in *; try done; try lia.
  - case_decide; [|done]. subst. destruct Hne; [lia|done].
  - injection Heq as <- Heq. rewrite decide_True by done. rewrite (IH a b); try lia; try done.
    intros Hr. apply Hne. lia.
Qed.

(** * Records *)

Lemma snappy_max_nonneg data : 0 <= snappy_max_compressed_length (mlen data).
Proof. pose proof (mlen_nonneg data). unfold snappy_max_compressed_length. divlia. Qed.

Section codec.

(** The contents of the allocated buffers and of the decompressor's scratch bytes. *)
Variables (buf : Z → bytes) (scratch : bytes).

(** Fills [snappy_max_compressed_length] allocated bytes. *)
Definition snappy_record (data : bytes) : option bytes :=
  '(m, dsize, ret) ← snappy_compress data (buf (snappy_max_compressed_length (mlen data)));
  if negb (ret =? 0) then None else Some (take (Z.to_nat dsize) m).

Definition snappy_unrecord (val : bytes) : option bytes :=
  dsize ← snappy_uncompressed_length val;
  '(m, ret) ← snappy_uncompress val (buf dsize) scratch;
  if negb (ret =? 0) then None else Some m.

Hypothesis buf_length : ∀ n, 0 <= n → mlen (buf n) = n.
Hypothesis scratch_length : length scratch = 5%nat.

Lemma snappy_unrecord_format val out :
  mlen val < 2 ^ 32 → snappy_format val = Some out → snappy_unrecord val = Some out.
Proof.
  intros Hsmall Hf. unfold snappy_unrecord, snappy_uncompressed_length.
  destruct (varint_parse32_with_limit val) as [[n k]|] eqn:Hv.
  2:{ unfold snappy_format in Hf. by rewrite Hv in Hf. }
  cbn [fst fmap option_fmap option_map mbind option_bind].
  pose proof (varint_groups_range _ _ _ _ _ _ _ Hv ltac:(lia)) as [Hn _].
  assert (mlen (buf n) = n) as Hb by (apply buf_length; lia).
  destruct (uncompress_run val (buf n) scratch n k) as (m & ret & -> & Hret); try done; [lia|].
  rewrite Hf in Hret. destruct Hret as (-> & Hm & Ht). cbn [mbind option_bind]. simpl negb. cbn match.
  rewrite <-Ht. f_equal. rewrite take_ge; [done|]. unfold mlen in *. lia.
Qed.

Lemma snappy_unrecord_record data val :
  mlen data < 2 ^ 31 → snappy_record data = Some val → snappy_unrecord val = Some data.
Proof.
  intros Hsmall Hc. unfold snappy_record in Hc. pose proof (snappy_max_nonneg data) as Hmax.
  pose proof (mlen_nonneg data) as Hd.
  destruct (compress_run data (buf (snappy_max_compressed_length (mlen data)))) as
    (m & len & Hrun & Hm & Hlen & Hf); [done|by rewrite buf_length|].
  rewrite Hrun in Hc. cbn [mbind option_bind] in Hc. simpl negb in Hc. cbn match in Hc.
  injection Hc as <-. apply snappy_unrecord_format; [|done].
  unfold snappy_max_compressed_length in *. unfold mlen in *. rewrite length_take. divlia.
Qed.

(** With [USE_SNAPPY]. *)
Definition codec_snappy : Codec :=
  {| compress := snappy_record; uncompress := snappy_unrecord;
     uncompress_compress := snappy_unrecord_record |}.

End codec.

(** * Properties *)

(** C15. Decompression is total and memory safe on every input, valid or not, and decides the
    format: when the length prefix can be parsed and the output buffer has that many bytes, no
    load or store leaves a buffer and no assertion fails; data that stands for a text in the
    reference format is accepted and the text is written, everything else is rejected with
    [-EIO]. *)
Theorem snappy_uncompress_correct (compressed uncompressed scratch : bytes) (n : Z) :
  mlen compressed < 2 ^ 32 → length scratch = 5%nat →
  snappy_uncompressed_length compressed = Some n → n <= mlen uncompressed →
  ∃ m ret, snappy_uncompress compressed uncompressed scratch = Some (m, ret) ∧
    match snappy_format compressed with
    | Some out => ret = 0 ∧ mlen m = mlen uncompressed ∧ take (Z.to_nat n) m = out
    | None => ret = - EIO
    end.
Proof.
  intros Hsmall Hscr Hlen Hbuf. unfold snappy_uncompressed_length in Hlen.
  destruct (varint_parse32_with_limit compressed) as [[n' k]|] eqn:Hv; [|done].
  injection Hlen as ->. by apply (uncompress_run _ _ _ n k).
Qed.

(** Sixteen bytes from a literal and an overlapping copy; then a copy that reaches back too far. *)
Definition sample_valid : bytes := byte_of_Z <$> [16; 0; 97; 58; 1; 0].
Definition sample_invalid : bytes := byte_of_Z <$> [16; 0; 97; 58; 2; 0].

Lemma snappy_uncompress_correct_witness :
  snappy_format sample_valid = Some (replicate 16 (byte_of_Z 97)) ∧
  (∃ m, snappy_uncompress sample_valid (replicate 16 (byte_of_Z 0)) (replicate 5 (byte_of_Z 0))
     = Some (m, 0)) ∧
  ∃ m, snappy_uncompress sample_invalid (replicate 16 (byte_of_Z 0)) (replicate 5 (byte_of_Z 0))
     = Some (m, - EIO).
Proof.
  split; [vm_compute; reflexivity|]. split.
  - destruct (snappy_uncompress_correct sample_valid (replicate 16 (byte_of_Z 0))
      (replicate 5 (byte_of_Z 0)) 16) as (m & ret & Hr & Hret);
      [reflexivity|reflexivity|reflexivity|vm_compute; congruence|].
    assert (snappy_format sample_valid = Some (replicate 16 (byte_of_Z 97))) as Hf
      by (vm_compute; reflexivity).
    rewrite Hf in Hret. destruct Hret as [-> _]. exists m. exact Hr.
  - destruct (snappy_uncompress_correct sample_invalid (replicate 16 (byte_of_Z 0))
      (replicate 5 (byte_of_Z 0)) 16) as (m & ret & Hr & Hret);
      [reflexivity|reflexivity|reflexivity|vm_compute; congruence|].
    assert (snappy_format sample_invalid = None) as Hf by (vm_compute; reflexivity).
    rewrite Hf in Hret. rewrite Hret in Hr. exists m. exact Hr.
Defined.

(** C16. Compression of less than two gigabytes always succeeds: it stays inside a buffer of
    [snappy_max_compressed_length] bytes whatever that contains, returns 0 and a length within
    the announced maximum, and what it has written stands for the input in the reference
    format. *)
Theorem snappy_compress_correct (input compressed : bytes) :
  mlen input < 2 ^ 31 → snappy_max_compressed_length (mlen input) <= mlen compressed →
  ∃ m len, snappy_compress input compressed = Some (m, len, 0) ∧ mlen m = mlen compressed ∧
    0 <= len <= snappy_max_compressed_length (mlen input) ∧
    snappy_format (take (Z.to_nat len) m) = Some input.
Proof. apply compress_run. Qed.

Definition sample_text : bytes := str "abcdefgh-abcdefgh-abcdefgh-abcdefgh-abcdefgh".

Lemma snappy_compress_correct_witness :
  ∃ m, snappy_compress sample_text (replicate 90 (byte_of_Z 255)) = Some (m, 14, 0) ∧
    snappy_format (take 14 m) = Some sample_text.
Proof.
  destruct (snappy_compress_correct sample_text (replicate 90 (byte_of_Z 255))) as
    (m & len & Hrun & _ & _ & Hf); [reflexivity|vm_compute; congruence|].
  exists m. assert ((λ x, x.1.2) <$> snappy_compress sample_text (replicate 90 (byte_of_Z 255)) = Some 14)
    as Hlen by (vm_compute; reflexivity).
  rewrite Hrun in Hlen. simpl in Hlen. injection Hlen as ->. split; [exact Hrun|exact Hf].
Defined.

(** C19. Records survive: whatever the allocated buffers contain, the data [path_repo_commit] and
    [property_store] compress is what [pr_reconstruct] and [property_load] get back. *)
Theorem snappy_record_roundtrip (buf buf' : Z → bytes) (scratch data : bytes) :
  (∀ n, 0 <= n → mlen (buf n) = n) → (∀ n, 0 <= n → mlen (buf' n) = n) → length scratch = 5%nat →
  mlen data < 2 ^ 31 →
  ∃ val, snappy_record buf data = Some val ∧ snappy_unrecord buf' scratch val = Some data.
Proof.
  intros Hbuf Hbuf' Hscr Hsmall. pose proof (snappy_max_nonneg data) as Hmax.
  destruct (compress_run data (buf (snappy_max_compressed_length (mlen data)))) as
    (m & len & Hrun & Hm & Hlen & Hf); [done|rewrite Hbuf by done; reflexivity|].
  exists (take (Z.to_nat len) m). split; [by unfold snappy_record; rewrite Hrun|].
  apply snappy_unrecord_format; [done..| |done]. pose proof (mlen_nonneg data).
  unfold snappy_max_compressed_length in *. unfold mlen in *. rewrite length_take. divlia.
Qed.

Definition sample_buf (c n : Z) : bytes := replicate (Z.to_nat n) (byte_of_Z c).

Lemma sample_buf_length c n : 0 <= n → mlen (sample_buf c n) = n.
Proof. intros. unfold mlen, sample_buf. rewrite length_replicate. lia. Qed.

Lemma snappy_record_roundtrip_witness :
  ∃ val, snappy_record (sample_buf 7) sample_text = Some val ∧ length val = 14%nat ∧
    snappy_unrecord (sample_buf 9) (replicate 5 (byte_of_Z 0)) val = Some sample_text.
Proof.
  destruct (snappy_record_roundtrip (sample_buf 7) (sample_buf 9) (replicate 5 (byte_of_Z 0)) sample_text)
    as (val & Hc & Hu); [apply sample_buf_length|apply sample_buf_length|reflexivity|reflexivity|].
  exists val. split; [exact Hc|]. split; [|exact Hu].
  assert (length <$> snappy_record (sample_buf 7) sample_text = Some 14%nat) as Hl
    by (vm_compute; reflexivity).
  rewrite Hc in Hl. injection Hl as Hl. exact Hl.
Defined.

(** C20. The word-wise match search is the byte-wise one: comparing eight bytes at a time and
    locating the first difference by its lowest set bit yields the length of the longest common
    prefix of the two positions, never past the limit. *)
Theorem snappy_find_match_length_correct (input : bytes) (s1 s2 s2_limit : Z) :
  0 <= s1 < s2 → s2 <= s2_limit <= mlen input →
  find_match_length input s1 s2 s2_limit =
    Some (common_prefix (drop (Z.to_nat s1) input) (sub_bytes input s2 (s2_limit - s2))).
Proof.
  intros Hs Hl. destruct (find_match_length_spec input s1 s2 s2_limit) as (r & -> & Hr & Heq & Hne);
    [done..|]. f_equal. symmetry. unfold sub_bytes in *. unfold mlen in Hl.
  rewrite (common_prefix_unique _ _ (Z.to_nat r)); [lia|..].
  - rewrite length_drop. lia.
  - rewrite length_take, length_drop. lia.
  - rewrite take_take, Heq. f_equal. lia.
  - rewrite length_take, length_drop. intros Hlt. rewrite lookup_take_lt by lia. rewrite !lookup_drop.
    rewrite <-!Z2Nat.inj_add by lia. apply Hne. lia.
Qed.

Lemma snappy_find_match_length_correct_witness :
  find_match_length sample_text 0 9 44 = Some 35 ∧
  common_prefix sample_text (sub_bytes sample_text 9 35) = 35.
Proof.
  pose proof (snappy_find_match_length_correct sample_text 0 9 44 ltac:(lia)
    ltac:(vm_compute; split; congruence)) as H.
  assert (common_prefix sample_text (sub_bytes sample_text 9 35) = 35) as Hc by (vm_compute; reflexivity).
  split; [|exact Hc]. change (44 - 9) with 35 in H. change (drop (Z.to_nat 0) sample_text) with sample_text in H.
  rewrite Hc in H. exact H.
Defined.
