(* ===== verification/Rhash.v ===== *)
(** The owning hash table of src/rhash.c.

    APR hash tables keep the key and value pointers they are given; [rhash] wraps one whose
    keys and values it allocates and frees itself.  The model makes that ownership explicit:
    a heap of live allocations, a table from key contents to the stored key pointer and entry
    pointer, and [None] for every use of memory that is not allocated.  The theorems show that
    the operations never touch or free a dead cell, leak nothing, and implement a finite map. *)
From S2P Require Import Prelude.

Open Scope Z_scope.

(** * Data *)

Abbreviation loc := nat.

(** A live allocation: a copied buffer, or an [entry_t]. *)
Inductive cell :=
  | CBuf (b : bytes)
  | CEntry (key val : loc).

Record rhash := mk_rhash {
  rh_heap : gmap loc cell;
  (** The [apr_hash_t]: contents of the key, the stored key pointer, the stored value pointer. *)
  rh_table : gmap bytes (loc * loc)
}.

(** [RHASH_VAL_STRING] and [APR_HASH_KEY_STRING] are [None], an explicit length is [Some n]. *)
Abbreviation rh_len := (option nat).

(** * Memory *)

Definition heap_alloc (h : gmap loc cell) (c : cell) : gmap loc cell * loc :=
  let l := fresh (dom h) in (<[l := c]> h, l).

(** [free(p)]: undefined on a pointer that is not a live allocation. *)
Definition heap_free (h : gmap loc cell) (l : loc) : option (gmap loc cell) :=
  match h !! l with Some _ => Some (delete l h) | None => None end.

Definition heap_buf (h : gmap loc cell) (l : loc) : option bytes :=
  match h !! l with Some (CBuf b) => Some b | _ => None end.

Definition heap_entry (h : gmap loc cell) (l : loc) : option (loc * loc) :=
  match h !! l with Some (CEntry k v) => Some (k, v) | _ => None end.

(** The bytes [strdup] copies of a C string, or [memcpy] of a buffer with a length; reading
    past the buffer is undefined. *)
Definition rh_bytes (b : bytes) (len : rh_len) : option bytes :=
  match len with
  | None => Some b
  | Some n => if (n <=? length b)%nat then Some (take n b) else None
  end.

(** * Operations *)

Definition rhash_make : rhash := mk_rhash ∅ ∅.

Definition entry_free (h : gmap loc cell) (e : loc) : option (gmap loc cell) :=
  '(k, v) ← heap_entry h e;
  h ← heap_free h k;
  h ← heap_free h v;
  heap_free h e.

Definition rhash_set (ht : rhash) (key : bytes) (klen : rh_len) (val : option bytes)
    (vlen : rh_len) : option rhash :=
  k ← rh_bytes key klen;
  let entry := rh_table ht !! k in
  match val with
  | None =>
      (* Deletion *)
      match entry with
      | Some (_, e) =>
          h ← entry_free (rh_heap ht) e;
          Some (mk_rhash h (delete k (rh_table ht)))
      | None => Some ht
      end
  | Some val =>
      match entry with
      | Some (_, e) =>
          (* Replacement: free the old value *)
          '(ek, ev) ← heap_entry (rh_heap ht) e;
          h ← heap_free (rh_heap ht) ev;
          v ← rh_bytes val vlen;
          let '(h, l) := heap_alloc h (CBuf v) in
          Some (mk_rhash (<[e := CEntry ek l]> h) (rh_table ht))
      | None =>
          (* Normal insert: duplicate both key and value *)
          let '(h, e) := heap_alloc (rh_heap ht) (CBuf []) in
          let '(h, kl) := heap_alloc h (CBuf k) in
          v ← rh_bytes val vlen;
          let '(h, vl) := heap_alloc h (CBuf v) in
          Some (mk_rhash (<[e := CEntry kl vl]> h) (<[k := (kl, e)]> (rh_table ht)))
      end
  end.

(** [Some None] is the NULL pointer, [Some (Some b)] a pointer to a buffer holding [b]. *)
Definition rhash_get (ht : rhash) (key : bytes) (klen : rh_len) : option (option bytes) :=
  k ← rh_bytes key klen;
  match rh_table ht !! k with
  | Some (_, e) => '(_, v) ← heap_entry (rh_heap ht) e; b ← heap_buf (rh_heap ht) v; Some (Some b)
  | None => Some None
  end.

Definition rhash_count (ht : rhash) : nat := size (rh_table ht).

(** [rhash_this]: the C function assigns to its parameter [val] instead of through it, so the
    caller's variable keeps the value it had ([val] here). *)
Definition rhash_this {V} (hi : bytes * (loc * loc)) (val : V) : bytes * V := (hi.1, val).

Section rhash_clear.
Context `{HashIter}.

Definition rhash_clear (ht : rhash) : option rhash :=
  (* Insert all values into an array, and free it afterwards *)
  let arr := (λ kv, snd (snd kv)) <$> hash_iter (rh_table ht) in
  h ← foldr (λ e acc, h ← acc; entry_free h e) (Some (rh_heap ht)) arr;
  Some (mk_rhash h ∅).
End rhash_clear.

(** * Representation *)

(** [rh_rep t m h]: the table [t] stores the map [m], and the live allocations [h] are exactly
    the key buffer, the [entry_t] and the value buffer of each entry, all distinct.  Every
    operation is shown to keep it, so none uses a dead cell and none leaks. *)
Inductive rh_rep : gmap bytes (loc * loc) → gmap bytes bytes → gmap loc cell → Prop :=
  | rh_rep_empty : rh_rep ∅ ∅ ∅
  | rh_rep_entry t m h k kl e vl v :
      rh_rep t m h → t !! k = None →
      h !! kl = None → h !! e = None → h !! vl = None → kl ≠ e → kl ≠ vl → e ≠ vl →
      rh_rep (<[k := (kl, e)]> t) (<[k := v]> m)
        (<[e := CEntry kl vl]> (<[vl := CBuf v]> (<[kl := CBuf k]> h))).

(** [ht] implements the finite map [m]. *)
Definition rh_models (ht : rhash) (m : gmap bytes bytes) : Prop :=
  rh_rep (rh_table ht) m (rh_heap ht).

(** The three cells of an entry, cut out of a represented table. *)
Record rh_cut t m h k kl e vl v : Prop := {
  cut_e : h !! e = Some (CEntry kl vl);
  cut_k : h !! kl = Some (CBuf k);
  cut_v : h !! vl = Some (CBuf v);
  cut_m : m !! k = Some v;
  cut_ke : kl ≠ e;
  cut_kv : kl ≠ vl;
  cut_ev : e ≠ vl;
  cut_rest : rh_rep (delete k t) (delete k m) (delete e (delete vl (delete kl h)))
}.

Lemma rh_rep_dom t m h k : rh_rep t m h → t !! k = None ↔ m !! k = None.
Proof.
  induction 1 as [|t m h k' kl e vl v Hrep IH]; [by rewrite !lookup_empty|].
  destruct (decide (k' = k)) as [->|]; [by rewrite !lookup_insert_eq|].
  by rewrite !lookup_insert_ne.
Qed.

Lemma rh_rep_extract t m h k kl e :
  rh_rep t m h → t !! k = Some (kl, e) → ∃ vl v, rh_cut t m h k kl e vl v.
Proof.
  induction 1 as [|t m h k' kl' e' vl' v' Hrep IH Hk' Hnk Hne Hnv Hke Hkv Hev]; intros Ht.
  { by rewrite lookup_empty in Ht. }
  destruct (decide (k' = k)) as [->|Hk].
  - rewrite lookup_insert_eq in Ht. injection Ht as <- <-. exists vl', v'.
    assert (m !! k = None) by by apply (rh_rep_dom t m h k).
    split; simplify_map_eq; try done.
    rewrite !delete_insert_id by done.
    replace (delete _ _) with h; [done|]. apply map_eq. intros l.
    destruct (decide (l = e')) as [->|]; [by simplify_map_eq|].
    destruct (decide (l = vl')) as [->|]; [by simplify_map_eq|].
    destruct (decide (l = kl')) as [->|]; by simplify_map_eq.
  - rewrite lookup_insert_ne in Ht by done. destruct (IH Ht) as (vl & v & [He Hkl Hv Hm ? ? ? Hrest]).
    exists vl, v.
    assert (∀ x c, h !! x = Some c → x ≠ e' ∧ x ≠ vl' ∧ x ≠ kl') as Hx
      by (intros x c Hx; split_and!; congruence).
    destruct (Hx _ _ He) as (? & ? & ?), (Hx _ _ Hkl) as (? & ? & ?),
      (Hx _ _ Hv) as (? & ? & ?).
    split; rewrite ?lookup_insert_ne by done; try done.
    rewrite !delete_insert_ne by done. apply rh_rep_entry; try done;
      by rewrite !lookup_delete_ne by done.
Qed.

(** Putting an entry (back) over a represented table. *)
Lemma rh_rep_put t m h k kl e vl v h' :
  rh_rep (delete k t) (delete k m) h →
  h !! kl = None → h !! e = None → h !! vl = None → kl ≠ e → kl ≠ vl → e ≠ vl →
  h' = <[e := CEntry kl vl]> (<[vl := CBuf v]> (<[kl := CBuf k]> h)) →
  rh_rep (<[k := (kl, e)]> t) (<[k := v]> m) h'.
Proof.
  intros Hrep ? ? ? ? ? ? ->. rewrite <-(insert_delete_eq t), <-(insert_delete_eq m).
  apply rh_rep_entry; try done. by rewrite lookup_delete_eq.
Qed.

(** * The operations implement a finite map *)

Lemma heap_alloc_fresh h c l : heap_alloc h c = (<[l := c]> h, l) → h !! l = None.
Proof. unfold heap_alloc. intros [= _ <-]. apply not_elem_of_dom, is_fresh. Qed.

Lemma rhash_make_models : rh_models rhash_make ∅.
Proof. constructor. Qed.

Lemma entry_free_cut t m h k kl e vl v :
  rh_cut t m h k kl e vl v → entry_free h e = Some (delete e (delete vl (delete kl h))).
Proof.
  intros [He Hk Hv _ ? ? ? _]. unfold entry_free, heap_entry, heap_free. rewrite He. simpl.
  rewrite Hk. simpl. rewrite lookup_delete_ne, Hv by done. simpl.
  by rewrite !lookup_delete_ne, He by done.
Qed.

Lemma rhash_get_models ht m key klen k :
  rh_models ht m → rh_bytes key klen = Some k → rhash_get ht key klen = Some (m !! k).
Proof.
  intros Hm Hk. unfold rhash_get. rewrite Hk. simpl.
  destruct (rh_table ht !! k) as [[kl e]|] eqn:Ht.
  - destruct (rh_rep_extract _ _ _ _ _ _ Hm Ht) as (vl & v & [He _ Hv Hmk _ _ _ _]).
    unfold heap_entry, heap_buf. rewrite He. simpl. rewrite Hv. simpl. by rewrite Hmk.
  - by rewrite (proj1 (rh_rep_dom _ _ _ k Hm) Ht).
Qed.

Lemma rhash_delete_models ht m key klen k vlen :
  rh_models ht m → rh_bytes key klen = Some k →
  ∃ ht', rhash_set ht key klen None vlen = Some ht' ∧ rh_models ht' (delete k m).
Proof.
  intros Hm Hk. unfold rhash_set. rewrite Hk. simpl.
  destruct (rh_table ht !! k) as [[kl e]|] eqn:Ht.
  - destruct (rh_rep_extract _ _ _ _ _ _ Hm Ht) as (vl & v & Hcut).
    rewrite (entry_free_cut _ _ _ _ _ _ _ _ Hcut). simpl. eexists. split; [done|].
    apply Hcut.
  - eexists. split; [done|]. by rewrite delete_id by by apply (rh_rep_dom _ _ _ k Hm).
Qed.

(** Replacement: the entry and its key stay, the value buffer is freed and allocated anew. *)
Lemma rhash_replace_models ht m key klen k kl e val vlen v :
  rh_models ht m → rh_bytes key klen = Some k → rh_bytes val vlen = Some v →
  rh_table ht !! k = Some (kl, e) →
  ∃ ht', rhash_set ht key klen (Some val) vlen = Some ht' ∧ rh_models ht' (<[k := v]> m).
Proof.
  intros Hm Hk Hv Ht. unfold rhash_set. rewrite Hk, Hv. simpl. rewrite Ht.
  destruct (rh_rep_extract _ _ _ _ _ _ Hm Ht) as (vl & v0 & [He Hkl Hvl Hmk ? ? ? Hrest]).
  unfold heap_entry, heap_free. rewrite He. simpl. rewrite Hvl. simpl. eexists. split; [done|].
  set (h := delete vl (rh_heap ht)). set (l := fresh (dom h)).
  assert (h !! l = None) as Hl by (apply not_elem_of_dom, is_fresh).
  assert (h !! e = Some (CEntry kl vl)) as Hhe by (unfold h; by rewrite lookup_delete_ne).
  assert (h !! kl = Some (CBuf k)) as Hhk by (unfold h; by rewrite lookup_delete_ne).
  assert (l ≠ e ∧ l ≠ kl) as [? ?] by (split; congruence).
  unfold rh_models. simpl. rewrite <-(insert_id (rh_table ht) k (kl, e)) by done.
  eapply rh_rep_put with (vl := l); [exact Hrest| | | |congruence..|].
  + by simplify_map_eq.
  + by simplify_map_eq.
  + rewrite lookup_delete_ne by done. fold h.
    destruct (decide (l = vl)) as [Heq|]; [by rewrite Heq, lookup_delete_eq|].
    rewrite lookup_delete_ne by done.
    destruct (decide (l = kl)); [done|]. rewrite lookup_delete_ne by done.
    unfold h in Hl. by rewrite lookup_delete_ne in Hl.
  + apply map_eq. intros x. unfold h. destruct (decide (x = e)) as [->|].
    { by rewrite !lookup_insert_eq. }
    rewrite !(lookup_insert_ne _ e) by done.
    destruct (decide (x = l)) as [->|]; [by rewrite !lookup_insert_eq|].
    rewrite !(lookup_insert_ne _ l) by done.
    destruct (decide (x = kl)) as [->|].
    { rewrite lookup_insert_eq. by rewrite lookup_delete_ne. }
    rewrite lookup_insert_ne, (lookup_delete_ne _ e) by done.
    destruct (decide (x = vl)) as [->|]; [by rewrite !lookup_delete_eq|].
    by rewrite !lookup_delete_ne by done.
Qed.

(** Insertion of a new key: three fresh allocations. *)
Lemma rhash_add_models ht m key klen k val vlen v :
  rh_models ht m → rh_bytes key klen = Some k → rh_bytes val vlen = Some v →
  rh_table ht !! k = None →
  ∃ ht', rhash_set ht key klen (Some val) vlen = Some ht' ∧ rh_models ht' (<[k := v]> m).
Proof.
  intros Hm Hk Hv Ht. unfold rhash_set. rewrite Hk, Hv. simpl. rewrite Ht. simpl.
  set (e := fresh (dom (rh_heap ht))).
  set (h1 := <[e := CBuf []]> (rh_heap ht)). set (kl := fresh (dom h1)).
  set (h2 := <[kl := CBuf k]> h1). set (vl := fresh (dom h2)).
  assert (rh_heap ht !! e = None) as He by (apply not_elem_of_dom, is_fresh).
  assert (h1 !! kl = None) as Hkl by (apply not_elem_of_dom, is_fresh).
  assert (h2 !! vl = None) as Hvl by (apply not_elem_of_dom, is_fresh).
  apply lookup_insert_None in Hkl as [Hkl ?]. apply lookup_insert_None in Hvl as [Hvl ?].
  apply lookup_insert_None in Hvl as [Hvl ?].
  eexists. split; [done|]. unfold rh_models. simpl.
  eapply (rh_rep_put _ _ (rh_heap ht) k kl e vl v); try done.
  + rewrite !delete_id by (done || by apply (rh_rep_dom _ _ _ k Hm)). done.
  + unfold h2, h1. apply map_eq. intros x.
    destruct (decide (x = e)) as [->|]; [by rewrite !lookup_insert_eq|].
    rewrite !(lookup_insert_ne _ e) by done.
    destruct (decide (x = vl)) as [->|]; [by rewrite !lookup_insert_eq|].
    rewrite !(lookup_insert_ne _ vl) by done.
    destruct (decide (x = kl)) as [->|]; [by rewrite !lookup_insert_eq|].
    by rewrite !lookup_insert_ne by done.
Qed.

Lemma rhash_insert_models ht m key klen k val vlen v :
  rh_models ht m → rh_bytes key klen = Some k → rh_bytes val vlen = Some v →
  ∃ ht', rhash_set ht key klen (Some val) vlen = Some ht' ∧ rh_models ht' (<[k := v]> m).
Proof.
  intros Hm Hk Hv. destruct (rh_table ht !! k) as [[kl e]|] eqn:Ht.
  - eapply rhash_replace_models; eauto.
  - eapply rhash_add_models; eauto.
Qed.

Section clear.
Context `{HashIter}.

Lemma entries_free_all t m h (l : list (bytes * (loc * loc))) :
  rh_rep t m h → l ≡ₚ map_to_list t →
  foldr (λ e acc, h ← acc; entry_free h e) (Some h) ((λ kv, kv.2.2) <$> l) = Some ∅.
Proof.
  revert t m h. induction l as [|[k [kl e]] l IH] using rev_ind; intros t m h Hrep Hl.
  - symmetry in Hl. apply Permutation_nil_r, map_to_list_empty_iff in Hl. subst t.
    inversion Hrep as [| ? ? ? ? ? ? ? ? ? ? ? ? ? ? ? ? Hins]; simplify_eq; [done|].
    by apply insert_non_empty in Hins.
  - assert (t !! k = Some (kl, e)) as Ht.
    { apply elem_of_map_to_list. rewrite <-Hl. set_solver. }
    destruct (rh_rep_extract _ _ _ _ _ _ Hrep Ht) as (vl & v & Hcut).
    rewrite fmap_app, foldr_app. simpl.
    rewrite (entry_free_cut _ _ _ _ _ _ _ _ Hcut).
    apply (IH (delete k t) (delete k m)); [apply Hcut|].
    rewrite <-(insert_id t k (kl, e)) in Hl by done.
    rewrite <-insert_delete_eq in Hl.
    rewrite map_to_list_insert in Hl by apply lookup_delete_eq.
    apply (Permutation_cons_inv (a := (k, (kl, e)))).
    by rewrite <-Hl, <-Permutation_cons_append.
Qed.

Lemma rhash_clear_models ht m :
  rh_models ht m → rhash_clear ht = Some rhash_make.
Proof.
  intros Hm. unfold rhash_clear.
  by rewrite (entries_free_all _ m _ (hash_iter (rh_table ht))) by (done || apply hash_iter_perm).
Qed.
End clear.

(** ** Sequences of operations *)

Inductive rh_op :=
  | RhSet (key : bytes) (klen : rh_len) (val : bytes) (vlen : rh_len)
  | RhDelete (key : bytes) (klen : rh_len)
  | RhGet (key : bytes) (klen : rh_len).

(** The lengths passed to an operation stay inside the buffers passed with them. *)
Definition rh_op_ok (op : rh_op) : Prop :=
  match op with
  | RhSet key klen val vlen => is_Some (rh_bytes key klen) ∧ is_Some (rh_bytes val vlen)
  | RhDelete key klen | RhGet key klen => is_Some (rh_bytes key klen)
  end.

#[export] Instance rh_op_ok_dec op : Decision (rh_op_ok op).
Proof. destruct op; simpl; apply _. Defined.

Definition rh_step (ht : rhash) (op : rh_op) : option (rhash * option bytes) :=
  match op with
  | RhSet key klen val vlen => ht ← rhash_set ht key klen (Some val) vlen; Some (ht, None)
  | RhDelete key klen => ht ← rhash_set ht key klen None (Some 0%nat); Some (ht, None)
  | RhGet key klen => v ← rhash_get ht key klen; Some (ht, v)
  end.

Fixpoint rh_run (ht : rhash) (ops : list rh_op) : option (rhash * list (option bytes)) :=
  match ops with
  | [] => Some (ht, [])
  | op :: ops =>
      '(ht, r) ← rh_step ht op; '(ht, rs) ← rh_run ht ops; Some (ht, r :: rs)
  end.

Definition map_step (m : gmap bytes bytes) (op : rh_op) : gmap bytes bytes * option bytes :=
  match op with
  | RhSet key klen val vlen =>
      (match rh_bytes key klen, rh_bytes val vlen with
       | Some k, Some v => <[k := v]> m
       | _, _ => m
       end, None)
  | RhDelete key klen =>
      (match rh_bytes key klen with Some k => delete k m | None => m end, None)
  | RhGet key klen => (m, k ← rh_bytes key klen; m !! k)
  end.

Fixpoint map_run (m : gmap bytes bytes) (ops : list rh_op)
    : gmap bytes bytes * list (option bytes) :=
  match ops with
  | [] => (m, [])
  | op :: ops => let '(m, r) := map_step m op in let '(m, rs) := map_run m ops in (m, r :: rs)
  end.

Lemma rh_step_models ht m op :
  rh_models ht m → rh_op_ok op →
  ∃ ht', rh_step ht op = Some (ht', (map_step m op).2) ∧ rh_models ht' (map_step m op).1.
Proof.
  intros Hm Hok. destruct op as [key klen val vlen|key klen|key klen]; simpl in *.
  - destruct Hok as [[k Hk] [v Hv]]. rewrite Hk, Hv.
    destruct (rhash_insert_models ht m key klen k val vlen v) as (ht' & -> & ?); eauto.
  - destruct Hok as [k Hk]. rewrite Hk.
    destruct (rhash_delete_models ht m key klen k (Some 0%nat)) as (ht' & -> & ?); eauto.
  - destruct Hok as [k Hk]. rewrite Hk. erewrite rhash_get_models by done. simpl. eauto.
Qed.

Lemma rh_run_models ht m ops :
  rh_models ht m → Forall rh_op_ok ops →
  ∃ ht', rh_run ht ops = Some (ht', (map_run m ops).2) ∧ rh_models ht' (map_run m ops).1.
Proof.
  intros Hm Hops. revert ht m Hm. induction Hops as [|op ops Hop Hops IH]; intros ht m Hm; simpl.
  { eauto. }
  destruct (rh_step_models ht m op Hm Hop) as (ht1 & -> & Hm1).
  destruct (map_step m op) as [m1 r1]. simpl in *.
  destruct (IH ht1 m1 Hm1) as (ht2 & -> & Hm2).
  destruct (map_run m1 ops) as [m2 rs]. simpl in *. eauto.
Qed.

(** * Properties *)

(** C34. Any sequence of [rhash_set], deletions and [rhash_get] on a fresh table, with lengths that
    stay inside the buffers passed, never uses or frees memory that is not allocated, returns
    the values of a finite map over the copied keys and values, and [rhash_clear] afterwards
    leaves an empty table and no live allocation. *)
Theorem rhash_refines_map `{HashIter} (ops : list rh_op) :
  Forall rh_op_ok ops →
  ∃ ht, rh_run rhash_make ops = Some (ht, (map_run ∅ ops).2) ∧
    rhash_clear ht = Some (mk_rhash ∅ ∅).
Proof.
  intros Hops. destruct (rh_run_models rhash_make ∅ ops) as (ht & Hrun & Hm);
    [constructor|done|].
  exists ht. split; [done|]. by apply (rhash_clear_models ht (map_run ∅ ops).1).
Qed.

Lemma rhash_refines_map_witness :
  ∃ ht, rh_run rhash_make
    [RhSet (str "a") None (str "x") None; RhSet (str "abc") (Some 1%nat) (str "yz") (Some 2%nat);
     RhGet (str "a") None; RhDelete (str "a") None; RhGet (str "a") None]
    = Some (ht, [None; None; Some (str "yz"); None; None]) ∧
    rhash_clear ht = Some (mk_rhash ∅ ∅).
Proof.
  apply (rhash_refines_map
    [RhSet (str "a") None (str "x") None; RhSet (str "abc") (Some 1%nat) (str "yz") (Some 2%nat);
     RhGet (str "a") None; RhDelete (str "a") None; RhGet (str "a") None]).
  eval_decide.
Defined.
