(* ===== verification/Mukv.v ===== *)
(** The key-value store of src/mukv.c: an append-only data file with an in-memory index (an
    [rhash] of raw [entry_t] structures).

    The stdio stream keeps back what is written until its buffer is full or it is positioned, the
    device may fill up, and calls may fail.  The theorems show what a store and the fetches after
    it return, and that the store implements a finite map ([KV]) as long as the device does not
    fill up, or the stream keeps nothing back, and no call fails. *)
From S2P Require Import Prelude Interfaces Rhash.

Open Scope Z_scope.

(** * The stream *)

Record FILE := mk_file {
  f_cap : nat;           (* the size of the buffer; 0 for an unbuffered stream *)
  f_io : nat → bool;     (* whether the system calls succeed, one after the other *)
  f_calls : nat;         (* the number of system calls so far *)
  f_room : option nat;   (* bytes the device still accepts; it does not fill up if [None] *)
  f_data : bytes;        (* what the device has *)
  f_buf : bytes;         (* written, but not transmitted yet; ends at the position *)
  f_pos : nat;           (* file position *)
  f_out : bool           (* the last operation was output *)
}.

Definition LONG_MAX : Z := 2 ^ 63 - 1.

Definition EIO : Z := 5.
Definition EFBIG : Z := 27.
Definition ENOSPC : Z := 28.
Definition EOVERFLOW : Z := 75.

(** The first [k] bytes that were kept back are transmitted; the result is 0 or the error.  What the
    device does not take is dropped with the rest of the buffer. *)
Definition transmit (f : FILE) (k : nat) : FILE * Z :=
  if (k =? 0)%nat then (f, 0)
  else
    let base := (f_pos f - length (f_buf f))%nat in
    let n := if f_io f (f_calls f)
             then match f_room f with None => k | Some r => Nat.min k r end else 0%nat in
    let data := take base (f_data f) ++ take n (f_buf f) ++ drop (base + n) (f_data f) in
    let room := (λ r, (r - n)%nat) <$> f_room f in
    if (n =? k)%nat
    then (mk_file (f_cap f) (f_io f) (S (f_calls f)) room data (drop k (f_buf f)) (f_pos f) (f_out f), 0)
    else (mk_file (f_cap f) (f_io f) (S (f_calls f)) room data [] (base + n) (f_out f),
          if f_io f (f_calls f) then ENOSPC else EIO).

(** [fseek(f, off, SEEK_SET)] and [fseek(f, 0, SEEK_END)]: the buffer is transmitted, and the
    position set to [target] of the stream, which has to be a [long]. *)
Definition fseek (f : FILE) (target : FILE → nat) : FILE * Z :=
  let '(f, e) := transmit f (length (f_buf f)) in
  if negb (e =? 0) then (f, e)
  else if LONG_MAX <? Z.of_nat (target f) then (f, EOVERFLOW)
  else
    let calls := S (f_calls f) in
    if f_io f (f_calls f)
    then (mk_file (f_cap f) (f_io f) calls (f_room f) (f_data f) (f_buf f) (target f) false, 0)
    else (mk_file (f_cap f) (f_io f) calls (f_room f) (f_data f) (f_buf f) (f_pos f) (f_out f), EIO).

Definition fseek_set (f : FILE) (off : nat) : FILE * Z := fseek f (λ _, off).
Definition fseek_end (f : FILE) : FILE * Z := fseek f (λ f, length (f_data f)).

Definition ftell (f : FILE) : nat := f_pos f.

(** How much is transmitted when [n] bytes are in the buffer: whole blocks, once it overflows. *)
Definition due (cap n : nat) : nat :=
  if (n <=? cap)%nat then 0 else if (cap =? 0)%nat then n else n - n mod cap.

(** [fwrite(b, 1, length b, f)]: the number of bytes taken, and the error.  No object is larger than
    [LONG_MAX] bytes; a request to write one is refused. *)
Definition fwrite (f : FILE) (b : bytes) : FILE * nat * Z :=
  if LONG_MAX <? Z.of_nat (length b) then (f, 0%nat, EFBIG)
  else
    let f1 := mk_file (f_cap f) (f_io f) (f_calls f) (f_room f) (f_data f) (f_buf f ++ b)
                (f_pos f + length b) (f_out f || (0 <? length b)%nat) in
    let '(f2, e) := transmit f1 (due (f_cap f) (length (f_buf f ++ b))) in
    (f2, if e =? 0 then length b else (f_pos f2 - f_pos f)%nat, e).

(** [fread(b, 1, n, f)]: a short result at the end of the file or if the call fails.  Reading behind
    output without positioning in between is undefined. *)
Definition fread (f : FILE) (n : nat) : option (FILE * bytes) :=
  if (n =? 0)%nat then Some (f, [])
  else if f_out f then None
  else
    let b := if f_io f (f_calls f) then take n (drop (f_pos f) (f_data f)) else [] in
    Some (mk_file (f_cap f) (f_io f) (S (f_calls f)) (f_room f) (f_data f) (f_buf f)
            (f_pos f + length b) false, b).

(** * Data *)

Record mukv := mk_mukv { kv_index : rhash; kv_file : FILE }.

(** The memory of an [entry_t]: [long off; size_t size;]. *)
Definition entry_bytes (off size : nat) : bytes :=
  le_enc 8 (Z.of_nat off) ++ le_enc 8 (Z.of_nat size).
Definition entry_off (e : bytes) : nat := Z.to_nat (le_dec (take 8 e)).
Definition entry_size (e : bytes) : nat := Z.to_nat (le_dec (drop 8 e)).
Definition sizeof_entry : nat := 16.

(** * Operations *)

(** A file that is opened: the size of the buffer, the room on the device and the fate of calls. *)
Record device := mk_device { dv_cap : nat; dv_room : option nat; dv_io : nat → bool }.

Definition mukv_new (dev : device) : mukv :=
  mk_mukv rhash_make (mk_file (dv_cap dev) (dv_io dev) 0 (dv_room dev) [] [] 0 false).

(** [None] for the device is a failure of [fopen(path, "w+")], and otherwise NULL. *)
Definition mukv_open (dev : option device) : option mukv := mukv_new <$> dev.

Definition mukv_store (kv : mukv) (key val : bytes) : option (mukv * Z) :=
  let '(f, e) := fseek_end (kv_file kv) in
  if negb (e =? 0) then Some (mk_mukv (kv_index kv) f, e)
  else
    let entry := entry_bytes (ftell f) (length val) in
    let '(f, n, e) := fwrite f val in
    if negb (n =? length val)%nat then Some (mk_mukv (kv_index kv) f, e)
    else
      index ← rhash_set (kv_index kv) key (Some (length key)) (Some entry) (Some sizeof_entry);
      Some (mk_mukv index f, 0).

Definition mukv_fetch (kv : mukv) (key : bytes) : option (mukv * option bytes) :=
  entry ← rhash_get (kv_index kv) key (Some (length key));
  match entry with
  | None => Some (kv, None)
  | Some e =>
      let '(f, err) := if negb (ftell (kv_file kv) =? entry_off e)%nat
                       then fseek_set (kv_file kv) (entry_off e) else (kv_file kv, 0) in
      if negb (err =? 0) then Some (mk_mukv (kv_index kv) f, None)
      else
        '(f, b) ← fread f (entry_size e);
        if negb (length b =? entry_size e)%nat then Some (mk_mukv (kv_index kv) f, None)
        else Some (mk_mukv (kv_index kv) f, Some b)
  end.

Definition mukv_delete (kv : mukv) (key : bytes) : option (mukv * Z) :=
  entry ← rhash_get (kv_index kv) key (Some (length key));
  match entry with
  | Some _ =>
      index ← rhash_set (kv_index kv) key (Some (length key)) None (Some 0%nat);
      Some (mk_mukv index (kv_file kv), 0)
  | None => Some (kv, 0)
  end.

Definition mukv_exists (kv : mukv) (key : bytes) : option bool :=
  entry ← rhash_get (kv_index kv) key (Some (length key));
  Some (match entry with Some _ => true | None => false end).

(** [fclose] transmits the rest; [unlink_ret] is the [errno] of [unlink], or 0. *)
Definition mukv_close `{HashIter} (unlink_ret : Z) (kv : mukv) : option (rhash * Z) :=
  index ← rhash_clear (kv_index kv);
  let '(f, e) := transmit (kv_file kv) (length (f_buf (kv_file kv))) in
  Some (index, if negb (e =? 0) then e else unlink_ret).

(** * Invariant *)

(** What is in the file once the buffer is transmitted. *)
Definition f_all (f : FILE) : bytes := f_data f ++ f_buf f.

(** Output is at the end of the file. *)
Definition stream_ok (f : FILE) : Prop :=
  (f_out f = true → f_pos f = length (f_all f)) ∧ (f_buf f ≠ [] → f_out f = true).

(** Index record [e] locates [v] in the contents [data]. *)
Definition entry_locates (data e v : bytes) : Prop :=
  ∃ off, e = entry_bytes off (length v) ∧ Z.of_nat off <= LONG_MAX ∧ Z.of_nat (length v) <= LONG_MAX ∧
    (off + length v ≤ length data)%nat ∧ take (length v) (drop off data) = v.

(** The index belongs to the map [m], and [P] holds of its records and their values. *)
Definition index_models (P : bytes → bytes → Prop) (index : rhash) (m : gmap bytes bytes) : Prop :=
  ∃ idx, rh_models index idx ∧
    ∀ k, match idx !! k, m !! k with
         | None, None => True
         | Some e, Some v => P e v
         | _, _ => False
         end.

Definition mukv_models (kv : mukv) (m : gmap bytes bytes) : Prop :=
  stream_ok (kv_file kv) ∧ index_models (entry_locates (f_all (kv_file kv))) (kv_index kv) m.

(** No call fails. *)
Definition quiet (f : FILE) : Prop := ∀ i, f_io f i = true.

(** The device has room for [n] bytes. *)
Definition room_for (f : FILE) (n : nat) : Prop := ∀ r, f_room f = Some r → (n ≤ r)%nat.


(** ** Entries *)

Lemma entry_off_bytes off size : Z.of_nat off <= LONG_MAX → entry_off (entry_bytes off size) = off.
Proof.
  intros Hoff. unfold LONG_MAX in Hoff. unfold entry_off, entry_bytes.
  rewrite take_app_length' by by rewrite le_enc_length. rewrite le_dec_enc; lia.
Qed.

Lemma entry_size_bytes off size : Z.of_nat size <= LONG_MAX → entry_size (entry_bytes off size) = size.
Proof.
  intros Hsize. unfold LONG_MAX in Hsize. unfold entry_size, entry_bytes.
  rewrite drop_app_length' by by rewrite le_enc_length. rewrite le_dec_enc; lia.
Qed.

Lemma entry_bytes_length off size : length (entry_bytes off size) = 16%nat.
Proof. unfold entry_bytes. by rewrite length_app, !le_enc_length. Qed.

Lemma rh_bytes_all k n : n = length k → rh_bytes k (Some n) = Some k.
Proof. intros ->. unfold rh_bytes. rewrite Nat.leb_refl. by rewrite take_ge. Qed.

Lemma rh_bytes_full k : rh_bytes k (Some (length k)) = Some k.
Proof. by apply rh_bytes_all. Qed.

(** Appending keeps what the index locates. *)
Lemma entry_locates_app data x e v : entry_locates data e v → entry_locates (data ++ x) e v.
Proof.
  intros (off & He & Hoff & Hlen & Hl & Hv). exists off. split_and!; [done..| |].
  - rewrite length_app. lia.
  - rewrite drop_app_le by lia. rewrite take_app_le; [done|]. rewrite length_drop. lia.
Qed.


Lemma entry_locates_new data v :
  Z.of_nat (length data) <= LONG_MAX → Z.of_nat (length v) <= LONG_MAX →
  entry_locates (data ++ v) (entry_bytes (length data) (length v)) v.
Proof.
  intros Hd Hv. exists (length data). split_and!; [done..|rewrite length_app; lia|].
  by rewrite drop_app_length, take_ge.
Qed.

Lemma index_models_mono (P Q : bytes → bytes → Prop) index m :
  (∀ e v, P e v → Q e v) → index_models P index m → index_models Q index m.
Proof.
  intros HPQ (idx & Hidx & Hm). exists idx. split; [done|]. intros k. specialize (Hm k).
  destruct (idx !! k), (m !! k); auto.
Qed.

(** ** The stream *)

(** What an operation on the stream [f] leaves: what was on the device stays, and what was kept back
    is still there or transmitted, perhaps only its beginning. *)
Record keeps (f f' : FILE) : Prop := {
  kp_cap : f_cap f' = f_cap f;
  kp_io : f_io f' = f_io f;
  kp_ok : stream_ok f';
  kp_none : f_room f = None → f_room f' = None;
  kp_all : ∃ n, f_all f' = f_data f ++ take n (f_buf f);
  kp_buf : f_buf f = [] → f_buf f' = []
}.

Lemma keeps_refl f : stream_ok f → keeps f f.
Proof. intros Hok. split; try done. exists (length (f_buf f)). by rewrite take_ge. Qed.

(** An output operation may add something at the end. *)
Lemma transmit_spec f k :
  stream_ok f → (k ≤ length (f_buf f))%nat →
  ∃ f' e, transmit f k = (f', e) ∧ keeps f f' ∧
    ((e = 0 ∧ f_data f' = f_data f ++ take k (f_buf f) ∧ f_buf f' = drop k (f_buf f) ∧
      f_pos f' = f_pos f ∧ ∀ n, room_for f (k + n) → room_for f' n) ∨
     (e ≠ 0 ∧ ¬ (quiet f ∧ room_for f k) ∧ f_buf f' = [] ∧
      ∃ n, (n < k)%nat ∧ f_pos f' = (length (f_data f) + n)%nat)).
Proof.
  intros [Hout Hbuf] Hk. unfold transmit. destruct (Nat.eqb_spec k 0) as [->|Hk0].
  { exists f, 0. split; [done|]. split; [by apply keeps_refl|]. left.
    by rewrite take_0, drop_0, app_nil_r. }
  assert (f_pos f - length (f_buf f) = length (f_data f))%nat as Hbase.
  { rewrite Hout by (apply Hbuf; destruct (f_buf f); simpl in *; [lia|done]).
    unfold f_all. rewrite length_app. lia. }
  assert (f_pos f = length (f_all f)) as Hpos.
  { apply Hout, Hbuf. destruct (f_buf f); simpl in *; [lia|done]. }
  rewrite Hbase, take_ge by done. rewrite drop_ge, app_nil_r by lia.
  set (n := if f_io f (f_calls f) then _ else _). assert (n ≤ k)%nat as Hn.
  { unfold n. repeat case_match; lia. }
  destruct (Nat.eqb_spec n k) as [Heq|Hne]; (do 2 eexists; split; [done|]).
  - rewrite Heq. assert (∀ x, x ++ take k (f_buf f) ++ drop k (f_buf f) = x ++ f_buf f) as Hx
      by (intros x; by rewrite take_drop).
    split.
    + split; simpl; try done.
      * split; cbn [f_buf f_pos f_out]; [unfold f_all; cbn [f_data f_buf]; by rewrite <-app_assoc, Hx|].
        intros Hd. apply Hbuf. intros Hnil. apply Hd. by rewrite Hnil, drop_nil.
      * intros ->. done.
      * exists (length (f_buf f)). unfold f_all. cbn [f_data f_buf]. rewrite <-app_assoc, Hx.
        by rewrite take_ge.
      * intros ->. apply drop_nil.
    + left. split_and!; try done. intros x Hr r. cbn [f_room]. intros Hr'.
      destruct (f_room f) as [r0|] eqn:E; [|done]. injection Hr' as <-. specialize (Hr _ E). lia.
  - split.
    + split; simpl; try done.
      * split; unfold f_all; cbn [f_data f_buf f_pos f_out]; [|done]. intros _.
        rewrite app_nil_r, length_app, length_take. lia.
      * intros ->. done.
      * exists n. unfold f_all. cbn [f_data f_buf]. by rewrite app_nil_r.
    + right. split; [by destruct (f_io f (f_calls f))|]. split; [|split; [done|exists n; split; [lia|done]]].
      intros [Hq Hr]. apply Hne. unfold n. rewrite Hq. destruct (f_room f) as [r|] eqn:E; [|done].
      specialize (Hr _ E). lia.
Qed.

Lemma fseek_spec f target :
  stream_ok f →
  ∃ f' e, fseek f target = (f', e) ∧ keeps f f' ∧
    (e = 0 → f_data f' = f_all f ∧ f_buf f' = [] ∧ f_out f' = false ∧
      (∃ f1, f_data f1 = f_all f ∧ f_pos f' = target f1 ∧ Z.of_nat (target f1) <= LONG_MAX) ∧
      ∀ n, room_for f (length (f_buf f) + n) → room_for f' n) ∧
    (quiet f → room_for f (length (f_buf f)) →
     f_all f' = f_all f ∧
     ((∀ f1, f_data f1 = f_all f → Z.of_nat (target f1) <= LONG_MAX) → e = 0)).
Proof.
  intros Hok. unfold fseek. destruct (transmit_spec f (length (f_buf f)) Hok) as
    (f1 & e & -> & Hk & Hcase); [done|].
  destruct Hcase as [(-> & Hd & Hb & _ & Hr)|(He & Hnot & _)].
  2:{ rewrite (proj2 (Z.eqb_neq e 0)) by done. exists f1, e. split; [done|]. split; [done|].
      split; [done|]. intros Hq Hroom. by destruct Hnot. }
  rewrite take_ge in Hd by done. fold (f_all f) in Hd. rewrite drop_ge in Hb by done. cbn [negb Z.eqb].
  destruct Hk as [Hcap Hio Hok1 Hnone Hall _]. assert (f_all f1 = f_all f) as Hall1
    by (unfold f_all at 1; by rewrite Hd, Hb, app_nil_r).
  assert (∀ c p o, (o = true → p = length (f_all f1)) →
    keeps f (mk_file (f_cap f1) (f_io f1) c (f_room f1) (f_data f1) (f_buf f1) p o)) as Hkeeps.
  { intros c p o Hp. by split. }
  destruct (Z.ltb_spec LONG_MAX (Z.of_nat (target f1))) as [Hbig|Hsmall].
  { exists f1, EOVERFLOW. split; [done|]. split; [by destruct f1; apply Hkeeps, Hok1|]. split; [done|].
    intros _ _. split; [done|]. intros Ht. specialize (Ht f1 Hd). lia. }
  destruct (f_io f1 (f_calls f1)) eqn:Hcall; (do 2 eexists; split; [done|]).
  - split; [by apply Hkeeps|]. split; [|by split]. intros _. split_and!; try done. by exists f1.
  - split; [apply Hkeeps, Hok1|]. split; [done|]. intros Hq _. by rewrite Hio, Hq in Hcall.
Qed.

Lemma due_le cap n : (due cap n ≤ n)%nat.
Proof. unfold due. repeat case_match; lia. Qed.

(** Writing at the end of a file whose buffer is empty. *)
Lemma fwrite_spec f b :
  stream_ok f → f_buf f = [] → f_pos f = length (f_all f) →
  ∃ f' n e, fwrite f b = (f', n, e) ∧ f_cap f' = f_cap f ∧ f_io f' = f_io f ∧ stream_ok f' ∧
    (f_room f = None → f_room f' = None) ∧ (f_cap f = 0%nat → f_buf f' = []) ∧
    ((n = length b ∧ Z.of_nat (length b) <= LONG_MAX ∧ f_all f' = f_all f ++ b ∧
      (room_for f (length b) → room_for f' (length (f_buf f')))) ∨
     (n ≠ length b ∧ e ≠ 0 ∧ (∃ x, f_all f' = f_all f ++ x) ∧
      ¬ (quiet f ∧ room_for f (length b) ∧ Z.of_nat (length b) <= LONG_MAX))).
Proof.
  intros [Hout Hbuf] Hb Hpos. unfold fwrite.
  destruct (Z.ltb_spec LONG_MAX (Z.of_nat (length b))) as [Hbig|Hsmall].
  { do 3 eexists. split; [done|]. split_and!; try done. right. split_and!; try done.
    - unfold LONG_MAX in Hbig. lia.
    - exists []. by rewrite app_nil_r.
    - lia. }
  rewrite Hb. cbn [app]. set (f1 := mk_file _ _ _ _ _ _ _ _).
  assert (f_all f = f_data f) as Hfd by (unfold f_all; by rewrite Hb, app_nil_r).
  assert (stream_ok f1) as Hok1.
  { split; unfold f1, f_all; cbn [f_out f_pos f_buf f_data].
    - intros _. rewrite Hpos, Hfd, length_app. done.
    - intros Hne. apply orb_true_iff. right. apply Nat.ltb_lt. destruct b; [done|simpl; lia]. }
  destruct (transmit_spec f1 (due (f_cap f) (length b)) Hok1) as (f2 & e & Htr & Hk & Hcase);
    [apply due_le|]. rewrite Htr. destruct Hk as [Hcap Hio Hok2 Hnone [x Hall] _].
  change (f_data f1) with (f_data f) in *. change (f_buf f1) with b in *.
  assert (f_cap f = 0%nat → due (f_cap f) (length b) = length b) as Hdue.
  { intros ->. unfold due. destruct (Nat.leb_spec (length b) 0); simpl; lia. }
  destruct Hcase as [(-> & Hd & Hb2 & _ & Hr)|(He & Hnot & Hb2 & n & Hn & Hp2)]; (do 3 eexists; split; [done|]).
  - split_and!; try done.
    + intros Hc. rewrite Hb2, Hdue by done. by apply drop_ge.
    + left. cbn [Z.eqb]. split_and!; try done.
      * unfold f_all at 1. by rewrite Hd, Hb2, <-app_assoc, take_drop, Hfd.
      * intros Hroom. apply Hr. rewrite Hb2, length_drop.
        pose proof (due_le (f_cap f) (length b)). intros r Hr0. specialize (Hroom r Hr0). lia.
  - split_and!; try done. right. rewrite (proj2 (Z.eqb_neq e 0)) by done.
    pose proof (due_le (f_cap f) (length b)). split_and!; try done.
    + rewrite Hp2, Hpos, Hfd. lia.
    + exists (take x b). by rewrite Hall, Hfd.
    + intros (Hq & Hroom & _). apply Hnot. split; [done|]. intros r Hr. specialize (Hroom r Hr). lia.
Qed.

(** ** Operations *)

Lemma quiet_keeps f f' : keeps f f' → quiet f → quiet f'.
Proof. intros Hk Hq i. rewrite (kp_io _ _ Hk). apply Hq. Qed.

(** The index record of a key. *)
Lemma rhash_get_index P kv m k :
  index_models P (kv_index kv) m →
  ∃ e, rhash_get (kv_index kv) k (Some (length k)) = Some e ∧
    match e, m !! k with None, None => True | Some e, Some v => P e v | _, _ => False end.
Proof.
  intros (idx & Hidx & Hm). exists (idx !! k). split; [|apply Hm].
  apply rhash_get_models with (1 := Hidx), rh_bytes_full.
Qed.

(** Storing in the index. *)
Lemma rhash_set_index P index m k e v :
  index_models P index m → length e = sizeof_entry → P e v →
  ∃ index', rhash_set index k (Some (length k)) (Some e) (Some sizeof_entry) = Some index' ∧
    index_models P index' (<[k := v]> m).
Proof.
  intros (idx & Hidx & Hm) He HP.
  destruct (rhash_insert_models index idx k (Some (length k)) k e (Some sizeof_entry) e)
    as (ht & Hset & Hht); [done|apply rh_bytes_full|by apply rh_bytes_all|].
  exists ht. split; [exact Hset|]. eexists. split; [exact Hht|]. intros k'.
  destruct (decide (k = k')) as [->|Hne]; [by rewrite !lookup_insert_eq|].
  rewrite !lookup_insert_ne by done. apply Hm.
Qed.

(** What a store leaves. *)
Record stored (kv kv' : mukv) (m : gmap bytes bytes) (k v : bytes) (r : Z) : Prop := {
  st_ok : stream_ok (kv_file kv');
  st_io : f_io (kv_file kv') = f_io (kv_file kv);
  st_cap : f_cap (kv_file kv') = f_cap (kv_file kv);
  st_none : f_room (kv_file kv) = None → f_room (kv_file kv') = None;
  st_buf : f_cap (kv_file kv) = 0%nat → f_buf (kv_file kv) = [] → f_buf (kv_file kv') = [];
  st_done : r = 0 → mukv_models kv' (<[k := v]> m);
  st_fail : r ≠ 0 → kv_index kv' = kv_index kv ∧
    ∃ x, f_all (kv_file kv') = f_data (kv_file kv) ++ x;
  st_kept : r ≠ 0 → quiet (kv_file kv) → room_for (kv_file kv) (length (f_buf (kv_file kv))) →
    ∃ x, f_all (kv_file kv') = f_all (kv_file kv) ++ x;
  st_room : r = 0 → room_for (kv_file kv) (length (f_buf (kv_file kv)) + length v) →
    room_for (kv_file kv') (length (f_buf (kv_file kv')));
  st_when : quiet (kv_file kv) → room_for (kv_file kv) (length (f_buf (kv_file kv)) + length v) →
    Z.of_nat (length (f_all (kv_file kv))) <= LONG_MAX → Z.of_nat (length v) <= LONG_MAX → r = 0
}.

Lemma room_for_le f n n' : room_for f n' → (n ≤ n')%nat → room_for f n.
Proof. intros Hr Hn r Hf. specialize (Hr r Hf). lia. Qed.

Lemma mukv_store_spec kv m k v :
  mukv_models kv m → ∃ kv' r, mukv_store kv k v = Some (kv', r) ∧ stored kv kv' m k v r.
Proof.
  intros [Hok Hidx]. unfold mukv_store, fseek_end. set (f := kv_file kv) in *.
  destruct (fseek_spec f (λ f, length (f_data f)) Hok) as (f1 & e & -> & Hk1 & Hdone & Hwhen).
  destruct Hk1 as [Hcap1 Hio1 Hok1 Hnone1 [n1 Hall1] Hbuf1].
  destruct (Z.eqb_spec e 0) as [->|He]; cbn [negb].
  2:{ do 2 eexists. split; [done|]. split; cbn [kv_file kv_index]; try done.
      - intros _. split; [done|]. by eexists.
      - intros _ Hq Hr. exists []. rewrite app_nil_r. by apply Hwhen.
      - intros Hq Hr Hd Hv. apply Hwhen; [done|apply (room_for_le _ _ _ Hr); unfold f; lia|]. by intros f2 ->. }
  destruct (Hdone eq_refl) as (Hd1 & Hb1 & _ & (f2 & Hf2 & Hp1 & Hlong) & Hroom1).
  rewrite Hf2 in Hp1, Hlong. assert (f_all f1 = f_all f) as Ha1 by (unfold f_all at 1; by rewrite Hd1, Hb1, app_nil_r).
  destruct (fwrite_spec f1 v Hok1 Hb1) as (f3 & n & e & -> & Hcap3 & Hio3 & Hok3 & Hnone3 & Hbuf3 & Hcase);
    [by rewrite Hp1, Ha1|].
  destruct Hcase as [(-> & Hv & Ha3 & Hr3)|(Hn & He & [x Ha3] & Hnot)].
  - rewrite Nat.eqb_refl. cbn [negb]. unfold ftell. rewrite Hp1.
    destruct (rhash_set_index (entry_locates (f_all f3)) (kv_index kv) m k
      (entry_bytes (length (f_all f)) (length v)) v) as (index & -> & Hindex).
    + eapply index_models_mono; [|exact Hidx]. intros e' v'. rewrite Ha3, Ha1. apply entry_locates_app.
    + apply entry_bytes_length.
    + rewrite Ha3, Ha1. by apply entry_locates_new.
    + do 2 eexists. split; [done|]. split; cbn [kv_file kv_index]; fold f; try done; try congruence; try by auto.
      intros Hc _. apply Hbuf3. by rewrite Hcap1.
  - rewrite (proj2 (Nat.eqb_neq n _)) by done. cbn [negb].
    do 2 eexists. split; [done|]. split; cbn [kv_file kv_index]; fold f; try done; try congruence; try by auto.
    + intros Hc _. apply Hbuf3. by rewrite Hcap1.
    + intros _. split; [done|]. rewrite Ha3, Ha1. unfold f_all. exists (f_buf f ++ x). by rewrite app_assoc.
    + intros _ _ _. exists x. by rewrite Ha3, Ha1.
    + intros Hq Hr Hd Hl. exfalso. apply Hnot. split_and!; [|by apply Hroom1|done].
      intros i. rewrite Hio1. apply Hq.
Qed.

(** What a fetch of a record leaves, and what it returns. *)
Lemma mukv_fetch_value kv k e v :
  stream_ok (kv_file kv) → rhash_get (kv_index kv) k (Some (length k)) = Some (Some e) →
  entry_locates (f_all (kv_file kv)) e v →
  ∃ kv' res, mukv_fetch kv k = Some (kv', res) ∧ kv_index kv' = kv_index kv ∧
    keeps (kv_file kv) (kv_file kv') ∧ (res = None ∨ res = Some v) ∧
    (quiet (kv_file kv) → room_for (kv_file kv) (length (f_buf (kv_file kv))) →
     res = Some v ∧ f_all (kv_file kv') = f_all (kv_file kv)).
Proof.
  intros Hok Hget (off & -> & Hoff & Hlen & Hl & Hv). unfold mukv_fetch. rewrite Hget.
  cbn [mbind option_bind]. rewrite entry_off_bytes, entry_size_bytes by done.
  set (f := kv_file kv) in *.
  assert (∃ f1 err, (if negb (ftell f =? off)%nat then fseek_set f off else (f, 0)) = (f1, err) ∧
    keeps f f1 ∧ (err = 0 → f_all f1 = f_all f ∧ f_pos f1 = off ∧
      ((0 < length v)%nat → f_out f1 = false)) ∧
    (quiet f → room_for f (length (f_buf f)) → err = 0 ∧ f_all f1 = f_all f))
    as (f1 & err & -> & Hk1 & Hpos & Hzero).
  { destruct (Nat.eqb_spec (ftell f) off) as [Heq|Hne]; cbn [negb].
    - exists f, 0. split; [done|]. split; [by apply keeps_refl|]. split; [|done]. intros _.
      split_and!; [done..|]. intros Hpos. apply not_true_iff_false. intros Hout.
      apply Hok in Hout. unfold ftell in Heq. lia.
    - destruct (fseek_spec f (λ _, off) Hok) as (f1 & e & Hs & Hk1 & Hdone & Hwhen).
      exists f1, e. split; [exact Hs|]. split; [done|]. split.
      + intros He. destruct (Hdone He) as (Hd & Hb & Ho & (? & _ & Hp & _) & _). split_and!; try done.
        unfold f_all at 1. by rewrite Hd, Hb, app_nil_r.
      + intros Hq Hr. destruct (Hwhen Hq Hr) as [Ha He]. split; [by apply He|done]. }
  destruct (Z.eqb_spec err 0) as [->|Herr]; cbn [negb].
  2:{ do 2 eexists. split; [done|]. split_and!; [done..|by left|]. intros Hq Hr. by destruct (Hzero Hq Hr). }
  destruct (Hpos eq_refl) as (Ha & Hp & Ho). unfold fread.
  destruct (Nat.eqb_spec (length v) 0) as [Hnil|Hpos0].
  { cbn [mbind option_bind length]. rewrite Hnil. cbn. do 2 eexists. split; [done|].
    destruct v; [|done]. split_and!; [done..|by right|done]. }
  rewrite Ho by lia. cbn [mbind option_bind]. destruct Hk1 as [Hcap Hio [Hok1 Hok1'] Hnone Hall Hbuf].
  assert (f_buf f1 = []) as Hb.
  { destruct (f_buf f1) eqn:E; [done|]. rewrite Ho in Hok1' by lia. by discriminate Hok1'. }
  assert (f_data f1 = f_all f) as Hd by (rewrite <-Ha; unfold f_all; by rewrite Hb, app_nil_r).
  assert (∀ c p, keeps f (mk_file (f_cap f1) (f_io f1) c (f_room f1) (f_data f1) (f_buf f1) p false)) as Hkeeps.
  { intros c p. by split. }
  assert (take (length v) (drop (f_pos f1) (f_data f1)) = v) as Hread by by rewrite Hp, Hd.
  destruct (f_io f1 (f_calls f1)) eqn:Hcall.
  - rewrite Hread, Nat.eqb_refl. cbn [negb]. do 2 eexists. split; [done|].
    split_and!; [done|by apply Hkeeps|by right|]. intros _ _. split; [done|exact Ha].
  - rewrite (proj2 (Nat.eqb_neq _ _)) by (simpl; lia). cbn [negb]. do 2 eexists. split; [done|].
    split_and!; [done|by apply Hkeeps|by left|]. intros Hq. by rewrite Hio, Hq in Hcall.
Qed.

(** Fetching any key. *)
Lemma mukv_fetch_spec kv m k :
  stream_ok (kv_file kv) →
  index_models (λ _ _, True) (kv_index kv) m →
  (∀ e v, rhash_get (kv_index kv) k (Some (length k)) = Some (Some e) → m !! k = Some v →
     entry_locates (f_all (kv_file kv)) e v) →
  ∃ kv' res, mukv_fetch kv k = Some (kv', res) ∧ kv_index kv' = kv_index kv ∧
    keeps (kv_file kv) (kv_file kv') ∧ (res = None ∨ res = m !! k) ∧
    (quiet (kv_file kv) → room_for (kv_file kv) (length (f_buf (kv_file kv))) →
     res = m !! k ∧ f_all (kv_file kv') = f_all (kv_file kv)).
Proof.
  intros Hok Hidx Hloc. destruct (rhash_get_index _ _ _ k Hidx) as ([e|] & He & Hm).
  - destruct (m !! k) as [v|] eqn:Hv; [|done].
    destruct (mukv_fetch_value kv k e v) as (kv' & res & Hf); [done..|by apply Hloc|by exists kv', res].
  - destruct (m !! k) as [v|] eqn:Hv; [done|]. unfold mukv_fetch. rewrite He. cbn.
    exists kv, None. split_and!; [done..|by apply keeps_refl|by left|done].
Qed.

Lemma mukv_exists_models kv m k :
  mukv_models kv m → mukv_exists kv k = Some (bool_decide (is_Some (m !! k))).
Proof.
  intros [_ Hidx]. unfold mukv_exists. destruct (rhash_get_index _ _ _ k Hidx) as (e & -> & Hm).
  cbn. by destruct e, (m !! k).
Qed.

Lemma mukv_delete_models kv m k :
  mukv_models kv m → ∃ kv', mukv_delete kv k = Some (kv', 0) ∧ mukv_models kv' (delete k m) ∧
    kv_file kv' = kv_file kv.
Proof.
  intros [Hok Hidx]. unfold mukv_delete. destruct (rhash_get_index _ _ _ k Hidx) as (e & -> & Hmk).
  cbn [mbind option_bind]. destruct e as [e|].
  - destruct Hidx as (idx & Hidx & Hm).
    destruct (rhash_delete_models (kv_index kv) idx k (Some (length k)) k (Some 0%nat))
      as (ht & -> & Hht); [done|apply rh_bytes_full|]. cbn [mbind option_bind].
    eexists. split; [done|]. split; [|done]. split; [done|]. eexists. split; [exact Hht|]. intros k'.
    destruct (decide (k = k')) as [->|Hne]; [by rewrite !lookup_delete_eq|].
    rewrite !lookup_delete_ne by done. apply Hm.
  - destruct (m !! k) eqn:Hk; [done|]. eexists. split; [done|]. by rewrite delete_id.
Qed.

Lemma mukv_new_models dev : mukv_models (mukv_new dev) ∅.
Proof.
  split; [by split|]. exists ∅. split; [constructor|]. intros k. by rewrite lookup_empty.
Qed.

(** ** The contract *)

(** No call fails, and the device does not fill up or the stream keeps nothing back. *)
Definition steady (f : FILE) : Prop :=
  quiet f ∧ (f_room f = None ∨ f_cap f = 0%nat ∧ f_buf f = []).

Lemma steady_room f : steady f → room_for f (length (f_buf f)).
Proof. intros [_ [Hr|[_ Hb]]] r Hf; [congruence|]. rewrite Hb. simpl. lia. Qed.

Lemma steady_keeps f f' : keeps f f' → steady f → steady f'.
Proof.
  intros Hk [Hq Hr]. split; [by apply (quiet_keeps f)|]. rewrite (kp_cap _ _ Hk).
  destruct Hr as [Hr|[Hc Hb]]; [left; by apply Hk|right; split; [done|by apply Hk]].
Qed.

Lemma mukv_models_all kv kv' m :
  mukv_models kv m → stream_ok (kv_file kv') → kv_index kv' = kv_index kv →
  (∃ x, f_all (kv_file kv') = f_all (kv_file kv) ++ x) → mukv_models kv' m.
Proof.
  intros [_ Hidx] Hok Hi [x Ha]. split; [done|]. rewrite Hi, Ha.
  eapply index_models_mono; [|exact Hidx]. intros e v. apply entry_locates_app.
Qed.

(** A device that does not fill up, with a buffered stream, and one with room for [n] bytes and an
    unbuffered stream. *)
Definition large_device : device := mk_device 4096 None (λ _, true).
Definition small_device (n : nat) : device := mk_device 0 (Some n) (λ _, true).

Definition kv_steady (kv : mukv) (m : gmap bytes bytes) : Prop := mukv_models kv m ∧ steady (kv_file kv).

Lemma large_steady : kv_steady (mukv_new large_device) ∅.
Proof. split; [apply mukv_new_models|]. split; [done|by left]. Qed.

Lemma small_steady n : kv_steady (mukv_new (small_device n)) ∅.
Proof. split; [apply mukv_new_models|]. split; [done|by right]. Qed.

(** There, the store discharges the contract its clients are verified against. *)
#[export] Instance mukv_KV : KV mukv.
Proof.
  refine {| kv_models := kv_steady; kv_store := mukv_store; kv_fetch := mukv_fetch;
            kv_delete := mukv_delete; kv_exists := mukv_exists |}.
  - intros kv m k v [Hm Hs]. destruct (mukv_store_spec kv m k v Hm) as (kv' & r & Hst & Hst').
    exists kv', r. split; [done|]. assert (steady (kv_file kv')) as Hs'.
    { destruct Hst' as [_ Hio Hcap Hnone Hbuf _ _ _ _ _], Hs as [Hq Hr].
      split; [intros i; rewrite Hio; apply Hq|]. rewrite Hcap. destruct Hr as [Hr|[Hc Hb]]; auto. }
    destruct (decide (r = 0)) as [Hr|Hr].
    + left. split; [done|]. split; [by apply Hst'|done].
    + right. split; [done|]. split; [|done].
      apply (mukv_models_all kv); [done|apply Hst'..|]; [done|apply Hst'; [done|apply Hs|by apply steady_room]].
  - intros kv m k [Hm Hs]. destruct (mukv_fetch_spec kv m k) as (kv' & res & Hf & Hi & Hk & _ & Hres).
    + apply Hm.
    + by eapply index_models_mono; [|apply Hm].
    + intros e v He Hv. destruct Hm as [_ Hidx]. destruct (rhash_get_index _ _ _ k Hidx) as (e' & He' & Hloc).
      rewrite He in He'. injection He' as <-. by rewrite Hv in Hloc.
    + destruct Hres as [-> Ha]; [apply Hs|by apply steady_room|]. exists kv'. split; [done|].
      split; [|by apply (steady_keeps (kv_file kv))].
      apply (mukv_models_all kv); [done|apply Hk|done|]. exists []. by rewrite app_nil_r.
  - intros kv m k [Hm Hs]. destruct (mukv_delete_models kv m k Hm) as (kv' & Hd & Hm' & Hf).
    exists kv'. split; [done|]. split; [done|]. by rewrite Hf.
  - intros kv m k [Hm _]. by apply mukv_exists_models.
Defined.

(** * Properties *)




(** The return value of a store does not tell whether the device has room: what fits the buffer is
    kept back, and the store returns 0; when the device does not take it later, the fetch that finds
    out returns NULL, and the record is lost. *)
Theorem mukv_store_kept_back (kv : mukv) (m : gmap bytes bytes) (k v : bytes) (room : nat)
    (f := kv_file kv) :
  mukv_models kv m → quiet f → f_buf f = [] → f_room f = Some room → Z.of_nat (length (f_all f)) <= LONG_MAX →
  Z.of_nat (length v) <= LONG_MAX → (room < length v <= f_cap f)%nat →
  ∃ kv' kv'', mukv_store kv k v = Some (kv', 0) ∧ mukv_fetch kv' k = Some (kv'', None) ∧
    length (f_data (kv_file kv'')) = (length (f_data f) + room)%nat.
Proof.
  intros [Hok Hidx] Hq Hb Hroom Hd Hv [Hr Hc]. subst f. set (f := kv_file kv) in *.
  unfold mukv_store, fseek_end, fseek. fold f. unfold transmit at 1. rewrite Hb. cbn [length Nat.eqb negb Z.eqb].
  assert (f_all f = f_data f) as Hfd by (unfold f_all; by rewrite Hb, app_nil_r). rewrite Hfd in *.
  rewrite (proj2 (Z.ltb_ge _ _)) by done. rewrite Hq. cbn [negb Z.eqb]. unfold fwrite.
  rewrite (proj2 (Z.ltb_ge _ _)) by done. cbn [f_cap f_io f_calls f_room f_data f_buf f_pos f_out].
  rewrite ?Hb. cbn [app]. unfold due. rewrite (proj2 (Nat.leb_le _ _)) by done. unfold transmit at 1.
  cbn [Nat.eqb Z.eqb]. rewrite Nat.eqb_refl. cbn [negb]. unfold ftell. cbn [f_pos].
  destruct Hidx as (idx & Hidx & _). set (e := entry_bytes _ _).
  destruct (rhash_insert_models (kv_index kv) idx k (Some (length k)) k e (Some sizeof_entry) e)
    as (ht & -> & Hht); [done|apply rh_bytes_full|by apply rh_bytes_all; unfold e; rewrite entry_bytes_length|].
  cbn [mbind option_bind]. do 2 eexists. split; [done|]. unfold mukv_fetch. cbn [kv_index kv_file].
  rewrite (rhash_get_models _ _ _ _ k Hht (rh_bytes_full k)), lookup_insert_eq. cbn [mbind option_bind].
  unfold e. rewrite entry_off_bytes by done. unfold ftell. cbn [f_pos].
  rewrite (proj2 (Nat.eqb_neq _ (length (f_data f)))) by lia. cbn [negb].
  unfold fseek_set, fseek, transmit. cbn [f_cap f_io f_calls f_room f_data f_buf f_pos f_out].
  rewrite (proj2 (Nat.eqb_neq (length v) 0)) by lia. rewrite Hq, Hroom.
  rewrite (proj2 (Nat.eqb_neq (Nat.min _ _) _)) by lia. cbn [negb Z.eqb ENOSPC].
  split; [done|]. cbn [kv_file f_data].
  replace (length (f_data f) + length v - length v)%nat with (length (f_data f)) by lia.
  rewrite take_ge by done. rewrite !length_app, length_take, length_drop. lia.
Qed.

Lemma mukv_store_kept_back_witness :
  let kv := mukv_new (mk_device 4096 (Some 1%nat) (λ _, true)) in
  ∃ kv' kv'', mukv_store kv (str "12") (str "+a") = Some (kv', 0) ∧
    mukv_fetch kv' (str "12") = Some (kv'', None).
Proof.
  intros kv. destruct (mukv_store_kept_back kv ∅ (str "12") (str "+a") 1 (mukv_new_models _))
    as (kv' & kv'' & Hs & Hf & _).
  - intros i. reflexivity.
  - reflexivity.
  - reflexivity.
  - discriminate.
  - discriminate.
  - split; apply Nat.leb_le; reflexivity.
  - exists kv', kv''. split; [exact Hs|exact Hf].
Defined.
