(* ===== verification/Property.v ===== *)
(** Properties: src/property.c.

    [property_strlen], [property_dump] and the deletion forms with a reference parser of the
    property block of a dump file; the serialisation of property hashes; and the
    reference-counted property storage. *)
From S2P Require Import Prelude Interfaces.

Open Scope Z_scope.

(** * Text

    A property value is a buffer that may hold NUL characters; the functions of this part see
    only the C string at its start. *)

(** [PROPS_END] and [PROPS_END_LEN] of src/main.h *)
Definition PROPS_END : bytes := str "PROPS-END" ++ [nl].
Definition PROPS_END_LEN : Z := 10.

Definition strlen (b : bytes) : Z := Z.of_nat (length (c_str b)).

Definition property_strlen (key value : option bytes) : Z :=
  match key with
  | None => 0
  | Some key =>
      match value with
      | None =>
          strlen (str "K " ++ dec (strlen key) ++ [nl] ++ c_str key ++ [nl] ++ str "V 0"
                  ++ [nl] ++ [nl])
      | Some value =>
          strlen (str "K " ++ dec (strlen key) ++ [nl] ++ c_str key ++ [nl] ++ str "V "
                  ++ dec (strlen value) ++ [nl] ++ c_str value ++ [nl])
      end
  end.

Definition property_del_strlen (key : option bytes) : Z :=
  match key with
  | None => 0
  | Some key => strlen (str "D " ++ dec (strlen key) ++ [nl] ++ c_str key ++ [nl])
  end.

(** What the call adds to the standard output. *)
Definition property_dump (key value : option bytes) : bytes :=
  match key with
  | None => []
  | Some key =>
      (str "K " ++ dec (strlen key) ++ [nl]) ++ (c_str key ++ [nl]) ++
      match value with
      | Some value => (str "V " ++ dec (strlen value) ++ [nl]) ++ (c_str value ++ [nl])
      | None => str "V 0" ++ [nl] ++ [nl]
      end
  end.

Definition property_del_dump (key : option bytes) : bytes :=
  match key with
  | None => []
  | Some key => (str "D " ++ dec (strlen key) ++ [nl]) ++ (c_str key ++ [nl])
  end.

(** ** A reference parser of property blocks *)

Inductive prop_line := PropSet (key value : bytes) | PropDel (key : bytes).

Definition dump_line (l : prop_line) : bytes :=
  match l with
  | PropSet k v => property_dump (Some k) (Some v)
  | PropDel k => property_del_dump (Some k)
  end.

Definition line_strlen (l : prop_line) : Z :=
  match l with
  | PropSet k v => property_strlen (Some k) (Some v)
  | PropDel k => property_del_strlen (Some k)
  end.

Definition line_ok (l : prop_line) : Prop :=
  match l with PropSet k v => cstr k ∧ cstr v | PropDel k => cstr k end.

#[export] Instance line_ok_dec l : Decision (line_ok l).
Proof. destruct l; simpl; apply _. Defined.

(** Everything up to the next newline, and what follows it. *)
Fixpoint read_line (b : bytes) : option (bytes * bytes) :=
  match b with
  | [] => None
  | c :: b => if decide (c = nl) then Some ([], b) else '(l, r) ← read_line b; Some (c :: l, r)
  end.

(** A block of [n] bytes terminated by a newline. *)
Definition read_block (n : Z) (b : bytes) : option (bytes * bytes) :=
  let n := Z.to_nat n in
  if (n <? length b)%nat && bool_decide (b !! n = Some nl)
  then Some (take n b, drop (S n) b) else None.

Fixpoint parse_props (fuel : nat) (b : bytes) : option (list prop_line * bytes) :=
  match fuel with
  | O => None
  | S fuel =>
      '(line, b) ← read_line b;
      if decide (line = str "PROPS-END") then Some ([], b)
      else match line with
           | k :: s :: num =>
               '(key, b) ← read_block (undec num) b;
               if decide ([k; s] = str "K ") then
                 '(vline, b) ← read_line b;
                 '(value, b) ← read_block (undec (drop 2 vline)) b;
                 '(ls, b) ← parse_props fuel b; Some (PropSet key value :: ls, b)
               else '(ls, b) ← parse_props fuel b; Some (PropDel key :: ls, b)
           | _ => None
           end
  end.

(** ** Lemmas *)

Lemma dec_cstr n : 0 <= n → cstr (dec n).
Proof.
  intros Hn. eapply Forall_impl; [by apply dec_Forall|]. intros c Hc ->. rewrite u8_nul in Hc. lia.
Qed.

Lemma dec_no_nl n : 0 <= n → nl ∉ dec n.
Proof.
  intros Hn Hin. pose proof (dec_Forall n Hn) as Hd. rewrite Forall_forall in Hd.
  specialize (Hd _ Hin). change (u8 nl) with 10 in Hd. lia.
Qed.

Lemma strlen_nonneg b : 0 <= strlen b.
Proof. unfold strlen. lia. Qed.

Lemma strlen_cstr b : cstr b → strlen b = Z.of_nat (length b).
Proof. intros Hb. unfold strlen. by rewrite c_str_id. Qed.

Lemma property_dump_cstr k v : cstr (property_dump k v).
Proof.
  destruct k as [k|]; [|constructor]. unfold property_dump.
  assert (cstr [nl]) by eval_decide.
  assert (cstr (str "K ")) by eval_decide.
  assert (cstr (str "V ")) by eval_decide.
  assert (cstr (str "V 0")) by eval_decide.
  destruct v; rewrite !cstr_app;
    split_and!; auto using c_str_cstr, dec_cstr, strlen_nonneg.
Qed.

Lemma property_del_dump_cstr k : cstr (property_del_dump k).
Proof.
  destruct k as [k|]; [|constructor]. unfold property_del_dump.
  assert (cstr [nl]) by eval_decide.
  assert (cstr (str "D ")) by eval_decide.
  rewrite !cstr_app; split_and!; auto using c_str_cstr, dec_cstr, strlen_nonneg.
Qed.

(** The announced length of a property is the length of what is printed. *)
(** Only the C string at the start of a value matters. *)
Lemma property_dump_c_str k v :
  property_dump (Some k) (Some (c_str v)) = property_dump (Some k) (Some v).
Proof. cbn [property_dump]. unfold strlen. by rewrite (c_str_id (c_str v)) by apply c_str_cstr. Qed.

Lemma property_strlen_c_str k v :
  property_strlen (Some k) (Some (c_str v)) = property_strlen (Some k) (Some v).
Proof. cbn [property_strlen]. unfold strlen. by rewrite (c_str_id (c_str v)) by apply c_str_cstr. Qed.

Lemma property_strlen_dump k v :
  property_strlen k v = Z.of_nat (length (property_dump k v)).
Proof.
  rewrite <-strlen_cstr by apply property_dump_cstr.
  destruct k as [k|]; [|done]. unfold property_strlen, property_dump.
  destruct v as [v|]; f_equal; by rewrite <-!app_assoc.
Qed.

Lemma property_del_strlen_dump k :
  property_del_strlen k = Z.of_nat (length (property_del_dump k)).
Proof.
  rewrite <-strlen_cstr by apply property_del_dump_cstr.
  destruct k as [k|]; [|done]. unfold property_del_strlen, property_del_dump.
  f_equal; by rewrite <-!app_assoc.
Qed.

Lemma read_line_app l r : nl ∉ l → read_line (l ++ nl :: r) = Some (l, r).
Proof.
  induction l as [|c l IH]; intros Hl; simpl; [done|].
  rewrite decide_False by set_solver. rewrite IH by set_solver. done.
Qed.

#[local] Arguments read_line : simpl never.
#[local] Arguments read_block : simpl never.

Lemma read_block_app b r :
  read_block (Z.of_nat (length b)) (b ++ nl :: r) = Some (b, r).
Proof.
  unfold read_block. rewrite Nat2Z.id, list_lookup_middle by done.
  rewrite bool_decide_eq_true_2 by done.
  rewrite (proj2 (Nat.ltb_lt _ _)) by (rewrite length_app; simpl; lia). simpl.
  rewrite take_app_length. do 2 f_equal.
  change (nl :: r) with ([nl] ++ r). rewrite app_assoc, drop_app_length'; [done|].
  rewrite length_app. simpl. lia.
Qed.

Lemma parse_props_dump ls rest fuel :
  Forall line_ok ls → (length ls < fuel)%nat →
  parse_props fuel (concat (dump_line <$> ls) ++ PROPS_END ++ rest) = Some (ls, rest).
Proof.
  intros Hls. revert fuel. induction Hls as [|l ls Hl Hls IH]; intros [|fuel] Hf;
    simpl in Hf; [lia| |lia|].
  { simpl. done. }
  specialize (IH fuel ltac:(lia)). cbn [parse_props].
  destruct l as [k v|k]; simpl in Hl.
  - destruct Hl as [Hk Hv]. cbn [fmap list_fmap concat dump_line property_dump].
    rewrite (c_str_id k), (c_str_id v), !strlen_cstr by done.
    rewrite <-!app_assoc. cbn [app].
    change (str "K " ++ ?x) with (str "K " ++ x).
    rewrite (app_assoc (str "K ")), read_line_app.
    2:{ rewrite not_elem_of_app. split; [eval_decide|]. apply dec_no_nl. lia. }
    simpl. rewrite undec_dec by lia. rewrite read_block_app. simpl.
    rewrite (app_comm_cons _ _ " "%char), (app_comm_cons _ _ "V"%char), read_line_app.
    2:{ pose proof (dec_no_nl (Z.of_nat (length v)) ltac:(lia)). set_solver. }
    simpl. rewrite drop_0, undec_dec by lia. rewrite read_block_app. simpl.
    unfold PROPS_END in IH. simpl in IH. by rewrite IH.
  - cbn [fmap list_fmap concat dump_line property_del_dump].
    rewrite (c_str_id k), !strlen_cstr by done.
    rewrite <-!app_assoc. cbn [app].
    rewrite (app_assoc (str "D ")), read_line_app.
    2:{ rewrite not_elem_of_app. split; [eval_decide|]. apply dec_no_nl. lia. }
    simpl. rewrite undec_dec by lia. rewrite read_block_app. simpl.
    unfold PROPS_END in IH. simpl in IH. by rewrite IH.
Qed.

(** * Serialised property hashes

    A property hash maps names (C strings) to [svn_string_t] values, which carry their length. *)

Abbreviation prop_hash := (gmap bytes bytes).

Definition sizeof_int : nat := 4.

(** The encoding of one property: both lengths as [int]s, each followed by its bytes. *)
Definition prop_item (kv : bytes * bytes) : bytes :=
  le_enc sizeof_int (Z.of_nat (length (kv.1))) ++ kv.1 ++
  le_enc sizeof_int (Z.of_nat (length (kv.2))) ++ kv.2.

(** The length computed before the buffer is allocated. *)
Definition prop_hash_len (l : list (bytes * bytes)) : nat :=
  foldr (λ kv n, sizeof_int * 2 + (length (kv.1) + length (kv.2)) + n)%nat 0%nat l + sizeof_int.

Section serialize.
Context `{HashIter}.

Definition prop_hash_serialize (props : prop_hash) : bytes :=
  concat (prop_item <$> hash_iter props) ++ le_enc sizeof_int 0.
End serialize.

(** Loads the [int] at the read pointer and advances past it; undefined past the buffer. *)
Definition read_int (b : bytes) : option (Z * bytes) :=
  if (sizeof_int <=? length b)%nat
  then Some (i32 (le_dec (take sizeof_int b)), drop sizeof_int b) else None.

(** A counted string: a negative length or one past the end of the buffer is undefined. *)
Definition read_counted (b : bytes) : option (bytes * bytes) :=
  '(len, b) ← read_int b;
  if (len <? 0) || (Z.of_nat (length b) <? len) then None
  else Some (take (Z.to_nat len) b, drop (Z.to_nat len) b).

(** Reads properties until a zero length; [fuel] bounds their number. *)
Fixpoint prop_hash_reconstruct (fuel : nat) (props : prop_hash) (b : bytes) : option prop_hash :=
  match fuel with
  | O => None
  | S fuel =>
      '(len, _) ← read_int b;
      if len =? 0 then Some props
      else
        '(key, b) ← read_counted b;
        '(value, b) ← read_counted b;
        prop_hash_reconstruct fuel (<[c_str key := value]> props) b
  end.

(** Property names are non-empty C strings and the lengths fit an [int]. *)
Definition prop_ok (props : prop_hash) : Prop :=
  ∀ k v, props !! k = Some v →
    k ≠ [] ∧ cstr k ∧ Z.of_nat (length k) < 2 ^ 31 ∧ Z.of_nat (length v) < 2 ^ 31.

Lemma read_int_enc n b :
  0 <= n < 2 ^ 31 → read_int (le_enc sizeof_int n ++ b) = Some (n, b).
Proof.
  intros Hn. unfold read_int. rewrite length_app, le_enc_length.
  rewrite (proj2 (Nat.leb_le _ _)) by lia.
  rewrite take_app_length', drop_app_length' by by rewrite le_enc_length.
  rewrite le_dec_enc by (change (Z.of_nat sizeof_int) with 4; lia).
  rewrite wrap_s_small by lia. done.
Qed.

Lemma read_counted_enc s b :
  Z.of_nat (length s) < 2 ^ 31 →
  read_counted (le_enc sizeof_int (Z.of_nat (length s)) ++ s ++ b) = Some (s, b).
Proof.
  intros Hs. unfold read_counted. rewrite read_int_enc by lia. cbn [mbind option_bind].
  rewrite (proj2 (Z.ltb_ge _ 0)) by lia. rewrite length_app, (proj2 (Z.ltb_ge _ _)) by lia.
  simpl. rewrite Nat2Z.id, take_app_length, drop_app_length. done.
Qed.

Lemma prop_reconstruct_items fuel l props :
  Forall (λ kv, kv.1 ≠ [] ∧ cstr (kv.1) ∧ Z.of_nat (length (kv.1)) < 2 ^ 31 ∧
            Z.of_nat (length (kv.2)) < 2 ^ 31) l →
  (length l < fuel)%nat →
  prop_hash_reconstruct fuel props (concat (prop_item <$> l) ++ le_enc sizeof_int 0)
    = Some (foldl (λ m kv, <[kv.1 := kv.2]> m) props l).
Proof.
  intros Hl. revert fuel props.
  induction Hl as [|[k v] l (Hne & Hc & Hk & Hv) Hl IH]; intros [|fuel] props Hf; simpl in Hf;
    [lia| |lia|].
  - cbn [fmap list_fmap concat app prop_hash_reconstruct].
    rewrite <-(app_nil_r (le_enc _ _)), read_int_enc by lia. done.
  - cbn [fmap list_fmap concat prop_hash_reconstruct].
    unfold prop_item. simpl in Hne, Hc, Hk, Hv. cbn [fst snd].
    rewrite <-!app_assoc. rewrite read_int_enc by lia. cbn [mbind option_bind].
    assert (0 < Z.of_nat (length k)) by (destruct k; simpl; [done|lia]).
    rewrite (proj2 (Z.eqb_neq _ _)) by lia.
    rewrite read_counted_enc by done. cbn [mbind option_bind].
    rewrite read_counted_enc by done. cbn [mbind option_bind].
    rewrite c_str_id by done. rewrite IH by lia. done.
Qed.

Lemma foldl_insert_to_map (l : list (bytes * bytes)) (m : prop_hash) :
  NoDup l.*1 →
  foldl (λ m kv, <[kv.1 := kv.2]> m) m l = (list_to_map l : prop_hash) ∪ m.
Proof.
  revert m. induction l as [|[k v] l IH]; intros m Hnd; simpl; [by rewrite map_empty_union|].
  apply NoDup_cons in Hnd as [Hk Hnd]. simpl in Hk. rewrite IH by done.
  rewrite <-insert_union_r by by apply not_elem_of_list_to_map_1.
  by rewrite insert_union_l.
Qed.

Section serialize_lemmas.
Context `{HashIter}.

Lemma prop_ok_items props :
  prop_ok props →
  Forall (λ kv, kv.1 ≠ [] ∧ cstr (kv.1) ∧ Z.of_nat (length (kv.1)) < 2 ^ 31 ∧
            Z.of_nat (length (kv.2)) < 2 ^ 31) (hash_iter props).
Proof.
  intros Hok. apply Forall_forall. intros [k v] Hin. apply hash_iter_elem in Hin. by apply Hok.
Qed.

Lemma prop_serialize_length props :
  length (prop_hash_serialize props) = prop_hash_len (hash_iter props).
Proof.
  unfold prop_hash_serialize, prop_hash_len. rewrite length_app, le_enc_length. f_equal.
  induction (hash_iter props) as [|[k v] l IH]; [done|].
  cbn [fmap list_fmap concat foldr]. rewrite length_app, <-IH.
  unfold prop_item. cbn [fst snd]. rewrite !length_app, !le_enc_length. lia.
Qed.

Lemma prop_reconstruct_serialize props props0 fuel :
  prop_ok props → (size props < fuel)%nat →
  prop_hash_reconstruct fuel props0 (prop_hash_serialize props) = Some (props ∪ props0).
Proof.
  intros Hok Hf. unfold prop_hash_serialize. rewrite prop_reconstruct_items.
  - rewrite foldl_insert_to_map by apply hash_iter_nodup. by rewrite hash_iter_to_map.
  - by apply prop_ok_items.
  - by rewrite hash_iter_perm, length_map_to_list.
Qed.

(** The fuel used by [property_load] always suffices: every property takes some bytes. *)
Lemma prop_serialize_fuel props : (size props < length (prop_hash_serialize props))%nat.
Proof.
  rewrite prop_serialize_length. unfold prop_hash_len.
  rewrite <-length_map_to_list, <-(hash_iter_perm props).
  unfold sizeof_int. induction (hash_iter props) as [|[k v] l IH]; cbn [length foldr]; lia.
Qed.
End serialize_lemmas.

(** * Properties *)

(** The text of a property block: the lines followed by [PROPS_END]. *)
Definition prop_block (ls : list prop_line) : bytes := concat (dump_line <$> ls) ++ PROPS_END.

Lemma prop_block_length ls :
  Z.of_nat (length (prop_block ls)) = foldr (λ l n, line_strlen l + n) PROPS_END_LEN ls.
Proof.
  unfold prop_block. induction ls as [|l ls IH]; [done|]. cbn [fmap list_fmap concat foldr].
  rewrite <-IH, <-app_assoc, length_app, Nat2Z.inj_add. f_equal.
  destruct l; symmetry; [apply property_strlen_dump|apply property_del_strlen_dump].
Qed.

(** C38. Property blocks are parsed back to what was dumped: for keys and values that are C
    strings (newlines included), the block written by [property_dump] and [property_del_dump]
    and closed by [PROPS_END] reads back as the same property lines, leaving what follows
    untouched, and the lengths that [property_strlen] and [property_del_strlen] announce for the
    header add up to its size. *)
Theorem property_block_roundtrip (ls : list prop_line) (rest : bytes) :
  Forall line_ok ls →
  parse_props (S (length ls)) (prop_block ls ++ rest) = Some (ls, rest) ∧
  foldr (λ l n, line_strlen l + n) PROPS_END_LEN ls = Z.of_nat (length (prop_block ls)).
Proof.
  intros Hls. split; [|by rewrite prop_block_length].
  unfold prop_block. rewrite <-app_assoc. apply parse_props_dump; [done|lia].
Qed.

Lemma property_block_roundtrip_witness :
  let ls := [PropSet (str "svn:log") (str "two" ++ nl :: str "lines"); PropDel (str "a");
             PropSet (str "e") []] in
  Forall line_ok ls ∧ parse_props 4 (prop_block ls ++ str "rest") = Some (ls, str "rest") ∧
  Z.of_nat (length (prop_block ls)) = 53.
Proof.
  intros ls. assert (Forall line_ok ls) as Hls
    by (repeat constructor; apply (bool_decide_unpack _); vm_compute; exact I).
  split; [exact Hls|]. destruct (property_block_roundtrip ls (str "rest") Hls) as [H1 H2].
  split; [exact H1|]. rewrite <-H2. vm_compute. reflexivity.
Defined.

(** Values are cut at their first NUL: what a dump of a property yields when it is read back
    is the C string at the start of the value, so that a binary value is not preserved. *)
Theorem property_dump_truncates (key value : bytes) :
  cstr key →
  parse_props 2 (prop_block [PropSet key value]) = Some ([PropSet key (c_str value)], []) ∧
  (nul ∈ value → c_str value ≠ value).
Proof.
  intros Hk. split.
  - assert (prop_block [PropSet key value] = prop_block [PropSet key (c_str value)]) as ->.
    { unfold prop_block. do 2 f_equal. cbn [fmap list_fmap dump_line property_dump].
      unfold strlen. by rewrite (c_str_id (c_str value)) by apply c_str_cstr. }
    unfold prop_block. rewrite <-(app_nil_r PROPS_END). apply parse_props_dump; [|simpl; lia].
    repeat constructor; simpl; auto with cstrings.
  - intros Hin Heq. pose proof (c_str_cstr value) as Hc. rewrite Heq in Hc.
    by apply (proj1 (Forall_forall _ _) Hc nul).
Qed.

Lemma property_dump_truncates_witness :
  parse_props 2 (prop_block [PropSet (str "icon") (str "ab" ++ nul :: str "cd")])
    = Some ([PropSet (str "icon") (str "ab")], []).
Proof.
  assert (cstr (str "icon")) as Hk by eval_decide.
  exact (proj1 (property_dump_truncates (str "icon") (str "ab" ++ nul :: str "cd") Hk)).
Defined.

(** C37. Serialised property hashes read back: for names that are non-empty C strings and sizes
    that fit an [int], in whatever order the table is iterated, reconstruction stays inside the
    serialised buffer, terminates at its final zero and adds exactly the original properties
    (binary values included); the buffer has the length computed before it was allocated. *)
Theorem prop_hash_roundtrip `{HashIter} (props props0 : prop_hash) :
  prop_ok props →
  let data := prop_hash_serialize props in
  prop_hash_reconstruct (length data) props0 data = Some (props ∪ props0) ∧
  length data = prop_hash_len (hash_iter props).
Proof.
  intros Hok data. split; [|apply prop_serialize_length].
  apply prop_reconstruct_serialize; [done|apply prop_serialize_fuel].
Qed.

Lemma prop_hash_roundtrip_witness :
  let props : prop_hash := {[str "a" := str "x" ++ [nul]; str "bc" := []]} in
  prop_ok props ∧
  prop_hash_reconstruct (length (prop_hash_serialize props)) ∅ (prop_hash_serialize props)
    = Some (props ∪ ∅).
Proof.
  intros props. assert (prop_ok props) as Hok.
  { intros k v Hkv. unfold props in Hkv.
    apply lookup_insert_Some in Hkv as [[<- <-]|[_ Hkv]];
      [|apply lookup_singleton_Some in Hkv as [<- <-]];
      (split; [discriminate|split; [eval_decide|split; vm_compute; reflexivity]]). }
  split; [exact Hok|]. exact (proj1 (prop_hash_roundtrip props ∅ Hok)).
Defined.
