(* ===== verification/PropStore.v ===== *)
(** The persistent property storage of src/property.c.

    Serialised property hashes are stored once per content, under their MD5 digest, in the
    key-value store; a path refers to its properties through a reference-counted [prop_ref_t].
    References are shared pointers: the model keeps a heap of them, with [None] for a
    dereference of a freed one.  The theorems show that no reference is used after it is freed,
    that the count never falls below the number of paths that use a reference, and that what
    was stored for a path is what is loaded for it. *)
From S2P Require Import Prelude Interfaces Property Mukv.

Open Scope Z_scope.

(** * Data *)

Abbreviation ploc := nat.

(** [prop_ref_t] *)
Record prop_ref := mk_prop_ref { pr_id : bytes; pr_count : Z }.

(** [struct property_storage_t]; a [prop_entry_t] is owned by its table and is represented by
    its [ref] pointer. *)
Record property_storage (T : Type) := mk_storage {
  ps_heap : gmap ploc prop_ref;
  ps_refs : gmap bytes ploc;      (* IDs to references *)
  ps_entries : gmap bytes ploc;   (* paths to references *)
  ps_db : T;                      (* IDs to property data *)
  ps_gc : gmap bytes ploc         (* entries that reached zero reference count *)
}.
Arguments mk_storage {T}.
Arguments ps_heap {T}.
Arguments ps_refs {T}.
Arguments ps_entries {T}.
Arguments ps_db {T}.
Arguments ps_gc {T}.

Section storage.
Context `{HashIter} {T : Type} `{KV T} `{Codec}.
(** [apr_md5] of the APR library; [None] is a status other than [APR_SUCCESS]. *)
Variable apr_md5 : bytes → option bytes.

Implicit Types (st : property_storage T) (path : bytes) (props : prop_hash).

(** * Operations *)

Definition property_storage_create (db : T) : property_storage T := mk_storage ∅ ∅ ∅ db ∅.

(** [entry->ref = ref; ref->count++;] and the entry's registration. *)
Definition ps_reference st path (ref : ploc) : option (property_storage T) :=
  r ← ps_heap st !! ref;
  Some (mk_storage (<[ref := mk_prop_ref (pr_id r) (pr_count r + 1)]> (ps_heap st))
          (ps_refs st) (<[path := ref]> (ps_entries st)) (ps_db st) (ps_gc st)).

Definition property_store st path props : option (property_storage T * Z) :=
  if decide (size props = 0%nat) then
    (* No work for empty property hashes *)
    Some (mk_storage (ps_heap st) (ps_refs st) (delete path (ps_entries st)) (ps_db st)
            (ps_gc st), 0)
  else
    let data := prop_hash_serialize props in
    match apr_md5 data with
    | None => Some (st, -1)
    | Some id =>
        match ps_refs st !! id with
        | Some ref => st ← ps_reference st path ref; Some (st, 0)
        | None =>
            let ref := fresh (dom (ps_heap st)) in
            let heap := <[ref := mk_prop_ref id 0]> (ps_heap st) in
            let refs := <[id := ref]> (ps_refs st) in
            match compress data with
            | None => Some (mk_storage heap refs (ps_entries st) (ps_db st) (ps_gc st), -1)
            | Some value =>
                '(db, ret) ← kv_store (ps_db st) id value;
                let st := mk_storage heap refs (ps_entries st) db (ps_gc st) in
                if negb (ret =? 0) then Some (st, -1)
                else st ← ps_reference st path ref; Some (st, 0)
            end
        end
    end.

(** [apr_hash_set(store->gc, ref, sizeof(prop_ref_t * ), ref)]: the key is the first eight
    bytes at [ref], that is of the ID; for a key already present APR keeps the old key
    pointer, which is what [property_storage_cleanup] reads back. *)
Definition gc_set (gc : gmap bytes ploc) (id : bytes) (ref : ploc) : gmap bytes ploc :=
  match gc !! take 8 id with Some _ => gc | None => <[take 8 id := ref]> gc end.

(** Removes the entry of [path] and drops its reference. *)
Definition ps_dereference st path (ref : ploc) (db : T) : option (property_storage T) :=
  r ← ps_heap st !! ref;
  let count := pr_count r - 1 in
  Some (mk_storage (<[ref := mk_prop_ref (pr_id r) count]> (ps_heap st))
          (ps_refs st) (delete path (ps_entries st)) db
          (if count <=? 0 then gc_set (ps_gc st) (pr_id r) ref else ps_gc st)).

(** The third component is the caller's hash with the loaded properties added. *)
Definition property_load st path props : option (property_storage T * prop_hash * Z) :=
  match ps_entries st !! path with
  | None => Some (st, props, 0)
  | Some ref =>
      r ← ps_heap st !! ref;
      '(db, value) ← kv_fetch (ps_db st) (pr_id r);
      let st' := mk_storage (ps_heap st) (ps_refs st) (ps_entries st) db (ps_gc st) in
      match value ≫= uncompress with
      | None => Some (st', props, -1)
      | Some data =>
          props ← prop_hash_reconstruct (length data) props data;
          st ← ps_dereference st path ref db;
          Some (st, props, 0)
      end
  end.

Definition property_delete st path : option (property_storage T * Z) :=
  match ps_entries st !! path with
  | None => Some (st, 0)
  | Some ref => st ← ps_dereference st path ref (ps_db st); Some (st, 0)
  end.

(** The loop over the [gc] table; [Some (st, None)] is the early return after a failed
    deletion. *)
Fixpoint cleanup_loop st (gc : list (bytes * ploc)) (tofree : list ploc)
    : option (property_storage T * option (list ploc)) :=
  match gc with
  | [] => Some (st, Some tofree)
  | (_, ref) :: gc =>
      r ← ps_heap st !! ref;
      if pr_count r <=? 0 then
        '(db, ret) ← kv_delete (ps_db st) (pr_id r);
        let st := mk_storage (ps_heap st) (delete (pr_id r) (ps_refs st)) (ps_entries st) db
                    (ps_gc st) in
        if negb (ret =? 0) then Some (st, None) else cleanup_loop st gc (tofree ++ [ref])
      else cleanup_loop st gc tofree
  end.

(** [free(tofree[n])]: undefined for a reference that is not allocated. *)
Definition free_ref (heap : option (gmap ploc prop_ref)) (ref : ploc)
    : option (gmap ploc prop_ref) :=
  heap ← heap; match heap !! ref with Some _ => Some (delete ref heap) | None => None end.

Definition property_storage_cleanup st : option (property_storage T * Z) :=
  if decide (size (ps_gc st) = 0%nat) then Some (st, 0)
  else
    '(st, tofree) ← cleanup_loop st (hash_iter (ps_gc st)) [];
    match tofree with
    | None => Some (st, -1)
    | Some tofree =>
        heap ← foldl free_ref (Some (ps_heap st)) (reverse tofree);
        Some (mk_storage heap (ps_refs st) (ps_entries st) (ps_db st) ∅, 0)
    end.

(** [prop_cleanup] at the end of the program: the references that are still allocated. *)
Definition prop_cleanup st : option (gmap ploc prop_ref) :=
  foldl free_ref (Some (ps_heap st)) (hash_iter (ps_refs st)).*2.

(** * Invariant *)

(** The number of paths that use a reference. *)
Definition refcount (entries : gmap bytes ploc) (ref : ploc) : nat :=
  size (filter (λ kv, kv.2 = ref) entries).

(** The property hashes a run uses can be serialised. *)
Record props_fit (used : prop_hash → Prop) : Prop := {
  pf_ok : ∀ props, used props → prop_ok props;
  pf_small : ∀ props, used props → Z.of_nat (length (prop_hash_serialize props)) < 2 ^ 31
}.

(** Moreover, no two of them have colliding digests. *)
Record hash_universe (used : prop_hash → Prop) : Prop := {
  hu_ok : ∀ props, used props → prop_ok props;
  hu_small : ∀ props, used props → Z.of_nat (length (prop_hash_serialize props)) < 2 ^ 31;
  hu_inj : ∀ p1 p2 id, used p1 → used p2 →
    apr_md5 (prop_hash_serialize p1) = Some id → apr_md5 (prop_hash_serialize p2) = Some id →
    p1 = p2
}.

Lemma hash_universe_fit used : hash_universe used → props_fit used.
Proof. by intros []. Qed.

Variable used : prop_hash → Prop.

(** Memory safety, and what the database can hold; [m] is the map in the database. *)
Record ps_wf st (m : gmap bytes bytes) : Prop := {
  pw_db : kv_models (ps_db st) m;
  pw_entry : ∀ path ref, ps_entries st !! path = Some ref → is_Some (ps_heap st !! ref);
  pw_refs : ∀ id ref, ps_refs st !! id = Some ref →
    ∃ r, ps_heap st !! ref = Some r ∧ pr_id r = id;
  pw_heap : ∀ ref r, ps_heap st !! ref = Some r → ps_refs st !! pr_id r = Some ref;
  (** the count is never below the number of users *)
  pw_count : ∀ ref r, ps_heap st !! ref = Some r →
    Z.of_nat (refcount (ps_entries st) ref) <= pr_count r;
  pw_gc : ∀ k ref, ps_gc st !! k = Some ref →
    ∃ r, ps_heap st !! ref = Some r ∧ k = take 8 (pr_id r);
  pw_data : ∀ id c, m !! id = Some c →
    ∃ props, used props ∧ apr_md5 (prop_hash_serialize props) = Some id ∧
      compress (prop_hash_serialize props) = Some c
}.

(** Every reference has its data: true until a store fails. *)
Definition ps_full st (m : gmap bytes bytes) : Prop :=
  ∀ ref r, ps_heap st !! ref = Some r → is_Some (m !! pr_id r).

(** The storage holds the properties [A], by path. *)
Definition ps_holds st (A : gmap bytes prop_hash) : Prop :=
  ∀ path, match ps_entries st !! path, A !! path with
          | None, None => True
          | Some ref, Some props => used props ∧ ∃ r, ps_heap st !! ref = Some r ∧
              apr_md5 (prop_hash_serialize props) = Some (pr_id r)
          | _, _ => False
          end.

Record ps_models st (A : gmap bytes prop_hash) (m : gmap bytes bytes) : Prop := {
  pm_wf : ps_wf st m;
  pm_full : ps_full st m;
  pm_holds : ps_holds st A
}.

(** * Lemmas *)

Lemma refcount_delete_le entries path ref :
  (refcount (delete path entries) ref <= refcount entries ref)%nat.
Proof.
  unfold refcount. rewrite map_filter_delete, map_size_delete. case_match; simpl; lia.
Qed.

Lemma refcount_delete entries path ref :
  entries !! path = Some ref →
  refcount entries ref = S (refcount (delete path entries) ref).
Proof.
  intros He. unfold refcount.
  rewrite <-(insert_delete_id entries path ref) at 1 by done.
  rewrite map_filter_insert_True by done. rewrite map_size_insert_None; [done|].
  rewrite map_lookup_filter_None. left. by rewrite lookup_delete_eq.
Qed.

Lemma refcount_insert entries path ref ref' :
  (refcount (<[path := ref]> entries) ref' <=
    refcount entries ref' + if decide (ref = ref') then 1 else 0)%nat.
Proof.
  unfold refcount. rewrite map_filter_insert. simpl. case_decide.
  - rewrite map_size_insert. case_match; simpl; lia.
  - rewrite map_filter_delete, map_size_delete. case_match; simpl; lia.
Qed.

Lemma refcount_pos entries path ref :
  entries !! path = Some ref → (0 < refcount entries ref)%nat.
Proof. intros He. rewrite (refcount_delete _ _ _ He). lia. Qed.

Lemma gc_set_spec gc id ref k ref' :
  gc_set gc id ref !! k = Some ref' → gc !! k = Some ref' ∨ (k = take 8 id ∧ ref' = ref).
Proof.
  unfold gc_set. destruct (gc !! take 8 id) eqn:Hg; [by left|].
  destruct (decide (take 8 id = k)) as [<-|Hne].
  - rewrite lookup_insert_eq. naive_solver.
  - rewrite lookup_insert_ne by done. by left.
Qed.

(** Changing the count of one reference. *)
Lemma recount_lookup (heap : gmap ploc prop_ref) ref r c l :
  heap !! ref = Some r →
  <[ref := mk_prop_ref (pr_id r) c]> heap !! l =
    (λ x, mk_prop_ref (pr_id x) (if decide (ref = l) then c else pr_count x)) <$> heap !! l.
Proof.
  intros Hr. destruct (decide (ref = l)) as [<-|Hne].
  - by rewrite lookup_insert_eq, Hr.
  - rewrite lookup_insert_ne by done. by destruct (heap !! l) as [[]|].
Qed.

(** A state that differs in the count of [ref], the entries and the [gc] table. *)
Lemma ps_recount_wf st m ref r c entries db gc :
  ps_wf st m → ps_heap st !! ref = Some r → kv_models db m →
  (∀ path l, entries !! path = Some l → is_Some (ps_heap st !! l)) →
  (∀ l, (refcount entries l <= refcount (ps_entries st) l)%nat ∨ l = ref) →
  Z.of_nat (refcount entries ref) <= c →
  (∀ k l, gc !! k = Some l → ps_gc st !! k = Some l ∨ (k = take 8 (pr_id r) ∧ l = ref)) →
  ps_wf (mk_storage (<[ref := mk_prop_ref (pr_id r) c]> (ps_heap st)) (ps_refs st)
           entries db gc) m.
Proof.
  intros [] Hr Hdb He Hcnt Hc Hgc. split; simpl; try done.
  - intros p l [x Hx]%He. rewrite (recount_lookup _ _ _ _ _ Hr), Hx. done.
  - intros i l (x & Hx & <-)%pw_refs0. rewrite (recount_lookup _ _ _ _ _ Hr), Hx.
    eexists. done.
  - intros l y. rewrite (recount_lookup _ _ _ _ _ Hr), fmap_Some.
    intros (x & Hx & ->). simpl. by apply pw_heap0.
  - intros l y. rewrite (recount_lookup _ _ _ _ _ Hr), fmap_Some.
    intros (x & Hx & ->). simpl. case_decide; [by subst|].
    destruct (Hcnt l) as [Hl|Hl]; [|congruence]. apply pw_count0 in Hx. lia.
  - intros k l [(x & Hx & ->)%pw_gc0|[-> ->]]%Hgc; rewrite (recount_lookup _ _ _ _ _ Hr).
    + rewrite Hx. eexists. done.
    + rewrite Hr. eexists. done.
Qed.

Lemma ps_recount_full st m ref r c entries db gc :
  ps_full st m → ps_heap st !! ref = Some r →
  ps_full (mk_storage (<[ref := mk_prop_ref (pr_id r) c]> (ps_heap st)) (ps_refs st)
             entries db gc) m.
Proof.
  intros Hf Hr l y. simpl. rewrite (recount_lookup _ _ _ _ _ Hr), fmap_Some.
  intros (x & Hx & ->). simpl. by apply (Hf l).
Qed.

Lemma ps_recount_holds st ref r c path A entry db gc :
  ps_holds st A → ps_heap st !! ref = Some r →
  match entry with
  | None => True
  | Some (l, props) => l = ref ∧ used props ∧
      apr_md5 (prop_hash_serialize props) = Some (pr_id r)
  end →
  ps_holds (mk_storage (<[ref := mk_prop_ref (pr_id r) c]> (ps_heap st)) (ps_refs st)
              (partial_alter (λ _, fst <$> entry) path (ps_entries st)) db gc)
    (partial_alter (λ _, snd <$> entry) path A).
Proof.
  intros Hh Hr He p. simpl. destruct (decide (path = p)) as [<-|Hne].
  - rewrite !lookup_partial_alter_eq. destruct entry as [[l props]|]; simpl; [|done].
    destruct He as (-> & Hu & Hid). split; [done|]. rewrite lookup_insert_eq.
    eexists. split; [done|]. done.
  - rewrite !lookup_partial_alter_ne by done. specialize (Hh p).
    destruct (ps_entries st !! p), (A !! p); try done. destruct Hh as (? & x & Hx & ?).
    split; [done|]. rewrite (recount_lookup _ _ _ _ _ Hr), Hx. eexists. done.
Qed.

(** Adding a user. *)
Lemma ps_reference_wf st m path ref r :
  ps_wf st m → ps_heap st !! ref = Some r →
  ∃ st', ps_reference st path ref = Some st' ∧ ps_wf st' m.
Proof.
  intros Hwf Hr. unfold ps_reference. rewrite Hr. simpl. eexists. split; [done|].
  pose proof (λ l, refcount_insert (ps_entries st) path ref l) as Hi.
  apply ps_recount_wf; try done.
  - by destruct Hwf.
  - intros p l. rewrite lookup_insert_Some. intros [[_ <-]|[_ Hl]]; [done|].
    by apply (pw_entry _ _ Hwf p).
  - intros l. specialize (Hi l). destruct (decide (ref = l)); [by right|left; lia].
  - specialize (Hi ref). rewrite decide_True in Hi by done.
    pose proof (pw_count _ _ Hwf _ _ Hr). lia.
  - by left.
Qed.

Lemma ps_reference_models st A m path ref r props :
  ps_models st A m → ps_heap st !! ref = Some r → used props →
  apr_md5 (prop_hash_serialize props) = Some (pr_id r) →
  ∃ st', ps_reference st path ref = Some st' ∧ ps_models st' (<[path := props]> A) m.
Proof.
  intros [Hwf Hf Hh] Hr Hu Hid.
  destruct (ps_reference_wf _ _ path _ _ Hwf Hr) as (st' & Hst & Hwf').
  exists st'. split; [done|]. split; [done|..];
    unfold ps_reference in Hst; rewrite Hr in Hst; injection Hst as <-.
  - by apply ps_recount_full.
  - by apply (ps_recount_holds st ref r _ path A (Some (ref, props))).
Qed.

(** Removing a user. *)
Lemma ps_dereference_wf st m path ref db :
  ps_wf st m → ps_entries st !! path = Some ref → kv_models db m →
  ∃ st', ps_dereference st path ref db = Some st' ∧ ps_wf st' m.
Proof.
  intros Hwf He Hdb. destruct (pw_entry _ _ Hwf _ _ He) as [r Hr].
  unfold ps_dereference. rewrite Hr. simpl. eexists. split; [done|].
  apply ps_recount_wf; try done.
  - intros p l. rewrite lookup_delete_Some. intros [_ Hl]. by apply (pw_entry _ _ Hwf p).
  - intros l. left. apply refcount_delete_le.
  - pose proof (pw_count _ _ Hwf _ _ Hr). rewrite (refcount_delete _ _ _ He) in H2. lia.
  - intros k l. case_match; [apply gc_set_spec|by left].
Qed.

Lemma ps_dereference_models st A m path ref db :
  ps_models st A m → ps_entries st !! path = Some ref → kv_models db m →
  ∃ st', ps_dereference st path ref db = Some st' ∧ ps_models st' (delete path A) m.
Proof.
  intros [Hwf Hf Hh] He Hdb. destruct (pw_entry _ _ Hwf _ _ He) as [r Hr].
  destruct (ps_dereference_wf _ _ _ _ db Hwf He Hdb) as (st' & Hst & Hwf').
  exists st'. split; [done|]. split; [done|..];
    unfold ps_dereference in Hst; rewrite Hr in Hst; injection Hst as <-.
  - by apply ps_recount_full.
  - by apply (ps_recount_holds st ref r _ path A None).
Qed.

(** A new reference, unused so far. *)
Lemma ps_alloc_wf st m id ref db m' :
  ps_wf st m → ps_heap st !! ref = None → ps_refs st !! id = None → kv_models db m' →
  (∀ i c, m' !! i = Some c → m !! i = Some c ∨ ∃ props, i = id ∧ used props ∧
    apr_md5 (prop_hash_serialize props) = Some id ∧
    compress (prop_hash_serialize props) = Some c) →
  ps_wf (mk_storage (<[ref := mk_prop_ref id 0]> (ps_heap st)) (<[id := ref]> (ps_refs st))
           (ps_entries st) db (ps_gc st)) m'.
Proof.
  intros [] Href Hid Hdb Hm'.
  assert (∀ l x, ps_heap st !! l = Some x →
    <[ref := mk_prop_ref id 0]> (ps_heap st) !! l = Some x) as Hfwd.
  { intros l x Hl. rewrite lookup_insert_ne; [done|congruence]. }
  split; simpl; try done.
  - intros p l [x Hx]%pw_entry0. by rewrite (Hfwd _ _ Hx).
  - intros i l. rewrite lookup_insert_Some. intros [[<- <-]|[_ (x & Hx & <-)%pw_refs0]].
    + rewrite lookup_insert_eq. eauto.
    + rewrite (Hfwd _ _ Hx). eauto.
  - intros l y. rewrite lookup_insert_Some. intros [[<- <-]|[_ Hl%pw_heap0]]; simpl.
    + by rewrite lookup_insert_eq.
    + rewrite lookup_insert_ne; [done|congruence].
  - intros l y. rewrite lookup_insert_Some. intros [[<- <-]|[_ Hl%pw_count0]]; [|done]. simpl.
    unfold refcount. rewrite map_empty_filter_2; [done|].
    intros p l' Hp Hl'. simpl in Hl'. subst. apply pw_entry0 in Hp as [x Hx]. congruence.
  - intros k l (x & Hx & ->)%pw_gc0. rewrite (Hfwd _ _ Hx). eauto.
  - intros i c [Hc|(props & -> & ?)]%Hm'; eauto.
Qed.

Lemma ps_alloc_models st A m id ref db c props :
  ps_models st A m → ps_heap st !! ref = None → ps_refs st !! id = None →
  kv_models db (<[id := c]> m) → used props →
  apr_md5 (prop_hash_serialize props) = Some id →
  compress (prop_hash_serialize props) = Some c →
  ps_models (mk_storage (<[ref := mk_prop_ref id 0]> (ps_heap st)) (<[id := ref]> (ps_refs st))
               (ps_entries st) db (ps_gc st)) A (<[id := c]> m).
Proof.
  intros [Hwf Hf Hh] Href Hid Hdb Hu Hmd Hc. split.
  - apply (ps_alloc_wf _ m); try done. intros i c'. rewrite lookup_insert_Some.
    intros [[<- <-]|[_ ?]]; [right; eauto|by left].
  - intros l y. simpl. rewrite lookup_insert_Some. intros [[<- <-]|[_ Hl]]; simpl.
    + by rewrite lookup_insert_eq.
    + apply lookup_insert_is_Some'. right. by eapply Hf.
  - intros p. simpl. specialize (Hh p). destruct (ps_entries st !! p), (A !! p); try done.
    destruct Hh as (? & x & Hx & ?). split; [done|]. exists x. split; [|done].
    rewrite lookup_insert_ne; [done|congruence].
Qed.

(** What [property_store] does to the properties by path. *)
Definition props_set (A : gmap bytes prop_hash) path props : gmap bytes prop_hash :=
  if decide (size props = 0%nat) then delete path A else <[path := props]> A.

Lemma ps_unset_wf st m path :
  ps_wf st m →
  ps_wf (mk_storage (ps_heap st) (ps_refs st) (delete path (ps_entries st)) (ps_db st)
           (ps_gc st)) m.
Proof.
  intros []. split; simpl; try done.
  - intros p l. rewrite lookup_delete_Some. intros [_ ?]. eauto.
  - intros l x Hx%pw_count0. pose proof (refcount_delete_le (ps_entries st) path l). lia.
Qed.

Lemma ps_unset_holds st A path :
  ps_holds st A →
  ps_holds (mk_storage (ps_heap st) (ps_refs st) (delete path (ps_entries st)) (ps_db st)
             (ps_gc st)) (delete path A).
Proof.
  intros Hh p. simpl. destruct (decide (path = p)) as [<-|Hne].
  - by rewrite !lookup_delete_eq.
  - rewrite !(lookup_delete_ne _ path p) by done. apply Hh.
Qed.

Lemma property_store_models st m path props :
  used props → ps_wf st m →
  ∃ st' ret m', property_store st path props = Some (st', ret) ∧ ps_wf st' m' ∧
    (ret = 0 → ∀ A, ps_models st A m → ps_models st' (props_set A path props) m').
Proof.
  intros Hu Hwf. unfold property_store, props_set. case_decide as Hsz.
  { exists (mk_storage (ps_heap st) (ps_refs st) (delete path (ps_entries st)) (ps_db st)
              (ps_gc st)), 0, m.
    split; [done|]. split; [by apply ps_unset_wf|]. intros _ A [_ Hf Hh].
    split; [by apply ps_unset_wf|done|by apply ps_unset_holds]. }
  destruct (apr_md5 _) as [id|] eqn:Hid; [|naive_solver].
  destruct (ps_refs st !! id) as [ref|] eqn:Href.
  { destruct (pw_refs _ _ Hwf _ _ Href) as (r & Hr & <-).
    destruct (ps_reference_wf _ _ path _ _ Hwf Hr) as (st' & Hst & Hwf'). rewrite Hst. simpl.
    do 3 eexists. split; [done|]. split; [done|]. intros _ A HA.
    destruct (ps_reference_models _ _ _ path _ _ _ HA Hr Hu Hid) as (? & Hst' & ?).
    congruence. }
  set (ref := fresh _). set (heap := <[ref := _]> _). set (refs := <[id := ref]> _).
  assert (ps_heap st !! ref = None) as Hfr by (apply not_elem_of_dom, is_fresh).
  destruct (compress _) as [c|] eqn:Hc.
  2:{ do 3 eexists. split; [done|]. split; [|done].
      apply (ps_alloc_wf st m); try done; [by destruct Hwf|by left]. }
  destruct (kv_store_spec (ps_db st) m id c) as (db & ret & -> & [[-> Hdb]|[Hret Hdb]]);
    [by destruct Hwf| |]; simpl.
  - assert (ps_wf (mk_storage heap refs (ps_entries st) db (ps_gc st)) (<[id := c]> m)) as Hwf2.
    { apply (ps_alloc_wf st m); try done. intros i c'. rewrite lookup_insert_Some.
      intros [[<- <-]|[_ ?]]; [right; eauto|by left]. }
    destruct (ps_reference_wf _ _ path ref (mk_prop_ref id 0) Hwf2) as (st' & Hst & Hwf3).
    { apply lookup_insert_eq. }
    rewrite Hst. simpl. do 3 eexists. split; [done|]. split; [done|]. intros _ A HA.
    assert (ps_models (mk_storage heap refs (ps_entries st) db (ps_gc st)) A (<[id := c]> m))
      as HA2 by by apply (ps_alloc_models st A m id ref db c props).
    destruct (ps_reference_models _ _ _ path ref (mk_prop_ref id 0) props HA2) as (? & Hst' & ?);
      [apply lookup_insert_eq|done..|]. congruence.
  - rewrite (proj2 (Z.eqb_neq ret 0)) by done. simpl. do 3 eexists. split; [done|].
    split; [|done]. apply (ps_alloc_wf st m); try done. by left.
Qed.

Lemma property_delete_models st m path :
  ps_wf st m →
  ∃ st', property_delete st path = Some (st', 0) ∧ ps_wf st' m ∧
    ∀ A, ps_models st A m → ps_models st' (delete path A) m.
Proof.
  intros Hwf. unfold property_delete. destruct (ps_entries st !! path) as [ref|] eqn:He.
  - destruct (ps_dereference_wf _ _ _ _ (ps_db st) Hwf He) as (st' & Hst & Hwf');
      [by destruct Hwf|].
    rewrite Hst. simpl. exists st'. split; [done|]. split; [done|]. intros A HA.
    destruct (ps_dereference_models _ _ _ _ _ (ps_db st) HA He) as (st'' & Hst' & ?);
      [by destruct Hwf|]. congruence.
  - exists st. split; [done|]. split; [done|]. intros A HA.
    pose proof (pm_holds _ _ _ HA path) as Hp. rewrite He in Hp.
    destruct (A !! path) eqn:HAp; [done|]. by rewrite delete_id.
Qed.

(** ** Cleanup *)

(** [st] with the references already collected for freeing gone. *)
Definition ps_without st (tofree : list ploc) : property_storage T :=
  mk_storage (filter (λ kv, kv.1 ∉ tofree) (ps_heap st)) (ps_refs st) (ps_entries st)
    (ps_db st) ∅.

(** Dropping an unused reference, its ID and its record. *)
Lemma ps_drop_models st m ref r db :
  ps_wf st m → ps_heap st !! ref = Some r → pr_count r <= 0 →
  kv_models db (delete (pr_id r) m) →
  let st' := mk_storage (delete ref (ps_heap st)) (delete (pr_id r) (ps_refs st))
               (ps_entries st) db ∅ in
  ps_wf st' (delete (pr_id r) m) ∧
  ∀ A, ps_models st A m → ps_models st' A (delete (pr_id r) m).
Proof.
  intros Hwf Hr Hc Hdb st'.
  assert (∀ p, ps_entries st !! p ≠ Some ref) as Hno.
  { intros p Hp%refcount_pos. pose proof (pw_count _ _ Hwf _ _ Hr). lia. }
  assert (∀ l x, ps_heap st !! l = Some x → l ≠ ref → pr_id x ≠ pr_id r) as Hid.
  { intros l x Hl%(pw_heap _ _ Hwf) Hne Heq. apply (pw_heap _ _ Hwf) in Hr. congruence. }
  assert (ps_wf st' (delete (pr_id r) m)) as Hwf'.
  { destruct Hwf. split; simpl; try done.
    - intros p l Hp. rewrite lookup_delete_ne by (intros ->; by eapply Hno). eauto.
    - intros i l. rewrite lookup_delete_Some. intros [Hne (x & Hx & <-)%pw_refs0].
      rewrite lookup_delete_ne by (intros ->; congruence). eauto.
    - intros l x. rewrite lookup_delete_Some. intros [Hne Hl].
      rewrite lookup_delete_ne by (apply not_eq_sym; by eapply Hid). eauto.
    - intros l x. rewrite lookup_delete_Some. intros [_ Hl]. eauto.
    - intros i c. rewrite lookup_delete_Some. intros [_ Hl]. eauto. }
  split; [done|]. intros A [_ Hf Hh]. split; [done|..].
  - intros l x. simpl. rewrite lookup_delete_Some. intros [Hne Hl].
    rewrite lookup_delete_ne by (apply not_eq_sym; by eapply Hid). by eapply Hf.
  - intros p. simpl. specialize (Hh p).
    destruct (ps_entries st !! p) as [l|] eqn:Hp, (A !! p); try done.
    destruct Hh as (? & x & Hx & ?). split; [done|].
    rewrite lookup_delete_ne by (intros ->; by eapply Hno). eauto.
Qed.

Lemma filter_snoc_delete (heap : gmap ploc prop_ref) tofree ref :
  filter (λ kv, kv.1 ∉ tofree ++ [ref]) heap =
    delete ref (filter (λ kv, kv.1 ∉ tofree) heap).
Proof.
  apply map_eq. intros l. apply option_eq. intros x.
  rewrite lookup_delete_Some, !map_lookup_filter_Some. simpl. set_solver.
Qed.

(** The loop over the [gc] table always finishes, and frees only what nothing refers to. *)
Lemma cleanup_loop_models st m gc tofree :
  ps_wf (ps_without st tofree) m →
  (∀ kv, kv ∈ gc → is_Some (ps_heap st !! kv.2) ∧ kv.2 ∉ tofree) → NoDup gc.*2 →
  NoDup tofree → (∀ l, l ∈ tofree → is_Some (ps_heap st !! l)) →
  ∃ st' tofree' m', cleanup_loop st gc tofree = Some (st', Some tofree') ∧
    ps_heap st' = ps_heap st ∧ NoDup tofree' ∧
    (∀ l, l ∈ tofree' → is_Some (ps_heap st !! l)) ∧
    ps_wf (ps_without st' tofree') m' ∧
    ∀ A, ps_models (ps_without st tofree) A m → ps_models (ps_without st' tofree') A m'.
Proof.
  revert st m tofree. induction gc as [|[k ref] gc IH]; intros st m tofree Hwf Hgc Hnd Hfr Hlive;
    [by exists st, tofree, m; split_and!|].
  apply NoDup_cons in Hnd as [Hnin Hnd]. simpl in Hnin.
  destruct (Hgc (k, ref)) as [[r Hr] Hnf]; [by left|]. simpl in Hr, Hnf.
  cbn [cleanup_loop]. rewrite Hr. cbn [mbind option_bind].
  destruct (pr_count r <=? 0) eqn:Hc.
  2:{ apply (IH st m tofree); try done. intros kv Hkv. apply Hgc. by right. }
  bool_simpl.
  destruct (kv_delete_spec (ps_db st) m (pr_id r)) as (db & -> & Hdb);
    [by destruct Hwf|]. cbn [mbind option_bind]. simpl negb. cbn match.
  destruct (ps_drop_models (ps_without st tofree) m ref r db) as [Hwf' HA']; try done.
  { simpl. by apply map_lookup_filter_Some_2. }
  set (st1 := mk_storage _ _ _ _ _).
  destruct (IH st1 (delete (pr_id r) m) (tofree ++ [ref])) as
    (st' & tofree' & m' & Hloop & Hh & Hnd' & Hlive' & Hwf2 & HA2); try done.
  - unfold ps_without. rewrite filter_snoc_delete. apply Hwf'.
  - intros [k' l] Hkv. destruct (Hgc (k', l)) as [? ?]; [by right|]. split; [done|]. simpl in *.
    rewrite not_elem_of_app, list_elem_of_singleton. split; [done|]. intros ->.
    apply Hnin. by apply (list_elem_of_fmap_2' snd gc (k', ref)).
  - apply NoDup_app. split_and!; [done| |apply NoDup_singleton]. set_solver.
  - intros l [Hl| ->%list_elem_of_singleton]%elem_of_app; simpl; eauto.
  - exists st', tofree', m'. split_and!; try done. intros A HA. apply HA2.
    unfold ps_without. rewrite filter_snoc_delete. by apply HA'.
Qed.

Lemma free_refs heap l :
  NoDup l → (∀ x, x ∈ l → is_Some (heap !! x)) →
  foldl free_ref (Some heap) l = Some (filter (λ kv, kv.1 ∉ l) heap).
Proof.
  revert heap. induction l as [|x l IH]; intros heap Hnd Hl; simpl.
  - rewrite map_filter_id; [done|]. set_solver.
  - apply NoDup_cons in Hnd as [Hx Hnd]. destruct (Hl x) as [r Hr]; [by left|]. rewrite Hr.
    rewrite IH.
    + f_equal. apply map_eq. intros y. apply option_eq. intros z.
      rewrite !map_lookup_filter_Some, lookup_delete_Some. simpl. set_solver.
    + done.
    + intros y Hy. rewrite lookup_delete_ne by (by intros ->). apply Hl. by right.
Qed.

Lemma property_storage_cleanup_models st m :
  ps_wf st m →
  ∃ st' m', property_storage_cleanup st = Some (st', 0) ∧ ps_wf st' m' ∧
    ∀ A, ps_models st A m → ps_models st' A m'.
Proof.
  intros Hwf. unfold property_storage_cleanup. case_decide; [by exists st, m|].
  assert (ps_without st [] = mk_storage (ps_heap st) (ps_refs st) (ps_entries st) (ps_db st) ∅)
    as Hst0 by (unfold ps_without; rewrite map_filter_id; [done|set_solver]).
  destruct (cleanup_loop_models st m (hash_iter (ps_gc st)) []) as
    (st' & tofree & m' & -> & Hh & Hnd & Hlive & Hwf' & HA').
  - rewrite Hst0. by destruct Hwf.
  - intros [k ref] Hk%hash_iter_elem. simpl. split; [|set_solver].
    destruct (pw_gc _ _ Hwf _ _ Hk) as (r & -> & _). done.
  - apply NoDup_fmap_2_strong; [|apply (NoDup_fmap_1 fst), hash_iter_nodup].
    intros [k l] [k' l'] Hk%hash_iter_elem Hk'%hash_iter_elem. simpl. intros <-.
    destruct (pw_gc _ _ Hwf _ _ Hk) as (r & Hr & ->).
    destruct (pw_gc _ _ Hwf _ _ Hk') as (r' & Hr' & ->). congruence.
  - constructor.
  - set_solver.
  - cbn [mbind option_bind]. rewrite Hh, free_refs.
    2:{ by rewrite reverse_Permutation. }
    2:{ intros l Hl. apply Hlive. by rewrite <-(reverse_Permutation tofree). }
    cbn [mbind option_bind].
    assert (mk_storage (filter (λ kv, kv.1 ∉ reverse tofree) (ps_heap st)) (ps_refs st')
      (ps_entries st') (ps_db st') ∅ = ps_without st' tofree) as ->.
    { unfold ps_without. rewrite Hh. f_equal. apply map_filter_ext. intros l x _. simpl.
      by rewrite (reverse_Permutation tofree). }
    do 2 eexists. split; [done|]. split; [done|]. intros A HA. apply HA'. rewrite Hst0.
    destruct HA as [[] Hf Hh']. by split; [split|..].
Qed.

(** The table of references has each of them once. *)
Lemma prop_cleanup_empty st m : ps_wf st m → prop_cleanup st = Some ∅.
Proof.
  intros Hwf. unfold prop_cleanup. rewrite free_refs.
  - f_equal. apply map_empty_filter_2. intros ref r Hr. simpl. intros Hn. apply Hn.
    apply (pw_heap _ _ Hwf) in Hr. apply hash_iter_elem in Hr.
    by apply (list_elem_of_fmap_2' snd _ (pr_id r, ref)).
  - apply NoDup_fmap_2_strong; [|apply (NoDup_fmap_1 fst), hash_iter_nodup].
    intros [k l] [k' l'] Hk%hash_iter_elem Hk'%hash_iter_elem. simpl. intros <-.
    destruct (pw_refs _ _ Hwf _ _ Hk) as (r & Hr & <-).
    destruct (pw_refs _ _ Hwf _ _ Hk') as (r' & Hr' & <-). congruence.
  - intros ref ([k ?] & -> & Hk%hash_iter_elem)%list_elem_of_fmap. simpl.
    destruct (pw_refs _ _ Hwf _ _ Hk) as (r & -> & _). done.
Qed.

(** ** Loading *)

Hypothesis Hfit : props_fit used.

(** The stored record of a property hash can be read back. *)
Lemma ps_stored_load st m id c :
  ps_wf st m → m !! id = Some c →
  ∃ data props, uncompress c = Some data ∧ used props ∧
    apr_md5 (prop_hash_serialize props) = Some id ∧
    ∀ props0, prop_hash_reconstruct (length data) props0 data = Some (props ∪ props0).
Proof.
  intros Hwf Hc. destruct (pw_data _ _ Hwf _ _ Hc) as (props & Hu & Hmd & Hcomp).
  exists (prop_hash_serialize props), props. split_and!; try done.
  - by apply uncompress_compress; [apply (pf_small _ Hfit)|].
  - intros props0. apply prop_reconstruct_serialize; [by apply (pf_ok _ Hfit)|].
    apply prop_serialize_fuel.
Qed.

(** What is loaded has been used, and memory stays safe: even if digests collide. *)
Lemma property_load_wf st m path props0 :
  ps_wf st m →
  ∃ st' out ret, property_load st path props0 = Some (st', out, ret) ∧ ps_wf st' m ∧
    (out = props0 ∨ ∃ props, used props ∧ out = props ∪ props0).
Proof.
  intros Hwf. unfold property_load.
  destruct (ps_entries st !! path) as [ref|] eqn:He; [|do 3 eexists; by eauto].
  destruct (pw_entry _ _ Hwf _ _ He) as [r Hr]. rewrite Hr. simpl.
  destruct (kv_fetch_spec (ps_db st) m (pr_id r)) as (db & -> & Hdb); [by destruct Hwf|].
  simpl. destruct (m !! pr_id r) as [c|] eqn:Hc; simpl.
  - destruct (ps_stored_load st m _ c Hwf Hc) as (data & props & -> & Hu & Hmd & Hrec).
    rewrite Hrec. simpl.
    destruct (ps_dereference_wf _ _ _ _ db Hwf He Hdb) as (st' & Hst & Hwf'). rewrite Hst. simpl.
    do 3 eexists. split; [done|]. eauto.
  - do 3 eexists. split; [done|]. split; [by destruct Hwf; split|]. by left.
Qed.

Hypothesis Hinj : ∀ p1 p2 id, used p1 → used p2 →
  apr_md5 (prop_hash_serialize p1) = Some id → apr_md5 (prop_hash_serialize p2) = Some id →
  p1 = p2.

Lemma property_load_models st m path props0 :
  ps_wf st m →
  ∃ st' out ret, property_load st path props0 = Some (st', out, ret) ∧ ps_wf st' m ∧
    ∀ A, ps_models st A m →
      ret = 0 ∧ out = default ∅ (A !! path) ∪ props0 ∧ ps_models st' (delete path A) m.
Proof.
  intros Hwf. unfold property_load. destruct (ps_entries st !! path) as [ref|] eqn:He.
  2:{ do 3 eexists. split; [done|]. split; [done|]. intros A HA.
      pose proof (pm_holds _ _ _ HA path) as Hp. rewrite He in Hp.
      destruct (A !! path) eqn:HAp; [done|]. rewrite delete_id by done.
      split_and!; [done| |done]. simpl. by rewrite map_empty_union. }
  destruct (pw_entry _ _ Hwf _ _ He) as [r Hr]. rewrite Hr. simpl.
  destruct (kv_fetch_spec (ps_db st) m (pr_id r)) as (db & -> & Hdb); [by destruct Hwf|].
  simpl. destruct (m !! pr_id r) as [c|] eqn:Hc; simpl.
  - destruct (ps_stored_load st m _ c Hwf Hc) as (data & props & -> & Hu & Hmd & Hrec).
    rewrite Hrec. simpl.
    destruct (ps_dereference_wf _ _ _ _ db Hwf He Hdb) as (st' & Hst & Hwf'). rewrite Hst. simpl.
    do 3 eexists. split; [done|]. split; [done|]. intros A HA.
    pose proof (pm_holds _ _ _ HA path) as Hp. rewrite He in Hp.
    destruct (A !! path) as [props'|] eqn:HAp; [|done]. destruct Hp as (Hu' & r' & Hr' & Hmd').
    rewrite Hr in Hr'. injection Hr' as <-.
    rewrite (Hinj props props' _ Hu Hu' Hmd Hmd'). split_and!; [done..|].
    destruct (ps_dereference_models _ _ _ _ _ db HA He Hdb) as (st'' & Hst' & ?). congruence.
  - do 3 eexists. split; [done|]. split; [by destruct Hwf; split|]. intros A HA.
    destruct (pm_full _ _ _ HA _ _ Hr) as [c Hc']. congruence.
Qed.

(** * Runs *)

Inductive ps_op :=
  | OpStore (path : bytes) (props : prop_hash)
  | OpLoad (path : bytes)
  | OpDelete (path : bytes)
  | OpCleanup.

(** One call: the properties it loads into an empty hash, and its return value. *)
Definition ps_step st (op : ps_op) : option (property_storage T * prop_hash * Z) :=
  match op with
  | OpStore path props => '(st, ret) ← property_store st path props; Some (st, ∅, ret)
  | OpLoad path => property_load st path ∅
  | OpDelete path => '(st, ret) ← property_delete st path; Some (st, ∅, ret)
  | OpCleanup => '(st, ret) ← property_storage_cleanup st; Some (st, ∅, ret)
  end.

Fixpoint ps_run st (ops : list ps_op) : option (list (prop_hash * Z)) :=
  match ops with
  | [] => Some []
  | op :: ops =>
      '(st, props, ret) ← ps_step st op;
      outs ← ps_run st ops; Some ((props, ret) :: outs)
  end.

(** The state behind a run. *)
Fixpoint ps_final st (ops : list ps_op) : option (property_storage T) :=
  match ops with
  | [] => Some st
  | op :: ops => '(st, _, _) ← ps_step st op; ps_final st ops
  end.

(** The specification: a map from paths to properties; loading consumes the entry. *)
Definition props_step (A : gmap bytes prop_hash) (op : ps_op)
    : gmap bytes prop_hash * prop_hash :=
  match op with
  | OpStore path props => (props_set A path props, ∅)
  | OpLoad path => (delete path A, default ∅ (A !! path))
  | OpDelete path => (delete path A, ∅)
  | OpCleanup => (A, ∅)
  end.

Fixpoint props_run (A : gmap bytes prop_hash) (ops : list ps_op) : list prop_hash :=
  match ops with
  | [] => []
  | op :: ops => (props_step A op).2 :: props_run (props_step A op).1 ops
  end.

Lemma ps_step_models st m op :
  (∀ path props, op = OpStore path props → used props) → ps_wf st m →
  ∃ st' out ret m', ps_step st op = Some (st', out, ret) ∧ ps_wf st' m' ∧
    (ret = 0 → ∀ A, ps_models st A m →
      out = (props_step A op).2 ∧ ps_models st' (props_step A op).1 m').
Proof.
  intros Hop Hwf. destruct op as [path props|path|path|]; simpl.
  - destruct (property_store_models st m path props) as (st' & ret & m' & -> & ? & ?);
      [by eapply Hop|done|]. simpl. exists st', ∅, ret, m'. naive_solver.
  - destruct (property_load_models st m path ∅) as (st' & out & ret & -> & ? & HA); [done|].
    exists st', out, ret, m. split_and!; [done..|]. intros _ A (_ & -> & ?)%HA.
    split; [|done]. by rewrite map_union_empty.
  - destruct (property_delete_models st m path) as (st' & -> & ? & ?); [done|].
    exists st', ∅, 0, m. naive_solver.
  - destruct (property_storage_cleanup_models st m) as (st' & m' & -> & ? & ?); [done|].
    exists st', ∅, 0, m'. naive_solver.
Qed.

Lemma ps_run_models st m ops :
  (∀ path props, OpStore path props ∈ ops → used props) → ps_wf st m →
  ∃ outs, ps_run st ops = Some outs ∧
    (Forall (λ o, o.2 = 0) outs → ∀ A, ps_models st A m → outs.*1 = props_run A ops).
Proof.
  revert st m. induction ops as [|op ops IH]; intros st m Hops Hwf; [by eexists|].
  destruct (ps_step_models st m op) as (st' & out & ret & m' & Hst & Hwf' & HA); [|done|].
  { intros path props ->. apply (Hops path). by left. }
  destruct (IH st' m') as (outs & Hrun & Houts); [|done|].
  { intros path props Hin. apply (Hops path). by right. }
  cbn [ps_run]. rewrite Hst. cbn [mbind option_bind]. rewrite Hrun. eexists. split; [done|].
  intros [Hret Hrets]%Forall_cons A Hm. simpl in Hret.
  destruct (HA Hret A Hm) as [-> Hm']. cbn [fmap list_fmap props_run fst]. f_equal. by apply Houts.
Qed.

Lemma ps_final_wf st m ops :
  (∀ path props, OpStore path props ∈ ops → used props) → ps_wf st m →
  ∃ st' m', ps_final st ops = Some st' ∧ ps_wf st' m'.
Proof.
  revert st m. induction ops as [|op ops IH]; intros st m Hops Hwf; [by exists st, m|].
  destruct (ps_step_models st m op) as (st' & out & ret & m' & Hst & Hwf' & _); [|done|].
  { intros path props ->. apply (Hops path). by left. }
  cbn [ps_final]. rewrite Hst. apply (IH st' m'); [|done].
  intros path props Hin. apply (Hops path). by right.
Qed.

Lemma ps_create_models db : kv_models db ∅ → ps_models (property_storage_create db) ∅ ∅.
Proof.
  intros Hdb. by split; [split|..].
Qed.

End storage.

Arguments ps_wf {_ _ _ _} _ _ _.
Arguments ps_models {_ _ _ _} _ _ _ _.

(** * Properties *)

(** C10. The property storage behaves as a map from paths to property hashes, whatever the
    iteration order of its tables and whatever the compressor and the key-value store are: a run
    of calls from the empty storage never uses a freed reference nor reads past a record, and
    when no call reports a failure every load returns exactly the properties last stored for its
    path (and consumes them), across reference sharing and cleanups.  The digests of the stored
    contents must not collide and their sizes fit an [int]. *)
Theorem property_storage_correct `{HashIter} {T : Type} `{KV T} `{Codec}
    (apr_md5 : bytes → option bytes) (db : T) (ops : list ps_op) :
  kv_models db ∅ →
  hash_universe apr_md5 (λ props, ∃ path, OpStore path props ∈ ops) →
  ∃ outs, ps_run apr_md5 (property_storage_create db) ops = Some outs ∧
    (Forall (λ o, o.2 = 0) outs → outs.*1 = props_run ∅ ops).
Proof.
  intros Hdb Hu. pose proof (ps_create_models apr_md5 (λ props, ∃ path, OpStore path props ∈ ops) _ Hdb) as Hm.
  destruct (ps_run_models apr_md5 _ (hash_universe_fit _ _ Hu) (hu_inj _ _ Hu) _ ∅ ops (λ path props Hin, ex_intro _ path Hin)
    (pm_wf _ _ _ _ _ Hm)) as (outs & Hrun & Houts). eauto.
Qed.

(** A stand-in digest for the examples. *)
Definition sample_md5 (data : bytes) : option bytes := Some (drop 4 data).

Definition sample_ops : list ps_op :=
  [OpStore (str "a") {[str "p" := str "1"]}; OpStore (str "b") {[str "p" := str "1"]};
   OpStore (str "c") {[str "q" := str "2"]}; OpLoad (str "a"); OpDelete (str "c"); OpCleanup;
   OpLoad (str "b"); OpCleanup; OpLoad (str "b")].

Lemma hash_universe_sub (apr_md5 : bytes → option bytes) (P Q : prop_hash → Prop) :
  hash_universe apr_md5 P → (∀ props, Q props → P props) → hash_universe apr_md5 Q.
Proof. intros [] HQ. split; eauto. Qed.

Lemma sample_md5_universe :
  hash_universe sample_md5 (λ props, ∃ path, OpStore path props ∈ sample_ops).
Proof.
  assert (∀ props, (∃ path, OpStore path props ∈ sample_ops) →
    props = {[str "p" := str "1"]} ∨ props = {[str "q" := str "2"]}) as Hcase.
  { intros props [path Hin]. unfold sample_ops in Hin.
    rewrite !elem_of_cons, elem_of_nil in Hin. naive_solver. }
  split.
  - intros props [-> | ->]%Hcase k v; rewrite lookup_singleton_Some; intros [<- <-];
      (split; [discriminate|split; [eval_decide|split; vm_compute; reflexivity]]).
  - intros props [-> | ->]%Hcase; vm_compute; reflexivity.
  - intros p1 p2 id Hp1 Hp2 Hid Heq. rewrite <-Hid in Heq.
    apply Hcase in Hp1 as [Hp1|Hp1], Hp2 as [Hp2|Hp2]; subst p1 p2; [reflexivity| | |reflexivity];
      vm_compute in Heq; discriminate Heq.
Qed.

Lemma property_storage_correct_witness :
  kv_models (mukv_new large_device) ∅ ∧
  ∃ outs, ps_run sample_md5 (property_storage_create (mukv_new large_device)) sample_ops = Some outs ∧
    outs.*1 = [∅; ∅; ∅; {[str "p" := str "1"]}; ∅; ∅; {[str "p" := str "1"]}; ∅; ∅].
Proof.
  assert (kv_models (mukv_new large_device) ∅) as Hdb by (apply large_steady).
  split; [exact Hdb|].
  destruct (property_storage_correct sample_md5 (mukv_new large_device) sample_ops Hdb
    sample_md5_universe) as (outs & Hrun & Houts).
  exists outs. split; [exact Hrun|]. rewrite Houts; [vm_compute; reflexivity|].
  assert (option_map (λ l : list (prop_hash * Z), l.*2)
    (ps_run sample_md5 (property_storage_create (mukv_new large_device)) sample_ops)
    = Some (replicate 9 0)) as Hret by (vm_compute; reflexivity).
  rewrite Hrun in Hret. injection Hret as Hret.
  assert (Forall (λ z : Z, z = 0) outs.*2) as Hall by (rewrite Hret; eval_decide).
  exact (proj1 (Forall_fmap _ _ _) Hall).
Defined.

(** C21. No reference leaks and none is freed twice: whatever calls have been made, also when some of
    them have failed, [prop_cleanup] at the end of the program finds every reference that is
    still allocated exactly once in the table, and leaves none. *)
Theorem property_storage_no_leak `{HashIter} {T : Type} `{KV T} `{Codec}
    (apr_md5 : bytes → option bytes) (db : T) (ops : list ps_op) :
  kv_models db ∅ →
  hash_universe apr_md5 (λ props, ∃ path, OpStore path props ∈ ops) →
  ∃ st, ps_final apr_md5 (property_storage_create db) ops = Some st ∧ prop_cleanup st = Some ∅.
Proof.
  intros Hdb Hu. set (used := λ props, ∃ path, OpStore path props ∈ ops).
  pose proof (ps_create_models apr_md5 used _ Hdb) as Hm.
  destruct (ps_final_wf apr_md5 used (hash_universe_fit _ _ Hu) (hu_inj _ _ Hu) _ ∅ ops (λ path props Hin, ex_intro _ path Hin)
    (pm_wf _ _ _ _ _ Hm)) as (st & m & Hst & Hwf).
  exists st. split; [done|]. by eapply prop_cleanup_empty.
Qed.

Lemma property_storage_no_leak_witness :
  ∃ st, ps_final sample_md5 (property_storage_create (mukv_new large_device)) (take 5 sample_ops) = Some st ∧
    size (ps_heap st) = 2%nat ∧ prop_cleanup st = Some ∅.
Proof.
  assert (kv_models (mukv_new large_device) ∅) as Hdb by (apply large_steady).
  destruct (property_storage_no_leak sample_md5 (mukv_new large_device) (take 5 sample_ops) Hdb) as
    (st & Hst & Hc).
  - apply (hash_universe_sub sample_md5 _ _ sample_md5_universe).
    intros props [path Hin]. exists path. by apply (subseteq_take 5 sample_ops).
  - exists st. split; [exact Hst|]. split; [|exact Hc].
    assert (option_map (λ st, size (ps_heap st))
      (ps_final sample_md5 (property_storage_create (mukv_new large_device)) (take 5 sample_ops)) = Some 2%nat)
      as Hs by (vm_compute; reflexivity).
    rewrite Hst in Hs. injection Hs as Hs. exact Hs.
Defined.

(** A failed store is remembered as a success: once storing a record has failed, the
    reference stays registered without its record, so that storing the same properties again
    reports success for any path and loading them then fails. *)
Theorem property_store_failure_sticks `{HashIter} {T : Type} `{KV T} `{Codec}
    (apr_md5 : bytes → option bytes) (used : prop_hash → Prop) (st st1 : property_storage T)
    (m : gmap bytes bytes) (path path' : bytes) (props props0 : prop_hash) (id : bytes) :
  ps_wf apr_md5 used st m → size props ≠ 0%nat →
  apr_md5 (prop_hash_serialize props) = Some id → ps_refs st !! id = None → m !! id = None →
  property_store apr_md5 st path props = Some (st1, -1) →
  ∃ st2 st3, property_store apr_md5 st1 path' props = Some (st2, 0) ∧
    property_load st2 path' props0 = Some (st3, props0, -1).
Proof.
  intros Hwf Hsz Hid Href Hm Hst. unfold property_store in Hst |- *.
  rewrite decide_False, Hid in Hst |- * by done. rewrite Href in Hst.
  set (ref := fresh _) in Hst.
  assert (∃ db, kv_models db m ∧ st1 = mk_storage (<[ref := mk_prop_ref id 0]> (ps_heap st))
    (<[id := ref]> (ps_refs st)) (ps_entries st) db (ps_gc st)) as (db & Hdb & ->).
  { destruct (compress _) as [c|]; [|injection Hst as <-; exists (ps_db st); by destruct Hwf].
    destruct (kv_store_spec (ps_db st) m id c) as (db & ret & Hkv & [[-> Hdb]|[Hret Hdb]]);
      [by destruct Hwf| |]; rewrite Hkv in Hst; cbn [mbind option_bind] in Hst.
    - simpl negb in Hst. cbn match in Hst. unfold ps_reference in Hst. simpl in Hst.
      by rewrite lookup_insert_eq in Hst.
    - rewrite (proj2 (Z.eqb_neq ret 0)) in Hst by done. injection Hst as <-. eauto. }
  simpl. rewrite lookup_insert_eq. unfold ps_reference. simpl. rewrite lookup_insert_eq. simpl.
  destruct (kv_fetch_spec db m id Hdb) as (db' & Hfe & _).
  do 2 eexists. split; [done|]. unfold property_load. simpl. rewrite !lookup_insert_eq. simpl.
  rewrite Hfe. simpl. rewrite Hm. simpl. done.
Qed.

Lemma property_store_failure_sticks_witness :
  let props : prop_hash := {[str "p" := str "1"]} in
  ∃ st1 st2 st3,
    property_store sample_md5 (property_storage_create (mukv_new (small_device 3))) (str "a") props
      = Some (st1, -1) ∧
    property_store sample_md5 st1 (str "b") props = Some (st2, 0) ∧
    property_load st2 (str "b") ∅ = Some (st3, ∅, -1).
Proof.
  intros props.
  destruct (property_store sample_md5 (property_storage_create (mukv_new (small_device 3))) (str "a") props)
    as [[st1 ret]|] eqn:Hst; [|vm_compute in Hst; discriminate].
  assert (ret = -1) as -> by (vm_compute in Hst; congruence).
  assert (kv_models (mukv_new (small_device 3)) ∅) as Hdb by (apply small_steady).
  destruct (property_store_failure_sticks sample_md5 (λ _, False)
    (property_storage_create (mukv_new (small_device 3))) st1 ∅ (str "a") (str "b")
    props ∅ (drop 4 (prop_hash_serialize props))) as (st2 & st3 & H2 & H3).
  - split; done.
  - vm_compute. discriminate.
  - reflexivity.
  - vm_compute. reflexivity.
  - reflexivity.
  - exact Hst.
  - exists st1, st2, st3. split; [reflexivity|]. split; [exact H2|exact H3].
Defined.

(** Storing new properties for a path that already has the same ones leaks a reference: the
    old use is not subtracted, so that after the path's properties are deleted again the count
    is what it was before although one user fewer is left, and the record is never collected. *)
Theorem property_store_overwrite_leaks `{HashIter} {T : Type} `{KV T} `{Codec}
    (apr_md5 : bytes → option bytes) (st : property_storage T) (path : bytes)
    (props : prop_hash) (ref : ploc) (r : prop_ref) :
  size props ≠ 0%nat → apr_md5 (prop_hash_serialize props) = Some (pr_id r) →
  ps_entries st !! path = Some ref → ps_heap st !! ref = Some r →
  ps_refs st !! pr_id r = Some ref →
  ∃ st1 st2, property_store apr_md5 st path props = Some (st1, 0) ∧
    property_delete st1 path = Some (st2, 0) ∧
    (pr_count <$> ps_heap st2 !! ref) = Some (pr_count r) ∧
    refcount (ps_entries st) ref = S (refcount (ps_entries st2) ref).
Proof.
  intros Hsz Hid He Hr Href. unfold property_store. rewrite decide_False, Hid, Href by done.
  unfold ps_reference. rewrite Hr. simpl. do 2 eexists. split; [done|].
  unfold property_delete. simpl. rewrite lookup_insert_eq. unfold ps_dereference. simpl.
  rewrite lookup_insert_eq. simpl. split; [done|]. simpl. rewrite lookup_insert_eq. simpl.
  split; [f_equal; lia|]. rewrite delete_insert_eq. by apply refcount_delete.
Qed.

Lemma property_store_overwrite_leaks_witness :
  let props : prop_hash := {[str "p" := str "1"]} in
  let r := mk_prop_ref (drop 4 (prop_hash_serialize props)) 1 in
  let st := mk_storage {[0%nat := r]} {[pr_id r := 0%nat]} {[str "a" := 0%nat]}
              (mukv_new (small_device 0)) ∅ in
  ∃ st1 st2, property_store sample_md5 st (str "a") props = Some (st1, 0) ∧
    property_delete st1 (str "a") = Some (st2, 0) ∧
    (pr_count <$> ps_heap st2 !! 0%nat) = Some 1 ∧
    refcount (ps_entries st2) 0%nat = 0%nat.
Proof.
  intros props r st.
  destruct (property_store_overwrite_leaks sample_md5 st (str "a") props 0%nat r)
    as (st1 & st2 & H1 & H2 & H3 & H4);
    [vm_compute; discriminate|reflexivity|reflexivity|reflexivity| |].
  - apply lookup_singleton_Some. split; reflexivity.
  - exists st1, st2. split; [exact H1|]. split; [exact H2|]. split; [exact H3|].
    apply (f_equal pred) in H4. simpl in H4. rewrite <-H4. vm_compute. reflexivity.
Defined.
