(* ===== verification/Memcmp.v ===== *)
(** The replacement for [memcmp] in src/lib/memcmp.c, on a machine with little-endian words of 64
    bits.

    Memory maps addresses to bytes.  Addresses are integers: the program's [uintptr_t] may wrap
    around between two accesses, but its value at an access is the address meant here.  Words are
    only loaded from addresses divisible by their size; such a word may extend beyond the blocks
    that are compared. *)
From S2P Require Import Prelude.

Open Scope Z_scope.

Definition OPSIZ : Z := 8.
Definition OP_T_THRES : Z := 16.

(** [MERGE] *)
Definition MERGE (w0 sh_1 w1 sh_2 : Z) : Z := Z.lor (Z.shiftr w0 sh_1) (u64 (Z.shiftl w1 sh_2)).

(** [memcmp_bytes]: the loop ends within a word, its operands are known to be different. *)
Fixpoint memcmp_bytes_loop (k : nat) (a b : Z) : option Z :=
  match k with
  | O => None
  | S k =>
      let a0 := Z.land a 255 in let b0 := Z.land b 255 in
      if a0 =? b0 then memcmp_bytes_loop k (Z.shiftr a 8) (Z.shiftr b 8)
      else Some (i32 (u64 (a0 - b0)))
  end.

Definition memcmp_bytes (a b : Z) : option Z := memcmp_bytes_loop 8 a b.

(** [if (a != b) return CMP_LT_OR_GT (a, b);] *)
Definition differ (a b : Z) (next : option Z) : option Z :=
  if a =? b then next else memcmp_bytes a b.

Section memcmp.
Variable mem : Z → option ascii.

Definition load_byte (a : Z) : option Z := u8 <$> mem a.

(** An aligned word. *)
Definition load_word (a : Z) : option Z :=
  if a mod OPSIZ =? 0 then bs ← mapM mem (seqZ a 8); Some (le_dec bs) else None.

(** * memcmp_common_alignment

    The labels of the loop, from the last to the first; [next] is the next iteration. *)

Definition common_do0 (a1 b1 : Z) : option Z := differ a1 b1 (Some 0).

Definition common_do1 (next : Z → Z → Z → Z → Z → option Z) (a0 b0 srcp1 srcp2 len : Z)
    : option Z :=
  a1 ← load_word (srcp1 + 3 * OPSIZ); b1 ← load_word (srcp2 + 3 * OPSIZ);
  differ a0 b0
    (let srcp1 := srcp1 + 4 * OPSIZ in
     let srcp2 := srcp2 + 4 * OPSIZ in
     let len := len - 4 in
     if len =? 0 then common_do0 a1 b1 else next a1 b1 srcp1 srcp2 len).

Definition common_do2 next (a1 b1 srcp1 srcp2 len : Z) : option Z :=
  a0 ← load_word (srcp1 + 2 * OPSIZ); b0 ← load_word (srcp2 + 2 * OPSIZ);
  differ a1 b1 (common_do1 next a0 b0 srcp1 srcp2 len).

Definition common_do3 next (a0 b0 srcp1 srcp2 len : Z) : option Z :=
  a1 ← load_word (srcp1 + OPSIZ); b1 ← load_word (srcp2 + OPSIZ);
  differ a0 b0 (common_do2 next a1 b1 srcp1 srcp2 len).

Fixpoint common_loop (k : nat) (a1 b1 srcp1 srcp2 len : Z) : option Z :=
  match k with
  | O => None
  | S k =>
      a0 ← load_word srcp1; b0 ← load_word srcp2;
      differ a1 b1 (common_do3 (common_loop k) a0 b0 srcp1 srcp2 len)
  end.

Definition memcmp_common_alignment (srcp1 srcp2 len : Z) : option Z :=
  let next := common_loop (Z.to_nat len) in
  if (len mod 4 =? 0) && (len =? 0) then Some 0
  else
    a ← load_word srcp1; b ← load_word srcp2;
    if len mod 4 =? 3 then common_do2 next a b (srcp1 - OPSIZ) (srcp2 - OPSIZ) (len + 1)
    else if len mod 4 =? 0 then common_do3 next a b srcp1 srcp2 len
    else if len mod 4 =? 1 then
      if len - 1 =? 0 then common_do0 a b
      else next a b (srcp1 + OPSIZ) (srcp2 + OPSIZ) (len - 1)
    else common_do1 next a b (srcp1 - 2 * OPSIZ) (srcp2 - 2 * OPSIZ) (len + 2).

(** * memcmp_not_common_alignment *)

Section not_common.
Variables (shl shr : Z).

Definition not_common_do0 (a2 a3 b3 : Z) : option Z :=
  differ (MERGE a2 shl a3 shr) b3 (Some 0).

Definition not_common_do1 (next : Z → Z → Z → Z → Z → Z → option Z)
    (a1 a2 b2 srcp1 srcp2 len : Z) : option Z :=
  a3 ← load_word (srcp1 + 3 * OPSIZ); b3 ← load_word (srcp2 + 3 * OPSIZ);
  differ (MERGE a1 shl a2 shr) b2
    (let srcp1 := srcp1 + 4 * OPSIZ in
     let srcp2 := srcp2 + 4 * OPSIZ in
     let len := len - 4 in
     if len =? 0 then not_common_do0 a2 a3 b3 else next a2 a3 b3 srcp1 srcp2 len).

Definition not_common_do2 next (a0 a1 b1 srcp1 srcp2 len : Z) : option Z :=
  a2 ← load_word (srcp1 + 2 * OPSIZ); b2 ← load_word (srcp2 + 2 * OPSIZ);
  differ (MERGE a0 shl a1 shr) b1 (not_common_do1 next a1 a2 b2 srcp1 srcp2 len).

Definition not_common_do3 next (a3 a0 b0 srcp1 srcp2 len : Z) : option Z :=
  a1 ← load_word (srcp1 + OPSIZ); b1 ← load_word (srcp2 + OPSIZ);
  differ (MERGE a3 shl a0 shr) b0 (not_common_do2 next a0 a1 b1 srcp1 srcp2 len).

Fixpoint not_common_loop (k : nat) (a2 a3 b3 srcp1 srcp2 len : Z) : option Z :=
  match k with
  | O => None
  | S k =>
      a0 ← load_word srcp1; b0 ← load_word srcp2;
      differ (MERGE a2 shl a3 shr) b3 (not_common_do3 (not_common_loop k) a3 a0 b0 srcp1 srcp2 len)
  end.
End not_common.

Definition memcmp_not_common_alignment (srcp1 srcp2 len : Z) : option Z :=
  let shl := 8 * (srcp1 mod OPSIZ) in
  let shr := 8 * OPSIZ - shl in
  let srcp1 := Z.land srcp1 (- OPSIZ) in
  let next := not_common_loop shl shr (Z.to_nat len) in
  if (len mod 4 =? 0) && (len =? 0) then Some 0
  else
    a ← load_word srcp1; a' ← load_word (srcp1 + OPSIZ); b ← load_word srcp2;
    if len mod 4 =? 3 then not_common_do2 shl shr next a a' b srcp1 (srcp2 - OPSIZ) (len + 1)
    else if len mod 4 =? 0 then not_common_do3 shl shr next a a' b (srcp1 + OPSIZ) srcp2 len
    else if len mod 4 =? 1 then
      if len - 1 =? 0 then not_common_do0 shl shr a a' b
      else next a a' b (srcp1 + 2 * OPSIZ) (srcp2 + OPSIZ) (len - 1)
    else not_common_do1 shl shr next a a' b (srcp1 - OPSIZ) (srcp2 - 2 * OPSIZ) (len + 2).

(** * rpl_memcmp *)

(** The bytes before the first aligned address of the second block: a value to return, or the
    blocks that are left. *)
Fixpoint align_loop (k : nat) (srcp1 srcp2 len : Z) : option (Z + (Z * Z * Z)) :=
  match k with
  | O => None
  | S k =>
      if srcp2 mod OPSIZ =? 0 then Some (inr (srcp1, srcp2, len))
      else
        a0 ← load_byte srcp1; b0 ← load_byte srcp2;
        let res := u64 (a0 - b0) in
        if negb (res =? 0) then Some (inl (i32 res))
        else align_loop k (srcp1 + 1) (srcp2 + 1) (len - 1)
  end.

Fixpoint byte_loop (k : nat) (srcp1 srcp2 len : Z) : option Z :=
  match k with
  | O => None
  | S k =>
      if len =? 0 then Some 0
      else
        a0 ← load_byte srcp1; b0 ← load_byte srcp2;
        let res := u64 (a0 - b0) in
        if negb (res =? 0) then Some (i32 res)
        else byte_loop k (srcp1 + 1) (srcp2 + 1) (len - 1)
  end.

Definition rpl_memcmp (s1 s2 len : Z) : option Z :=
  if OP_T_THRES <=? len then
    r ← align_loop 8 s1 s2 len;
    match r with
    | inl res => Some res
    | inr (srcp1, srcp2, len) =>
        r ← (if srcp1 mod OPSIZ =? 0 then memcmp_common_alignment srcp1 srcp2 (len / OPSIZ)
             else memcmp_not_common_alignment srcp1 srcp2 (len / OPSIZ));
        let res := u64 r in
        if negb (res =? 0) then Some (i32 res)
        else
          let n := Z.land len (- OPSIZ) in
          byte_loop 8 (srcp1 + n) (srcp2 + n) (len mod OPSIZ)
    end
  else byte_loop 16 s1 s2 len.

End memcmp.

(** * The reference *)

(** The difference of the first bytes that differ. *)
Fixpoint first_difference (a b : bytes) : Z :=
  match a, b with
  | x :: a, y :: b => if u8 x =? u8 y then first_difference a b else u8 x - u8 y
  | _, _ => 0
  end.

Lemma first_difference_app a a' b b' :
  length a = length b →
  first_difference (a ++ a') (b ++ b')
    = if decide (a = b) then first_difference a' b' else first_difference a b.
Proof.
  revert b. induction a as [|x a IH]; intros [|y b] Hl; try done.
  simpl in *. destruct (Z.eqb_spec (u8 x) (u8 y)) as [Hxy|Hxy].
  - apply u8_inj in Hxy as ->. rewrite IH by lia. repeat case_decide; naive_solver.
  - rewrite decide_False; [done|congruence].
Qed.

Lemma first_difference_refl a : first_difference a a = 0.
Proof. induction a as [|x a IH]; [done|]. simpl. by rewrite Z.eqb_refl. Qed.

Lemma first_difference_zero a b : length a = length b → first_difference a b = 0 → a = b.
Proof.
  revert b. induction a as [|x a IH]; intros [|y b] Hl; try done. simpl in *.
  destruct (Z.eqb_spec (u8 x) (u8 y)) as [Hxy|Hxy]; [|lia].
  intros Hd. apply u8_inj in Hxy as ->. f_equal. apply IH; lia.
Qed.

Lemma first_difference_range a b : -255 <= first_difference a b <= 255.
Proof.
  revert b. induction a as [|x a IH]; intros [|y b]; simpl; try lia.
  pose proof (u8_range x). pose proof (u8_range y). case_match; [apply IH|lia].
Qed.

(** A difference of bytes survives its passage through an unsigned word. *)
Lemma i32_u64_small d : -255 <= d <= 255 → i32 (u64 d) = d.
Proof. intros. unfold wrap_s, wrap_u. divlia. Qed.

Lemma u64_zero d : -255 <= d <= 255 → (u64 d =? 0) = (d =? 0).
Proof. intros. unfold wrap_u. apply bool_decide_ext || idtac. destruct (Z.eqb_spec d 0); destruct (Z.eqb_spec (d mod 2 ^ 64) 0); divlia. Qed.

Lemma memcmp_bytes_loop_spec a b :
  length a = length b → a ≠ b →
  memcmp_bytes_loop (length a) (le_dec a) (le_dec b) = Some (first_difference a b).
Proof.
  revert b. induction a as [|x a IH]; intros [|y b] Hl Hne; try done.
  simpl length in *. cbn [memcmp_bytes_loop le_dec first_difference].
  assert (∀ z l, Z.land (u8 z + 256 * le_dec l) 255 = u8 z) as Hland.
  { intros z l. change 255 with (Z.ones 8). rewrite Z.land_ones by lia. pose proof (u8_range z).
    change (2 ^ 8) with 256. divlia. }
  assert (∀ z l, Z.shiftr (u8 z + 256 * le_dec l) 8 = le_dec l) as Hsh.
  { intros z l. rewrite Z.shiftr_div_pow2 by lia. pose proof (u8_range z). change (2 ^ 8) with 256.
    divlia. }
  rewrite !Hland, !Hsh. destruct (Z.eqb_spec (u8 x) (u8 y)) as [Hxy|Hxy].
  - apply IH; [lia|]. intros ->. apply u8_inj in Hxy as ->. done.
  - rewrite i32_u64_small; [done|]. pose proof (u8_range x). pose proof (u8_range y). lia.
Qed.

(** Comparing two words, then the rest. *)
Lemma differ_spec a b a' b' next :
  length a = 8%nat → length b = 8%nat →
  (a = b → next = Some (first_difference a' b')) →
  differ (le_dec a) (le_dec b) next = Some (first_difference (a ++ a') (b ++ b')).
Proof.
  intros Ha Hb Hnext. unfold differ. rewrite first_difference_app by congruence.
  destruct (Z.eqb_spec (le_dec a) (le_dec b)) as [He|He].
  - apply le_dec_inj in He as ->; [|congruence]. rewrite decide_True by done. by apply Hnext.
  - rewrite decide_False by congruence. unfold memcmp_bytes. rewrite <-Ha at 1.
    apply memcmp_bytes_loop_spec; congruence.
Qed.

(** * Memory *)

Section memory.
Variable mem : Z → option ascii.

Definition mapped (lo hi : Z) : Prop := ∀ a, lo <= a < hi → is_Some (mem a).

(** The bytes in [[a, a + n)]. *)
Definition block (a n : Z) : bytes := (λ i, default nul (mem i)) <$> seqZ a n.

Lemma block_length a n : length (block a n) = Z.to_nat n.
Proof. unfold block. by rewrite length_fmap, length_seqZ. Qed.

Lemma block_app a n m : 0 <= n → 0 <= m → block a (n + m) = block a n ++ block (a + n) m.
Proof. intros. unfold block. by rewrite seqZ_app, fmap_app. Qed.

Lemma block_0 a : block a 0 = [].
Proof. done. Qed.

Lemma mapped_sub lo hi lo' hi' : mapped lo hi → lo <= lo' → hi' <= hi → mapped lo' hi'.
Proof. intros Hm ? ? a Ha. apply Hm. lia. Qed.

Lemma load_word_block a lo hi :
  mapped lo hi → lo <= a → a + 8 <= hi → a mod 8 = 0 → load_word mem a = Some (le_dec (block a 8)).
Proof.
  intros Hm Hlo Hhi Ha. unfold load_word, OPSIZ. rewrite Ha. simpl (0 =? 0). cbn match.
  assert (mapM mem (seqZ a 8) = Some (block a 8)) as ->; [|done].
  unfold block. assert (Forall (λ i, is_Some (mem i)) (seqZ a 8)) as Hf.
  { apply Forall_forall. intros i [Hi1 Hi2]%elem_of_seqZ. apply Hm. lia. }
  induction Hf as [|i l [c Hc] _ IH]; [done|]. simpl. rewrite Hc. simpl. by rewrite IH.
Qed.

Lemma load_byte_block a lo hi :
  mapped lo hi → lo <= a < hi → ∃ c, load_byte mem a = Some (u8 c) ∧ block a 1 = [c].
Proof.
  intros Hm Ha. destruct (Hm a Ha) as [c Hc]. exists c. unfold load_byte, block.
  rewrite Hc. split; [done|]. change (seqZ a 1) with [a]. simpl. by rewrite Hc.
Qed.

(** * Blocks of words *)

Section words.
Variables (s1 s2 n : Z).

(** What is left to be returned when the first [j] words are equal. *)
Definition rest (j : Z) : option Z :=
  Some (first_difference (block (s1 + 8 * j) (8 * (n - j))) (block (s2 + 8 * j) (8 * (n - j)))).

Definition word1 (j : Z) : Z := le_dec (block (s1 + 8 * j) 8).
Definition word2 (j : Z) : Z := le_dec (block (s2 + 8 * j) 8).

Lemma rest_end : rest n = Some 0.
Proof. unfold rest. by rewrite Z.sub_diag. Qed.

Lemma differ_word j next :
  0 <= j < n → next = rest (j + 1) → differ (word1 j) (word2 j) next = rest j.
Proof.
  intros Hj ->. unfold rest. replace (8 * (n - j)) with (8 + 8 * (n - (j + 1))) by lia.
  rewrite !block_app by lia. unfold word1, word2. apply differ_spec; [by rewrite block_length..|].
  intros _. by replace (8 * (j + 1)) with (8 * j + 8) by lia; rewrite !Z.add_assoc.
Qed.

Hypothesis map2 : mapped s2 (s2 + 8 * n).
Hypothesis aligned2 : s2 mod 8 = 0.

Lemma load2 a j : 0 <= j < n → a = s2 + 8 * j → load_word mem a = Some (word2 j).
Proof. intros Hj ->. apply (load_word_block _ s2 (s2 + 8 * n)); [done|lia|lia|divlia]. Qed.

(** ** Both aligned *)

Section common.
Hypothesis map1 : mapped s1 (s1 + 8 * n).
Hypothesis aligned1 : s1 mod 8 = 0.

Lemma load1 a j : 0 <= j < n → a = s1 + 8 * j → load_word mem a = Some (word1 j).
Proof. intros Hj ->. apply (load_word_block _ s1 (s1 + 8 * n)); [done|lia|lia|divlia]. Qed.

(** Loads the words [j] of both blocks. *)
Ltac load j :=
  match goal with |- context [load_word mem ?a ≫= _] => rewrite (load1 a j) by (unfold OPSIZ; lia) end;
  cbn [mbind option_bind];
  match goal with |- context [load_word mem ?a ≫= _] => rewrite (load2 a j) by (unfold OPSIZ; lia) end;
  cbn [mbind option_bind].

Lemma common_do1_spec next j m p1 p2 len :
  -3 <= j → 1 <= m → j + 1 + 4 * m = n → p1 = s1 + 8 * (j + 1) → p2 = s2 + 8 * (j + 1) →
  len = 4 * m →
  (1 < m → next (word1 (j + 4)) (word2 (j + 4)) (s1 + 8 * (j + 5)) (s2 + 8 * (j + 5)) (4 * (m - 1))
    = rest (j + 4)) →
  common_do1 mem next (word1 (j + 3)) (word2 (j + 3)) p1 p2 len = rest (j + 3).
Proof.
  intros Hj Hm Hn -> -> -> Hnext. unfold common_do1. load (j + 4).
  apply differ_word; [lia|]. replace (j + 3 + 1) with (j + 4) by lia.
  destruct (Z.eqb_spec (4 * m - 4) 0).
  - apply differ_word; [lia|]. replace (j + 4 + 1) with n by lia. by rewrite rest_end.
  - rewrite <-Hnext by lia. f_equal; unfold OPSIZ; lia.
Qed.

Lemma common_do2_spec next j m p1 p2 len :
  -2 <= j → 1 <= m → j + 1 + 4 * m = n → p1 = s1 + 8 * (j + 1) → p2 = s2 + 8 * (j + 1) →
  len = 4 * m →
  (1 < m → next (word1 (j + 4)) (word2 (j + 4)) (s1 + 8 * (j + 5)) (s2 + 8 * (j + 5)) (4 * (m - 1))
    = rest (j + 4)) →
  common_do2 mem next (word1 (j + 2)) (word2 (j + 2)) p1 p2 len = rest (j + 2).
Proof.
  intros Hj Hm Hn -> -> -> Hnext. unfold common_do2. load (j + 3).
  apply differ_word; [lia|]. replace (j + 2 + 1) with (j + 3) by lia.
  apply (common_do1_spec _ _ m); try lia; done.
Qed.

Lemma common_do3_spec next j m p1 p2 len :
  -1 <= j → 1 <= m → j + 1 + 4 * m = n → p1 = s1 + 8 * (j + 1) → p2 = s2 + 8 * (j + 1) →
  len = 4 * m →
  (1 < m → next (word1 (j + 4)) (word2 (j + 4)) (s1 + 8 * (j + 5)) (s2 + 8 * (j + 5)) (4 * (m - 1))
    = rest (j + 4)) →
  common_do3 mem next (word1 (j + 1)) (word2 (j + 1)) p1 p2 len = rest (j + 1).
Proof.
  intros Hj Hm Hn -> -> -> Hnext. unfold common_do3. load (j + 2).
  apply differ_word; [lia|]. replace (j + 1 + 1) with (j + 2) by lia.
  apply (common_do2_spec _ _ m); try lia; done.
Qed.

Lemma common_loop_spec k j m :
  0 <= j → 1 <= m <= Z.of_nat k → j + 1 + 4 * m = n →
  common_loop mem k (word1 j) (word2 j) (s1 + 8 * (j + 1)) (s2 + 8 * (j + 1)) (4 * m) = rest j.
Proof.
  revert j m. induction k as [|k IH]; intros j m Hj Hm Hn; [lia|]. cbn [common_loop].
  load (j + 1). apply differ_word; [lia|]. apply (common_do3_spec _ _ m); try lia.
  intros Hm1. replace (j + 5) with (j + 4 + 1) by lia. apply IH; lia.
Qed.

Lemma memcmp_common_alignment_spec : 0 <= n → memcmp_common_alignment mem s1 s2 n = rest 0.
Proof.
  intros Hn. unfold memcmp_common_alignment.
  destruct (Z.eqb_spec n 0) as [H0|H0].
  { rewrite H0. simpl. by rewrite <-rest_end, H0. }
  rewrite andb_false_r. load 0.
  pose proof (common_loop_spec (Z.to_nat n)) as Hloop.
  destruct (Z.eqb_spec (n mod 4) 3); [|destruct (Z.eqb_spec (n mod 4) 0);
    [|destruct (Z.eqb_spec (n mod 4) 1)]].
  - apply (common_do2_spec _ (-2) (n / 4 + 1)); unfold OPSIZ; try divlia.
    intros. replace (n / 4 + 1 - 1) with (n / 4) by lia. apply (Hloop 2 (n / 4)); divlia.
  - apply (common_do3_spec _ (-1) (n / 4)); unfold OPSIZ; try divlia.
    intros. apply (Hloop 3 (n / 4 - 1)); divlia.
  - destruct (Z.eqb_spec (n - 1) 0).
    + apply differ_word; [lia|]. replace (0 + 1) with n by lia. by rewrite rest_end.
    + replace (n - 1) with (4 * (n / 4)) by divlia. apply (Hloop 0 (n / 4)); divlia.
  - apply (common_do1_spec _ (-3) (n / 4 + 1)); unfold OPSIZ; try divlia.
    intros. replace (n / 4 + 1 - 1) with (n / 4) by lia. apply (Hloop 1 (n / 4)); divlia.
Qed.
End common.

(** ** The first block not aligned *)

Section not_common.
(** The first block begins [k] bytes behind the aligned address [v]. *)
Variables (v k : Z).
Hypothesis begin1 : s1 = v + k.
Hypothesis k_range : 0 < k < 8.
Hypothesis aligned_v : v mod 8 = 0.
Hypothesis map_v : mapped v (v + 8 * (n + 1)).

Definition word_v (j : Z) : Z := le_dec (block (v + 8 * j) 8).

Lemma load_v a j : 0 <= j <= n → a = v + 8 * j → load_word mem a = Some (word_v j).
Proof. intros Hj ->. apply (load_word_block _ v (v + 8 * (n + 1))); [done|lia|lia|divlia]. Qed.

Lemma block_split a m : 0 <= m <= 8 → block a 8 = block a m ++ block (a + m) (8 - m).
Proof. intros Hm. rewrite <-block_app by lia. f_equal. lia. Qed.

Lemma pow256 m : 0 <= m → 256 ^ Z.of_nat (Z.to_nat m) = 2 ^ (8 * m).
Proof. intros Hm. rewrite Z2Nat.id by done. by rewrite Z.pow_mul_r by lia. Qed.

(** Two parts of aligned words make a word of the block. *)
Lemma merge_word j : MERGE (word_v j) (8 * k) (word_v (j + 1)) (64 - 8 * k) = word1 j.
Proof.
  unfold MERGE, word_v, word1. rewrite (block_split (v + 8 * j) k), (block_split (v + 8 * (j + 1)) k),
    (block_split (s1 + 8 * j) (8 - k)) by lia.
  replace (8 - (8 - k)) with k by lia. replace (v + 8 * j + k) with (s1 + 8 * j) by lia.
  replace (s1 + 8 * j + (8 - k)) with (v + 8 * (j + 1)) by lia.
  set (x := block (v + 8 * j) k). set (y := block (s1 + 8 * j) (8 - k)).
  set (x' := block (v + 8 * (j + 1)) k). set (y' := block (v + 8 * (j + 1) + k) (8 - k)).
  assert (∀ l m, 0 <= m → length l = Z.to_nat m → 0 <= le_dec l < 2 ^ (8 * m)) as Hb.
  { intros l m Hm Hl. pose proof (le_dec_bound l) as Hd. by rewrite Hl, pow256 in Hd. }
  pose proof (Hb x k ltac:(lia) (block_length _ _)). pose proof (Hb x' k ltac:(lia) (block_length _ _)).
  pose proof (Hb y (8 - k) ltac:(lia) (block_length _ _)) as Hy.
  replace (8 * (8 - k)) with (64 - 8 * k) in Hy by lia.
  rewrite !le_dec_app. unfold x, x', y at 3. rewrite !block_length, !pow256 by lia. fold x x'.
  replace (8 * (8 - k)) with (64 - 8 * k) by lia.
  assert (Z.shiftr (le_dec x + 2 ^ (8 * k) * le_dec y) (8 * k) = le_dec y) as ->.
  { rewrite Z.shiftr_div_pow2 by lia. rewrite Z.mul_comm, Z.div_add by lia.
    rewrite Z.div_small by lia. lia. }
  assert (u64 (Z.shiftl (le_dec x' + 2 ^ (8 * k) * le_dec y') (64 - 8 * k))
    = Z.shiftl (le_dec x') (64 - 8 * k)) as ->.
  { rewrite !Z.shiftl_mul_pow2 by lia. unfold wrap_u.
    replace (2 ^ 64) with (2 ^ (8 * k) * 2 ^ (64 - 8 * k)) by (rewrite <-Z.pow_add_r by lia; f_equal; lia).
    rewrite Z.mul_mod_distr_r by lia. f_equal.
    rewrite Z.mul_comm, Z_mod_plus_full. apply Z.mod_small. lia. }
  rewrite lor_disjoint by lia. lia.
Qed.

(** The word [jv] of the aligned part and the word [j] of the second block. *)
Ltac load_vj jv j :=
  match goal with |- context [load_word mem ?a ≫= _] => rewrite (load_v a jv) by (unfold OPSIZ; lia) end;
  cbn [mbind option_bind];
  match goal with |- context [load_word mem ?a ≫= _] => rewrite (load2 a j) by (unfold OPSIZ; lia) end;
  cbn [mbind option_bind].

Abbreviation shl := (8 * k).
Abbreviation shr := (64 - 8 * k).

Lemma merge_at j i : i = j + 1 → MERGE (word_v j) shl (word_v i) shr = word1 j.
Proof. intros ->. apply merge_word. Qed.

Lemma not_common_do1_spec next j m p1 p2 len :
  -3 <= j → 1 <= m → j + 1 + 4 * m = n → p1 = v + 8 * (j + 2) → p2 = s2 + 8 * (j + 1) →
  len = 4 * m →
  (1 < m → next (word_v (j + 4)) (word_v (j + 5)) (word2 (j + 4)) (v + 8 * (j + 6))
             (s2 + 8 * (j + 5)) (4 * (m - 1)) = rest (j + 4)) →
  not_common_do1 mem shl shr next (word_v (j + 3)) (word_v (j + 4)) (word2 (j + 3)) p1 p2 len
    = rest (j + 3).
Proof.
  intros Hj Hm Hn -> -> -> Hnext. unfold not_common_do1. load_vj (j + 5) (j + 4).
  rewrite merge_at by lia. apply differ_word; [lia|]. replace (j + 3 + 1) with (j + 4) by lia.
  destruct (Z.eqb_spec (4 * m - 4) 0).
  - unfold not_common_do0. rewrite merge_at by lia. apply differ_word; [lia|].
    replace (j + 4 + 1) with n by lia. by rewrite rest_end.
  - rewrite <-Hnext by lia. f_equal; unfold OPSIZ; lia.
Qed.

Lemma not_common_do2_spec next j m p1 p2 len :
  -2 <= j → 1 <= m → j + 1 + 4 * m = n → p1 = v + 8 * (j + 2) → p2 = s2 + 8 * (j + 1) →
  len = 4 * m →
  (1 < m → next (word_v (j + 4)) (word_v (j + 5)) (word2 (j + 4)) (v + 8 * (j + 6))
             (s2 + 8 * (j + 5)) (4 * (m - 1)) = rest (j + 4)) →
  not_common_do2 mem shl shr next (word_v (j + 2)) (word_v (j + 3)) (word2 (j + 2)) p1 p2 len
    = rest (j + 2).
Proof.
  intros Hj Hm Hn -> -> -> Hnext. unfold not_common_do2. load_vj (j + 4) (j + 3).
  rewrite merge_at by lia. apply differ_word; [lia|]. replace (j + 2 + 1) with (j + 3) by lia.
  apply (not_common_do1_spec _ _ m); try lia; done.
Qed.

Lemma not_common_do3_spec next j m p1 p2 len :
  -1 <= j → 1 <= m → j + 1 + 4 * m = n → p1 = v + 8 * (j + 2) → p2 = s2 + 8 * (j + 1) →
  len = 4 * m →
  (1 < m → next (word_v (j + 4)) (word_v (j + 5)) (word2 (j + 4)) (v + 8 * (j + 6))
             (s2 + 8 * (j + 5)) (4 * (m - 1)) = rest (j + 4)) →
  not_common_do3 mem shl shr next (word_v (j + 1)) (word_v (j + 2)) (word2 (j + 1)) p1 p2 len
    = rest (j + 1).
Proof.
  intros Hj Hm Hn -> -> -> Hnext. unfold not_common_do3. load_vj (j + 3) (j + 2).
  rewrite merge_at by lia. apply differ_word; [lia|]. replace (j + 1 + 1) with (j + 2) by lia.
  apply (not_common_do2_spec _ _ m); try lia; done.
Qed.

Lemma not_common_loop_spec i j m :
  0 <= j → 1 <= m <= Z.of_nat i → j + 1 + 4 * m = n →
  not_common_loop mem shl shr i (word_v j) (word_v (j + 1)) (word2 j) (v + 8 * (j + 2))
    (s2 + 8 * (j + 1)) (4 * m) = rest j.
Proof.
  revert j m. induction i as [|i IH]; intros j m Hj Hm Hn; [lia|]. cbn [not_common_loop].
  load_vj (j + 2) (j + 1). rewrite merge_at by lia. apply differ_word; [lia|].
  apply (not_common_do3_spec _ _ m); try lia. intros Hm1.
  replace (j + 5) with (j + 4 + 1) by lia. replace (j + 6) with (j + 4 + 2) by lia. apply IH; lia.
Qed.

Lemma memcmp_not_common_alignment_spec :
  0 <= n → memcmp_not_common_alignment mem s1 s2 n = rest 0.
Proof.
  intros Hn. unfold memcmp_not_common_alignment.
  assert (s1 mod OPSIZ = k) as -> by (unfold OPSIZ; divlia).
  assert (Z.land s1 (- OPSIZ) = v) as ->.
  { change (- OPSIZ) with (Z.lnot (Z.ones 3)). rewrite <-Z.ldiff_land, Z.ldiff_ones_r by lia.
    rewrite Z.shiftl_mul_pow2, Z.shiftr_div_pow2 by lia. change (2 ^ 3) with 8. divlia. }
  change (8 * OPSIZ) with 64.
  destruct (Z.eqb_spec n 0) as [H0|H0].
  { rewrite H0. simpl. by rewrite <-rest_end, H0. }
  rewrite andb_false_r. rewrite (load_v v 0) by lia. cbn [mbind option_bind]. load_vj 1 0.
  pose proof (not_common_loop_spec (Z.to_nat n)) as Hloop.
  destruct (Z.eqb_spec (n mod 4) 3); [|destruct (Z.eqb_spec (n mod 4) 0);
    [|destruct (Z.eqb_spec (n mod 4) 1)]].
  - apply (not_common_do2_spec _ (-2) (n / 4 + 1)); unfold OPSIZ; try divlia.
    intros. replace (n / 4 + 1 - 1) with (n / 4) by lia. apply (Hloop 2 (n / 4)); divlia.
  - apply (not_common_do3_spec _ (-1) (n / 4)); unfold OPSIZ; try divlia.
    intros. apply (Hloop 3 (n / 4 - 1)); divlia.
  - destruct (Z.eqb_spec (n - 1) 0).
    + unfold not_common_do0. rewrite merge_at by lia. apply differ_word; [lia|].
      replace (0 + 1) with n by lia. by rewrite rest_end.
    + replace (n - 1) with (4 * (n / 4)) by divlia. unfold OPSIZ. apply (Hloop 0 (n / 4)); divlia.
  - apply (not_common_do1_spec _ (-3) (n / 4 + 1)); unfold OPSIZ; try divlia.
    intros. replace (n / 4 + 1 - 1) with (n / 4) by lia. apply (Hloop 1 (n / 4)); divlia.
Qed.
End not_common.
End words.
End memory.

(** * Blocks of bytes *)

Section bytes.
Variable mem : Z → option ascii.
Abbreviation block := (block mem).

Lemma byte_step s1 s2 lo1 hi1 lo2 hi2 :
  mapped mem lo1 hi1 → mapped mem lo2 hi2 → lo1 <= s1 < hi1 → lo2 <= s2 < hi2 →
  ∃ x y, load_byte mem s1 = Some (u8 x) ∧ load_byte mem s2 = Some (u8 y) ∧
    block s1 1 = [x] ∧ block s2 1 = [y] ∧
    (u64 (u8 x - u8 y) =? 0) = (u8 x =? u8 y) ∧ i32 (u64 (u8 x - u8 y)) = u8 x - u8 y.
Proof.
  intros M1 M2 H1 H2. destruct (load_byte_block mem s1 _ _ M1 H1) as (x & Hx & Bx).
  destruct (load_byte_block mem s2 _ _ M2 H2) as (y & Hy & By). exists x, y.
  pose proof (u8_range x). pose proof (u8_range y). split_and!; try done.
  - rewrite u64_zero by lia. destruct (Z.eqb_spec (u8 x) (u8 y)), (Z.eqb_spec (u8 x - u8 y) 0); lia.
  - apply i32_u64_small. lia.
Qed.

Lemma block_cons a n : 0 < n → block a n = block a 1 ++ block (a + 1) (n - 1).
Proof. intros. rewrite <-block_app by lia. f_equal. lia. Qed.

Lemma byte_loop_spec k s1 s2 len :
  mapped mem s1 (s1 + len) → mapped mem s2 (s2 + len) → 0 <= len < Z.of_nat k →
  byte_loop mem k s1 s2 len = Some (first_difference (block s1 len) (block s2 len)).
Proof.
  revert s1 s2 len. induction k as [|k IH]; intros s1 s2 len M1 M2 Hk; [lia|]. cbn [byte_loop].
  destruct (Z.eqb_spec len 0) as [->|Hne]; [done|].
  destruct (byte_step s1 s2 _ _ _ _ M1 M2) as (x & y & -> & -> & Bx & By & Hz & Hi); [lia..|].
  cbn [mbind option_bind]. rewrite Hz, Hi, (block_cons s1 len), (block_cons s2 len), Bx, By by lia.
  simpl. destruct (u8 x =? u8 y); [|done]. simpl negb. cbn match.
  apply IH; [apply (mapped_sub mem _ _ _ _ M1); lia|apply (mapped_sub mem _ _ _ _ M2); lia|lia].
Qed.

(** [d] bytes lead to the first aligned address of the second block. *)
Lemma align_loop_spec k s1 s2 len d :
  mapped mem s1 (s1 + len) → mapped mem s2 (s2 + len) →
  d = (- s2) mod 8 → d <= len → d < Z.of_nat k →
  align_loop mem k s1 s2 len =
    Some (if decide (block s1 d = block s2 d) then inr (s1 + d, s2 + d, len - d)
          else inl (first_difference (block s1 d) (block s2 d))).
Proof.
  revert s1 s2 len d. induction k as [|k IH]; intros s1 s2 len d M1 M2 Hd Hlen Hk; [divlia|].
  cbn [align_loop]. unfold OPSIZ. destruct (Z.eqb_spec (s2 mod 8) 0) as [H0|H0].
  { assert (d = 0) as -> by divlia. rewrite decide_True by done. by rewrite !Z.add_0_r, Z.sub_0_r. }
  assert (0 < d) by divlia.
  destruct (byte_step s1 s2 _ _ _ _ M1 M2) as (x & y & -> & -> & Bx & By & Hz & Hi); [lia..|].
  cbn [mbind option_bind]. rewrite Hz, Hi, (block_cons s1 d), (block_cons s2 d), Bx, By by lia.
  simpl app. cbn [first_difference]. destruct (Z.eqb_spec (u8 x) (u8 y)) as [Hxy|Hxy]; simpl negb; cbn match.
  - apply u8_inj in Hxy as ->. rewrite (IH _ _ _ (d - 1)); [|apply (mapped_sub mem _ _ _ _ M1); lia|
      apply (mapped_sub mem _ _ _ _ M2); lia|divlia|lia|lia].
    f_equal. replace (s1 + 1 + (d - 1)) with (s1 + d) by lia.
    replace (s2 + 1 + (d - 1)) with (s2 + d) by lia. replace (len - 1 - (d - 1)) with (len - d) by lia.
    destruct (decide (block (s1 + 1) (d - 1) = block (s2 + 1) (d - 1))) as [He|He].
    + by rewrite decide_True by (by rewrite He).
    + by rewrite decide_False by congruence.
  - rewrite decide_False; [done|]. intros [= ->]. done.
Qed.

(** The words of both blocks, once the second one is aligned. *)
Lemma words_spec s1 s2 n :
  0 <= n → s2 mod 8 = 0 → mapped mem s2 (s2 + 8 * n) →
  mapped mem (8 * (s1 / 8)) (8 * ((s1 + 8 * n + 7) / 8)) →
  (if s1 mod OPSIZ =? 0 then memcmp_common_alignment mem s1 s2 n
   else memcmp_not_common_alignment mem s1 s2 n)
    = Some (first_difference (block s1 (8 * n)) (block s2 (8 * n))).
Proof.
  intros Hn Ha M2 M1. unfold OPSIZ.
  replace (Some (first_difference (block s1 (8 * n)) (block s2 (8 * n)))) with (rest mem s1 s2 n 0)
    by (unfold rest; by rewrite Z.mul_0_r, !Z.add_0_r, Z.sub_0_r).
  destruct (Z.eqb_spec (s1 mod 8) 0) as [H1|H1].
  - apply memcmp_common_alignment_spec; try done. apply (mapped_sub mem _ _ _ _ M1); divlia.
  - apply (memcmp_not_common_alignment_spec mem s1 s2 n M2 Ha (8 * (s1 / 8)) (s1 mod 8)); try divlia.
    apply (mapped_sub mem _ _ _ _ M1); divlia.
Qed.

Lemma land_opsiz m : Z.land m (- OPSIZ) = 8 * (m / 8).
Proof.
  change (- OPSIZ) with (Z.lnot (Z.ones 3)). rewrite <-Z.ldiff_land, Z.ldiff_ones_r by lia.
  rewrite Z.shiftl_mul_pow2, Z.shiftr_div_pow2 by lia. change (2 ^ 3) with 8. lia.
Qed.

(** What follows the words. *)
Lemma words_tail_spec s1 s2 m r :
  0 <= m → mapped mem s1 (s1 + m) → mapped mem s2 (s2 + m) →
  r = first_difference (block s1 (8 * (m / 8))) (block s2 (8 * (m / 8))) →
  (if negb (u64 r =? 0) then Some (i32 (u64 r))
   else byte_loop mem 8 (s1 + Z.land m (- OPSIZ)) (s2 + Z.land m (- OPSIZ)) (m mod OPSIZ))
    = Some (first_difference (block s1 m) (block s2 m)).
Proof.
  intros Hm M1 M2 Hr. pose proof (first_difference_range (block s1 (8 * (m / 8))) (block s2 (8 * (m / 8)))).
  rewrite u64_zero, i32_u64_small, land_opsiz by lia.
  assert (∀ a, block a m = block a (8 * (m / 8)) ++ block (a + 8 * (m / 8)) (m mod 8)) as Hs.
  { intros a. rewrite <-block_app by divlia. f_equal. divlia. }
  rewrite (Hs s1), (Hs s2), first_difference_app by (by rewrite !block_length).
  destruct (Z.eqb_spec r 0) as [H0|H0]; simpl negb; cbn match.
  - rewrite decide_True by (apply first_difference_zero; [by rewrite !block_length|lia]).
    apply byte_loop_spec; [apply (mapped_sub mem _ _ _ _ M1); divlia|
      apply (mapped_sub mem _ _ _ _ M2); divlia|unfold OPSIZ; divlia].
  - rewrite decide_False; [by rewrite Hr|]. intros He. apply H0. by rewrite Hr, He, first_difference_refl.
Qed.

Lemma rpl_memcmp_spec s1 s2 len :
  0 <= len → mapped mem s2 (s2 + len) → mapped mem (8 * (s1 / 8)) (8 * ((s1 + len + 7) / 8)) →
  rpl_memcmp mem s1 s2 len = Some (first_difference (block s1 len) (block s2 len)).
Proof.
  intros Hlen M2 M1. assert (mapped mem s1 (s1 + len)) as M1'
    by (apply (mapped_sub mem _ _ _ _ M1); divlia).
  unfold rpl_memcmp, OP_T_THRES. destruct (Z.leb_spec 16 len) as [Hl|Hl].
  2:{ apply byte_loop_spec; [done..|lia]. }
  set (d := (- s2) mod 8). assert (0 <= d < 8) as Hd by (unfold d; divlia).
  rewrite (align_loop_spec 8 s1 s2 len d) by (done || lia). cbn [mbind option_bind].
  set (m := len - d).
  assert (∀ a, block a len = block a d ++ block (a + d) m) as Hs.
  { intros a. unfold m. rewrite <-block_app by lia. f_equal. lia. }
  rewrite (Hs s1), (Hs s2), first_difference_app by (by rewrite !block_length).
  case_decide as He; [|done]. change (m / OPSIZ) with (m / 8).
  rewrite (words_spec (s1 + d) (s2 + d) (m / 8)); [|unfold m; divlia|unfold d; divlia| |].
  - cbn [mbind option_bind]. apply words_tail_spec; [lia| | |done];
      [apply (mapped_sub mem _ _ _ _ M1'); lia|apply (mapped_sub mem _ _ _ _ M2); lia].
  - apply (mapped_sub mem _ _ _ _ M2); unfold m; divlia.
  - apply (mapped_sub mem _ _ _ _ M1); unfold m; divlia.
Qed.
End bytes.

(** * Properties *)

(** C22. The replacement for [memcmp] returns the difference of the first bytes that differ, or 0
    for equal blocks, for any length and any alignment of the two blocks.  Its word-wise loops,
    which enter at one of four points and shift the words of an unaligned block together, read
    nothing but the second block and the aligned words that overlap the first. *)
Theorem rpl_memcmp_correct (mem : Z → option ascii) (s1 s2 len : Z) :
  0 <= len → mapped mem s2 (s2 + len) → mapped mem (8 * (s1 / 8)) (8 * ((s1 + len + 7) / 8)) →
  rpl_memcmp mem s1 s2 len
    = Some (first_difference (block mem s1 len) (block mem s2 len)).
Proof. apply rpl_memcmp_spec. Qed.

(** Two texts of 43 characters, at the addresses 1003 and 2006. *)
Definition sample_mem : Z → option ascii := λ a,
  if (1000 <=? a) && (a <? 1048) then
    Some (default nul ((str "---the quick brown fox jumps over the lazy dog.") !! Z.to_nat (a - 1000)))
  else if (2006 <=? a) && (a <? 2049) then
    (str "the quick brown fox jumps over the lazy cat") !! Z.to_nat (a - 2006)
  else None.

Lemma rpl_memcmp_correct_witness :
  rpl_memcmp sample_mem 1003 2006 43 = Some 1 ∧ rpl_memcmp sample_mem 1003 2006 40 = Some 0.
Proof.
  assert (mapped sample_mem 2006 (2006 + 43)) as M2.
  { intros a Ha. unfold sample_mem. rewrite (proj2 (Z.ltb_ge a 1048)) by lia. rewrite andb_false_r.
    rewrite (proj2 (Z.leb_le 2006 a)), (proj2 (Z.ltb_lt a 2049)) by lia. simpl andb. cbn match.
    apply lookup_lt_is_Some. change (length _) with 43%nat. lia. }
  assert (mapped sample_mem (8 * (1003 / 8)) (8 * ((1003 + 43 + 7) / 8))) as M1.
  { intros a Ha. change (1000 <= a < 1048) in Ha. unfold sample_mem.
    rewrite (proj2 (Z.leb_le 1000 a)), (proj2 (Z.ltb_lt a 1048)) by lia. by eexists. }
  split.
  - rewrite (rpl_memcmp_correct sample_mem 1003 2006 43 ltac:(lia) M2 M1). vm_compute. reflexivity.
  - rewrite (rpl_memcmp_correct sample_mem 1003 2006 40 ltac:(lia)).
    + vm_compute. reflexivity.
    + apply (mapped_sub _ _ _ _ _ M2); lia.
    + apply (mapped_sub _ _ _ _ _ M1); vm_compute; congruence.
Defined.
