(* ===== verification/Compat.v ===== *)
(** Replacements for functions of the C library, other than [memcmp]: src/lib/memset.c,
    src/lib/strdup.c, src/lib/malloc.c and src/lib/lstat.c.  (src/lib/rmdir.c only runs
    another program.) *)
From S2P Require Import Prelude.

Open Scope Z_scope.

(** * memset

    [c] is stored as a [char]; [len] bytes from [st] on have to be inside the buffer. *)

Fixpoint memset_loop (len : nat) (m : bytes) (st : nat) (c : Z) : option bytes :=
  match len with
  | O => Some m
  | S len =>
      if (st <? length m)%nat then memset_loop len (<[st := byte_of_Z c]> m) (S st) c else None
  end.

Definition memset (m : bytes) (str : nat) (c : Z) (len : nat) : option bytes := memset_loop len m str c.

(** The bytes before and behind the area are kept. *)
Lemma memset_spec m str c len :
  (str + len <= length m)%nat →
  memset m str c len = Some (take str m ++ replicate len (byte_of_Z c) ++ drop (str + len) m).
Proof.
  unfold memset. revert m str. induction len as [|len IH]; intros m st Hl; cbn [memset_loop].
  - by rewrite Nat.add_0_r, app_nil_l, take_drop.
  - rewrite (proj2 (Nat.ltb_lt _ _)) by lia. rewrite IH by (rewrite length_insert; lia).
    f_equal. rewrite (take_S_r _ st (byte_of_Z c)) by (apply list_lookup_insert_eq; lia).
    rewrite take_insert_ge by lia. rewrite (drop_insert_lt _ (S st + len)) by lia.
    rewrite <-app_assoc. simpl. do 4 f_equal. lia.
Qed.

(** * malloc and strdup

    [alloc n] is a new block of [n] bytes with arbitrary contents, or NULL. *)

Section alloc.
Variable alloc : nat → option bytes.

(** [NEED_MALLOC_GNU] *)
Definition rpl_malloc (need_malloc_gnu : bool) (n : nat) : option bytes :=
  alloc (if need_malloc_gnu && (n =? 0)%nat then 1%nat else n).

(** The new block, for the string [s] followed by its terminator. *)
Definition strdup (s : bytes) : option bytes :=
  let len := S (length s) in
  new ← alloc len;
  Some (take len (s ++ [nul]) ++ drop len new).

Hypothesis alloc_length : ∀ n b, alloc n = Some b → length b = n.

Lemma strdup_spec s b : cstr s → strdup s = Some b → c_str b = s ∧ length b = S (length s).
Proof.
  intros Hs Hb. unfold strdup in Hb. destruct (alloc (S (length s))) as [new|] eqn:Ha; [|done].
  apply alloc_length in Ha. cbn [mbind option_bind] in Hb. injection Hb as <-.
  rewrite take_ge by (rewrite length_app; simpl; lia). rewrite drop_ge by lia. rewrite app_nil_r.
  split; [by apply c_str_app|]. rewrite length_app. simpl. lia.
Qed.
End alloc.

(** * lstat

    [lstat] and [stat] of the system: what the name stands for, or an error. *)

Inductive file_kind := KDir | KLink | KOther.

#[export] Instance file_kind_eq_dec : EqDecision file_kind.
Proof. solve_decision. Defined.

Definition ENOTDIR : Z := 20.

(** The kind in [sbuf], or [errno] ([errno] is that of [stat] when this fails). *)
Definition rpl_lstat (lstat stat : bytes → file_kind + Z) (file : bytes) : file_kind + Z :=
  match lstat file with
  | inr e => inr e
  | inl k =>
      if negb (bool_decide (k = KLink)) then inl k
      else if (length file =? 0)%nat || negb (bool_decide (last file = Some slash)) then inl k
      else
        match stat file with
        | inr e => inr e
        | inl KDir => inl KDir
        | inl _ => inr ENOTDIR
        end
  end.

(** A name with a trailing slash stands for a directory or for nothing, never for a link. *)
Lemma rpl_lstat_slash lstat stat file k :
  last file = Some slash → rpl_lstat lstat stat file = inl k → k ≠ KLink.
Proof.
  intros Hl. unfold rpl_lstat. destruct (lstat file) as [k'|]; [|done].
  case_bool_decide as Hk; simpl; [|congruence]. rewrite bool_decide_eq_true_2 by done.
  destruct (Nat.eqb_spec (length file) 0) as [H0|_].
  { destruct file; [done|discriminate H0]. }
  simpl. destruct (stat file) as [[]|]; congruence.
Qed.
