(* ===== verification/Utils.v ===== *)
(** String helpers: the path and array functions of src/utils.c.

    [utils_path_split] and [utils_path_join] undo each other on paths without empty components;
    [utils_sort] followed by [utils_search] decides membership. *)
From S2P Require Import Prelude.

Open Scope Z_scope.

(** * Paths *)

(** [strrchr]: the offset of the last occurrence. *)
Fixpoint strrchr (s : bytes) (c : ascii) : option nat :=
  match s with
  | [] => None
  | d :: s =>
      match strrchr s c with
      | Some i => Some (S i)
      | None => if decide (d = c) then Some 0%nat else None
      end
  end.

(** The values stored to [*dir] and [*base]. *)
Definition utils_path_split (path : bytes) : bytes * bytes :=
  match strrchr path slash with
  | None => ([], match path with [] => [] | _ => path end)
  | Some sep =>
      if decide (path = [slash]) then ([slash], [slash])
      else (take (if (sep =? 0)%nat then 1 else sep)%nat path, drop (sep + 1) path)
  end.

(** [dir[strlen(dir)-1]] lies outside the object when [dir] is empty. *)
Definition utils_path_join (dir base : bytes) : option bytes :=
  c ← last dir;
  if decide (c = slash) then Some (dir ++ base)
  else if decide (head base = Some slash) then Some (dir ++ base)
  else Some (dir ++ [slash] ++ base).

(** * Arrays of strings *)

Definition str_le (a b : bytes) : Prop := strcmp a b ≠ Gt.

#[export] Instance str_le_dec : RelDecision str_le.
Proof. intros a b. unfold str_le. apply _. Defined.

(** [qsort] with [compstrp].  The strings of equal elements are equal, so that every sorting
    algorithm leaves the same strings in the array. *)
Definition utils_sort (a : list bytes) : list bytes := merge_sort str_le a.

(** The C library's [bsearch] on [a[l .. u)], with [compstrp]. *)
Fixpoint bsearch (fuel : nat) (s : bytes) (a : list bytes) (l u : nat) : option bytes :=
  match fuel with
  | O => None
  | S fuel =>
      if (l <? u)%nat then
        let idx := ((l + u) / 2)%nat in
        match a !! idx with
        | None => None
        | Some p =>
            match strcmp s p with
            | Lt => bsearch fuel s a l idx
            | Gt => bsearch fuel s a (S idx) u
            | Eq => Some p
            end
        end
      else None
  end.

Definition utils_search (s : bytes) (a : list bytes) : option bytes :=
  bsearch (S (length a)) s a 0 (length a).

(** * Lemmas *)

Lemma strrchr_Some s c i :
  strrchr s c = Some i → s !! i = Some c ∧ c ∉ drop (S i) s.
Proof.
  revert i. induction s as [|d s IH]; intros i; simpl; [done|].
  destruct (strrchr s c) as [j|] eqn:Hj.
  - intros [= <-]. by apply IH.
  - case_decide as Hd; [|done]. intros [= <-]. simpl. rewrite drop_0. split; [by f_equal|].
    clear IH. induction s as [|e s IH]; [set_solver|]. simpl in Hj.
    destruct (strrchr s c); [done|]. case_decide; [done|]. specialize (IH eq_refl). set_solver.
Qed.

Lemma strrchr_None s c : strrchr s c = None ↔ c ∉ s.
Proof.
  induction s as [|d s IH]; simpl; [set_solver|]. destruct (strrchr s c) as [j|].
  - split; [done|]. rewrite not_elem_of_cons, <-IH. naive_solver.
  - case_decide; rewrite not_elem_of_cons; naive_solver.
Qed.

#[export] Instance str_le_trans : Transitive str_le.
Proof.
  unfold str_le. intros a b c Hab Hbc.
  destruct (strcmp a b) eqn:E1; [|clear Hab|done].
  - by apply strcmp_eq in E1 as ->.
  - destruct (strcmp b c) eqn:E2; [|clear Hbc|done].
    + by apply strcmp_eq in E2 as <-; rewrite E1.
    + by rewrite (str_lt_trans a b c E1 E2).
Qed.

#[export] Instance str_le_total : Total str_le.
Proof.
  unfold str_le. intros a b. rewrite (strcmp_antisym a b).
  destruct (strcmp a b); simpl; auto.
Qed.

Lemma utils_sort_perm a : utils_sort a ≡ₚ a.
Proof. apply merge_sort_Permutation. Qed.

Lemma utils_sort_sorted a : StronglySorted str_le (utils_sort a).
Proof. apply StronglySorted_merge_sort; apply _. Qed.

(** Without duplicates the order is strict. *)
Lemma utils_sort_strict a : NoDup a → StronglySorted str_lt (utils_sort a).
Proof.
  intros Hnd. rewrite <-(utils_sort_perm a) in Hnd. pose proof (utils_sort_sorted a) as Hs.
  induction Hs as [|x l Hs IH Hx]; [constructor|].
  apply NoDup_cons in Hnd as [Hxl Hnd]. constructor; [by apply IH|].
  rewrite Forall_forall in Hx |- *. intros y Hy. specialize (Hx y Hy). unfold str_le in Hx.
  unfold str_lt. destruct (strcmp x y) eqn:E; [|done|done]. apply strcmp_eq in E. by subst.
Qed.

(** Earlier elements of a sorted array are smaller. *)
Lemma sorted_lookup_lt {A} (R : relation A) (l : list A) i j x y :
  StronglySorted R l → (i < j)%nat → l !! i = Some x → l !! j = Some y → R x y.
Proof.
  intros Hs. revert i j. induction Hs as [|z l Hs IH Hz]; intros [|i] [|j] Hij Hi Hj;
    simpl in *; try lia; try done.
  - injection Hi as ->. rewrite Forall_forall in Hz. apply Hz. by eapply list_elem_of_lookup_2.
  - apply (IH i j); [lia|done..].
Qed.

Lemma bsearch_spec fuel s a l u :
  StronglySorted str_le a → (u ≤ length a)%nat → (u - l < fuel)%nat →
  bsearch fuel s a l u = Some s ∧ s ∈ a ∨
  bsearch fuel s a l u = None ∧ ∀ i, (l ≤ i < u)%nat → a !! i ≠ Some s.
Proof.
  intros Hs. revert l u. induction fuel as [|fuel IH]; intros l u Hu Hf; [lia|].
  cbn [bsearch]. destruct (Nat.ltb_spec l u) as [Hlu|Hlu]; [|right; split; [done|lia]].
  assert (l ≤ (l + u) / 2 < u)%nat as [Hl Hr] by divlia.
  set (idx := ((l + u) / 2)%nat) in *.
  destruct (lookup_lt_is_Some_2 a idx) as [p Hp]; [lia|]. rewrite Hp.
  assert (∀ i j x y, (i < j)%nat → a !! i = Some x → a !! j = Some y → str_le x y) as Hord.
  { intros i j x y Hij Hi Hj. by eapply sorted_lookup_lt. }
  destruct (strcmp s p) eqn:E.
  - apply strcmp_eq in E as <-. left. split; [done|]. by eapply list_elem_of_lookup_2.
  - destruct (IH l idx) as [?|[-> Hno]]; [lia|lia|by left|]. right. split; [done|].
    intros i Hi His. destruct (decide (i < idx)%nat); [by apply (Hno i); [lia|]|].
    destruct (decide (i = idx)) as [->|].
    + rewrite Hp in His. injection His as ->. by rewrite strcmp_refl in E.
    + apply (Hord idx i p s) in Hp; [|lia|done].
      unfold str_le in Hp. by rewrite (strcmp_antisym s p), E in Hp.
  - destruct (IH (S idx) u) as [?|[-> Hno]]; [lia|lia|by left|]. right. split; [done|].
    intros i Hi His. destruct (decide (idx < i)%nat); [by apply (Hno i); [lia|]|].
    destruct (decide (i = idx)) as [->|].
    + rewrite Hp in His. injection His as ->. by rewrite strcmp_refl in E.
    + apply (Hord i idx s p) in Hp; [|lia|done]. by apply Hp.
Qed.

Lemma utils_search_spec s a :
  StronglySorted str_le a → utils_search s a = if decide (s ∈ a) then Some s else None.
Proof.
  intros Hs. unfold utils_search.
  destruct (bsearch_spec (S (length a)) s a 0 (length a) Hs) as [[-> Hin]|[-> Hno]]; [lia|lia| |].
  - by rewrite decide_True.
  - rewrite decide_False; [done|]. intros [i Hi]%list_elem_of_lookup_1.
    apply (Hno i); [|done]. apply lookup_lt_Some in Hi. lia.
Qed.

(** * Properties *)

(** Splitting a path and joining its parts gives the path back, for every path with a slash
    except the root itself and paths with an empty component before the last slash; a path
    without a slash has the empty directory, which [utils_path_join] must not be given. *)
Theorem utils_path_split_join (path : bytes) :
  path ≠ [slash] → (∀ i, path !! i = Some slash → path !! S i ≠ Some slash) →
  let '(dir, base) := utils_path_split path in
  slash ∉ base ∧
  utils_path_join dir base = if decide (slash ∈ path) then Some path else None.
Proof.
  intros Hroot Hno. unfold utils_path_split. destruct (strrchr path slash) as [sep|] eqn:Hsep.
  2:{ apply strrchr_None in Hsep. rewrite decide_False by done. by destruct path. }
  apply strrchr_Some in Hsep as [Hsep Hbase]. rewrite decide_False by done.
  assert (slash ∈ path) as Hin by by eapply list_elem_of_lookup_2.
  rewrite decide_True by done. rewrite Nat.add_1_r. split; [done|]. unfold utils_path_join.
  destruct sep as [|sep]; simpl.
  - destruct path as [|c path]; [done|]. injection Hsep as ->. simpl. by rewrite drop_0.
  - apply take_drop_middle in Hsep as Hpath.
    destruct (lookup_lt_is_Some_2 path sep) as [c Hc];
      [apply lookup_lt_Some in Hsep; lia|].
    rewrite (take_S_r _ _ _ Hc), last_snoc. simpl.
    rewrite decide_False by (intros ->; by apply (Hno sep)).
    rewrite decide_False.
    + rewrite <-(take_S_r _ _ _ Hc). by rewrite Hpath.
    + intros Hh. apply head_Some_elem_of in Hh. done.
Qed.

Lemma utils_path_split_join_witness :
  utils_path_split (str "trunk/a/b") = (str "trunk/a", str "b") ∧
  utils_path_join (str "trunk/a") (str "b") = Some (str "trunk/a/b").
Proof.
  assert (∀ i, str "trunk/a/b" !! i = Some slash → str "trunk/a/b" !! S i ≠ Some slash) as Hno.
  { intros i Hi. pose proof (lookup_lt_Some _ _ _ Hi) as Hlt. simpl in Hlt.
    do 9 (destruct i as [|i]; [revert Hi; vm_compute; discriminate|]). lia. }
  split; [reflexivity|].
  exact (proj2 (utils_path_split_join (str "trunk/a/b") ltac:(discriminate) Hno)).
Defined.

(** [utils_sort] permutes the array into non-decreasing [strcmp] order, and [utils_search]
    on the result terminates, stays inside the array and finds exactly the strings in it. *)
Theorem utils_sort_search (a : list bytes) (s : bytes) :
  utils_sort a ≡ₚ a ∧ StronglySorted str_le (utils_sort a) ∧
  utils_search s (utils_sort a) = if decide (s ∈ a) then Some s else None.
Proof.
  split_and!; [apply utils_sort_perm|apply utils_sort_sorted|].
  rewrite utils_search_spec by apply utils_sort_sorted.
  apply decide_ext. by rewrite (utils_sort_perm a).
Qed.
