(* ===== verification/System.v ===== *)
(** The parts of src/utils.c that talk to the operating system and the libraries: the printing of
    error chains, temporary files, the removal of directories, and the stopwatch
    ([USE_TIMING]). *)
From S2P Require Import Prelude.

Open Scope Z_scope.

(** * Error chains

    [svn_error_t]: the error itself, followed by its children. *)

Record svn_error := mk_error { apr_err : Z; message : option bytes }.

Section errors.
(** [APR_OS_START_USEERR] and [APR_OS_START_CANONERR], and the functions that describe a code. *)
Variables (APR_OS_START_USEERR APR_OS_START_CANONERR : Z).
Variables (svn_strerror apr_strerror : Z → bytes) (svn_utf_cstring_from_utf8 : bytes → option bytes).

(** The text for an error without a message. *)
Definition err_string (code : Z) : bytes :=
  if (APR_OS_START_USEERR <? code) && (code <=? APR_OS_START_CANONERR) then svn_strerror code
  else default (str "Can't recode error string from APR")
         (svn_utf_cstring_from_utf8 (apr_strerror code)).

(** The loop over the chain: what is printed, given the codes printed without a message so far. *)
Fixpoint print_errors (prefix : bytes) (empties : list Z) (errors : list svn_error) : bytes :=
  match errors with
  | [] => []
  | e :: errors =>
      match message e with
      | Some msg => prefix ++ msg ++ [nl] ++ print_errors prefix empties errors
      | None =>
          if bool_decide (apr_err e ∈ empties) then print_errors prefix empties errors
          else prefix ++ err_string (apr_err e) ++ [nl]
                 ++ print_errors prefix (empties ++ [apr_err e]) errors
      end
  end.

(** What is printed, and whether the process exits. *)
Definition utils_handle_error (errors : list svn_error) (fatal : bool) (prefix : bytes)
    : bytes * bool :=
  (print_errors prefix [] errors, fatal).

(** ** A reference *)

(** The text of an error, if it is printed after the errors [before]. *)
Definition error_line (before : list svn_error) (e : svn_error) : option bytes :=
  match message e with
  | Some msg => Some msg
  | None => if bool_decide (Exists (λ e', message e' = None ∧ apr_err e' = apr_err e) before)
            then None else Some (err_string (apr_err e))
  end.

Fixpoint error_lines (before errors : list svn_error) : list bytes :=
  match errors with
  | [] => []
  | e :: errors => option_list (error_line before e) ++ error_lines (before ++ [e]) errors
  end.

Lemma print_errors_lines prefix empties before errors :
  (∀ c, c ∈ empties ↔ Exists (λ e', message e' = None ∧ apr_err e' = c) before) →
  print_errors prefix empties errors
    = concat ((λ l, prefix ++ l ++ [nl]) <$> error_lines before errors).
Proof.
  revert empties before. induction errors as [|e errors IH]; intros empties before He; [done|].
  cbn [print_errors error_lines]. unfold error_line at 1. destruct (message e) as [msg|] eqn:Hm.
  - simpl. rewrite <-!app_assoc. do 3 f_equal. apply IH. intros c.
    rewrite He, Exists_app, Exists_cons, Exists_nil. naive_solver.
  - specialize (He (apr_err e)) as Hin. rewrite (bool_decide_ext _ _ Hin).
    case_bool_decide as Hb; simpl.
    + apply IH. intros c. rewrite He, Exists_app, Exists_cons, Exists_nil. naive_solver.
    + rewrite <-!app_assoc. do 3 f_equal. apply IH. intros c.
      rewrite elem_of_app, list_elem_of_singleton, He, Exists_app, Exists_cons, Exists_nil. naive_solver.
Qed.
End errors.

(** * Temporary files *)

Section mkstemp.
Variables (svn_path_dirname : bytes → bytes) (apr_dir_make_recursive : bytes → Z)
  (apr_file_mktemp : bytes → Z * bytes).

(** The status and the name of the file. *)
Definition utils_mkstemp (name : bytes) : Z * bytes :=
  let status := apr_dir_make_recursive (svn_path_dirname name) in
  if negb (status =? 0) then (status, name) else apr_file_mktemp name.
End mkstemp.

(** * Directories *)

(** What a name in a directory stands for. *)
Inductive fs_node := FsFile | FsLink | FsDir (entries : list (bytes * fs_node)).

Section rrmdir.
(** Whether a directory can be opened, a file be removed, an empty directory be removed. *)
Variables (can_open can_remove can_rmdir : bytes → bool).

(** The name of an entry. *)
Definition entry_path (path name : bytes) : bytes := path ++ str "/" ++ name.

(** [utils_rrmdir] on the directory [path] with the given entries; [None] when it is gone.  The
    directory stream also has the entries [.] and [..], which are skipped. *)
Fixpoint rrmdir_node (path : bytes) (n : fs_node) (remove_dir : bool) {struct n} : option fs_node :=
  match n with
  | FsDir entries =>
      if can_open path then
        let rest := omap (λ '(name, child),
          let child' :=
            match child with
            | FsDir _ => rrmdir_node (entry_path path name) child true
            | _ => if can_remove (entry_path path name) then None else Some child
            end in
          (name,.) <$> child') entries in
        if remove_dir && (length rest =? 0)%nat && can_rmdir path then None else Some (FsDir rest)
      else Some n
  | _ => Some n
  end.

Definition utils_rrmdir (path : bytes) (entries : list (bytes * fs_node)) (remove_dir : bool)
    : option fs_node := rrmdir_node path (FsDir entries) remove_dir.
End rrmdir.

Section removal.
Variables (can_open can_remove can_rmdir : bytes → bool).
Hypotheses (open_ok : ∀ p, can_open p = true) (remove_ok : ∀ p, can_remove p = true)
  (rmdir_ok : ∀ p, can_rmdir p = true).

Lemma omap_none {A B} (f : A → option B) l : Forall (λ x, f x = None) l → omap f l = [].
Proof. induction 1 as [|x l Hx _ IH]; simpl; [done|]. by rewrite Hx. Qed.

(** Nothing is left of a tree, however deep it is. *)
Lemma rrmdir_node_all path entries b :
  rrmdir_node can_open can_remove can_rmdir path (FsDir entries) b
    = if b then None else Some (FsDir []).
Proof.
  revert path entries b.
  assert (∀ n path entries b, n = FsDir entries →
    rrmdir_node can_open can_remove can_rmdir path n b = if b then None else Some (FsDir [])) as H;
    [|by intros; eapply H].
  fix IH 1. intros [| |entries'] path entries b; [done|done|]. intros _.
  cbn [rrmdir_node]. rewrite open_ok. rewrite omap_none.
  - simpl. rewrite rmdir_ok. by destruct b.
  - induction entries' as [|[name child] es IHes]; constructor; [|done].
    pose proof (IH child) as Hc. destruct child as [| |es']; [by rewrite remove_ok..|].
    by rewrite (Hc _ es' true eq_refl).
Qed.
End removal.

(** * The stopwatch *)

Definition MSECS_PER_HOUR : Z := 3600000.
Definition MSECS_PER_MIN : Z := 60000.

Record tm := mk_tm { tm_hour : Z; tm_min : Z; tm_sec : Z; tv_usec : Z }.

(** The milliseconds since midnight, local time. *)
Definition stopwatch_create (t : tm) : Z :=
  MSECS_PER_HOUR * tm_hour t + MSECS_PER_MIN * tm_min t + 1000 * tm_sec t + Z.quot (tv_usec t) 1000.

(** The milliseconds passed; the caller gets them as a fraction of seconds. *)
Definition stopwatch_elapsed_ms (watch : Z) (now : tm) : Z :=
  let d := stopwatch_create now - watch in
  if d <? 0 then d + 86400 * 1000 else d.

Definition tm_ok (t : tm) : Prop :=
  0 <= tm_hour t < 24 ∧ 0 <= tm_min t < 60 ∧ 0 <= tm_sec t < 60 ∧ 0 <= tv_usec t < 1000000.

Lemma stopwatch_range t : tm_ok t → 0 <= stopwatch_create t < 86400000.
Proof.
  intros (? & ? & ? & ?). unfold stopwatch_create, MSECS_PER_HOUR, MSECS_PER_MIN.
  rewrite Z.quot_div_nonneg by lia. divlia.
Qed.

(** A period of less than a day is measured correctly, also across midnight. *)
Lemma stopwatch_elapsed_correct start now e :
  tm_ok start → tm_ok now → 0 <= e < 86400000 →
  stopwatch_create now = (stopwatch_create start + e) mod 86400000 →
  stopwatch_elapsed_ms (stopwatch_create start) now = e.
Proof.
  intros Hs%stopwatch_range Hn%stopwatch_range He Heq. unfold stopwatch_elapsed_ms.
  case_match; bool_simpl; divlia.
Qed.

(** * Properties *)

(** C32. Every error of a chain is reported once: the messages are printed in the order of the chain,
    each behind the prefix, and an error without a message is printed with the text of its code
    unless that code has been printed for another error without a message before. *)
Theorem utils_handle_error_correct (useerr canonerr : Z) (svn_strerror apr_strerror : Z → bytes)
    (recode : bytes → option bytes) (errors : list svn_error) (fatal : bool) (prefix : bytes) :
  utils_handle_error useerr canonerr svn_strerror apr_strerror recode errors fatal prefix =
    (concat ((λ l, prefix ++ l ++ [nl]) <$>
       error_lines useerr canonerr svn_strerror apr_strerror recode [] errors), fatal).
Proof.
  unfold utils_handle_error. f_equal. apply print_errors_lines.
  intros c. by rewrite Exists_nil, elem_of_nil.
Qed.
