(* ===== verification/Types.v ===== *)
(** Structures shared by several components: log entries (src/log.h), dump options (src/dump.h)
    and the remote-access layer of the Subversion libraries, which is not part of the program
    and enters as a class of operations. *)
From S2P Require Import Prelude.

Open Scope Z_scope.

(** * Log entries *)

(** [svn_log_changed_path_t] *)
Record svn_log_changed_path := mk_changed {
  cp_action : ascii;
  cp_copyfrom_path : option bytes;
  cp_copyfrom_rev : Z
}.

Record log_revision := mk_log {
  lr_revision : Z;
  lr_author : option bytes;
  lr_date : option bytes;
  lr_message : option bytes;
  lr_changed_paths : option (gmap bytes svn_log_changed_path)
}.

(** * Options *)

Definition DF_USE_DELTAS : Z := 1.
Definition DF_KEEP_REVNUMS : Z := 2.
Definition DF_INCREMENTAL : Z := 4.
Definition DF_INITIAL_DRY_RUN : Z := 8.
Definition DF_NO_INCREMENTAL_HEADER : Z := 16.
Definition DF_DRY_RUN : Z := 32.

Record dump_options := mk_opts {
  do_temp_dir : option bytes;
  do_prefix : option bytes;
  do_start : Z;
  do_end : Z;
  do_flags : Z;
  do_dump_format : Z
}.

Definition dump_options_create : dump_options := mk_opts None None 0 (-1) 0 2.

(** [opts->flags & f] as a condition. *)
Definition has_flag (opts : dump_options) (f : Z) : bool :=
  negb (Z.land (do_flags opts) f =? 0).

(** * Remote access *)

Inductive svn_node_kind := svn_node_none | svn_node_file | svn_node_dir | svn_node_unknown.

#[export] Instance svn_node_kind_eq_dec : EqDecision svn_node_kind.
Proof. solve_decision. Defined.

(** [svn_ra_stat] and [svn_ra_get_dir2] on a path and a revision; the outer [None] is an error,
    the inner one a path that does not exist. *)
Class RA := {
  svn_ra_stat : bytes → Z → option (option svn_node_kind);
  svn_ra_get_dir2 : bytes → Z → option (gmap bytes svn_node_kind)
}.
