(* ===== verification/Revnum.v ===== *)
(** Revision arguments: [parse_revnum] of src/main.c, with the conversions of [sscanf] it uses. *)
From S2P Require Import Prelude Types.

Open Scope Z_scope.

(** * The C library *)

Definition isspace (c : ascii) : bool := (u8 c =? 32) || ((9 <=? u8 c) && (u8 c <=? 13)).
Definition isdigit (c : ascii) : bool := (48 <=? u8 c) && (u8 c <=? 57).

Definition tolower (c : ascii) : ascii :=
  if (65 <=? u8 c) && (u8 c <=? 90) then byte_of_Z (u8 c + 32) else c.

(** [!strcasecmp(a, b)] *)
Definition strcaseeq (a b : bytes) : bool := bool_decide (tolower <$> a = tolower <$> b).

(** The longest prefix of characters with [p], and the rest. *)
Fixpoint span (p : ascii → bool) (b : bytes) : bytes * bytes :=
  match b with
  | c :: b' => if p c then let '(s, r) := span p b' in (c :: s, r) else ([], b)
  | [] => ([], [])
  end.

Definition skip_space (b : bytes) : bytes := (span isspace b).2.

(** ["%ld"], ["%4s"], ["%c"] and a literal character. *)
Inductive conversion := ConvLong | ConvStr (width : nat) | ConvChar | ConvLit (c : ascii).

Inductive assigned := VLong (n : Z) | VStr (s : bytes) | VChar (c : ascii).

(** A number and the rest of the input; the inner [None] is a matching failure.  A number that
    does not fit a [long] is undefined behaviour. *)
Definition scan_long (b : bytes) : option (option (Z * bytes)) :=
  let b := skip_space b in
  let '(neg, b) :=
    match b with
    | c :: b' => if decide (c = "-"%char) then (true, b')
                 else if decide (c = "+"%char) then (false, b') else (false, b)
    | [] => (false, [])
    end in
  let '(ds, rest) := span isdigit b in
  if (length ds =? 0)%nat then Some None
  else
    let n := if (neg : bool) then - undec ds else undec ds in
    if (- 2 ^ 63 <=? n) && (n <? 2 ^ 63) then Some (Some (n, rest)) else None.

Definition scan_str (width : nat) (b : bytes) : option (bytes * bytes) :=
  let b := skip_space b in
  let '(s, _) := span (λ c, negb (isspace c)) (take width b) in
  if (length s =? 0)%nat then None else Some (s, drop (length s) b).

(** The values assigned until the first failure; their number is the return value (or there is
    none, and it may be [EOF]). *)
Fixpoint sscanf (b : bytes) (fmt : list conversion) : option (list assigned) :=
  match fmt with
  | [] => Some []
  | ConvLit c :: fmt =>
      match b with
      | x :: b => if decide (x = c) then sscanf b fmt else Some []
      | [] => Some []
      end
  | ConvChar :: fmt =>
      match b with
      | x :: b => vs ← sscanf b fmt; Some (VChar x :: vs)
      | [] => Some []
      end
  | ConvStr width :: fmt =>
      match scan_str width b with
      | Some (s, b) => vs ← sscanf b fmt; Some (VStr s :: vs)
      | None => Some []
      end
  | ConvLong :: fmt =>
      r ← scan_long b;
      match r with
      | Some (n, b) => vs ← sscanf b fmt; Some (VLong n :: vs)
      | None => Some []
      end
  end.

(** * parse_revnum

    The arguments [start] and [end] are pointers to fields of the options, which may be the same
    field. *)

Inductive rev_field := RStart | REnd.

Definition rev_get (opts : dump_options) (f : rev_field) : Z :=
  match f with RStart => do_start opts | REnd => do_end opts end.

Definition rev_set (opts : dump_options) (f : rev_field) (v : Z) : dump_options :=
  match f with
  | RStart => mk_opts (do_temp_dir opts) (do_prefix opts) v (do_end opts) (do_flags opts)
                (do_dump_format opts)
  | REnd => mk_opts (do_temp_dir opts) (do_prefix opts) (do_start opts) v (do_flags opts)
              (do_dump_format opts)
  end.

(** What [sscanf] stores through the pointer given for a conversion. *)
Definition store_long (opts : dump_options) (f : rev_field) (v : option assigned) : dump_options :=
  match v with Some (VLong n) => rev_set opts f n | _ => opts end.

Definition is_head (tmp : bytes) : bool := strcaseeq tmp (str "HEAD").

Section parse.
Variables (s : bytes) (start end_ : rev_field).

(** The schemes that are tried: the options and, when the function returns, its value. *)
Definition scheme := dump_options → option (dump_options * option Z).

Definition try_head_head : scheme := λ opts,
  vs ← sscanf s [ConvStr 4; ConvLit ":"; ConvStr 4; ConvChar];
  match vs with
  | [VStr tmp1; VStr tmp2] =>
      if is_head tmp1 && is_head tmp2
      then Some (rev_set (rev_set opts start (-1)) end_ (-1), Some 0) else Some (opts, None)
  | _ => Some (opts, None)
  end.

Definition try_long_head : scheme := λ opts,
  vs ← sscanf s [ConvLong; ConvLit ":"; ConvStr 4; ConvChar];
  let opts := store_long opts start (vs !! 0%nat) in
  match vs with
  | [VLong _; VStr tmp1] =>
      if is_head tmp1 then
        if rev_get opts start <? 0 then Some (opts, Some 1)
        else Some (rev_set opts end_ (-1), Some 0)
      else Some (opts, None)
  | _ => Some (opts, None)
  end.

Definition try_long_long : scheme := λ opts,
  vs ← sscanf s [ConvLong; ConvLit ":"; ConvLong; ConvChar];
  let opts := store_long (store_long opts start (vs !! 0%nat)) end_ (vs !! 1%nat) in
  match vs with
  | [VLong _; VLong _] =>
      if (rev_get opts start <? 0) || (rev_get opts end_ <? 0)
         || (rev_get opts end_ <? rev_get opts start)
      then Some (opts, Some 1) else Some (opts, Some 0)
  | _ => Some (opts, None)
  end.

Definition try_long : scheme := λ opts,
  vs ← sscanf s [ConvLong; ConvChar];
  let opts := store_long opts end_ (vs !! 0%nat) in
  match vs with
  | [VLong _] =>
      if rev_get opts end_ <? 1 then Some (opts, Some 1)
      else Some (rev_set opts start (rev_get opts end_ - 1), Some 0)
  | _ => Some (opts, None)
  end.

Definition try_head : scheme := λ opts,
  vs ← sscanf s [ConvStr 4; ConvChar];
  match vs with
  | [VStr tmp1] =>
      if is_head tmp1 then Some (rev_set (rev_set opts start (-1)) end_ (-1), Some 0)
      else Some (opts, None)
  | _ => Some (opts, None)
  end.

Definition or_else (a b : scheme) : scheme := λ opts,
  '(opts, ret) ← a opts;
  match ret with Some ret => Some (opts, Some ret) | None => b opts end.

Definition parse_revnum (opts : dump_options) : option (dump_options * Z) :=
  '(opts, ret) ← or_else try_head_head (or_else try_long_head (or_else try_long_long
    (or_else try_long try_head))) opts;
  Some (opts, default 1 ret).

End parse.

(** * Facts about the conversions *)

Lemma span_all p a b :
  Forall (λ c, p c = true) a → (∀ c b', b = c :: b' → p c = false) → span p (a ++ b) = (a, b).
Proof.
  intros Ha Hb. induction Ha as [|c a Hc _ IH]; simpl.
  - destruct b as [|c b]; [done|]. simpl. by rewrite (Hb c b).
  - by rewrite Hc, IH.
Qed.

Lemma digit_facts c : 48 <= u8 c < 58 →
  isspace c = false ∧ isdigit c = true ∧ c ≠ "-"%char ∧ c ≠ "+"%char ∧ tolower c = c.
Proof.
  intros Hc. unfold isspace, isdigit, tolower.
  rewrite (proj2 (Z.eqb_neq (u8 c) 32)), (proj2 (Z.leb_gt (u8 c) 13)), (proj2 (Z.leb_le 48 (u8 c))),
    (proj2 (Z.leb_le (u8 c) 57)), (proj2 (Z.leb_gt 65 (u8 c))), andb_false_r by lia.
  split_and!; try done; intros ->; vm_compute in Hc; intuition congruence.
Qed.

Lemma dec_cons n : 0 <= n → ∃ c r, dec n = c :: r ∧ 48 <= u8 c < 58.
Proof.
  intros Hn. pose proof (dec_Forall n Hn) as Hd. destruct (dec n) as [|c r] eqn:E.
  - unfold dec, dec_nonneg in E. rewrite (proj2 (Z.ltb_ge n 0)) in E by lia. cbn [dec_digits] in E.
    case_match; [done|]. rewrite dec_digits_app in E. by destruct (dec_digits _ _ []).
  - apply Forall_cons in Hd as [? _]. eauto.
Qed.

Lemma skip_space_digit c r : 48 <= u8 c < 58 → skip_space (c :: r) = c :: r.
Proof. intros (Hs & _)%digit_facts. unfold skip_space. simpl. by rewrite Hs. Qed.

Lemma scan_long_dec n rest :
  0 <= n < 2 ^ 63 → (∀ c b', rest = c :: b' → isdigit c = false) →
  scan_long (dec n ++ rest) = Some (Some (n, rest)).
Proof.
  intros Hn Hrest. unfold scan_long.
  destruct (dec_cons n ltac:(lia)) as (c & r & Hd & Hc). rewrite Hd.
  rewrite <-app_comm_cons, (skip_space_digit c _ Hc).
  destruct (digit_facts c Hc) as (_ & _ & Hm & Hp & _). rewrite !decide_False by done.
  rewrite app_comm_cons, <-Hd, (span_all isdigit); [| |done].
  - rewrite Hd. simpl (length _ =? 0)%nat. cbn match. rewrite <-Hd. rewrite undec_dec by lia.
    rewrite (proj2 (Z.leb_le _ _)), (proj2 (Z.ltb_lt _ _)) by lia. done.
  - eapply Forall_impl; [apply dec_Forall; lia|]. intros x Hx. by apply digit_facts.
Qed.

(** A string that is read where a digit comes first is not [HEAD]. *)
Lemma scan_str_digit w c b :
  48 <= u8 c < 58 → ∃ s, scan_str (S w) (c :: b) = Some (c :: s, drop (S (length s)) (c :: b)) ∧
    is_head (c :: s) = false.
Proof.
  intros Hc. unfold scan_str. rewrite skip_space_digit by done. cbn [take].
  destruct (digit_facts c Hc) as (Hs & _ & _ & _ & Hl). simpl span. rewrite Hs. simpl negb. cbn match.
  destruct (span _ (take w b)) as [s r]. exists s. split; [done|].
  unfold is_head, strcaseeq. apply bool_decide_eq_false. cbn [fmap list_fmap]. rewrite Hl.
  intros E. apply (f_equal head) in E. injection E as E. subst c. by vm_compute in Hc; destruct Hc.
Qed.

(** All spellings of [HEAD]. *)
Definition head_spelling (h : bytes) : Prop :=
  h ∈ (λ '(a, b, c, d), [a; b; c; d]) <$>
    (a ← ["h"; "H"]%char; b ← ["e"; "E"]%char; c ← ["a"; "A"]%char; d ← ["d"; "D"]%char;
     [(a, b, c, d)]).

#[export] Instance head_spelling_dec h : Decision (head_spelling h) := _.

Ltac head_cases H :=
  unfold head_spelling in H; cbn in H; rewrite !elem_of_cons, elem_of_nil in H;
  repeat match type of H with _ ∨ _ => destruct H as [H|H] end; [subst..|done].

Lemma head_spelling_is_head h : head_spelling h → is_head h = true.
Proof. intros H. head_cases H; reflexivity. Qed.

Lemma scan_str_head h : head_spelling h → scan_str 4 h = Some (h, []).
Proof. intros H. head_cases H; reflexivity. Qed.

(** * Well-formed arguments *)

Inductive rev_arg :=
  | ArgRange (a b : Z)
  | ArgFrom (a : Z) (h : bytes)
  | ArgSingle (b : Z)
  | ArgHead (h : bytes)
  | ArgHeadHead (h1 h2 : bytes).

Definition rev_arg_ok (r : rev_arg) : Prop :=
  match r with
  | ArgRange a b => 0 <= a <= b ∧ b < 2 ^ 63
  | ArgFrom a h => 0 <= a < 2 ^ 63 ∧ head_spelling h
  | ArgSingle b => 1 <= b < 2 ^ 63
  | ArgHead h => head_spelling h
  | ArgHeadHead h1 h2 => head_spelling h1 ∧ head_spelling h2
  end.

Definition rev_print (r : rev_arg) : bytes :=
  match r with
  | ArgRange a b => dec a ++ str ":" ++ dec b
  | ArgFrom a h => dec a ++ str ":" ++ h
  | ArgSingle b => dec b
  | ArgHead h => h
  | ArgHeadHead h1 h2 => h1 ++ str ":" ++ h2
  end.

(** The first and the last revision; -1 is the youngest one. *)
Definition rev_meaning (r : rev_arg) : Z * Z :=
  match r with
  | ArgRange a b => (a, b)
  | ArgFrom a _ => (a, -1)
  | ArgSingle b => (b - 1, b)
  | ArgHead _ | ArgHeadHead _ _ => (-1, -1)
  end.

(** ** What the schemes do with them *)

Lemma sscanf_str_digit w c b fmt :
  48 <= u8 c < 58 →
  ∃ t r, sscanf (c :: b) (ConvStr (S w) :: fmt) = (vs ← sscanf r fmt; Some (VStr t :: vs)) ∧
    is_head t = false.
Proof.
  intros Hc. destruct (scan_str_digit w c b Hc) as (s & Hs & Hh). cbn [sscanf]. rewrite Hs.
  eexists _, _. split; [reflexivity|done].
Qed.

Lemma sscanf_long n rest fmt :
  0 <= n < 2 ^ 63 → (∀ c b', rest = c :: b' → isdigit c = false) →
  sscanf (dec n ++ rest) (ConvLong :: fmt) = (vs ← sscanf rest fmt; Some (VLong n :: vs)).
Proof. intros Hn Hr. cbn [sscanf]. by rewrite scan_long_dec. Qed.

Lemma sscanf_long_end n fmt :
  0 <= n < 2 ^ 63 →
  sscanf (dec n) (ConvLong :: fmt) = (vs ← sscanf [] fmt; Some (VLong n :: vs)).
Proof. intros Hn. rewrite <-(app_nil_r (dec n)) at 1. by apply sscanf_long. Qed.

(** [sscanf] is defined on any format that only reads strings. *)
Lemma sscanf_defined b fmt :
  Forall (λ c, c ≠ ConvLong) fmt → is_Some (sscanf b fmt).
Proof.
  intros Hf. revert b. induction Hf as [|c fmt Hc _ IH]; intros b; [by eexists|].
  destruct c as [|w| |x]; [done|..]; cbn [sscanf].
  - destruct (scan_str w b) as [[s r]|]; [|by eexists]. destruct (IH r) as [vs ->]. by eexists.
  - destruct b as [|y b]; [by eexists|]. destruct (IH b) as [vs ->]. by eexists.
  - destruct b as [|y b]; [by eexists|]. case_decide; [apply IH|by eexists].
Qed.

Lemma try_head_head_digit c b start end_ opts :
  48 <= u8 c < 58 → try_head_head (c :: b) start end_ opts = Some (opts, None).
Proof.
  intros Hc. unfold try_head_head.
  destruct (sscanf_str_digit 3 c b [ConvLit ":"; ConvStr 4; ConvChar] Hc) as (t & r & -> & Ht).
  destruct (sscanf_defined r [ConvLit ":"; ConvStr 4; ConvChar]) as [vs ->];
    [by repeat constructor|]. cbn [mbind option_bind].
  destruct vs as [|[|t2|] [|? ?]]; try done. by rewrite Ht.
Qed.

Lemma try_long_head_dec n m start end_ opts :
  0 <= n < 2 ^ 63 → 0 <= m →
  try_long_head (dec n ++ str ":" ++ dec m) start end_ opts = Some (rev_set opts start n, None).
Proof.
  intros Hn Hm. unfold try_long_head. rewrite sscanf_long by (done || by intros ? ? [= <- <-]).
  destruct (dec_cons m Hm) as (c & r & -> & Hc).
  change (sscanf (str ":" ++ c :: r) [ConvLit ":"; ConvStr 4; ConvChar])
    with (sscanf (c :: r) [ConvStr 4; ConvChar]).
  destruct (sscanf_str_digit 3 c r [ConvChar] Hc) as (t & q & -> & Ht).
  destruct (sscanf_defined q [ConvChar]) as [vs ->]; [by repeat constructor|].
  cbn [mbind option_bind]. destruct vs; [|done]. by rewrite Ht.
Qed.

Lemma rev_get_set opts f v : rev_get (rev_set opts f v) f = v.
Proof. by destruct f. Qed.

Lemma parse_range a b opts :
  0 <= a <= b → b < 2 ^ 63 →
  parse_revnum (dec a ++ str ":" ++ dec b) RStart REnd opts
    = Some (rev_set (rev_set opts RStart a) REnd b, 0).
Proof.
  intros Ha Hb. unfold parse_revnum, or_else at 1.
  destruct (dec_cons a ltac:(lia)) as (c & r & Hd & Hc). rewrite Hd at 1. rewrite <-app_comm_cons.
  rewrite try_head_head_digit by done. cbn [mbind option_bind]. unfold or_else at 1.
  rewrite try_long_head_dec by lia. cbn [mbind option_bind]. unfold or_else at 1, try_long_long.
  rewrite sscanf_long by (lia || by intros ? ? [= <- <-]).
  change (sscanf (str ":" ++ dec b) [ConvLit ":"; ConvLong; ConvChar])
    with (sscanf (dec b) [ConvLong; ConvChar]).
  rewrite sscanf_long_end by lia. simpl.
  rewrite (proj2 (Z.ltb_ge a 0)), (proj2 (Z.ltb_ge b 0)), (proj2 (Z.ltb_ge b a)) by lia. done.
Qed.

Lemma parse_from a h opts :
  0 <= a < 2 ^ 63 → head_spelling h →
  parse_revnum (dec a ++ str ":" ++ h) RStart REnd opts
    = Some (rev_set (rev_set opts RStart a) REnd (-1), 0).
Proof.
  intros Ha Hh. unfold parse_revnum, or_else at 1.
  destruct (dec_cons a ltac:(lia)) as (c & r & Hd & Hc). rewrite Hd at 1. rewrite <-app_comm_cons.
  rewrite try_head_head_digit by done. cbn [mbind option_bind]. unfold or_else at 1, try_long_head.
  rewrite sscanf_long by (lia || by intros ? ? [= <- <-]).
  change (sscanf (str ":" ++ h) [ConvLit ":"; ConvStr 4; ConvChar])
    with (sscanf h [ConvStr 4; ConvChar]). cbn [sscanf]. rewrite scan_str_head by done. simpl.
  rewrite head_spelling_is_head by done. simpl. by rewrite (proj2 (Z.ltb_ge a 0)) by lia.
Qed.

(** A single number, for any two fields. *)
Lemma parse_single b start end_ opts :
  1 <= b < 2 ^ 63 →
  parse_revnum (dec b) start end_ opts =
    Some (let opts := rev_set (rev_set opts start b) end_ b in
          rev_set opts start (rev_get opts end_ - 1), 0).
Proof.
  intros Hb. unfold parse_revnum, or_else at 1.
  destruct (dec_cons b ltac:(lia)) as (c & r & Hd & Hc). rewrite Hd at 1.
  rewrite try_head_head_digit by done. cbn [mbind option_bind].
  unfold or_else, try_long_head, try_long_long, try_long. rewrite !sscanf_long_end by lia. simpl.
  rewrite !rev_get_set, (proj2 (Z.ltb_ge b 1)) by lia. simpl.
  by destruct start, end_.
Qed.

Lemma parse_rev_arg r opts :
  rev_arg_ok r →
  parse_revnum (rev_print r) RStart REnd opts
    = Some (rev_set (rev_set opts RStart (rev_meaning r).1) REnd (rev_meaning r).2, 0).
Proof.
  destruct r as [a b|a h|b|h|h1 h2]; simpl; intros Hr.
  - apply parse_range; lia.
  - destruct Hr. by apply parse_from.
  - rewrite parse_single by done. done.
  - head_cases Hr; reflexivity.
  - destruct Hr as [Hr1 Hr2]. head_cases Hr1; head_cases Hr2; reflexivity.
Qed.

(** ** What is accepted *)

Definition range_ok (start end_ : Z) : Prop :=
  (start = -1 ∧ end_ = -1) ∨ (0 <= start ∧ (end_ = -1 ∨ start <= end_)).

(** Only the range changes. *)
Definition same_but_range (o o' : dump_options) : Prop :=
  do_temp_dir o' = do_temp_dir o ∧ do_prefix o' = do_prefix o ∧ do_flags o' = do_flags o ∧
  do_dump_format o' = do_dump_format o.

(** A scheme that succeeds leaves a proper range. *)
Definition scheme_ok (f : scheme) : Prop :=
  ∀ o o' ret, f o = Some (o', ret) → same_but_range o o' ∧
    (ret = None ∨ ret = Some 1 ∨ (ret = Some 0 ∧ range_ok (do_start o') (do_end o'))).

Lemma same_refl o : same_but_range o o.
Proof. done. Qed.

Lemma same_set o f v : same_but_range o (rev_set o f v).
Proof. by destruct f. Qed.

#[export] Instance same_trans : Transitive same_but_range.
Proof. intros a b c (?&?&?&?) (?&?&?&?). split_and!; congruence. Qed.

Lemma same_store o f v : same_but_range o (store_long o f v).
Proof. destruct v as [[]|]; [apply same_set|apply same_refl..]. Qed.

Lemma or_else_ok a b : scheme_ok a → scheme_ok b → scheme_ok (or_else a b).
Proof.
  intros Ha Hb o o' ret Hr. unfold or_else in Hr.
  destruct (a o) as [[o1 r1]|] eqn:E; [|done]. cbn [mbind option_bind] in Hr.
  destruct (Ha _ _ _ E) as [Hs H1]. destruct r1 as [r1|].
  - injection Hr as <- <-. done.
  - destruct (Hb _ _ _ Hr) as [Hs' H2]. split; [by etrans|done].
Qed.

(** The range a scheme accepts, by the values it has read. *)
Ltac scheme_cases :=
  repeat case_match; simplify_eq; (split; [|auto]);
  repeat first [apply same_store | apply same_set | apply same_refl
               | etrans; [|apply same_set] | etrans; [|apply same_store]].

Lemma try_head_head_ok s : scheme_ok (try_head_head s RStart REnd).
Proof.
  intros o o' ret Hr. unfold try_head_head in Hr. apply bind_Some in Hr as (vs & _ & Hr).
  scheme_cases. right; right. split; [done|]. by left.
Qed.

Lemma try_long_head_ok s : scheme_ok (try_long_head s RStart REnd).
Proof.
  intros o o' ret Hr. unfold try_long_head in Hr. apply bind_Some in Hr as (vs & _ & Hr).
  scheme_cases. right; right. split; [done|]. right. simpl in *. lia.
Qed.

Lemma try_long_long_ok s : scheme_ok (try_long_long s RStart REnd).
Proof.
  intros o o' ret Hr. unfold try_long_long in Hr. apply bind_Some in Hr as (vs & _ & Hr).
  scheme_cases. right; right. bool_simpl. split; [done|]. right. simpl in *. lia.
Qed.

Lemma try_long_ok s : scheme_ok (try_long s RStart REnd).
Proof.
  intros o o' ret Hr. unfold try_long in Hr. apply bind_Some in Hr as (vs & _ & Hr).
  scheme_cases. right; right. bool_simpl. split; [done|]. right. simpl in *. lia.
Qed.

Lemma try_head_ok s : scheme_ok (try_head s RStart REnd).
Proof.
  intros o o' ret Hr. unfold try_head in Hr. apply bind_Some in Hr as (vs & _ & Hr).
  scheme_cases. right; right. split; [done|]. by left.
Qed.

Lemma parse_accepts s o o' ret :
  parse_revnum s RStart REnd o = Some (o', ret) →
  same_but_range o o' ∧ (ret = 1 ∨ (ret = 0 ∧ range_ok (do_start o') (do_end o'))).
Proof.
  intros Hr. unfold parse_revnum in Hr. apply bind_Some in Hr as ([o1 r1] & E & [= <- <-]).
  apply or_else_ok in E as [Hs Hc]; [|apply try_head_head_ok|].
  - split; [done|]. destruct Hc as [-> |[-> |[-> ?]]]; simpl; auto.
  - do 3 (apply or_else_ok; [auto using try_long_head_ok, try_long_long_ok, try_long_ok|]).
    apply try_head_ok.
Qed.

(** * Properties *)

(** C30. Revision arguments are read completely and exactly: [X:Y], [X:HEAD], [X], [HEAD] and [HEAD:HEAD]
    (in any spelling of [HEAD]) give the range from [X] to [Y], from [X] to the youngest, from
    [X - 1] to [X], and the youngest alone; nothing else in the options changes. *)
Theorem parse_revnum_correct (r : rev_arg) (opts : dump_options) :
  rev_arg_ok r →
  ∃ opts', parse_revnum (rev_print r) RStart REnd opts = Some (opts', 0) ∧
    (do_start opts', do_end opts') = rev_meaning r ∧ same_but_range opts opts'.
Proof.
  intros Hr. rewrite parse_rev_arg by done. eexists. split; [done|].
  split; [by destruct (rev_meaning r)|]. etrans; apply same_set.
Qed.

Lemma parse_revnum_correct_witness :
  ∃ opts', parse_revnum (str "17:head") RStart REnd dump_options_create = Some (opts', 0) ∧
    do_start opts' = 17 ∧ do_end opts' = -1.
Proof.
  destruct (parse_revnum_correct (ArgFrom 17 (str "head")) dump_options_create) as (o & Ho & Hm & _).
  - split; [lia|]. eval_decide.
  - exists o. split; [exact Ho|]. injection Hm as Hs He. split; [exact Hs|exact He].
Defined.

(** C31. Whatever the argument is, a range that is accepted is a proper one: both ends are the
    youngest revision, or the first one is not negative and the last one is the youngest revision
    or not before the first.  Everything else is reported as an error, and the other options are
    never touched. *)
Theorem parse_revnum_accepts_proper (s : bytes) (opts opts' : dump_options) (ret : Z) :
  parse_revnum s RStart REnd opts = Some (opts', ret) →
  same_but_range opts opts' ∧ (ret = 1 ∨ (ret = 0 ∧ range_ok (do_start opts') (do_end opts'))).
Proof. apply parse_accepts. Qed.

Lemma parse_revnum_accepts_proper_witness :
  ∃ opts', parse_revnum (str "8:5") RStart REnd dump_options_create = Some (opts', 1) ∧
    do_flags opts' = 0.
Proof.
  destruct (parse_revnum (str "8:5") RStart REnd dump_options_create) as [[o ret]|] eqn:E;
    [|vm_compute in E; discriminate].
  destruct (parse_revnum_accepts_proper _ _ _ _ E) as [(_ & _ & Hf & _) [Hr|[Hr _]]].
  - exists o. rewrite Hr. split; [reflexivity|exact Hf].
  - exfalso. rewrite Hr in E. vm_compute in E. discriminate E.
Defined.

(** The deprecated option [--stop] passes the last revision for both ends: a single number is
    decremented, so that the dump ends one revision early. *)
Lemma parse_revnum_same_field b opts :
  1 <= b < 2 ^ 63 → ∃ opts', parse_revnum (dec b) REnd REnd opts = Some (opts', 0) ∧
    do_end opts' = b - 1 ∧ do_start opts' = do_start opts.
Proof. intros Hb. rewrite parse_single by done. eexists. split; [done|]. done. Qed.
