(* ===== verification/Copyfrom.v ===== *)
(** Locating copy sources in the dumped revisions: [delta_get_local_copyfrom_path] and
    [delta_get_local_copyfrom_rev] of src/delta.c. *)
From S2P Require Import Prelude Types.

Open Scope Z_scope.

(** [while ( *path == '/' ) ++path;] *)
Fixpoint skip_slashes (path : bytes) : bytes :=
  match path with
  | c :: p => if decide (c = slash) then skip_slashes p else path
  | [] => []
  end.

(** [None] is NULL. *)
Definition delta_get_local_copyfrom_path (prefix path : bytes) : option bytes :=
  let preflen := length prefix in
  if negb (strncmp_eq prefix path preflen) then None
  else Some (skip_slashes (drop preflen path)).

(** The loop [while (--rev >= 0)], entered with [rev = S n]. *)
Fixpoint copyfrom_rev_loop (n : nat) (original : Z) (logs : list log_revision) : Z :=
  match n with
  | O => -1
  | S n =>
      match logs !! n with
      | None => -1
      | Some logrev =>
          if original =? lr_revision logrev then Z.of_nat n
          else if lr_revision logrev <? original then Z.of_nat n
          else copyfrom_rev_loop n original logs
      end
  end.

Definition delta_get_local_copyfrom_rev (original : Z) (opts : dump_options)
    (logs : list log_revision) (local_revnum : Z) : Z :=
  if has_flag opts DF_KEEP_REVNUMS then original
  else if (length logs =? 0)%nat then -2
  else copyfrom_rev_loop (length logs - 1) original logs.

(** * Lemmas *)

Lemma skip_slashes_id p : head p ≠ Some slash → skip_slashes p = p.
Proof. destruct p as [|c p]; simpl; [done|]. intros Hc. rewrite decide_False; naive_solver. Qed.

Lemma copyfrom_path_prefix prefix rest :
  cstr prefix →
  delta_get_local_copyfrom_path prefix (prefix ++ rest) = Some (skip_slashes rest).
Proof.
  intros Hp. unfold delta_get_local_copyfrom_path.
  rewrite (proj2 (strncmp_eq_prefix prefix (prefix ++ rest) Hp)) by by apply prefix_app_r.
  simpl. by rewrite drop_app_length.
Qed.

Lemma copyfrom_path_none prefix path :
  cstr prefix → delta_get_local_copyfrom_path prefix path = None ↔ ¬ prefix `prefix_of` path.
Proof.
  intros Hp. unfold delta_get_local_copyfrom_path.
  rewrite <-(strncmp_eq_prefix prefix path Hp).
  destruct (strncmp_eq prefix path (length prefix)); simpl; naive_solver.
Qed.

Lemma copyfrom_rev_loop_spec n original logs :
  (n ≤ length logs)%nat →
  let rev := copyfrom_rev_loop n original logs in
  -1 <= rev < Z.of_nat n ∧
  (0 <= rev → ∃ l, logs !! Z.to_nat rev = Some l ∧ lr_revision l <= original) ∧
  (∀ i l, logs !! i = Some l → rev < Z.of_nat i < Z.of_nat n → original < lr_revision l).
Proof.
  induction n as [|n IH]; intros Hn; cbn [copyfrom_rev_loop].
  { split_and!; [lia|lia|lia|]. intros. lia. }
  destruct (lookup_lt_is_Some_2 logs n) as [l Hl]; [lia|]. rewrite Hl.
  destruct (original =? lr_revision l) eqn:E1; [|destruct (lr_revision l <? original) eqn:E2];
    bool_simpl.
  - split_and!; [lia|lia| |intros; lia]. intros _. exists l. rewrite Nat2Z.id. split; [done|lia].
  - split_and!; [lia|lia| |intros; lia]. intros _. exists l. rewrite Nat2Z.id. split; [done|lia].
  - destruct (IH ltac:(lia)) as (Hb & Hs & Hm). split_and!; [lia|lia|done|].
    intros i l' Hi Hr. destruct (decide (i = n)) as [->|]; [|apply (Hm i); [done|lia]].
    rewrite Hl in Hi. injection Hi as <-. lia.
Qed.

(** * Properties *)

(** C39. Renumbered copy sources: when the log list holds increasing revisions, the local number
    found for a copy source is the last dumped revision before the current last one that is not
    newer than the source revision; it is negative exactly when there is none. *)
Theorem delta_get_local_copyfrom_rev_correct (original : Z) (opts : dump_options)
    (logs : list log_revision) (local_revnum : Z) :
  has_flag opts DF_KEEP_REVNUMS = false → logs ≠ [] →
  let rev := delta_get_local_copyfrom_rev original opts logs local_revnum in
  (rev = -1 ∧ ∀ i l, logs !! i = Some l → (i < length logs - 1)%nat → original < lr_revision l) ∨
  (0 <= rev < Z.of_nat (length logs) - 1 ∧
   (∃ l, logs !! Z.to_nat rev = Some l ∧ lr_revision l <= original) ∧
   ∀ i l, logs !! i = Some l → (Z.to_nat rev < i < length logs - 1)%nat →
     original < lr_revision l).
Proof.
  intros Hf Hne rev.
  assert (0 < length logs)%nat by (destruct logs; simpl; [done|lia]).
  assert (rev = copyfrom_rev_loop (length logs - 1) original logs) as Hrev.
  { unfold rev, delta_get_local_copyfrom_rev. rewrite Hf.
    by rewrite (proj2 (Nat.eqb_neq (length logs) 0)) by lia. }
  destruct (copyfrom_rev_loop_spec (length logs - 1) original logs) as (Hb & Hs & Hm); [lia|].
  rewrite <-Hrev in Hb, Hs, Hm. clearbody rev.
  destruct (decide (rev = -1)) as [Heq|Hneq]; [left|right].
  - split; [done|]. intros i l Hi Hlt. apply (Hm i); [done|lia].
  - split_and!; [lia|lia|apply Hs; lia|]. intros i l Hi Hlt. apply (Hm i); [done|lia].
Qed.

Definition sample_logs : list log_revision :=
  (λ r, mk_log r None None None None) <$> [0; 3; 5; 9; 12].

Lemma delta_get_local_copyfrom_rev_correct_witness :
  delta_get_local_copyfrom_rev 6 dump_options_create sample_logs 4 = 2 ∧
  (∃ l, sample_logs !! 2%nat = Some l ∧ lr_revision l <= 6).
Proof.
  split; [reflexivity|].
  destruct (delta_get_local_copyfrom_rev_correct 6 dump_options_create sample_logs 4)
    as [[H _]|(_ & H & _)]; [reflexivity|discriminate| |exact H].
  exfalso. revert H. vm_compute. discriminate.
Defined.

(** Local copy source paths: a path inside the session root loses the prefix and the slash
    behind it, and a path that does not start with the prefix is reported as unreachable. *)
Theorem delta_get_local_copyfrom_path_correct (prefix rest path : bytes) :
  cstr prefix → head rest ≠ Some slash → ¬ prefix `prefix_of` path →
  delta_get_local_copyfrom_path prefix (prefix ++ [slash] ++ rest) = Some rest ∧
  delta_get_local_copyfrom_path prefix prefix = Some [] ∧
  delta_get_local_copyfrom_path prefix path = None.
Proof.
  intros Hp Hr Hn. rewrite copyfrom_path_prefix by done. rewrite copyfrom_path_none by done.
  split_and!; [|rewrite <-(app_nil_r prefix) at 2; by apply copyfrom_path_prefix|done].
  simpl. by rewrite skip_slashes_id.
Qed.

Lemma delta_get_local_copyfrom_path_correct_witness :
  delta_get_local_copyfrom_path (str "trunk") (str "trunk/a/b") = Some (str "a/b") ∧
  delta_get_local_copyfrom_path (str "trunk") (str "trunk") = Some [] ∧
  delta_get_local_copyfrom_path (str "trunk") (str "branches/x") = None.
Proof.
  apply (delta_get_local_copyfrom_path_correct (str "trunk") (str "a/b") (str "branches/x"));
    [eval_decide|discriminate|eval_decide].
Defined.

(** A sibling that merely shares the prefix is taken to be inside the session root: for the
    prefix [trunk], the copy source [trunk2/a] is not reported as unreachable but becomes the
    local path [2/a]. *)
Theorem delta_get_local_copyfrom_path_sibling (prefix rest : bytes) :
  cstr prefix → head rest ≠ Some slash →
  delta_get_local_copyfrom_path prefix (prefix ++ rest) = Some rest.
Proof. intros Hp Hr. rewrite copyfrom_path_prefix by done. by rewrite skip_slashes_id. Qed.

Lemma delta_get_local_copyfrom_path_sibling_witness :
  delta_get_local_copyfrom_path (str "trunk") (str "trunk2/a") = Some (str "2/a").
Proof.
  apply (delta_get_local_copyfrom_path_sibling (str "trunk") (str "2/a"));
    [eval_decide|discriminate].
Defined.
