(* ===== verification/PathRepo.v ===== *)
(** The versioned path storage of src/path_repo.c.

    The repository keeps a working tree (a crit-bit tree), the actions scheduled on it since the
    last commit, and a database with one record per committed revision: the encoded actions, or
    at every [SNAPSHOT_INTERVAL]-th revision the whole tree.  Trees of old revisions are
    reconstructed by replaying records and kept in a small FIFO cache.  The component is
    verified against the [KV] and [Codec] contracts; memory allocation for tree nodes is assumed
    to succeed.  [None] is undefined behaviour or a failed assertion. *)
From S2P Require Import Prelude CritBit Interfaces Mukv Utils Types Copyfrom.

Open Scope Z_scope.

Definition SNAPSHOT_INTERVAL : Z := 1024.
Definition CACHE_SIZE : nat := 4.

(** * Data *)

Record pr_cache_entry := mk_cache { ce_revision : Z; ce_tree : cb_tree }.

Record pr_delta_entry := mk_delta { de_action : ascii; de_path : bytes }.

Record path_repo (T : Type) := mk_repo {
  pr_db : T;
  pr_delta : list pr_delta_entry;
  pr_delta_len : Z;             (* an int *)
  pr_work : cb_tree;            (* the field [tree] *)
  pr_head : Z;
  pr_cache : list pr_cache_entry;
  pr_cache_index : nat
}.
Arguments mk_repo {T}.
Arguments pr_db {T}.
Arguments pr_delta {T}.
Arguments pr_delta_len {T}.
Arguments pr_work {T}.
Arguments pr_head {T}.
Arguments pr_cache {T}.
Arguments pr_cache_index {T}.

Definition plus_c : ascii := "+"%char.
Definition minus_c : ascii := "-"%char.

Abbreviation cb_insert := (cb_tree_insert (λ _, true)).

(** * Encoding *)

(** [elem[path_len]] is read without looking at the length of [elem]. *)
Definition pr_tree_to_array_cb (path_len : nat) (elem : bytes) (arr : list bytes)
    : option (list bytes * Z) :=
  if (path_len =? 0)%nat then Some (arr ++ [elem], 0)
  else
    c ← cread elem path_len;
    if decide (c = nul) then Some (arr ++ [elem], 0)
    else if decide (c = slash) then Some (arr ++ [elem], 0)
    else Some (arr, 0).

Definition pr_tree_to_array (tree : cb_tree) (path : bytes) : option (list bytes) :=
  '(arr, ret) ← cb_tree_walk_prefixed tree path (pr_tree_to_array_cb (length path)) [];
  if negb (ret =? 0) then None else Some arr.

(** One action, the path and its terminator. *)
Definition pr_encode_entry (e : pr_delta_entry) : bytes := de_action e :: de_path e ++ [nul].

Definition pr_encode (tree : cb_tree) : option bytes :=
  arr ← pr_tree_to_array tree [];
  Some (concat (pr_encode_entry <$> (mk_delta plus_c <$> arr))).

(** [len] counts the bytes left; reading past the buffer [data] is undefined. *)
Fixpoint pr_delta_loop (fuel : nat) (tree : cb_tree) (data : bytes) (len : Z) : option cb_tree :=
  match fuel with
  | O => None
  | S fuel =>
      if 0 <? len then
        match data with
        | [] => None
        | c :: rest =>
            let path := c_str rest in
            if (length path <? length rest)%nat then
              let tree := if decide (c = plus_c) then (cb_insert tree path).1
                          else (cb_tree_delete tree path).1 in
              pr_delta_loop fuel tree (drop (S (length path)) rest)
                (len - (2 + Z.of_nat (length path)))
            else None
        end
      else Some tree
  end.

(** The size of the buffer is passed as an [int]. *)
Definition pr_delta_apply (tree : cb_tree) (data : bytes) : option cb_tree :=
  pr_delta_loop (S (length data)) tree data (i32 (Z.of_nat (length data))).

(** [apr_itoa(pool, r)] converts its argument to [int]. *)
Definition pr_key (r : Z) : bytes := dec (i32 r).

(** * Encoding: lemmas *)

(** The effect of an action on a set of paths: everything but ['+'] deletes. *)
Definition pr_act (X : gset bytes) (e : pr_delta_entry) : gset bytes :=
  if decide (de_action e = plus_c) then {[de_path e]} ∪ X else X ∖ {[de_path e]}.

Definition pr_encoded (es : list pr_delta_entry) : bytes := concat (pr_encode_entry <$> es).

Definition entries_ok (es : list pr_delta_entry) : Prop := Forall (λ e, cstr (de_path e)) es.

(** [x] is [path] or lies below it. *)
Definition under (path x : bytes) : Prop := x = path ∨ (path ++ [slash]) `prefix_of` x.

#[export] Instance under_dec path x : Decision (under path x) := _.

Lemma cb_insert_abs t p :
  cb_wf t → cstr p →
  cb_wf (cb_insert t p).1 ∧ cb_abs (cb_insert t p).1 = {[p]} ∪ cb_abs t ∧
  (cb_insert t p).2 = if decide (p ∈ cb_abs t) then 1 else 0.
Proof.
  intros Hwf Hp. pose proof (cb_step_refines t (CbInsert p) Hwf Hp) as Hs. simpl in Hs.
  destruct (cb_insert t p) as [t' r]. destruct Hs as [Hw Hs]. split; [done|]. simpl.
  case_decide as Hin; injection Hs as Ha <-; rewrite <-Ha; split; set_solver.
Qed.

Lemma cb_delete_abs t p :
  cb_wf t → cstr p →
  cb_wf (cb_tree_delete t p).1 ∧ cb_abs (cb_tree_delete t p).1 = cb_abs t ∖ {[p]}.
Proof.
  intros Hwf Hp. pose proof (cb_step_refines t (CbDelete p) Hwf Hp) as Hs. simpl in Hs.
  destruct (cb_tree_delete t p) as [t' r]. destruct Hs as [Hw Hs]. split; [done|]. simpl.
  case_decide as Hin; injection Hs as Ha _; rewrite <-Ha; set_solver.
Qed.

Lemma pr_encoded_app es1 es2 : pr_encoded (es1 ++ es2) = pr_encoded es1 ++ pr_encoded es2.
Proof. unfold pr_encoded. by rewrite fmap_app, concat_app. Qed.

Lemma pr_encode_entry_length e : length (pr_encode_entry e) = (2 + length (de_path e))%nat.
Proof. unfold pr_encode_entry. simpl. rewrite length_app. simpl. lia. Qed.

Lemma pr_delta_loop_encoded fuel t es :
  cb_wf t → entries_ok es → (length es < fuel)%nat →
  ∃ t', pr_delta_loop fuel t (pr_encoded es) (Z.of_nat (length (pr_encoded es))) = Some t' ∧
    cb_wf t' ∧ cb_abs t' = foldl pr_act (cb_abs t) es.
Proof.
  intros Hwf Hes. revert fuel t Hwf.
  induction Hes as [|e es He Hes IH]; intros [|fuel] t Hwf Hf; simpl in Hf; try lia;
    [by exists t|].
  unfold pr_encoded. cbn [fmap list_fmap concat]. fold (pr_encoded es).
  rewrite length_app, pr_encode_entry_length. cbn [pr_delta_loop].
  rewrite (proj2 (Z.ltb_lt 0 _)) by lia. unfold pr_encode_entry at 1. cbn [app].
  rewrite <-app_assoc. cbn [app]. rewrite c_str_app by done.
  rewrite (proj2 (Nat.ltb_lt _ _)) by (rewrite length_app; simpl; lia).
  rewrite cons_middle, app_assoc, drop_app_length' by (rewrite length_app; simpl; lia).
  replace (Z.of_nat (2 + length (de_path e) + length (pr_encoded es)) -
    (2 + Z.of_nat (length (de_path e)))) with (Z.of_nat (length (pr_encoded es))) by lia.
  cbn [foldl]. unfold pr_act at 2. case_decide.
  - destruct (cb_insert_abs t (de_path e) Hwf He) as (Hw & <- & _). apply IH; [done|lia].
  - destruct (cb_delete_abs t (de_path e) Hwf He) as (Hw & <-). apply IH; [done|lia].
Qed.

Lemma pr_encoded_length_le es : (length es ≤ length (pr_encoded es))%nat.
Proof.
  induction es as [|e es IH]; [done|]. unfold pr_encoded. cbn [fmap list_fmap concat].
  fold (pr_encoded es). rewrite length_app, pr_encode_entry_length. simpl. lia.
Qed.

(** Replaying an encoded list of actions. *)
Lemma pr_delta_apply_encoded t es :
  cb_wf t → entries_ok es → Z.of_nat (length (pr_encoded es)) < 2 ^ 31 →
  ∃ t', pr_delta_apply t (pr_encoded es) = Some t' ∧ cb_wf t' ∧
    cb_abs t' = foldl pr_act (cb_abs t) es.
Proof.
  intros Hwf Hes Hlen. unfold pr_delta_apply. rewrite wrap_s_small by lia.
  apply pr_delta_loop_encoded; [done..|]. pose proof (pr_encoded_length_le es). lia.
Qed.

Lemma under_app path k : under path (path ++ k) ↔ k = [] ∨ head k = Some slash.
Proof.
  unfold under. split.
  - intros [Heq|[z Hz]].
    + left. apply (f_equal length) in Heq. rewrite length_app in Heq. by destruct k; simpl in Heq; [|lia].
    + rewrite <-app_assoc in Hz. apply app_inv_head in Hz as ->. by right.
  - intros [-> |Hk]; [left; by rewrite app_nil_r|]. destruct k as [|c k]; [done|].
    injection Hk as ->. right. exists k. by rewrite <-app_assoc.
Qed.

(** The callback on a string that has the prefix: the read is inside the string. *)
Lemma pr_to_array_cb_prefix path k arr :
  path ≠ [] → cstr (path ++ k) →
  pr_tree_to_array_cb (length path) (path ++ k) arr =
    Some (arr ++ (if decide (under path (path ++ k)) then [path ++ k] else []), 0).
Proof.
  intros Hne Hx. unfold pr_tree_to_array_cb, cread.
  rewrite (proj2 (Nat.eqb_neq _ _)) by (by destruct path).
  rewrite <-app_assoc, lookup_app_r, Nat.sub_diag by lia.
  apply cstr_app in Hx as [_ Hx]. destruct k as [|c k]; simpl lookup; cbn [mbind option_bind].
  - rewrite !decide_True by (done || (apply under_app; by left)). done.
  - apply cstr_cons in Hx as [Hc _]. rewrite decide_False by done. case_decide as Hcs.
    + rewrite decide_True; [done|]. apply under_app. right. by subst.
    + rewrite decide_False; [by rewrite app_nil_r|]. rewrite under_app. naive_solver.
Qed.

Lemma pr_to_array_list path l arr :
  path ≠ [] → Forall cstr l → Forall (prefix path) l →
  cb_walk_list l (pr_tree_to_array_cb (length path)) arr = Some (arr ++ filter (under path) l, 0).
Proof.
  intros Hne Hc Hl. revert arr. induction Hl as [|x l [k ->] Hl IH]; intros arr;
    [by rewrite app_nil_r|]. apply Forall_cons in Hc as [Hx Hc].
  cbn [cb_walk_list]. rewrite pr_to_array_cb_prefix by done. cbn [mbind option_bind].
  simpl negb. cbn match. rewrite IH by done. rewrite <-app_assoc. do 3 f_equal.
  rewrite filter_cons. by case_decide.
Qed.

Lemma pr_to_array_root l arr :
  cb_walk_list l (pr_tree_to_array_cb 0) arr = Some (arr ++ l, 0).
Proof.
  revert arr. induction l as [|x l IH]; intros arr; [by rewrite app_nil_r|].
  cbn [cb_walk_list]. change (pr_tree_to_array_cb 0 x arr) with (Some (arr ++ [x], 0)).
  cbn [mbind option_bind]. simpl negb. cbn match. rewrite IH. by rewrite <-app_assoc.
Qed.

Lemma pr_tree_to_array_nil t : cb_wf t → pr_tree_to_array t [] = Some (cb_list t).
Proof.
  intros Hwf. unfold pr_tree_to_array. rewrite cb_walk_prefixed_spec.
  - rewrite filter_all by (intros; apply prefix_nil). by rewrite pr_to_array_root.
  - done.
  - constructor.
  - destruct (cb_list t) as [|x l]; [by right|left]. exists x.
    split; [by left|apply prefix_nil].
Qed.

Lemma pr_tree_to_array_spec t path :
  cb_wf t → cstr path → path ≠ [] → (∃ x, x ∈ cb_list t ∧ path `prefix_of` x) ∨ cb_list t = [] →
  pr_tree_to_array t path = Some (filter (under path) (cb_list t)).
Proof.
  intros Hwf Hp Hne Hex. unfold pr_tree_to_array. rewrite cb_walk_prefixed_spec by done.
  rewrite pr_to_array_list; [|done|..].
  - cbn [mbind option_bind]. simpl negb. cbn match. f_equal. rewrite list_filter_filter_l; [done|].
    intros x [-> |[k ->]]; [done|]. rewrite <-app_assoc. by apply prefix_app_r.
  - apply Forall_forall. intros x [_ Hx]%list_elem_of_filter. by eapply cb_list_cstr.
  - apply Forall_forall. by intros x [Hx _]%list_elem_of_filter.
Qed.

Section path_repo.
Context {T : Type} `{KV T} `{Codec} `{HashIter} `{RA}.

Implicit Types (repo : path_repo T) (path : bytes).

(** * Reconstruction *)

(** [n] iterations of the loop from revision [r]; the tree is an in-out parameter. *)
Fixpoint pr_replay (n : nat) (db : T) (tree : cb_tree) (r : Z) : option (T * cb_tree * Z) :=
  match n with
  | O => Some (db, tree, 0)
  | S n =>
      ex ← kv_exists db (pr_key r);
      if (ex : bool) then
        '(db, val) ← kv_fetch db (pr_key r);
        match val ≫= uncompress with
        | None => Some (db, tree, -1)
        | Some data =>
            tree ← pr_delta_apply tree data;
            pr_replay n db tree (r + 1)
        end
      else pr_replay n db tree (r + 1)
  end.

Definition pr_base (revision : Z) : Z := Z.land revision (Z.lnot (SNAPSHOT_INTERVAL - 1)).

Definition pr_reconstruct (db : T) (tree : cb_tree) (revision : Z) : option (T * cb_tree * Z) :=
  let r := pr_base revision in
  pr_replay (Z.to_nat (revision - r + 1)) db tree r.

(** The first cache slot with the revision. *)
Definition pr_cache_find (cache : list pr_cache_entry) (revision : Z) : option cb_tree :=
  match list_find (λ e, ce_revision e = revision) cache with
  | Some (_, e) => Some (ce_tree e)
  | None => None
  end.

(** The tree returned is the one in the cache; [None] inside is NULL. *)
Definition pr_tree repo (revision : Z) : option (path_repo T * option cb_tree) :=
  match pr_cache_find (pr_cache repo) revision with
  | Some tree => Some (repo, Some tree)
  | None =>
      e ← pr_cache repo !! pr_cache_index repo;
      let tree := match ce_tree e with Some _ => cb_tree_clear (ce_tree e) | None => None end in
      '(db, tree, ret) ← pr_reconstruct (pr_db repo) tree revision;
      if negb (ret =? 0) then
        (* the slot keeps its revision, with what has been reconstructed so far *)
        Some (mk_repo db (pr_delta repo) (pr_delta_len repo) (pr_work repo) (pr_head repo)
                (<[pr_cache_index repo := mk_cache (ce_revision e) tree]> (pr_cache repo))
                (pr_cache_index repo), None)
      else
        let index := S (pr_cache_index repo) in
        Some (mk_repo db (pr_delta repo) (pr_delta_len repo) (pr_work repo) (pr_head repo)
                (<[pr_cache_index repo := mk_cache revision tree]> (pr_cache repo))
                (if (length (pr_cache repo) <=? index)%nat then 0%nat else index),
              Some tree)
  end.

(** * Operations *)

Definition pr_cache_init (size : nat) : list pr_cache_entry :=
  replicate size (mk_cache (-1) cb_tree_make).

Definition path_repo_create (db : T) : path_repo T :=
  mk_repo db [] 0 cb_tree_make 0 (pr_cache_init CACHE_SIZE) 0.

(** Appends to the scheduled actions; the sum is computed in [size_t] and stored in an [int]. *)
Definition pr_schedule repo (e : pr_delta_entry) (tree : cb_tree) : path_repo T :=
  mk_repo (pr_db repo) (pr_delta repo ++ [e])
    (i32 (pr_delta_len repo + (2 + Z.of_nat (length (de_path e))))) tree (pr_head repo)
    (pr_cache repo) (pr_cache_index repo).

Definition path_repo_add repo path : path_repo T * Z :=
  let '(tree, ret) := cb_insert (pr_work repo) path in
  (pr_schedule repo (mk_delta plus_c path) tree, if negb (ret =? 0) then -1 else 0).

Definition path_repo_delete repo path : option (path_repo T * Z) :=
  paths ← pr_tree_to_array (pr_work repo) path;
  Some (foldl (λ repo p, pr_schedule repo (mk_delta minus_c p)
                           (cb_tree_delete (pr_work repo) p).1) repo paths, 0).

Definition pr_snapshot (revision : Z) : bool :=
  (0 <? revision) && (Z.rem revision SNAPSHOT_INTERVAL =? 0).

(** The record of a commit.  Without a snapshot the buffer has [delta_len] bytes: more data would
    overrun it, less would leave a part of it uninitialised. *)
Definition pr_record repo (revision : Z) : option bytes :=
  if negb (pr_snapshot revision) then
    let data := concat (pr_encode_entry <$> pr_delta repo) in
    if Z.of_nat (length data) =? pr_delta_len repo then Some data else None
  else pr_encode (pr_work repo).

Definition path_repo_commit repo (revision : Z) : option (path_repo T * Z) :=
  if (pr_delta_len repo <=? 0) && negb (pr_snapshot revision) then
    (* Skip empty revisions if there's no snapshot pending *)
    Some (mk_repo (pr_db repo) (pr_delta repo) (pr_delta_len repo) (pr_work repo) revision
            (pr_cache repo) (pr_cache_index repo), 0)
  else
    data ← pr_record repo revision;
    match compress data with
    | None => Some (repo, -1)
    | Some val =>
        '(db, ret) ← kv_store (pr_db repo) (pr_key revision) val;
        if negb (ret =? 0) then
          Some (mk_repo db (pr_delta repo) (pr_delta_len repo) (pr_work repo) (pr_head repo)
                  (pr_cache repo) (pr_cache_index repo), -1)
        else
          Some (mk_repo db [] 0 (pr_work repo) revision (pr_cache repo) (pr_cache_index repo), 0)
    end.

Definition path_repo_discard repo : option (path_repo T * Z) :=
  '(db, tree, ret) ← pr_reconstruct (pr_db repo) (cb_tree_clear (pr_work repo)) (pr_head repo);
  Some (mk_repo db [] 0 tree (pr_head repo) (pr_cache repo) (pr_cache_index repo), ret).

Definition path_repo_exists repo path (revision : Z) : option (path_repo T * Z) :=
  if revision <? 0 then Some (repo, 0)
  else
    '(repo, tree) ← pr_tree repo revision;
    match tree with
    | None => Some (repo, -1)
    | Some tree => Some (repo, if cb_tree_contains tree path then 1 else 0)
    end.

Definition path_repo_check_parent repo (parent child : bytes) (revision : Z)
    : option (path_repo T * Z) :=
  if revision <? 0 then Some (repo, 0)
  else
    '(repo, tree) ← pr_tree repo revision;
    match tree with
    | None => Some (repo, -1)
    | Some tree =>
        Some (repo, if cb_tree_contains tree (parent ++ [slash] ++ child) then 1 else 0)
    end.

(** * Changed paths of a log entry *)

(** Adds the paths below the directory [path]; the depth of the recursion is bounded by [fuel].
    A failure below the first level is reported but not returned. *)
Fixpoint pr_fetch_paths_rec (fuel : nat) (paths : list bytes) path (rev : Z)
    : option (list bytes * Z) :=
  match fuel with
  | O => None
  | S fuel =>
      match svn_ra_get_dir2 path rev with
      | None => Some (paths, -1)
      | Some dirents =>
          let step acc ed :=
            paths ← acc;
            let subpath := if (0 <? length path)%nat then path ++ [slash] ++ ed.1 else ed.1 in
            match ed.2 with
            | svn_node_file => Some (paths ++ [subpath])
            | svn_node_dir =>
                '(paths, _) ← pr_fetch_paths_rec fuel (paths ++ [subpath]) subpath rev;
                Some paths
            | _ => Some paths
            end in
          paths ← foldl step (Some paths) (hash_iter dirents);
          Some (paths, 0)
      end
  end.

Definition pr_fetch_paths (fuel : nat) (paths : list bytes) path (rev : Z)
    : option (list bytes * Z) :=
  match svn_ra_stat path rev with
  | None => Some (paths, -1)
  | Some None => Some (paths, 0)
  | Some (Some svn_node_file) => Some (paths ++ [path], 0)
  | Some (Some _) => pr_fetch_paths_rec fuel (paths ++ [path]) path rev
  end.

Definition pr_add_all repo (paths : list bytes) : path_repo T :=
  foldl (λ repo p, (path_repo_add repo p).1) repo paths.

(** The body of the loop over the changed paths; the result [-1] leaves the function. *)
Definition pr_change (fuel : nat) (prefix : bytes) (opts : dump_options)
    (log : log_revision) (revision : Z) (logs : list log_revision) repo path
    (info : svn_log_changed_path) : option (path_repo T * Z) :=
  let a := cp_action info in
  repo ← (if bool_decide (a = "D"%char ∨ a = "R"%char)
          then '(repo, _) ← path_repo_delete repo path; Some repo else Some repo);
  if bool_decide (a ≠ "A"%char ∧ a ≠ "R"%char) then Some (repo, 0)
  else
    match cp_copyfrom_path info with
    | None => Some ((path_repo_add repo path).1, 0)
    | Some copyfrom =>
        match delta_get_local_copyfrom_path prefix copyfrom with
        | None =>
            '(cpaths, ret) ← pr_fetch_paths fuel [] path (lr_revision log);
            if negb (ret =? 0) then Some (repo, -1) else Some (pr_add_all repo cpaths, 0)
        | Some copyfrom_path =>
            let copyfrom_rev :=
              delta_get_local_copyfrom_rev (cp_copyfrom_rev info) opts logs revision in
            '(repo, tree) ← pr_tree repo copyfrom_rev;
            match tree with
            | None => Some (repo, -1)
            | Some tree =>
                cpaths ← pr_tree_to_array tree copyfrom_path;
                match cpaths with
                | [] => None  (* assert(cpaths->nelts > 0) *)
                | [_] => Some ((path_repo_add repo path).1, 0)
                | _ =>
                    if forallb (λ p, (length copyfrom_path <=? length p)%nat) cpaths
                    then Some (pr_add_all repo
                      ((λ p, path ++ drop (length copyfrom_path) p) <$> cpaths), 0)
                    else None  (* assert *)
                end
            end
        end
    end.

Fixpoint pr_changes (fuel : nat) (prefix : bytes) (opts : dump_options)
    (log : log_revision) (revision : Z) (logs : list log_revision) repo
    (changed : gmap bytes svn_log_changed_path) (paths : list bytes)
    : option (path_repo T * Z) :=
  match paths with
  | [] => Some (repo, 0)
  | path :: paths =>
      info ← changed !! path;
      '(repo, ret) ← pr_change fuel prefix opts log revision logs repo path info;
      if negb (ret =? 0) then Some (repo, ret)
      else pr_changes fuel prefix opts log revision logs repo changed paths
  end.

Definition path_repo_commit_log (fuel : nat) (prefix : bytes) (opts : dump_options) repo
    (log : log_revision) (revision : Z) (logs : list log_revision) : option (path_repo T * Z) :=
  match lr_changed_paths log with
  | None => path_repo_commit repo revision
  | Some changed =>
      let paths := utils_sort (hash_iter changed).*1 in
      '(repo, ret) ← pr_changes fuel prefix opts log revision logs repo changed paths;
      if negb (ret =? 0) then Some (repo, ret) else path_repo_commit repo revision
  end.

(** * Verification against the repository (debug builds) *)

Definition path_repo_test (fuel : nat) (db : T) (revision svn_rev : Z) : option Z :=
  '(_, tree, ret) ← pr_reconstruct db cb_tree_make revision;
  if negb (ret =? 0) then Some 1
  else
    paths_recon ← pr_tree_to_array tree [];
    '(paths_orig, _) ← pr_fetch_paths fuel [] [] svn_rev;
    let paths_orig := utils_sort paths_orig in
    let paths_orig := match paths_orig with [] :: l => l | l => l end in
    let missing a b := existsb (λ p, bool_decide (utils_search p b = None)) a in
    Some (if negb (length paths_recon =? length paths_orig)%nat
             || missing paths_recon paths_orig || missing paths_orig paths_recon
          then 1 else 0).

(** The loop of [path_repo_test_all] over the committed revisions below the head, from the one after
    [rev] on. *)
Fixpoint test_all_loop (k fuel : nat) (db : T) (head rev : Z) : option Z :=
  match k with
  | O => None
  | S k =>
      let rev := rev + 1 in
      if rev <? head then
        ex ← kv_exists db (pr_key rev);
        if negb (ex : bool) then test_all_loop k fuel db head rev
        else
          ret ← path_repo_test fuel db rev rev;
          if ret =? 0 then test_all_loop k fuel db head rev else Some ret
      else Some 0
  end.

Definition path_repo_test_all (fuel : nat) (repo : path_repo T) : option Z :=
  test_all_loop (S (Z.to_nat (pr_head repo))) fuel (pr_db repo) (pr_head repo) 0.

(** * Specification

    What the repository promises: a set of paths for every revision up to the last committed
    one, and a working set.  [sp_hist] is constant from the last commit on; [sp_pend] is the
    size of the scheduled actions. *)
Record pr_spec := mk_spec {
  sp_hist : Z → gset bytes;
  sp_last : Z;
  sp_work : gset bytes;
  sp_pend : nat
}.

Inductive pr_op :=
  | PAdd (path : bytes)
  | PDelete (path : bytes)
  | PCommit (revision : Z)
  | PDiscard
  | PExists (path : bytes) (revision : Z)
  | PCheckParent (parent child : bytes) (revision : Z).

Definition set_size (X : gset bytes) : nat := length (pr_encoded (mk_delta plus_c <$> elements X)).

Definition work_remove (X : gset bytes) (path : bytes) : gset bytes :=
  filter (λ x, ¬ under path x) X.

Inductive pr_spec_step (s : pr_spec) : pr_op → Z → pr_spec → Prop :=
  | ps_add path :
      pr_spec_step s (PAdd path) (if decide (path ∈ sp_work s) then -1 else 0)
        (mk_spec (sp_hist s) (sp_last s) ({[path]} ∪ sp_work s) (sp_pend s + (2 + length path)))
  | ps_delete path :
      pr_spec_step s (PDelete path) 0
        (mk_spec (sp_hist s) (sp_last s) (work_remove (sp_work s) path)
           (sp_pend s + set_size (filter (under path) (sp_work s))))
  | ps_commit revision :
      pr_spec_step s (PCommit revision) 0
        (mk_spec (λ r, if r <? revision then sp_hist s r else sp_work s) revision (sp_work s) 0)
  | ps_commit_failed revision :
      pr_spec_step s (PCommit revision) (-1) s
  | ps_discard :
      pr_spec_step s PDiscard 0 (mk_spec (sp_hist s) (sp_last s) (sp_hist s (sp_last s)) 0)
  | ps_exists path revision :
      pr_spec_step s (PExists path revision)
        (if decide (path ∈ sp_hist s revision) then 1 else 0) s
  | ps_check_parent parent child revision :
      pr_spec_step s (PCheckParent parent child revision)
        (if decide (parent ++ [slash] ++ child ∈ sp_hist s revision) then 1 else 0) s.

(** When a call is covered.  Commits go forward and do not jump over a revision at which a
    snapshot is due; deletions name an existing path; queries concern committed revisions; the
    sizes fit an [int]. *)
Definition pr_op_ok (s : pr_spec) (op : pr_op) : Prop :=
  match op with
  | PAdd path => cstr path
  | PDelete path => cstr path ∧ path ≠ [] ∧ path ∈ sp_work s
  | PCommit revision =>
      sp_last s < revision < 2 ^ 31 ∧
      (∀ r, sp_last s < r < revision → pr_snapshot r = false) ∧
      Z.of_nat (sp_pend s) < 2 ^ 31 ∧ Z.of_nat (set_size (sp_work s)) < 2 ^ 31
  | PDiscard => True
  | PExists path revision => revision <= sp_last s
  | PCheckParent _ _ revision => revision <= sp_last s
  end.

Definition pr_do repo (op : pr_op) : option (path_repo T * Z) :=
  match op with
  | PAdd path => Some (path_repo_add repo path)
  | PDelete path => path_repo_delete repo path
  | PCommit revision => path_repo_commit repo revision
  | PDiscard => path_repo_discard repo
  | PExists path revision => path_repo_exists repo path revision
  | PCheckParent parent child revision => path_repo_check_parent repo parent child revision
  end.

(** * Invariant *)

(** What record [val] of revision [r] must be for the tree to go from [X] to [Y]. *)
Definition pr_record_ok (r : Z) (val : option bytes) (X Y : gset bytes) : Prop :=
  match val with
  | None => pr_snapshot r = false ∧ Y = X
  | Some c => ∃ es, compress (pr_encoded es) = Some c ∧ entries_ok es ∧
      Z.of_nat (length (pr_encoded es)) < 2 ^ 31 ∧
      Y = foldl pr_act (if pr_snapshot r then ∅ else X) es
  end.

(** The records [m] describe the history [C] up to revision [h]. *)
Record pr_db_ok (m : gmap bytes bytes) (C : Z → gset bytes) (h : Z) : Prop := {
  dk_range : -1 <= h < 2 ^ 31;
  dk_neg : ∀ r, r < 0 → C r = ∅;
  dk_last : ∀ r, h <= r → C r = C h;
  dk_none : ∀ r, - 2 ^ 31 <= r < 2 ^ 31 → r < 0 ∨ h < r → m !! pr_key r = None;
  dk_some : ∀ r, 0 <= r <= h → pr_record_ok r (m !! pr_key r) (C (r - 1)) (C r)
}.

Record pr_inv repo (s : pr_spec) : Prop := {
  pi_db : ∃ m, kv_models (pr_db repo) m ∧ pr_db_ok m (sp_hist s) (sp_last s);
  pi_wf : cb_wf (pr_work repo);
  pi_work : cb_abs (pr_work repo) = sp_work s;
  pi_delta_ok : entries_ok (pr_delta repo);
  pi_delta : foldl pr_act (sp_hist s (sp_last s)) (pr_delta repo) = sp_work s;
  pi_pend : sp_pend s = length (pr_encoded (pr_delta repo));
  pi_len : pr_delta_len repo = i32 (Z.of_nat (sp_pend s));
  pi_head : pr_head repo = Z.max (sp_last s) 0;
  pi_cache : Forall (λ e, cb_wf (ce_tree e) ∧ ce_revision e <= sp_last s ∧
    cb_abs (ce_tree e) = sp_hist s (ce_revision e)) (pr_cache repo);
  pi_slots : length (pr_cache repo) = CACHE_SIZE ∧ (pr_cache_index repo < CACHE_SIZE)%nat
}.

(** ** Revisions and keys *)

Lemma pr_base_eq v : pr_base v = v / 1024 * 1024.
Proof.
  unfold pr_base. change (SNAPSHOT_INTERVAL - 1) with (Z.ones 10). rewrite <-Z.ldiff_land.
  rewrite Z.ldiff_ones_r by lia. rewrite Z.shiftl_mul_pow2, Z.shiftr_div_pow2 by lia. done.
Qed.

Lemma pr_snapshot_spec r : pr_snapshot r = true ↔ 0 < r ∧ r mod 1024 = 0.
Proof.
  unfold pr_snapshot, SNAPSHOT_INTERVAL. rewrite andb_true_iff, Z.ltb_lt, Z.eqb_eq.
  split; intros [Hr Hm]; split; try done; [rewrite <-Z.rem_mod_nonneg|rewrite Z.rem_mod_nonneg];
    lia.
Qed.

Lemma pr_snapshot_false r : pr_snapshot r = false ↔ ¬ (0 < r ∧ r mod 1024 = 0).
Proof. rewrite <-pr_snapshot_spec. by destruct (pr_snapshot r). Qed.

Lemma pr_key_inj r r' :
  - 2 ^ 31 <= r < 2 ^ 31 → 0 <= r' < 2 ^ 31 → pr_key r = pr_key r' → r = r'.
Proof.
  intros Hr Hr'. unfold pr_key. rewrite !wrap_s_small by lia.
  destruct (decide (r < 0)) as [Hneg|]; [|by apply dec_inj; lia].
  intros Heq. exfalso. pose proof (dec_Forall r' ltac:(lia)) as Hd. rewrite <-Heq in Hd.
  unfold dec in Hd. rewrite (proj2 (Z.ltb_lt r 0)) in Hd by done.
  apply Forall_cons in Hd as [Hd _]. vm_compute in Hd. by destruct Hd.
Qed.

(** ** Reconstruction *)

Lemma pr_replay_spec n db m C h t r :
  kv_models db m → pr_db_ok m C h → cb_wf t →
  - 2 ^ 31 <= r → r + Z.of_nat n <= 2 ^ 31 →
  cb_abs t = (if pr_snapshot r then ∅ else C (r - 1)) →
  (∀ q, r < q < r + Z.of_nat n → pr_snapshot q = false) → (pr_snapshot r = true → r <= h) →
  (0 < n)%nat →
  ∃ db' t', pr_replay n db t r = Some (db', t', 0) ∧ kv_models db' m ∧ cb_wf t' ∧
    cb_abs t' = C (r + Z.of_nat n - 1).
Proof.
  intros Hdb Hok Hwf Hlo Hhi Ht Hsn Hh Hn. revert db t r Hdb Hwf Hlo Hhi Ht Hsn Hh.
  induction n as [|n IH]; intros db t r Hdb Hwf Hlo Hhi Ht Hsn Hh; [lia|].
  assert (∀ db t, kv_models db m → cb_wf t → cb_abs t = C r →
    ∃ db' t', pr_replay n db t (r + 1) = Some (db', t', 0) ∧ kv_models db' m ∧ cb_wf t' ∧
      cb_abs t' = C (r + Z.of_nat (S n) - 1)) as Hnext.
  { clear db t Hdb Hwf Ht. intros db t Hdb Hwf Ht. destruct n as [|n].
    { exists db, t. split_and!; try done. rewrite Ht. f_equal. lia. }
    destruct (IH ltac:(lia) db t (r + 1)) as (db' & t' & Hr & ? & ? & Habs); try done; try lia.
    - rewrite Hsn by lia. rewrite Ht. f_equal. lia.
    - intros q Hq. apply Hsn. lia.
    - rewrite Hsn by lia. done.
    - exists db', t'. split_and!; try done. rewrite Habs. f_equal. lia. }
  cbn [pr_replay]. rewrite (kv_exists_spec db m) by done. cbn [mbind option_bind].
  destruct Hok as [Hrange Hneg Hlast Hnone Hsome].
  destruct (decide (0 <= r <= h)) as [Hin|Hout].
  - specialize (Hsome r Hin). destruct (m !! pr_key r) as [c|] eqn:Hc.
    + rewrite bool_decide_eq_true_2 by done.
      destruct (kv_fetch_spec db m (pr_key r) Hdb) as (db' & -> & Hdb'). rewrite Hc. simpl.
      destruct Hsome as (es & Hcomp & Hes & Hlen & HC).
      rewrite (uncompress_compress _ _ Hlen Hcomp).
      destruct (pr_delta_apply_encoded t es Hwf Hes Hlen) as (t' & -> & Hwf' & Habs). simpl.
      apply Hnext; [done..|]. by rewrite Habs, Ht, HC.
    + rewrite bool_decide_eq_false_2 by (by intros [? ?]). apply Hnext; [done..|].
      destruct Hsome as [Hs ->]. by rewrite Ht, Hs.
  - rewrite (Hnone r) by lia. rewrite bool_decide_eq_false_2 by (by intros [? ?]).
    apply Hnext; [done..|]. rewrite Ht.
    assert (pr_snapshot r = false) as ->.
    { destruct (pr_snapshot r) eqn:Hs; [|done]. pose proof (Hh eq_refl).
      apply pr_snapshot_spec in Hs. lia. }
    destruct (decide (r < 0)); [by rewrite !Hneg by lia|].
    rewrite (Hlast r) by lia. rewrite (Hlast (r - 1)) by lia. done.
Qed.

Lemma pr_reconstruct_spec db m C h t revision :
  kv_models db m → pr_db_ok m C h → cb_wf t → cb_abs t = ∅ →
  revision <= Z.max h 0 →  - 2 ^ 31 <= pr_base revision →
  ∃ db' t', pr_reconstruct db t revision = Some (db', t', 0) ∧ kv_models db' m ∧ cb_wf t' ∧
    cb_abs t' = C revision.
Proof.
  intros Hdb Hok Hwf Ht Hrev Hlo. unfold pr_reconstruct.
  pose proof (dk_range _ _ _ Hok) as Hrange. rewrite pr_base_eq in Hlo |- *.
  destruct (pr_replay_spec (Z.to_nat (revision - revision / 1024 * 1024 + 1)) db m C h t
    (revision / 1024 * 1024)) as (db' & t' & Hr & ? & ? & Habs); try done.
  - divlia.
  - rewrite Ht. destruct (pr_snapshot _) eqn:Hs; [done|]. rewrite (dk_neg _ _ _ Hok); [done|].
    apply pr_snapshot_false in Hs. divlia.
  - intros q Hq. apply pr_snapshot_false. intros [_ Hm]. divlia.
  - intros [Hpos _]%pr_snapshot_spec. divlia.
  - divlia.
  - exists db', t'. split_and!; try done. rewrite Habs. f_equal. divlia.
Qed.

(** ** Cache *)

Lemma pr_cache_find_spec cache revision tree :
  pr_cache_find cache revision = Some tree →
  ∃ e, e ∈ cache ∧ ce_revision e = revision ∧ ce_tree e = tree.
Proof.
  unfold pr_cache_find. destruct (list_find _ cache) as [[i e]|] eqn:Hf; [|done].
  intros [= <-]. apply list_find_Some in Hf as (Hi & Hr & _). exists e. split_and!; try done.
  by eapply list_elem_of_lookup_2.
Qed.

(** A committed revision's tree, through the cache or reconstructed. *)
Lemma pr_tree_spec repo s revision :
  pr_inv repo s → - 2 ^ 31 <= pr_base revision → revision <= sp_last s →
  ∃ repo' t, pr_tree repo revision = Some (repo', Some t) ∧ pr_inv repo' s ∧ cb_wf t ∧
    cb_abs t = sp_hist s revision ∧ pr_work repo' = pr_work repo ∧
    pr_delta repo' = pr_delta repo.
Proof.
  intros Hinv Hlo Hrev. unfold pr_tree.
  destruct (pr_cache_find (pr_cache repo) revision) as [t|] eqn:Hf.
  { apply pr_cache_find_spec in Hf as (e & He & <- & <-). exists repo, (ce_tree e).
    pose proof (pi_cache _ _ Hinv) as Hc. rewrite Forall_forall in Hc.
    destruct (Hc e He) as (? & ? & ?). done. }
  destruct Hinv as [(m & Hdb & Hok) Hwf Hwork Hdo Hd Hp Hlen Hhead Hcache [Hsz Hidx]].
  destruct (lookup_lt_is_Some_2 (pr_cache repo) (pr_cache_index repo)) as [e He]; [lia|].
  rewrite He. cbn [mbind option_bind].
  set (t0 := match ce_tree e with Some _ => _ | None => _ end).
  assert (t0 = None) as -> by (unfold t0; by destruct (ce_tree e)).
  destruct (pr_reconstruct_spec (pr_db repo) m (sp_hist s) (sp_last s) None revision)
    as (db' & t & -> & Hdb' & Hwt & Ht); try done; [lia|].
  cbn [mbind option_bind]. simpl negb. cbn match. do 2 eexists. split; [done|].
  split; [|done]. split; simpl; eauto.
  - apply Forall_insert; [done|]. simpl. done.
  - rewrite length_insert. split; [done|]. rewrite Hsz.
    destruct (CACHE_SIZE <=? S (pr_cache_index repo))%nat eqn:Hle; [unfold CACHE_SIZE; lia|].
    apply Nat.leb_gt in Hle. lia.
Qed.

Lemma pr_query_spec repo s revision (path : bytes) :
  pr_inv repo s → revision <= sp_last s →
  ∃ repo', (if revision <? 0 then Some (repo, 0)
            else '(repo, tree) ← pr_tree repo revision;
                 match tree with
                 | None => Some (repo, -1)
                 | Some tree => Some (repo, if cb_tree_contains tree path then 1 else 0)
                 end) = Some (repo', if decide (path ∈ sp_hist s revision) then 1 else 0) ∧
    pr_inv repo' s.
Proof.
  intros Hinv Hrev. pose proof (pi_db _ _ Hinv) as (m & _ & Hok).
  pose proof (dk_range _ _ _ Hok).
  destruct (Z.ltb_spec revision 0) as [Hneg|Hpos].
  - exists repo. rewrite (dk_neg _ _ _ Hok) by done. by rewrite decide_False by set_solver.
  - destruct (pr_tree_spec repo s revision Hinv) as (repo' & t & -> & ? & Hwf & Ht & _);
      [rewrite pr_base_eq; divlia|lia|]. cbn [mbind option_bind]. exists repo'. split; [|done].
    do 2 f_equal. apply eq_trans with (if decide (path ∈ cb_list t) then 1 else 0).
    + pose proof (cb_contains_spec t path Hwf). case_decide; case_match; naive_solver.
    + apply decide_ext. by rewrite <-Ht, elem_of_cb_abs.
Qed.

(** ** Scheduling *)

Lemma i32_add a b : i32 (i32 a + b) = i32 (a + b).
Proof.
  unfold wrap_s. f_equal.
  replace ((a + 2 ^ (32 - 1)) mod 2 ^ 32 - 2 ^ (32 - 1) + b + 2 ^ (32 - 1))
    with ((a + 2 ^ (32 - 1)) mod 2 ^ 32 + b) by lia.
  rewrite Zplus_mod_idemp_l. f_equal. lia.
Qed.

Lemma pr_schedule_inv repo s e t :
  pr_inv repo s → cstr (de_path e) → cb_wf t → cb_abs t = pr_act (sp_work s) e →
  pr_inv (pr_schedule repo e t)
    (mk_spec (sp_hist s) (sp_last s) (pr_act (sp_work s) e)
       (sp_pend s + (2 + length (de_path e)))).
Proof.
  intros [] He Hwf Ht. split; simpl; try done.
  - apply Forall_app. split; [done|]. by repeat constructor.
  - rewrite foldl_app, pi_delta0. done.
  - rewrite pr_encoded_app, length_app, pi_pend0. unfold pr_encoded at 3. simpl.
    rewrite !length_app. simpl. lia.
  - rewrite pi_len0, i32_add. f_equal. lia.
Qed.

Lemma path_repo_add_inv repo s path :
  pr_inv repo s → cstr path →
  ∃ repo', path_repo_add repo path =
      (repo', if decide (path ∈ sp_work s) then -1 else 0) ∧
    pr_inv repo' (mk_spec (sp_hist s) (sp_last s) ({[path]} ∪ sp_work s)
      (sp_pend s + (2 + length path))).
Proof.
  intros Hinv Hp. unfold path_repo_add.
  destruct (cb_insert_abs (pr_work repo) path (pi_wf _ _ Hinv) Hp) as (Hwf & Ha & Hr).
  destruct (cb_insert (pr_work repo) path) as [t ret]. simpl in *.
  rewrite (pi_work _ _ Hinv) in Ha, Hr. eexists. split.
  - f_equal. subst ret. by case_decide.
  - apply (pr_schedule_inv repo s (mk_delta plus_c path)); [done..|].
    unfold pr_act. simpl. by rewrite Ha.
Qed.

Lemma pr_delete_all_inv repo s paths :
  pr_inv repo s → Forall cstr paths →
  pr_inv (foldl (λ repo p, pr_schedule repo (mk_delta minus_c p)
                             (cb_tree_delete (pr_work repo) p).1) repo paths)
    (mk_spec (sp_hist s) (sp_last s) (sp_work s ∖ list_to_set paths)
       (sp_pend s + length (pr_encoded (mk_delta minus_c <$> paths)))).
Proof.
  intros Hinv Hp. revert repo s Hinv. induction Hp as [|p paths Hp Hps IH]; intros repo s Hinv.
  - simpl. replace (sp_work s ∖ ∅) with (sp_work s) by set_solver.
    rewrite Nat.add_0_r. by destruct s.
  - destruct (cb_delete_abs (pr_work repo) p (pi_wf _ _ Hinv) Hp) as (Hwf & Ha).
    rewrite (pi_work _ _ Hinv) in Ha.
    pose proof (pr_schedule_inv repo s (mk_delta minus_c p) _ Hinv Hp Hwf Ha) as Hinv'.
    specialize (IH _ _ Hinv'). cbn [foldl]. simpl in IH.
    replace (sp_work s ∖ list_to_set (p :: paths)) with
      (pr_act (sp_work s) (mk_delta minus_c p) ∖ list_to_set paths : gset bytes)
      by (unfold pr_act; simpl; set_solver).
    replace (sp_pend s + length (pr_encoded (mk_delta minus_c <$> (p :: paths))))%nat with
      (sp_pend s + S (S (length p)) + length (pr_encoded (mk_delta minus_c <$> paths)))%nat;
      [done|].
    unfold pr_encoded. cbn [fmap list_fmap concat]. rewrite length_app, pr_encode_entry_length.
    simpl. lia.
Qed.

Lemma pr_act_adds (l : list bytes) (X : gset bytes) :
  foldl pr_act X (mk_delta plus_c <$> l) = list_to_set l ∪ X.
Proof.
  revert X. induction l as [|x l IH]; intros X; simpl; [set_solver|].
  rewrite IH. unfold pr_act. simpl. set_solver.
Qed.

(** The size of an encoding depends on the paths only. *)
Lemma pr_encoded_length a es :
  length (pr_encoded (mk_delta a <$> es)) = sum_list ((λ p, 2 + length p)%nat <$> es).
Proof.
  induction es as [|p es IH]; [done|]. unfold pr_encoded in *. cbn [fmap list_fmap concat] in *.
  rewrite length_app, pr_encode_entry_length, IH. done.
Qed.

Lemma set_size_elements X l :
  NoDup l → (∀ x, x ∈ l ↔ x ∈ X) → set_size X = sum_list ((λ p, 2 + length p)%nat <$> l).
Proof.
  intros Hnd Hl. unfold set_size. rewrite pr_encoded_length.
  assert (elements X ≡ₚ l) as Hp.
  { apply NoDup_Permutation; [apply NoDup_elements|done|]. intros x.
    by rewrite elem_of_elements, Hl. }
  revert Hp. generalize (elements X). clear. intros k Hp.
  induction Hp; csimpl in *; lia.
Qed.

Lemma path_repo_delete_inv repo s path :
  pr_inv repo s → cstr path → path ≠ [] → path ∈ sp_work s →
  ∃ repo', path_repo_delete repo path = Some (repo', 0) ∧
    pr_inv repo' (mk_spec (sp_hist s) (sp_last s) (work_remove (sp_work s) path)
      (sp_pend s + set_size (filter (under path) (sp_work s)))).
Proof.
  intros Hinv Hp Hne Hin. pose proof (pi_wf _ _ Hinv) as Hwf.
  assert (∀ x, x ∈ cb_list (pr_work repo) ↔ x ∈ sp_work s) as Hl.
  { intros x. by rewrite <-(pi_work _ _ Hinv), elem_of_cb_abs. }
  unfold path_repo_delete. rewrite pr_tree_to_array_spec; [|done..|].
  2:{ left. exists path. split; [by apply Hl|done]. }
  cbn [mbind option_bind]. eexists. split; [done|].
  set (paths := filter (under path) (cb_list (pr_work repo))).
  assert (Forall cstr paths) as Hc.
  { apply Forall_forall. intros x [_ Hx]%list_elem_of_filter. by eapply cb_list_cstr. }
  pose proof (pr_delete_all_inv repo s paths Hinv Hc) as Hinv'.
  replace (work_remove (sp_work s) path) with (sp_work s ∖ list_to_set paths : gset bytes).
  2:{ apply set_eq. intros x. unfold work_remove, paths.
      rewrite elem_of_filter, elem_of_difference, elem_of_list_to_set, list_elem_of_filter, Hl.
      tauto. }
  rewrite (set_size_elements _ paths); [by rewrite <-(pr_encoded_length minus_c)|..].
  - apply NoDup_filter. by apply cb_list_nodup.
  - intros x. unfold paths. by rewrite list_elem_of_filter, elem_of_filter, Hl.
Qed.

(** ** Commits *)

(** The history after a commit, from what is stored for the new revision. *)
Lemma pr_db_commit m m' C h revision W :
  pr_db_ok m C h → h < revision < 2 ^ 31 →
  (∀ r, h < r < revision → pr_snapshot r = false) →
  (∀ k, k ≠ pr_key revision → m' !! k = m !! k) →
  pr_record_ok revision (m' !! pr_key revision) (C h) W →
  pr_db_ok m' (λ r, if r <? revision then C r else W) revision.
Proof.
  intros [] Hrev Hsn Hm' Hrec.
  assert (∀ r, - 2 ^ 31 <= r < 2 ^ 31 → r ≠ revision → m' !! pr_key r = m !! pr_key r) as Hne.
  { intros r Hr Hne. apply Hm'. intros Heq. apply Hne, pr_key_inj; [lia..|done]. }
  split.
  - lia.
  - intros r Hr. rewrite (proj2 (Z.ltb_lt r revision)) by lia. auto.
  - intros r Hr. by rewrite (proj2 (Z.ltb_ge r revision)), Z.ltb_irrefl by lia.
  - intros r Hr Hor. rewrite Hne by lia. apply dk_none0; lia.
  - intros r Hr. rewrite (proj2 (Z.ltb_lt (r - 1) revision)) by lia.
    destruct (decide (r = revision)) as [->|].
    + rewrite Z.ltb_irrefl. by rewrite (dk_last0 (revision - 1)) by lia.
    + rewrite (proj2 (Z.ltb_lt r revision)), Hne by lia.
      destruct (decide (r <= h)); [apply dk_some0; lia|].
      rewrite dk_none0 by lia. split; [apply Hsn; lia|].
      by rewrite (dk_last0 r), (dk_last0 (r - 1)) by lia.
Qed.

(** The invariant after a successful commit. *)
Lemma pr_commit_inv repo s revision db m' delta :
  pr_inv repo s → sp_last s < revision → 0 <= revision →
  kv_models db m' →
  pr_db_ok m' (λ r, if r <? revision then sp_hist s r else sp_work s) revision →
  delta = [] →
  pr_inv (mk_repo db delta 0 (pr_work repo) revision (pr_cache repo) (pr_cache_index repo))
    (mk_spec (λ r, if r <? revision then sp_hist s r else sp_work s) revision (sp_work s) 0).
Proof.
  intros [] Hrev Hpos Hdb Hok ->. split; simpl; try done; eauto.
  - constructor.
  - by rewrite Z.ltb_irrefl.
  - lia.
  - eapply Forall_impl; [done|]. intros e (? & ? & Ha). split_and!; [done|lia|].
    by rewrite (proj2 (Z.ltb_lt (ce_revision e) revision)) by lia.
Qed.

(** What a record contains. *)
Lemma pr_record_spec repo s revision :
  pr_inv repo s → Z.of_nat (sp_pend s) < 2 ^ 31 → Z.of_nat (set_size (sp_work s)) < 2 ^ 31 →
  ∃ es, pr_record repo revision = Some (pr_encoded es) ∧ entries_ok es ∧
    Z.of_nat (length (pr_encoded es)) < 2 ^ 31 ∧
    sp_work s = foldl pr_act (if pr_snapshot revision then ∅ else sp_hist s (sp_last s)) es.
Proof.
  intros Hinv Hpend Hsize. pose proof (pi_wf _ _ Hinv) as Hwf. unfold pr_record.
  destruct (pr_snapshot revision); simpl.
  - unfold pr_encode. rewrite pr_tree_to_array_nil by done. simpl.
    exists (mk_delta plus_c <$> cb_list (pr_work repo)). split; [done|]. split_and!.
    + apply Forall_fmap, Forall_forall. intros x Hx. by eapply cb_list_cstr.
    + rewrite pr_encoded_length, <-(set_size_elements (sp_work s)); [done|by apply cb_list_nodup|].
      intros x. by rewrite <-(pi_work _ _ Hinv), elem_of_cb_abs.
    + rewrite <-(pi_work _ _ Hinv). unfold cb_abs.
      rewrite pr_act_adds. set_solver.
  - exists (pr_delta repo). rewrite (pi_len _ _ Hinv), <-(pi_delta _ _ Hinv).
    rewrite (pi_pend _ _ Hinv) in Hpend |- *. rewrite wrap_s_small by lia.
    fold (pr_encoded (pr_delta repo)). rewrite Z.eqb_refl. split_and!; try done.
    by destruct Hinv.
Qed.

Lemma path_repo_commit_inv repo s revision :
  pr_inv repo s → pr_op_ok s (PCommit revision) →
  ∃ repo' ret s', path_repo_commit repo revision = Some (repo', ret) ∧
    pr_spec_step s (PCommit revision) ret s' ∧ pr_inv repo' s'.
Proof.
  intros Hinv (Hrev & Hsn & Hpend & Hsize). unfold path_repo_commit.
  pose proof (pi_db _ _ Hinv) as (m & Hdb & Hok). pose proof (dk_range _ _ _ Hok) as Hrange.
  assert (pr_delta_len repo = Z.of_nat (sp_pend s)) as Hlen.
  { rewrite (pi_len _ _ Hinv). apply wrap_s_small; lia. }
  destruct ((pr_delta_len repo <=? 0) && negb (pr_snapshot revision)) eqn:Hskip.
  { bool_simpl. assert (sp_pend s = 0%nat) as Hp0 by lia.
    assert (pr_delta repo = []) as Hd0.
    { rewrite (pi_pend _ _ Hinv) in Hp0. pose proof (pr_encoded_length_le (pr_delta repo)).
      apply nil_length_inv. lia. }
    assert (sp_work s = sp_hist s (sp_last s)) as HW.
    { by rewrite <-(pi_delta _ _ Hinv), Hd0. }
    do 3 eexists. split; [done|]. split; [apply ps_commit|].
    replace (pr_delta_len repo) with 0 by lia. apply (pr_commit_inv _ _ _ _ m); [done|lia|lia|done| |done].
    apply (pr_db_commit m m _ (sp_last s)); try done. rewrite (dk_none _ _ _ Hok) by lia. by split. }
  destruct (pr_record_spec repo s revision Hinv Hpend Hsize) as (es & -> & Hes & Hel & HW).
  cbn [mbind option_bind]. destruct (compress (pr_encoded es)) as [c|] eqn:Hc.
  2:{ do 3 eexists. split; [done|]. split; [apply ps_commit_failed|done]. }
  destruct (kv_store_spec (pr_db repo) m (pr_key revision) c Hdb) as
    (db & ret & -> & [[-> Hdb']|[Hret Hdb']]); cbn [mbind option_bind].
  - simpl negb. cbn match. do 3 eexists. split; [done|]. split; [apply ps_commit|].
    apply (pr_commit_inv _ _ _ _ (<[pr_key revision := c]> m)); [done|lia|lia|done| |done].
    apply (pr_db_commit m _ _ (sp_last s)); try done.
    + intros k Hk. by rewrite lookup_insert_ne.
    + rewrite lookup_insert_eq. exists es. done.
  - rewrite (proj2 (Z.eqb_neq ret 0)) by done. simpl negb. cbn match. do 3 eexists.
    split; [done|]. split; [apply ps_commit_failed|]. destruct Hinv. split; simpl; eauto.
Qed.

Lemma path_repo_discard_inv repo s :
  pr_inv repo s →
  ∃ repo', path_repo_discard repo = Some (repo', 0) ∧
    pr_inv repo' (mk_spec (sp_hist s) (sp_last s) (sp_hist s (sp_last s)) 0).
Proof.
  intros Hinv. unfold path_repo_discard. pose proof (pi_db _ _ Hinv) as (m & Hdb & Hok).
  pose proof (dk_range _ _ _ Hok) as Hrange.
  destruct (pr_reconstruct_spec (pr_db repo) m (sp_hist s) (sp_last s) None (pr_head repo))
    as (db & t & Hr & Hdb' & Hwf & Ht); try done;
    [rewrite (pi_head _ _ Hinv); lia|rewrite pr_base_eq, (pi_head _ _ Hinv); divlia|].
  unfold cb_tree_clear. rewrite Hr. cbn [mbind option_bind]. eexists. split; [done|].
  assert (sp_hist s (pr_head repo) = sp_hist s (sp_last s)) as Hh.
  { rewrite (pi_head _ _ Hinv). apply (dk_last _ _ _ Hok). lia. }
  destruct Hinv. split; simpl; eauto; [by rewrite Ht|constructor].
Qed.

(** ** Simulation *)

Lemma pr_do_simulates repo s op :
  pr_inv repo s → pr_op_ok s op →
  ∃ repo' ret s', pr_do repo op = Some (repo', ret) ∧ pr_spec_step s op ret s' ∧ pr_inv repo' s'.
Proof.
  intros Hinv Hop. destruct op as [path|path|revision| |path revision|parent child revision];
    simpl in Hop; cbn [pr_do].
  - destruct (path_repo_add_inv repo s path Hinv Hop) as (repo' & -> & ?).
    do 3 eexists. split; [done|]. split; [apply ps_add|done].
  - destruct Hop as (? & ? & ?).
    destruct (path_repo_delete_inv repo s path) as (repo' & -> & ?); try done.
    do 3 eexists. split; [done|]. split; [apply ps_delete|done].
  - by apply path_repo_commit_inv.
  - destruct (path_repo_discard_inv repo s Hinv) as (repo' & -> & ?).
    do 3 eexists. split; [done|]. split; [apply ps_discard|done].
  - destruct (pr_query_spec repo s revision path Hinv Hop) as (repo' & Hq & ?).
    do 3 eexists. split; [exact Hq|]. split; [apply ps_exists|done].
  - destruct (pr_query_spec repo s revision (parent ++ [slash] ++ child) Hinv Hop)
      as (repo' & Hq & ?).
    do 3 eexists. split; [exact Hq|]. split; [apply ps_check_parent|done].
Qed.

Definition pr_spec_init : pr_spec := mk_spec (λ _, ∅) (-1) ∅ 0.

Lemma path_repo_create_inv db : kv_models db ∅ → pr_inv (path_repo_create db) pr_spec_init.
Proof.
  intros Hdb. split; simpl; try done.
  - exists ∅. split; [done|]. split; try done. lia.
  - constructor.
  - by repeat constructor.
  - split; [done|]. unfold CACHE_SIZE. lia.
Qed.

(** [dump] gives up when a commit fails. *)
Definition pr_aborts (op : pr_op) (ret : Z) : bool :=
  match op with PCommit _ => negb (ret =? 0) | _ => false end.

(** A specification run: the returned values and the state they lead to. *)
Inductive pr_spec_run : pr_spec → list pr_op → list Z → pr_spec → Prop :=
  | psr_nil s : pr_spec_run s [] [] s
  | psr_abort s op ops ret s' :
      pr_spec_step s op ret s' → pr_aborts op ret = true →
      pr_spec_run s (op :: ops) [ret] s'
  | psr_cons s op ops ret rets s' s'' :
      pr_spec_step s op ret s' → pr_aborts op ret = false → pr_spec_run s' ops rets s'' →
      pr_spec_run s (op :: ops) (ret :: rets) s''.

Fixpoint pr_run repo (ops : list pr_op) : option (path_repo T * list Z) :=
  match ops with
  | [] => Some (repo, [])
  | op :: ops =>
      '(repo, ret) ← pr_do repo op;
      if pr_aborts op ret then Some (repo, [ret])
      else '(repo, rets) ← pr_run repo ops; Some (repo, ret :: rets)
  end.

(** Every call is covered in the state the specification is in when it is made. *)
Fixpoint pr_ops_ok (s : pr_spec) (ops : list pr_op) : Prop :=
  match ops with
  | [] => True
  | op :: ops => pr_op_ok s op ∧
      ∀ ret s', pr_spec_step s op ret s' → pr_aborts op ret = false → pr_ops_ok s' ops
  end.

Lemma pr_run_simulates repo s ops :
  pr_inv repo s → pr_ops_ok s ops →
  ∃ repo' rets s', pr_run repo ops = Some (repo', rets) ∧ pr_spec_run s ops rets s' ∧
    pr_inv repo' s'.
Proof.
  revert repo s. induction ops as [|op ops IH]; intros repo s Hinv Hops.
  { do 3 eexists. split; [done|]. split; [constructor|done]. }
  destruct Hops as [Hop Hops].
  destruct (pr_do_simulates repo s op Hinv Hop) as (repo' & ret & s' & Hdo & Hst & Hinv').
  cbn [pr_run]. rewrite Hdo. cbn [mbind option_bind]. destruct (pr_aborts op ret) eqn:Hab.
  { do 3 eexists. split; [done|]. split; [by apply psr_abort|done]. }
  destruct (IH repo' s' Hinv' (Hops _ _ Hst Hab)) as (repo'' & rets & s'' & Hrun & Hsr & ?).
  rewrite Hrun. do 3 eexists. split; [done|]. split; [by eapply psr_cons|done].
Qed.

(** * Log entries *)

(** ** Specification of a change *)

Definition spec_delete (s : pr_spec) (path : bytes) : pr_spec :=
  mk_spec (sp_hist s) (sp_last s) (work_remove (sp_work s) path)
    (sp_pend s + set_size (filter (under path) (sp_work s))).

Definition spec_add_all (s : pr_spec) (paths : list bytes) : pr_spec :=
  mk_spec (sp_hist s) (sp_last s) (list_to_set paths ∪ sp_work s)
    (sp_pend s + sum_list ((λ p, 2 + length p)%nat <$> paths)).

(** The image of everything at or below [src] under the renaming of [src] to [dst]. *)
Definition copy_paths (X : gset bytes) (src dst : bytes) : list bytes :=
  (λ p, dst ++ drop (length src) p) <$> elements (filter (under src) X).

Section changes.
Variables (fuel : nat) (prefix : bytes) (opts : dump_options) (log : log_revision)
  (revision : Z) (logs : list log_revision).

Definition fetched (path : bytes) : list bytes :=
  match pr_fetch_paths fuel [] path (lr_revision log) with
  | Some (l, 0) => l
  | _ => []
  end.

Definition is_removal (info : svn_log_changed_path) : bool :=
  bool_decide (cp_action info = "D"%char ∨ cp_action info = "R"%char).
Definition is_addition (info : svn_log_changed_path) : bool :=
  bool_decide (cp_action info = "A"%char ∨ cp_action info = "R"%char).

Definition local_rev (info : svn_log_changed_path) : Z :=
  delta_get_local_copyfrom_rev (cp_copyfrom_rev info) opts logs revision.

(** The paths a change adds. *)
Definition added_paths (s : pr_spec) (path : bytes) (info : svn_log_changed_path) : list bytes :=
  match cp_copyfrom_path info with
  | None => [path]
  | Some copyfrom =>
      match delta_get_local_copyfrom_path prefix copyfrom with
      | None => fetched path
      | Some src => copy_paths (sp_hist s (local_rev info)) src path
      end
  end.

Definition spec_change (s : pr_spec) (path : bytes) (info : svn_log_changed_path) : pr_spec :=
  let s := if is_removal info then spec_delete s path else s in
  if is_addition info then spec_add_all s (added_paths s path info) else s.

(** A removed path exists; a copy source inside the session root is a path other than the root
    and exists in the (committed) source revision; listing a foreign source succeeds. *)
Definition change_ok (s : pr_spec) (path : bytes) (info : svn_log_changed_path) : Prop :=
  cstr path ∧ (is_removal info = true → path ≠ [] ∧ path ∈ sp_work s) ∧
  (is_addition info = true →
    match cp_copyfrom_path info with
    | None => True
    | Some copyfrom =>
        match delta_get_local_copyfrom_path prefix copyfrom with
        | None => ∃ l, pr_fetch_paths fuel [] path (lr_revision log) = Some (l, 0) ∧ Forall cstr l
        | Some src => cstr src ∧ src ≠ [] ∧ -1 <= local_rev info <= sp_last s ∧
            src ∈ sp_hist s (local_rev info)
        end
    end).

(** ** Lemmas *)

Lemma pr_add_all_inv repo s paths :
  pr_inv repo s → Forall cstr paths → pr_inv (pr_add_all repo paths) (spec_add_all s paths).
Proof.
  intros Hinv Hp. unfold spec_add_all. revert repo s Hinv.
  induction Hp as [|p paths Hp Hps IH]; intros repo s Hinv.
  - csimpl. replace (∅ ∪ sp_work s) with (sp_work s) by set_solver.
    rewrite Nat.add_0_r. by destruct s.
  - destruct (path_repo_add_inv repo s p Hinv Hp) as (repo' & Hadd & Hinv').
    unfold pr_add_all. cbn [foldl]. rewrite Hadd. specialize (IH _ _ Hinv'). simpl in IH.
    replace (list_to_set (p :: paths) ∪ sp_work s) with
      (list_to_set paths ∪ ({[p]} ∪ sp_work s) : gset bytes) by set_solver.
    replace (sp_pend s + sum_list ((λ p, 2 + length p)%nat <$> (p :: paths)))%nat with
      (sp_pend s + S (S (length p)) + sum_list ((λ p, 2 + length p)%nat <$> paths))%nat
      by (csimpl; lia). done.
Qed.

Lemma spec_add_all_perm s l l' : l ≡ₚ l' → spec_add_all s l = spec_add_all s l'.
Proof.
  intros Hp. unfold spec_add_all. f_equal; [by rewrite Hp|]. f_equal.
  induction Hp; csimpl in *; lia.
Qed.

(** The paths found for a local copy source, and what they become. *)
Lemma pr_copy_list t X src :
  cb_wf t → cb_abs t = X → cstr src → src ≠ [] → src ∈ X →
  ∃ l, pr_tree_to_array t src = Some l ∧ l ≡ₚ elements (filter (under src) X) ∧ src ∈ l ∧
    Forall cstr l ∧ Forall (λ p, (length src <= length p)%nat) l.
Proof.
  intros Hwf Ht Hc Hne Hin. exists (filter (under src) (cb_list t)).
  assert (∀ x, x ∈ cb_list t ↔ x ∈ X) as Hl by (intros x; by rewrite <-Ht, elem_of_cb_abs).
  split_and!.
  - apply pr_tree_to_array_spec; [done..|]. left. exists src. split; [by apply Hl|done].
  - apply NoDup_Permutation; [by apply NoDup_filter, cb_list_nodup|apply NoDup_elements|].
    intros x. by rewrite elem_of_elements, list_elem_of_filter, elem_of_filter, Hl.
  - apply list_elem_of_filter. split; [by left|by apply Hl].
  - apply Forall_forall. intros x [_ Hx]%list_elem_of_filter. by eapply cb_list_cstr.
  - apply Forall_forall. intros x [[-> |[k ->]] _]%list_elem_of_filter; [done|].
    rewrite !length_app. lia.
Qed.

Lemma pr_change_inv repo s path info :
  pr_inv repo s → change_ok s path info →
  ∃ repo', pr_change fuel prefix opts log revision logs repo path info = Some (repo', 0) ∧
    pr_inv repo' (spec_change s path info).
Proof.
  intros Hinv (Hp & Hrem & Hadd). unfold pr_change, spec_change.
  fold (is_removal info).
  assert (∃ repo1, (if is_removal info then '(repo, _) ← path_repo_delete repo path; Some repo
                    else Some repo) = Some repo1 ∧
    pr_inv repo1 (if is_removal info then spec_delete s path else s)) as (repo1 & -> & Hinv1).
  { destruct (is_removal info); [|by eexists]. destruct (Hrem eq_refl) as [Hne Hin].
    destruct (path_repo_delete_inv repo s path Hinv Hp Hne Hin) as (repo' & -> & ?). by eexists. }
  set (s1 := if is_removal info then _ else s) in *.
  assert (sp_hist s1 = sp_hist s ∧ sp_last s1 = sp_last s) as [Hh1 Hl1].
  { unfold s1. by destruct (is_removal info). }
  cbn [mbind option_bind].
  assert (bool_decide (cp_action info ≠ "A"%char ∧ cp_action info ≠ "R"%char) =
    negb (is_addition info)) as ->.
  { unfold is_addition. rewrite <-bool_decide_not. apply bool_decide_ext. tauto. }
  destruct (is_addition info); simpl negb; cbn match; [|by eexists]. specialize (Hadd eq_refl).
  unfold added_paths. destruct (cp_copyfrom_path info) as [copyfrom|].
  2:{ eexists. split; [done|]. apply (pr_add_all_inv repo1 s1 [path]); [done|]. by constructor. }
  destruct (delta_get_local_copyfrom_path prefix copyfrom) as [src|].
  2:{ destruct Hadd as (l & Hl & Hlc). unfold fetched. rewrite Hl. cbn [mbind option_bind].
      simpl negb. cbn match. eexists. split; [done|]. by apply pr_add_all_inv. }
  destruct Hadd as (Hsc & Hsne & Hlr & Hsrc). fold (local_rev info).
  destruct (pr_tree_spec repo1 s1 (local_rev info)) as (repo2 & t & -> & Hinv2 & Hwf & Ht & _);
    [done|rewrite pr_base_eq; divlia|lia|].
  cbn [mbind option_bind]. rewrite Hh1 in Ht |- *.
  destruct (pr_copy_list t _ src Hwf Ht Hsc Hsne Hsrc) as (l & -> & Hperm & Hin & Hlc & Hlen).
  cbn [mbind option_bind]. unfold copy_paths.
  rewrite <-(spec_add_all_perm s1 ((λ p, path ++ drop (length src) p) <$> l)) by by rewrite Hperm.
  assert (Forall cstr ((λ p, path ++ drop (length src) p) <$> l)) as Hac.
  { apply Forall_fmap, (Forall_impl _ _ _ Hlc). intros x Hx. simpl. apply cstr_app.
    split; [done|by apply cstr_drop]. }
  destruct l as [|x [|y l]]; [by apply elem_of_nil in Hin| |].
  - apply list_elem_of_singleton in Hin as <-. eexists. split; [done|].
    pose proof (pr_add_all_inv repo2 s1 _ Hinv2 Hac) as Ha. csimpl in *.
    rewrite drop_all, app_nil_r in Ha |- *. done.
  - assert (forallb (λ p, (length src <=? length p)%nat) (x :: y :: l) = true) as ->.
    { apply forallb_forall. intros z Hz%list_elem_of_In. apply Nat.leb_le.
      rewrite Forall_forall in Hlen. by apply Hlen. }
    eexists. split; [done|]. by apply pr_add_all_inv.
Qed.

(** All changes of an entry, in the order of their paths. *)
Fixpoint spec_changes (s : pr_spec) (changed : gmap bytes svn_log_changed_path)
    (paths : list bytes) : pr_spec :=
  match paths with
  | [] => s
  | path :: paths =>
      match changed !! path with
      | None => s
      | Some info => spec_changes (spec_change s path info) changed paths
      end
  end.

Fixpoint changes_ok (s : pr_spec) (changed : gmap bytes svn_log_changed_path)
    (paths : list bytes) : Prop :=
  match paths with
  | [] => True
  | path :: paths =>
      match changed !! path with
      | None => False
      | Some info =>
          change_ok s path info ∧ changes_ok (spec_change s path info) changed paths
      end
  end.

Lemma pr_changes_inv repo s changed paths :
  pr_inv repo s → changes_ok s changed paths →
  ∃ repo', pr_changes fuel prefix opts log revision logs repo changed paths = Some (repo', 0) ∧
    pr_inv repo' (spec_changes s changed paths).
Proof.
  revert repo s. induction paths as [|path paths IH]; intros repo s Hinv Hok; [by eexists|].
  cbn [changes_ok spec_changes pr_changes] in *. destruct (changed !! path) as [info|]; [|done].
  destruct Hok as [Hc Hok]. cbn [mbind option_bind].
  destruct (pr_change_inv repo s path info Hinv Hc) as (repo' & -> & Hinv').
  cbn [mbind option_bind]. simpl negb. cbn match. by apply IH.
Qed.

Lemma spec_changes_last s changed paths :
  sp_last (spec_changes s changed paths) = sp_last s ∧
  sp_hist (spec_changes s changed paths) = sp_hist s.
Proof.
  revert s. induction paths as [|path paths IH]; intros s; simpl; [done|].
  destruct (changed !! path) as [info|]; [|done].
  destruct (IH (spec_change s path info)) as [-> ->].
  unfold spec_change. by destruct (is_removal info), (is_addition info).
Qed.

End changes.

End path_repo.

(** * Properties *)

(** C5. The path repository implements a history of path sets.  Starting from an empty database,
    any sequence of additions, deletions, commits, discards and queries made as the program
    makes them (commits go forward without jumping over a snapshot revision, deletions name
    existing paths, queries concern committed revisions, sizes fit an [int]) is free of
    undefined behaviour and returns what the specification returns: a query for an old revision
    answers for the set committed then, whatever was scheduled, discarded or cached since.  A run
    ends at a failed commit, which leaves the history as it was. *)
Theorem path_repo_refines_history {T : Type} `{KV T} `{Codec} (db : T) (ops : list pr_op) :
  kv_models db ∅ → pr_ops_ok pr_spec_init ops →
  ∃ repo rets s, pr_run (path_repo_create db) ops = Some (repo, rets) ∧
    pr_spec_run pr_spec_init ops rets s.
Proof.
  intros Hdb Hops.
  destruct (pr_run_simulates _ _ ops (path_repo_create_inv db Hdb) Hops)
    as (repo & rets & s & ? & ? & _). eauto.
Qed.

(** Discharges [pr_ops_ok] for a list of calls, following every outcome of the specification. *)
Ltac ops_ok_step :=
  split; [|intros ? ? Hst Hab; inversion Hst; subst; clear Hst; try discriminate Hab; clear Hab].

Lemma path_repo_refines_history_witness :
  let ops := [PAdd (str "a"); PAdd (str "a/b"); PCommit 0; PDelete (str "a"); PDiscard;
              PExists (str "a/b") 0; PCheckParent (str "a") (str "b") 0] in
  kv_models (mukv_new large_device) ∅ ∧
  ∃ repo rets s, pr_run (path_repo_create (mukv_new large_device)) ops = Some (repo, rets) ∧
    pr_spec_run pr_spec_init ops rets s ∧ rets = [0; 0; 0; 0; 0; 1; 1].
Proof.
  intros ops. assert (kv_models (mukv_new large_device) ∅) as Hdb by (apply large_steady).
  assert (pr_ops_ok pr_spec_init ops) as Hops.
  { ops_ok_step; [eval_decide|]. ops_ok_step; [eval_decide|].
    ops_ok_step.
    { split; [vm_compute; split; congruence|]. split; [simpl; intros r Hr; lia|].
      split; vm_compute; reflexivity. }
    ops_ok_step; [split; [eval_decide|split; [discriminate|simpl; set_solver]]|].
    do 3 (ops_ok_step; [simpl; lia || exact I|]). exact I. }
  split; [exact Hdb|].
  destruct (path_repo_refines_history (mukv_new large_device) ops Hdb Hops) as (repo & rets & s & Hr & Hs).
  exists repo, rets, s. split; [exact Hr|]. split; [exact Hs|].
  vm_compute in Hr. injection Hr as _ <-. reflexivity.
Defined.

(** C7. Committing a log entry records exactly what the entry says: the changed paths are applied
    in sorted order, a deletion or replacement removes the path with everything below it, an
    addition adds the path, and a copy adds the image of everything at or below the source in
    the source revision (or, for a source outside the session root, the listed paths).  On
    success the set of the new revision is the result and all older revisions are unchanged; on
    a storage failure nothing is committed. *)
Theorem path_repo_commit_log_correct {T : Type} `{KV T} `{Codec} `{HashIter} `{RA} (fuel : nat)
    (prefix : bytes) (opts : dump_options) (repo : path_repo T) (s : pr_spec)
    (log : log_revision) (revision : Z) (logs : list log_revision)
    (changed : gmap bytes svn_log_changed_path) :
  let paths := utils_sort (hash_iter changed).*1 in
  let s1 := spec_changes fuel prefix opts log revision logs s changed paths in
  lr_changed_paths log = Some changed → pr_inv repo s →
  changes_ok fuel prefix opts log revision logs s changed paths →
  pr_op_ok s1 (PCommit revision) →
  ∃ repo' ret s', path_repo_commit_log fuel prefix opts repo log revision logs
      = Some (repo', ret) ∧ pr_inv repo' s' ∧
    ((ret = 0 ∧ sp_last s' = revision ∧ sp_hist s' revision = sp_work s1 ∧
      ∀ r, r < revision → sp_hist s' r = sp_hist s r) ∨ (ret = -1 ∧ s' = s1)).
Proof.
  intros paths s1 Hlog Hinv Hok Hc. unfold path_repo_commit_log. rewrite Hlog.
  destruct (pr_changes_inv fuel prefix opts log revision logs repo s changed paths Hinv Hok)
    as (repo1 & Hch & Hinv1). fold s1 in Hinv1. fold paths. rewrite Hch.
  cbn [mbind option_bind]. simpl negb. cbn match.
  destruct (path_repo_commit_inv repo1 s1 revision Hinv1 Hc) as (repo' & ret & s' & -> & Hst & ?).
  exists repo', ret, s'. split; [done|]. split; [done|]. inversion Hst; subst; [left|by right].
  simpl. split; [done|]. split; [done|]. rewrite Z.ltb_irrefl. split; [done|].
  intros r Hr. rewrite (proj2 (Z.ltb_lt r revision)) by done.
  unfold s1. by rewrite (proj2 (spec_changes_last fuel prefix opts log revision logs _ _ _)).
Qed.

(** A server without content, and options that keep the revision numbers. *)
Definition ra_empty : RA :=
  {| svn_ra_stat _ _ := Some None; svn_ra_get_dir2 _ _ := None |}.
Definition keep_opts : dump_options := mk_opts None None 0 (-1) DF_KEEP_REVNUMS 2.

Definition sample_changed : gmap bytes svn_log_changed_path :=
  {[str "a" := mk_changed "A"%char None (-1); str "a/b" := mk_changed "A"%char None (-1)]}.

Lemma path_repo_commit_log_correct_witness :
  let log := mk_log 0 None None None (Some sample_changed) in
  let repo := path_repo_create (mukv_new large_device) in
  ∃ repo' ret s', path_repo_commit_log (H2 := ra_empty) 1 [] keep_opts repo log 0 []
      = Some (repo', ret) ∧ ret = 0 ∧
    pr_inv repo' s' ∧ (str "a/b" ∈ sp_hist s' 0).
Proof.
  intros log repo.
  assert (pr_inv repo pr_spec_init) as Hinv
    by (apply path_repo_create_inv, large_steady).
  assert (utils_sort (hash_iter sample_changed).*1 = [str "a"; str "a/b"]) as Hp
    by (vm_compute; reflexivity).
  destruct (path_repo_commit_log_correct (H2 := ra_empty) 1 [] keep_opts repo pr_spec_init log 0
    [] sample_changed) as (repo' & ret & s' & Hc & Hi & Hr).
  - reflexivity.
  - exact Hinv.
  - rewrite Hp. split; [|split; [|exact I]];
      (split; [eval_decide|split; [discriminate|intros _; exact I]]).
  - split; [vm_compute; split; congruence|]. rewrite Hp. split.
    { intros r Hr. rewrite (proj1 (spec_changes_last _ _ _ _ _ _ _ _ _)) in Hr. simpl in Hr. lia. }
    split; vm_compute; reflexivity.
  - exists repo', ret, s'. split; [exact Hc|].
    assert (ret = 0) as -> by (vm_compute in Hc; congruence). split; [reflexivity|].
    split; [exact Hi|]. destruct Hr as [(_ & _ & -> & _)|[Hr _]]; [|discriminate Hr].
    rewrite Hp. eval_decide.
Defined.

(** C36. A snapshot restores its tree: decoding the encoding of a tree into an empty tree stays
    inside the buffer and yields the very same tree, node for node. *)
Theorem pr_encode_apply_roundtrip (t : cb_tree) :
  cb_wf t → Z.of_nat (set_size (cb_abs t)) < 2 ^ 31 →
  ∃ data, pr_encode t = Some data ∧ pr_delta_apply cb_tree_make data = Some t.
Proof.
  intros Hwf Hsz. unfold pr_encode. rewrite pr_tree_to_array_nil by done. cbn [mbind option_bind].
  eexists. split; [done|]. set (es := mk_delta plus_c <$> cb_list t). fold (pr_encoded es).
  destruct (pr_delta_apply_encoded cb_tree_make es) as (t' & -> & Hwf' & Ha).
  - done.
  - apply Forall_fmap, Forall_forall. intros x Hx. by eapply cb_list_cstr.
  - unfold es. rewrite pr_encoded_length, <-(set_size_elements (cb_abs t)); [done| |].
    + by apply cb_list_nodup.
    + intros x. by rewrite elem_of_cb_abs.
  - f_equal. apply cb_canonical; [done..|]. intros x. rewrite <-!elem_of_cb_abs, Ha.
    unfold es. rewrite pr_act_adds. unfold cb_abs. set_solver.
Qed.

Lemma pr_encode_apply_roundtrip_witness :
  let t := (cb_run None [CbInsert (str "trunk/a"); CbInsert (str "trunk")]).1 in
  ∃ data, pr_encode t = Some data ∧ pr_delta_apply cb_tree_make data = Some t ∧
    data = str "+trunk" ++ nul :: str "+trunk/a" ++ [nul].
Proof.
  intros t. assert (cb_wf t) as Hwf.
  { pose proof (cb_run_refines None [CbInsert (str "trunk/a"); CbInsert (str "trunk")] I) as Hr.
    assert (Forall (λ op, cstr (cb_op_arg op)) [CbInsert (str "trunk/a"); CbInsert (str "trunk")])
      as Hc by eval_decide. specialize (Hr Hc). unfold t. destruct (cb_run _ _). exact (proj1 Hr). }
  destruct (pr_encode_apply_roundtrip t Hwf ltac:(vm_compute; reflexivity)) as (data & He & Ha).
  exists data. split; [exact He|]. split; [exact Ha|].
  vm_compute in He. injection He as <-. reflexivity.
Defined.

(** Jumping over a snapshot revision loses paths: reconstruction starts at the last multiple
    of the snapshot interval although nothing was stored there.  After committing [a] as
    revision 1023 and [b] as revision 1025 (as an incremental dump that keeps revision numbers
    does when revision 1024 does not concern the session root), [a] no longer exists in
    revision 1025, and discarding scheduled changes drops it from the working tree. *)
Theorem path_repo_gap_loses_paths :
  (λ r, r.2) <$> pr_run (path_repo_create (mukv_new large_device))
    [PAdd (str "a"); PCommit 1023; PAdd (str "b"); PCommit 1025; PExists (str "a") 1023;
     PExists (str "a") 1025; PExists (str "b") 1025] = Some [0; 0; 0; 0; 1; 0; 1] ∧
  (λ r, cb_list (pr_work r.1)) <$> pr_run (path_repo_create (mukv_new large_device))
    [PAdd (str "a"); PCommit 1023; PAdd (str "b"); PCommit 1025; PDiscard] = Some [str "b"].
Proof. split; vm_compute; reflexivity. Qed.

(** A query for a revision that is not committed yet poisons the cache: the tree
    reconstructed for it is kept, and later queries for the committed revision are answered from
    it. *)
Theorem path_repo_stale_cache :
  (λ r, r.2) <$> pr_run (path_repo_create (mukv_new large_device))
    [PAdd (str "a"); PCommit 1; PExists (str "b") 2; PAdd (str "b"); PCommit 2;
     PExists (str "b") 2] = Some [0; 0; 0; 0; 0; 0] ∧
  (λ r, r.2) <$> pr_run (path_repo_create (mukv_new large_device))
    [PAdd (str "a"); PCommit 1; PAdd (str "b"); PCommit 2; PExists (str "b") 2]
    = Some [0; 0; 0; 0; 1].
Proof. split; vm_compute; reflexivity. Qed.

(** Deleting a path that is not in the tree is not harmless: with a single stored path [x],
    the deletion of any other path [p] reads behind the end of [x] when [p] is the longer one,
    and removes [x] when [x] happens to have a slash at the offset [strlen(p)]. *)
Theorem path_repo_delete_absent {T : Type} (repo : path_repo T) (x p : bytes) :
  cstr x → pr_work repo = Some (Leaf x) →
  ((length x < length p)%nat → path_repo_delete repo p = None) ∧
  (x !! length p = Some slash → p ≠ [] →
    ∃ repo', path_repo_delete repo p = Some (repo', 0) ∧ pr_work repo' = None).
Proof.
  intros Hx Hw. unfold path_repo_delete, pr_tree_to_array, cb_tree_walk_prefixed. rewrite Hw.
  simpl cbt_traverse_prefixed. unfold pr_tree_to_array_cb, cread. split.
  - intros Hlt. rewrite (proj2 (Nat.eqb_neq _ _)) by lia.
    by rewrite lookup_ge_None_2 by (rewrite length_app; simpl; lia).
  - intros Hs Hne. rewrite (proj2 (Nat.eqb_neq _ _)) by (by destruct p).
    rewrite (lookup_app_l_Some _ _ _ _ Hs). cbn [mbind option_bind].
    rewrite decide_False by done. rewrite decide_True by done. simpl. eexists. split; [done|].
    simpl. rewrite Hw. simpl. by rewrite strcmp_refl.
Qed.

Lemma path_repo_delete_absent_witness :
  let repo := (path_repo_add (path_repo_create (mukv_new large_device)) (str "trunk/a")).1 in
  path_repo_delete repo (str "branches/b") = None ∧
  ∃ repo', path_repo_delete repo (str "tags1") = Some (repo', 0) ∧ pr_work repo' = None.
Proof.
  intros repo. split.
  - apply (path_repo_delete_absent repo (str "trunk/a") (str "branches/b"));
      [eval_decide|reflexivity|vm_compute; lia].
  - apply (path_repo_delete_absent repo (str "trunk/a") (str "tags1"));
      [eval_decide|reflexivity|reflexivity|discriminate].
Defined.

(** A copy of the session root is recorded under wrong names: the paths below the root have
    no leading slash to keep, so that copying a root that holds [foo] to [trunk] adds
    [trunkfoo] instead of [trunk/foo], and never [trunk] itself. *)
Theorem pr_change_root_copy {T : Type} `{KV T} `{Codec} `{HashIter} `{RA} (fuel : nat)
    (prefix : bytes) (opts : dump_options) (log : log_revision) (revision : Z)
    (logs : list log_revision) (repo : path_repo T) (s : pr_spec) (path copyfrom : bytes)
    (rev : Z) :
  let info := mk_changed "A"%char (Some copyfrom) rev in
  let X := sp_hist s (local_rev opts revision logs info) in
  pr_inv repo s → cstr path → delta_get_local_copyfrom_path prefix copyfrom = Some [] →
  -1 <= local_rev opts revision logs info <= sp_last s → (2 <= size X)%nat →
  ∃ repo', pr_change fuel prefix opts log revision logs repo path info = Some (repo', 0) ∧
    pr_inv repo' (spec_add_all s (app path <$> elements X)).
Proof.
  intros info X Hinv Hp Hcf Hlr Hsz. unfold pr_change. simpl cp_action.
  rewrite (bool_decide_eq_false_2 (_ ∧ _)) by (by intros [? _]).
  rewrite (bool_decide_eq_false_2 (_ ∨ _)) by (intros [?|?]; discriminate).
  cbn [mbind option_bind]. change (cp_copyfrom_path info) with (Some copyfrom). cbn match.
  rewrite Hcf. fold (local_rev opts revision logs info).
  destruct (pr_tree_spec repo s (local_rev opts revision logs info))
    as (repo1 & t & -> & Hinv1 & Hwf & Ht & _); [done|rewrite pr_base_eq; divlia|lia|].
  cbn [mbind option_bind]. rewrite pr_tree_to_array_nil by done. cbn [mbind option_bind].
  assert (cb_list t ≡ₚ elements X) as Hperm.
  { apply NoDup_Permutation; [by apply cb_list_nodup|apply NoDup_elements|]. intros x.
    by rewrite elem_of_elements, <-elem_of_cb_abs, Ht. }
  assert (2 <= length (cb_list t))%nat as Hl by (rewrite Hperm; exact Hsz).
  rewrite (spec_add_all_perm s _ (app path <$> cb_list t)) by by rewrite Hperm.
  assert (Forall cstr (app path <$> cb_list t)) as Hc.
  { apply Forall_fmap, Forall_forall. intros x Hx. apply cstr_app. split; [done|].
    by eapply cb_list_cstr. }
  destruct (cb_list t) as [|x [|y l]]; simpl in Hl; [lia|lia|].
  rewrite (proj2 (forallb_forall _ _)) by done. eexists. split; [done|].
  by apply pr_add_all_inv.
Qed.

Lemma pr_change_root_copy_witness :
  let info := mk_changed "A"%char (Some []) 0 in
  ∃ repo s repo' : _, pr_inv (T := mukv) repo s ∧
    pr_change (H2 := ra_empty) 1 [] keep_opts (mk_log 1 None None None None) 1 [] repo (str "t")
      info = Some (repo', 0) ∧ (∃ s', pr_inv repo' s' ∧ str "tfoo" ∈ sp_work s').
Proof.
  intros info. set (ops := [PAdd (str "foo"); PAdd (str "bar"); PCommit 0]).
  assert (pr_inv (path_repo_create (mukv_new large_device)) pr_spec_init) as Hinv
    by (apply path_repo_create_inv, large_steady).
  assert (pr_ops_ok pr_spec_init ops) as Hops.
  { do 2 (ops_ok_step; [eval_decide|]). ops_ok_step; [|exact I].
    split; [vm_compute; split; congruence|]. split; [simpl; intros r Hr; lia|].
    split; vm_compute; reflexivity. }
  destruct (pr_run_simulates _ _ ops Hinv Hops) as (repo & rets & s & Hrun & Hsr & Hi).
  assert (rets = [0; 0; 0]) as -> by (vm_compute in Hrun; congruence). clear Hrun.
  assert (sp_hist s 0 = {[str "bar"; str "foo"]} ∧ sp_last s = 0) as [Hh Hl].
  { unfold ops in Hsr.
    do 4 (try match goal with H : pr_spec_run _ (_ :: _) _ _ |- _ => inversion H; clear H; subst end;
          try discriminate; try match goal with H : pr_spec_step _ _ _ _ |- _ =>
            inversion H; clear H; subst end; try discriminate).
    match goal with H : pr_spec_run _ [] _ _ |- _ => inversion H; subst end.
    split; vm_compute; reflexivity. }
  destruct (pr_change_root_copy (H2 := ra_empty) 1 [] keep_opts (mk_log 1 None None None None) 1
    [] repo s (str "t") [] 0) as (repo' & Hc & Hi').
  - exact Hi.
  - eval_decide.
  - reflexivity.
  - rewrite Hl. change (local_rev _ _ _ _) with 0. lia.
  - change (local_rev _ _ _ _) with 0. rewrite Hh. vm_compute. lia.
  - exists repo, s, repo'. split; [exact Hi|]. split; [exact Hc|]. eexists. split; [exact Hi'|].
    change (local_rev _ _ _ _) with 0. unfold spec_add_all. rewrite Hh. simpl sp_work.
    apply elem_of_union_l. eval_decide.
Defined.
