(* ===== verification/Session.v ===== *)
(** Sessions: the obfuscation of names and the session prefix of src/session.c.

    [rand()] is a stream of non-negative numbers and the session keeps the position in it.  The
    theorems show that obfuscation renames path components one to one and consistently, so that
    the renamed repository has the same structure. *)
From S2P Require Import Prelude Utils.

Open Scope Z_scope.

(** * Data *)

Definition SF_NO_CHECK_CERTIFICATE : Z := 1.
Definition SF_NON_INTERACTIVE : Z := 2.
Definition SF_NO_AUTH_CACHE : Z := 4.
Definition SF_OBFUSCATE : Z := 8.

(** [session_t], less the handles of the Subversion libraries. *)
Record session := mk_session {
  se_url : option bytes;
  se_encoded_url : option bytes;
  se_root : option bytes;
  se_prefix : option bytes;
  se_username : option bytes;
  se_password : option bytes;
  se_config_dir : option bytes;
  se_flags : Z;
  se_obf_hash : gmap bytes bytes;
  se_obf_taken : gset bytes;
  se_rand : nat
}.

Definition session_create (seed : nat) : session :=
  mk_session None None None None None None None 0 ∅ ∅ seed.

Definition rchars : bytes := str "abcdefghijklmnopqrstuvwxyz".
Definition probs : list Z :=
  [81; 96; 124; 156; 283; 305; 325; 386; 456; 458; 466; 506; 530;
   597; 672; 691; 692; 752; 815; 906; 934; 944; 968; 970; 999; 1000].

(** The letter for a number below 1000: the first [j] with [probs[j] >= n]; behind the last one
    the terminator of [rchars] would be read. *)
Fixpoint pick_char (chars : bytes) (probs : list Z) (n : Z) : ascii :=
  match chars, probs with
  | c :: chars, p :: probs => if n <=? p then c else pick_char chars probs n
  | _, _ => nul
  end.

Section obfuscate.
(** The values returned by the successive calls of [rand]. *)
Variable rand : nat → Z.

(** * Operations *)

Fixpoint random_chars (len : nat) (pos : nat) : bytes * nat :=
  match len with
  | O => ([], pos)
  | S len =>
      let c := pick_char rchars probs (rand pos mod 1000) in
      let '(b, pos) := random_chars len (S pos) in (c :: b, pos)
  end.

(** One round of the loop: the candidate and the new stream position. *)
Definition candidate (lfac : Z) (pos : nat) : bytes * nat :=
  random_chars (Z.to_nat (3 + rand pos mod lfac)) (S pos).

(** The [do ... while] loop; [taken = None] is a NULL table. *)
Fixpoint obfuscate_loop (fuel : nat) (lfac : Z) (pos : nat) (taken : option (gset bytes))
    : option (bytes * nat) :=
  match fuel with
  | O => None
  | S fuel =>
      let '(obf, pos) := candidate lfac pos in
      match taken with
      | Some taken =>
          if decide (obf ∈ taken) then obfuscate_loop fuel (lfac + 1) pos (Some taken)
          else Some (obf, pos)
      | None => Some (obf, pos)
      end
  end.

Definition session_make_obfuscated (fuel : nat) (pos : nat) (taken : option (gset bytes))
    : option (bytes * nat * option (gset bytes)) :=
  '(obf, pos) ← obfuscate_loop fuel 8 pos taken;
  Some (obf, pos, (λ t, {[obf]} ∪ t) <$> taken).

(** The renaming: the table, the names given out and the stream position. *)
Record obf_state := mk_obf { ob_hash : gmap bytes bytes; ob_taken : gset bytes; ob_pos : nat }.

(** The name of one component. *)
Definition obfuscate_base (fuel : nat) (o : obf_state) (base : bytes)
    : option (obf_state * bytes) :=
  match ob_hash o !! base with
  | Some obf => Some (o, obf)
  | None =>
      '(obf, pos, taken) ← session_make_obfuscated fuel (ob_pos o) (Some (ob_taken o));
      Some (mk_obf (<[base := obf]> (ob_hash o)) (default ∅ taken) pos, obf)
  end.

(** [depth] bounds the recursion over the directories of [path]. *)
Fixpoint session_obfuscate_rec (depth fuel : nat) (o : obf_state) (path : bytes)
    : option (obf_state * bytes) :=
  match depth with
  | O => None
  | S depth =>
      let '(dir, base) := utils_path_split path in
      '(o, dir) ← (if bool_decide (dir ≠ [slash]) && (0 <? length dir)%nat
                   then session_obfuscate_rec depth fuel o dir else Some (o, dir));
      if (length base =? 0)%nat then Some (o, [])
      else
        '(o, obf) ← obfuscate_base fuel o base;
        if (0 <? length dir)%nat
        then res ← utils_path_join dir obf; Some (o, res)
        else Some (o, obf)
  end.

Definition with_obf (se : session) (o : obf_state) : session :=
  mk_session (se_url se) (se_encoded_url se) (se_root se) (se_prefix se) (se_username se)
    (se_password se) (se_config_dir se) (se_flags se) (ob_hash o) (ob_taken o) (ob_pos o).

Definition se_obf (se : session) : obf_state :=
  mk_obf (se_obf_hash se) (se_obf_taken se) (se_rand se).

Definition obfuscating (se : session) : bool := negb (Z.land (se_flags se) SF_OBFUSCATE =? 0).

(** A NULL path is [None]. *)
Definition session_obfuscate (fuel : nat) (se : session) (path : option bytes)
    : option (session * option bytes) :=
  match path with
  | None => Some (se, None)
  | Some path =>
      if negb (obfuscating se) then Some (se, Some path)
      else
        '(o, obf) ← session_obfuscate_rec (S (length path)) fuel (se_obf se) path;
        Some (with_obf se o, Some obf)
  end.

Definition session_obfuscate_once (fuel : nat) (se : session) (s : option bytes)
    : option (session * option bytes) :=
  match s with
  | None => Some (se, None)
  | Some s =>
      if negb (obfuscating se) then Some (se, Some s)
      else
        '(obf, pos, _) ← session_make_obfuscated fuel (se_rand se) None;
        Some (with_obf se (mk_obf (se_obf_hash se) (se_obf_taken se) pos), Some obf)
  end.

(** The part of [session_open] that determines the prefix from the URL and the root the server
    reports; an URL that is shorter would be read behind its end. *)
Definition session_open_prefix (fuel : nat) (se : session) (encoded_url root : bytes)
    : option session :=
  prefix ← (if decide (encoded_url = root) then Some []
            else if (length root <? length encoded_url)%nat
                 then Some (drop (length root + 1) encoded_url) else None);
  '(se, prefix) ← session_obfuscate fuel se (Some prefix);
  Some (mk_session (se_url se) (Some encoded_url) (Some root) prefix (se_username se)
          (se_password se) (se_config_dir se) (se_flags se) (se_obf_hash se) (se_obf_taken se)
          (se_rand se)).

(** * Names *)

Definition letter (c : ascii) : Prop := c ∈ rchars.

Lemma pick_char_letter n : 0 <= n < 1000 → letter (pick_char rchars probs n).
Proof.
  intros Hn. unfold letter.
  assert (forallb (λ k, bool_decide (pick_char rchars probs (Z.of_nat k) ∈ rchars))
    (seq 0 1000) = true) as Ht by (vm_compute; reflexivity).
  rewrite forallb_forall in Ht. specialize (Ht (Z.to_nat n)).
  rewrite in_seq, Z2Nat.id in Ht by lia. by apply bool_decide_eq_true in Ht; [|lia].
Qed.

Lemma random_chars_spec len pos :
  length (random_chars len pos).1 = len ∧ Forall letter (random_chars len pos).1.
Proof.
  revert pos. induction len as [|len IH]; intros pos; simpl; [done|].
  specialize (IH (S pos)). destruct (random_chars len (S pos)) as [b pos']. simpl in *.
  destruct IH as [<- Hb]. split; [done|]. constructor; [|done].
  apply pick_char_letter. apply Z.mod_pos_bound. lia.
Qed.

(** A name that can stand for a path component. *)
Definition component (c : bytes) : Prop := c ≠ [] ∧ slash ∉ c.

Lemma letters_component b : Forall letter b → b ≠ [] → component b.
Proof.
  intros Hb Hne. split; [done|]. intros Hin. rewrite Forall_forall in Hb.
  apply Hb in Hin. revert Hin. unfold letter. apply (bool_decide_unpack _). vm_compute. exact I.
Qed.

Lemma candidate_component lfac pos :
  0 < lfac → component (candidate lfac pos).1 ∧ (3 ≤ length (candidate lfac pos).1)%nat.
Proof.
  intros Hl. unfold candidate. pose proof (Z.mod_pos_bound (rand pos) lfac Hl).
  destruct (random_chars_spec (Z.to_nat (3 + rand pos mod lfac)) (S pos)) as [Hlen Hc].
  split; [|lia]. apply letters_component; [done|].
  intros Hnil. rewrite Hnil in Hlen. simpl in Hlen. lia.
Qed.

Lemma obfuscate_loop_spec fuel lfac pos taken obf pos' :
  0 < lfac → obfuscate_loop fuel lfac pos (Some taken) = Some (obf, pos') →
  obf ∉ taken ∧ component obf.
Proof.
  revert lfac pos. induction fuel as [|fuel IH]; intros lfac pos Hl; simpl; [done|].
  destruct (candidate lfac pos) as [b q] eqn:Hc. case_decide.
  - intros Hr. apply IH in Hr; [done|lia].
  - intros [= <- <-]. split; [done|]. pose proof (candidate_component lfac pos Hl) as [Hk _].
    by rewrite Hc in Hk.
Qed.

(** The stream position and the length factor before round [k]. *)
Fixpoint round_pos (k : nat) (lfac : Z) (pos : nat) : nat :=
  match k with
  | O => pos
  | S k => round_pos k (lfac + 1) (candidate lfac pos).2
  end.

Lemma obfuscate_loop_returns fuel lfac pos taken k :
  (k < fuel)%nat → (candidate (lfac + Z.of_nat k) (round_pos k lfac pos)).1 ∉ taken →
  is_Some (obfuscate_loop fuel lfac pos (Some taken)).
Proof.
  revert fuel lfac pos. induction k as [|k IH]; intros [|fuel] lfac pos Hk Hfree; try lia; simpl.
  - simpl in Hfree. rewrite Z.add_0_r in Hfree. destruct (candidate lfac pos) as [b q].
    by rewrite decide_False.
  - destruct (candidate lfac pos) as [b q] eqn:Hc. case_decide; [|done].
    apply IH; [lia|]. simpl in Hfree. rewrite Hc in Hfree. simpl in Hfree.
    by replace (lfac + 1 + Z.of_nat k) with (lfac + Z.of_nat (S k)) by lia.
Qed.

(** The names that are drawn in the first [fuel] rounds from the position [pos] of the stream. *)
Definition drawn (fuel pos : nat) : list bytes :=
  (λ k, (candidate (8 + Z.of_nat k) (round_pos k 8 pos)).1) <$> seq 0 fuel.

(** From any position, they comprise more than [n] different names. *)
Definition varied (fuel n : nat) : Prop :=
  ∀ pos, (n < size (list_to_set (drawn fuel pos) : gset bytes))%nat.

Lemma varied_le fuel n n' : varied fuel n' → (n ≤ n')%nat → varied fuel n.
Proof. intros Hv Hn pos. specialize (Hv pos). lia. Qed.

(** Then one of them is not taken yet. *)
Lemma varied_returns fuel n pos taken :
  varied fuel n → (size taken ≤ n)%nat → is_Some (obfuscate_loop fuel 8 pos (Some taken)).
Proof.
  intros Hv Hsize. destruct (decide (Forall (λ c, c ∈ taken) (drawn fuel pos))) as [Hall|Hex%not_Forall_Exists]; [| |apply _].
  - specialize (Hv pos). rewrite Forall_forall in Hall.
    assert ((list_to_set (drawn fuel pos) : gset bytes) ⊆ taken) as Hsub%subseteq_size; [|lia].
    intros c Hc%elem_of_list_to_set. by apply Hall.
  - apply Exists_exists in Hex as (c & (k & -> & Hk%elem_of_seq)%list_elem_of_fmap & Hfree).
    apply obfuscate_loop_returns with k; [lia|done].
Qed.

(** * Paths as lists of components *)

(** The components joined by slashes, with a leading slash for an absolute path. *)
Fixpoint join_slash (cs : list bytes) : bytes :=
  match cs with
  | [] => []
  | [c] => c
  | c :: cs => c ++ [slash] ++ join_slash cs
  end.

Definition path_of (abs : bool) (cs : list bytes) : bytes :=
  (if abs then [slash] else []) ++ join_slash cs.

Lemma join_slash_snoc cs c :
  cs ≠ [] → join_slash (cs ++ [c]) = join_slash cs ++ [slash] ++ c.
Proof.
  induction cs as [|d [|e cs] IH]; intros Hne; [done|done|].
  change (join_slash ((d :: e :: cs) ++ [c])) with (d ++ [slash] ++ join_slash ((e :: cs) ++ [c])).
  rewrite IH by done. simpl. by rewrite <-app_assoc.
Qed.

Lemma strrchr_app a c b : c ∉ b → strrchr (a ++ c :: b) c = Some (length a).
Proof.
  intros Hb. induction a as [|d a IH]; simpl.
  - rewrite (proj2 (strrchr_None b c) Hb). by rewrite decide_True.
  - by rewrite IH.
Qed.

Lemma join_slash_last cs :
  cs ≠ [] → Forall component cs → ∃ x, last (join_slash cs) = Some x ∧ x ≠ slash.
Proof.
  intros Hne Hcs. destruct (exists_last Hne) as (cs' & c & ->).
  apply Forall_app in Hcs as [_ [[Hc Hs] _]%Forall_cons].
  destruct (exists_last Hc) as (c' & x & ->). exists x. split; [|set_solver].
  destruct cs' as [|d cs']; [simpl; by rewrite last_snoc|].
  rewrite join_slash_snoc by done. rewrite !app_assoc. by rewrite last_snoc.
Qed.

(** Splitting such a path. *)
Lemma utils_path_split_of abs cs c :
  Forall component cs → component c →
  utils_path_split (path_of abs (cs ++ [c])) =
    (match cs with [] => if abs then [slash] else [] | _ => path_of abs cs end, c).
Proof.
  intros Hcs [Hc Hs]. unfold utils_path_split. destruct cs as [|d cs].
  - unfold path_of. simpl. destruct abs; simpl.
    + rewrite (proj2 (strrchr_None c slash) Hs).
      rewrite decide_False by (intros [= ->]; done). simpl. by rewrite take_0, drop_0.
    + rewrite (proj2 (strrchr_None c slash) Hs). by destruct c.
  - unfold path_of. rewrite join_slash_snoc by done. rewrite app_assoc. cbn [app].
    rewrite strrchr_app by done.
    set (p := (if abs then [slash] else []) ++ join_slash (d :: cs)).
    assert (p ≠ []) as Hp.
    { unfold p. destruct (join_slash_last (d :: cs)) as (x & Hx & _); [done..|].
      destruct (join_slash (d :: cs)); [done|]. by destruct abs. }
    rewrite decide_False.
    2:{ intros Heq. apply (f_equal length) in Heq. rewrite length_app in Heq. simpl in Heq.
        destruct p; [done|]. simpl in Heq. lia. }
    rewrite (proj2 (Nat.eqb_neq _ _)) by (by destruct p). rewrite take_app_length.
    by rewrite cons_middle, app_assoc, drop_app_length' by (rewrite length_app; simpl; lia).
Qed.

(** * Obfuscation *)

(** Distinct components have distinct names, all of which are marked as taken. *)
Record obf_ok (o : obf_state) : Prop := {
  ok_taken : ∀ k v, ob_hash o !! k = Some v → v ∈ ob_taken o ∧ component v;
  ok_inj : ∀ k1 k2 v, ob_hash o !! k1 = Some v → ob_hash o !! k2 = Some v → k1 = k2
}.

Definition rename (h : gmap bytes bytes) (c : bytes) : bytes := default c (h !! c).

(** Without a name only if there are too few different ones. *)
Lemma obfuscate_base_spec fuel o base :
  obf_ok o → component base →
  (obfuscate_base fuel o base = None ∧ ¬ varied fuel (size (ob_taken o))) ∨
  ∃ o' obf, obfuscate_base fuel o base = Some (o', obf) ∧ obf_ok o' ∧
    ob_hash o ⊆ ob_hash o' ∧ ob_hash o' !! base = Some obf ∧ component obf ∧
    (size (ob_taken o') ≤ S (size (ob_taken o)))%nat.
Proof.
  intros Hok Hb. unfold obfuscate_base. destruct (ob_hash o !! base) as [obf|] eqn:Hh.
  { right. exists o, obf. destruct (ok_taken _ Hok _ _ Hh). split_and!; try done. lia. }
  unfold session_make_obfuscated.
  destruct (obfuscate_loop fuel 8 (ob_pos o) (Some (ob_taken o))) as [[obf pos]|] eqn:Hl.
  2:{ left. split; [done|]. intros Hv. destruct (varied_returns fuel _ (ob_pos o) (ob_taken o) Hv) as [? ?]; [done|].
      congruence. }
  right. apply obfuscate_loop_spec in Hl as [Hfree Hc]; [|lia].
  do 2 eexists. split; [done|]. simpl. split_and!.
  - destruct Hok as [Ht Hi]. split; simpl.
    + intros k v. rewrite lookup_insert_Some. intros [[_ <-]|[_ [? ?]%Ht]]; [set_solver|].
      split; [set_solver|done].
    + intros k1 k2 v. rewrite !lookup_insert_Some.
      intros [[<- <-]|[? H1]] [[<- H2]|[? H2]]; try done.
      * by apply Ht in H2 as [? _].
      * subst. by apply Ht in H1 as [? _].
      * by eapply Hi.
  - by apply insert_subseteq.
  - by rewrite lookup_insert_eq.
  - done.
  - rewrite size_union by set_solver. by rewrite size_singleton.
Qed.

Lemma rename_mono (h h' : gmap bytes bytes) (cs : list bytes) :
  h ⊆ h' → (∀ c, c ∈ cs → is_Some (h !! c)) → rename h <$> cs = rename h' <$> cs.
Proof.
  intros Hsub Hin. apply list_fmap_ext. intros i c Hc.
  apply list_elem_of_lookup_2, Hin in Hc as [v Hv]. unfold rename.
  by rewrite Hv, (lookup_weaken _ _ _ _ Hv Hsub).
Qed.

(** On components it has names for, an injective table renames lists one to one. *)
Lemma rename_inj (h : gmap bytes bytes) (l1 l2 : list bytes) :
  (∀ k1 k2 v, h !! k1 = Some v → h !! k2 = Some v → k1 = k2) →
  (∀ c, c ∈ l1 → is_Some (h !! c)) → (∀ c, c ∈ l2 → is_Some (h !! c)) →
  rename h <$> l1 = rename h <$> l2 → l1 = l2.
Proof.
  intros Hinj. revert l2. induction l1 as [|x l1 IH]; intros [|y l2] H1 H2; try done.
  cbn [fmap list_fmap]. intros [= Hxy Hl]. f_equal.
  - destruct (H1 x) as [v Hv]; [by left|]. destruct (H2 y) as [w Hw]; [by left|].
    unfold rename in Hxy. rewrite Hv, Hw in Hxy. simpl in Hxy. subst. by eapply Hinj.
  - apply IH; [| |done]; intros c Hc; [apply H1|apply H2]; by right.
Qed.

Lemma path_of_length abs cs c :
  cs ≠ [] → (length (path_of abs cs) < length (path_of abs (cs ++ [c])))%nat.
Proof.
  intros Hne. unfold path_of. rewrite join_slash_snoc by done. rewrite !length_app. simpl. lia.
Qed.

Lemma obfuscate_join abs (cs : list bytes) obf :
  Forall component cs → component obf →
  let dir : bytes :=
    match cs with [] => if (abs : bool) then [slash] else [] | _ => path_of abs cs end in
  (if (0 <? length dir)%nat then utils_path_join dir obf else Some obf)
    = Some (path_of abs (cs ++ [obf])).
Proof.
  intros Hcs [Ho Hs]. assert (head obf ≠ Some slash) as Hh.
  { destruct obf as [|c obf]; [done|]. intros [= ->]. set_solver. }
  destruct cs as [|d cs]; simpl.
  { destruct abs; simpl; [|done]. unfold utils_path_join. simpl. done. }
  change (d :: cs ++ [obf]) with ((d :: cs) ++ [obf]).
  unfold path_of at 3. rewrite join_slash_snoc by done.
  destruct (join_slash_last (d :: cs)) as (x & Hx & Hxs); [done..|].
  unfold utils_path_join.
  assert (last (path_of abs (d :: cs)) = Some x) as Hl.
  { unfold path_of. rewrite last_app, Hx. done. }
  destruct (path_of abs (d :: cs)) as [|c p] eqn:Hp; [done|]. simpl length.
  rewrite Hl. cbn [mbind option_bind]. simpl Nat.ltb. cbn match.
  rewrite decide_False by done. rewrite decide_False by done. f_equal. rewrite <-Hp.
  unfold path_of. by rewrite <-app_assoc.
Qed.

Lemma session_obfuscate_rec_spec depth fuel o abs cs :
  obf_ok o → cs ≠ [] → Forall component cs → (length (path_of abs cs) < depth)%nat →
  (session_obfuscate_rec depth fuel o (path_of abs cs) = None ∧
   ¬ varied fuel (size (ob_taken o) + length cs)) ∨
  ∃ o', session_obfuscate_rec depth fuel o (path_of abs cs)
      = Some (o', path_of abs (rename (ob_hash o') <$> cs)) ∧
    obf_ok o' ∧ ob_hash o ⊆ ob_hash o' ∧ (∀ c, c ∈ cs → is_Some (ob_hash o' !! c)) ∧
    Forall component (rename (ob_hash o') <$> cs) ∧
    (size (ob_taken o') ≤ size (ob_taken o) + length cs)%nat.
Proof.
  revert o cs. induction depth as [|depth IH]; intros o cs Hok Hne Hcs Hd; [lia|].
  destruct (exists_last Hne) as (ds & c & ->). apply Forall_app in Hcs as [Hds [Hc _]%Forall_cons].
  cbn [session_obfuscate_rec]. rewrite utils_path_split_of by done.
  set (dir := match ds with [] => _ | _ => _ end).
  assert ((if bool_decide (dir ≠ [slash]) && (0 <? length dir)%nat
           then session_obfuscate_rec depth fuel o dir else Some (o, dir)) = None ∧
          ¬ varied fuel (size (ob_taken o) + length ds) ∨
    ∃ o1, (if bool_decide (dir ≠ [slash]) && (0 <? length dir)%nat
           then session_obfuscate_rec depth fuel o dir else Some (o, dir)) =
        Some (o1, match rename (ob_hash o1) <$> ds with
                  | [] => if abs then [slash] else []
                  | _ => path_of abs (rename (ob_hash o1) <$> ds) end) ∧
      obf_ok o1 ∧ ob_hash o ⊆ ob_hash o1 ∧ (∀ d, d ∈ ds → is_Some (ob_hash o1 !! d)) ∧
      Forall component (rename (ob_hash o1) <$> ds) ∧
      (size (ob_taken o1) ≤ size (ob_taken o) + length ds)%nat) as Hdir.
  { unfold dir. destruct ds as [|d ds].
    { right. exists o. rewrite andb_comm. destruct abs; simpl; split_and!; try done; (lia || set_solver). }
    assert (length (path_of abs (d :: ds)) < depth)%nat as Hlt.
    { pose proof (path_of_length abs (d :: ds) c ltac:(done)). lia. }
    destruct (join_slash_last (d :: ds)) as (x & Hx & Hxs); [done..|].
    rewrite bool_decide_eq_true_2.
    2:{ intros Heq. apply (f_equal last) in Heq. unfold path_of in Heq.
        rewrite last_app, Hx in Heq. naive_solver. }
    rewrite (proj2 (Nat.ltb_lt _ _)).
    2:{ unfold path_of. rewrite length_app. destruct (join_slash (d :: ds)); [done|]. simpl. lia. }
    destruct (IH o (d :: ds)) as [?|(o1 & Hr & ?)]; try done; [by left|].
    right. exists o1. split; [exact Hr|done]. }
  rewrite length_app. cbn [length].
  destruct Hdir as [[-> Hv]|(o1 & -> & Hok1 & Hsub1 & Hin1 & Hcs1 & Hsize1)].
  { left. split; [done|]. intros Hv'. apply Hv. eapply varied_le; [exact Hv'|lia]. }
  cbn [mbind option_bind]. destruct Hc as [Hcne Hcs']. rewrite (proj2 (Nat.eqb_neq _ _)) by (by destruct c).
  destruct (obfuscate_base_spec fuel o1 c) as [[-> Hv]|(o2 & obf & -> & Hok2 & Hsub2 & Hc2 & Ho & Hsize2)];
    [done|done| |].
  { left. split; [done|]. intros Hv'. apply Hv. eapply varied_le; [exact Hv'|lia]. }
  right. exists o2. cbn [mbind option_bind].
  pose proof (obfuscate_join abs (rename (ob_hash o1) <$> ds) obf Hcs1 Ho) as Hj.
  assert (rename (ob_hash o1) <$> ds = rename (ob_hash o2) <$> ds) as Hren by by apply rename_mono.
  assert (rename (ob_hash o2) <$> (ds ++ [c]) = (rename (ob_hash o1) <$> ds) ++ [obf]) as ->.
  { rewrite fmap_app, Hren. simpl. unfold rename at 2. by rewrite Hc2. }
  cbn zeta in Hj. set (dir' := match rename _ <$> ds with [] => _ | _ => _ end) in *.
  split_and!; [|done|by etrans| |apply Forall_app; split; [done|by constructor]|lia].
  - destruct (0 <? length dir')%nat; [by rewrite Hj|by injection Hj as <-].
  - intros d [Hd'| ->%list_elem_of_singleton]%elem_of_app; [|done].
    destruct (Hin1 d Hd') as [v Hv]. by rewrite (lookup_weaken _ _ _ _ Hv Hsub2).
Qed.

(** ** Characters of names *)

(** The names given out consist of letters. *)
Definition names_ok (o : obf_state) : Prop := ∀ k v, ob_hash o !! k = Some v → Forall letter v.

Lemma candidate_letters lfac pos : Forall letter (candidate lfac pos).1.
Proof. unfold candidate. apply random_chars_spec. Qed.

Lemma obfuscate_loop_letters fuel lfac pos taken obf pos' :
  obfuscate_loop fuel lfac pos taken = Some (obf, pos') → Forall letter obf.
Proof.
  revert lfac pos. induction fuel as [|fuel IH]; intros lfac pos; simpl; [done|].
  pose proof (candidate_letters lfac pos) as Hc. destruct (candidate lfac pos) as [b q].
  destruct taken as [taken|]; [case_decide; [by apply IH|]|]; by intros [= <- _].
Qed.

Lemma obfuscate_base_letters fuel o base o' obf :
  names_ok o → obfuscate_base fuel o base = Some (o', obf) → names_ok o' ∧ Forall letter obf.
Proof.
  intros Ho. unfold obfuscate_base. destruct (ob_hash o !! base) as [v|] eqn:Hv.
  - intros [= <- <-]. split; [done|by eapply Ho].
  - unfold session_make_obfuscated.
    destruct (obfuscate_loop _ _ _ _) as [[b pos]|] eqn:Hl; [|done]. intros [= <- <-].
    apply obfuscate_loop_letters in Hl. split; [|done]. intros k v. simpl.
    rewrite lookup_insert_Some. intros [[_ <-]|[_ ?]]; [done|by eapply Ho].
Qed.

Lemma utils_path_join_Forall (P : ascii → Prop) dir base p :
  Forall P dir → Forall P base → P slash → utils_path_join dir base = Some p → Forall P p.
Proof.
  intros Hd Hb Hs. unfold utils_path_join. destruct (last dir); [|done]. cbn [mbind option_bind].
  repeat case_decide; intros [= <-]; rewrite ?Forall_app, ?Forall_cons; auto.
Qed.

(** An obfuscated path consists of letters and slashes, whatever the path was. *)
Lemma session_obfuscate_rec_letters depth fuel o path o' p :
  names_ok o → session_obfuscate_rec depth fuel o path = Some (o', p) →
  names_ok o' ∧ Forall (λ c, letter c ∨ c = slash) p.
Proof.
  assert (∀ b, Forall letter b → Forall (λ c, letter c ∨ c = slash) b) as Hw
    by (intros b Hb; eapply Forall_impl; [exact Hb|auto]).
  revert o path o' p. induction depth as [|depth IH]; intros o path o' p Ho; [done|].
  cbn [session_obfuscate_rec]. destruct (utils_path_split path) as [dir base].
  assert (∀ o1 dir', (if bool_decide (dir ≠ [slash]) && (0 <? length dir)%nat
    then session_obfuscate_rec depth fuel o dir else Some (o, dir)) = Some (o1, dir') →
    names_ok o1 ∧ Forall (λ c, letter c ∨ c = slash) dir') as Hdir.
  { intros o1 dir'. destruct (bool_decide _ && _) eqn:Hc; [by apply IH|]. intros [= <- <-].
    split; [done|]. apply andb_false_iff in Hc as [Hc|Hc].
    - apply bool_decide_eq_false in Hc. apply dec_stable in Hc as ->. by repeat constructor; right.
    - destruct dir; [constructor|done]. }
  destruct (if bool_decide _ && _ then _ else _) as [[o1 dir']|] eqn:Hd; [|done].
  destruct (Hdir o1 dir' eq_refl) as [Ho1 Hdl]. cbn [mbind option_bind].
  destruct (_ =? 0)%nat; [by intros [= <- <-]|].
  destruct (obfuscate_base fuel o1 base) as [[o2 obf]|] eqn:Hb; [|done].
  apply obfuscate_base_letters in Hb as [Ho2 Hl]; [|done]. cbn [mbind option_bind].
  destruct (0 <? length dir')%nat; [|intros [= <- <-]; auto].
  destruct (utils_path_join dir' obf) as [q|] eqn:Hj; [|done]. intros [= <- <-].
  split; [done|]. eapply utils_path_join_Forall; [done| | |exact Hj]; auto.
Qed.

Lemma letters_no_nl (p : bytes) : Forall (λ c, letter c ∨ c = slash) p → nl ∉ p.
Proof.
  intros Hp Hin. rewrite Forall_forall in Hp. destruct (Hp _ Hin) as [Hl|Hl]; [|discriminate Hl].
  revert Hl. unfold letter. apply (bool_decide_unpack _). vm_compute. exact I.
Qed.

Lemma session_obfuscate_no_nl fuel se path se' p :
  names_ok (se_obf se) → nl ∉ path →
  session_obfuscate fuel se (Some path) = Some (se', Some p) →
  names_ok (se_obf se') ∧ nl ∉ p.
Proof.
  intros Ho Hp. unfold session_obfuscate. destruct (negb (obfuscating se)).
  { by intros [= <- <-]. }
  destruct (session_obfuscate_rec _ _ _ _) as [[o obf]|] eqn:Hr; [|done]. intros [= <- <-].
  apply session_obfuscate_rec_letters in Hr as [Ho' Hl]; [|done]. split; [exact Ho'|].
  by apply letters_no_nl.
Qed.

End obfuscate.

(** * Properties *)

(** C27. Obfuscation renames path components one to one: when two paths are obfuscated one after the
    other in a session, the results have the shapes of the paths, and the components are replaced
    by proper components through one injective table that extends the one of the session before,
    so that any leading parts of the results have equal components exactly when those of the paths
    do.  Both calls return if the random numbers give enough different names: from any position, the
    names drawn in the first [fuel] rounds have to comprise more different ones than are taken
    already or are needed. *)
Theorem session_obfuscate_injective (rand : nat → Z) (fuel : nat) (o : obf_state)
    (a1 a2 : bool) (cs1 cs2 : list bytes) :
  obf_ok o → cs1 ≠ [] → cs2 ≠ [] → Forall component cs1 → Forall component cs2 →
  let first := session_obfuscate_rec rand (S (length (path_of a1 cs1))) fuel o (path_of a1 cs1) in
  let second o1 := session_obfuscate_rec rand (S (length (path_of a2 cs2))) fuel o1 (path_of a2 cs2) in
  (∀ o1 o2 q1 q2, first = Some (o1, q1) → second o1 = Some (o2, q2) →
     q1 = path_of a1 (rename (ob_hash o2) <$> cs1) ∧ q2 = path_of a2 (rename (ob_hash o2) <$> cs2) ∧
     Forall component (rename (ob_hash o2) <$> cs1) ∧ Forall component (rename (ob_hash o2) <$> cs2) ∧
     ob_hash o ⊆ ob_hash o2 ∧
     ∀ n m, rename (ob_hash o2) <$> take n cs1 = rename (ob_hash o2) <$> take m cs2 ↔
            take n cs1 = take m cs2) ∧
  (varied rand fuel (size (ob_taken o) + length cs1 + length cs2) →
   ∃ o1 o2 q1 q2, first = Some (o1, q1) ∧ second o1 = Some (o2, q2)).
Proof.
  intros Hok Hne1 Hne2 Hc1 Hc2 first second. unfold first, second.
  destruct (session_obfuscate_rec_spec rand (S (length (path_of a1 cs1))) fuel o a1 cs1)
    as [[Hr1 Hv]|(o1 & Hr1 & Hok1 & Hs1 & Hin1 & Hcs1 & Hsize1)]; try done; [lia| |]; rewrite Hr1.
  { split; [done|]. intros Hv'. destruct Hv. eapply varied_le; [exact Hv'|lia]. }
  destruct (session_obfuscate_rec_spec rand (S (length (path_of a2 cs2))) fuel o1 a2 cs2)
    as [[Hr2 Hv]|(o2 & Hr2 & Hok2 & Hs2 & Hin2 & Hcs2 & _)]; try done; [lia| |].
  { split; [intros ? ? ? ? [= <- <-]; by rewrite Hr2|]. intros Hv'. destruct Hv.
    eapply varied_le; [exact Hv'|lia]. }
  split; [|intros _; do 4 eexists; split; [done|exact Hr2]].
  intros ? ? ? ? [= <- <-]. rewrite Hr2. intros [= <- <-].
  rewrite (rename_mono (ob_hash o1) (ob_hash o2) cs1) in * by done.
  split_and!; try done; [by etrans|]. intros n m. split; [|by intros ->]. apply rename_inj.
  - apply ok_inj, Hok2.
  - intros c (i & Hi & _)%elem_of_take. apply list_elem_of_lookup_2, Hin1 in Hi as [v Hv].
    by rewrite (lookup_weaken _ _ _ _ Hv Hs2).
  - intros c (i & Hi & _)%elem_of_take. by eapply Hin2, list_elem_of_lookup_2.
Qed.

(** A stream for the examples. *)
Definition sample_rand (n : nat) : Z := (Z.of_nat n * 7919 + 104729) mod 32768.

Lemma obf_ok_empty pos : obf_ok (mk_obf ∅ ∅ pos).
Proof.
  split; simpl.
  - intros k v Hk. by rewrite lookup_empty in Hk.
  - intros k1 k2 v Hk. by rewrite lookup_empty in Hk.
Qed.

(** Even a constant stream gives names of different lengths. *)
Lemma constant_varied : varied (λ _, 100) 7 4.
Proof. intros pos. apply Nat.ltb_lt. vm_compute. reflexivity. Qed.

Lemma session_obfuscate_injective_witness :
  let cs1 := [str "trunk"; str "a"] in
  let cs2 := [str "trunk"; str "b"] in
  path_of false cs1 = str "trunk/a" ∧ path_of true cs2 = str "/trunk/b" ∧
  ∃ o1 o2 q1 q2,
    session_obfuscate_rec (λ _, 100) 8 7 (mk_obf ∅ ∅ 0) (str "trunk/a") = Some (o1, q1) ∧
    session_obfuscate_rec (λ _, 100) 9 7 o1 (str "/trunk/b") = Some (o2, q2) ∧
    rename (ob_hash o2) <$> cs1 ≠ rename (ob_hash o2) <$> cs2 ∧
    take 1 (rename (ob_hash o2) <$> cs1) = take 1 (rename (ob_hash o2) <$> cs2) ∧
    q1 = str "ccccccc/cccc".
Proof.
  intros cs1 cs2. split; [reflexivity|]. split; [reflexivity|].
  assert (Forall component cs1 ∧ Forall component cs2) as [Hc1 Hc2].
  { split; (repeat constructor); try discriminate; eval_decide. }
  destruct (session_obfuscate_injective (λ _, 100) 7 (mk_obf ∅ ∅ 0) false true cs1 cs2
    (obf_ok_empty 0) ltac:(discriminate) ltac:(discriminate) Hc1 Hc2) as [Hinj Hret].
  destruct (Hret constant_varied) as (o1 & o2 & q1 & q2 & Hr1 & Hr2).
  destruct (Hinj o1 o2 q1 q2 Hr1 Hr2) as (_ & _ & _ & _ & _ & Hi).
  exists o1, o2, q1, q2. split; [exact Hr1|]. split; [exact Hr2|]. split.
  - intros Heq. apply (Hi 2%nat 2%nat) in Heq. discriminate Heq.
  - split; [apply (Hi 1%nat 1%nat); reflexivity|].
    vm_compute in Hr1. injection Hr1 as _ <-. reflexivity.
Defined.

(** The name generator returns as soon as it draws a name that is not taken: with a free name
    among the first [fuel] draws it returns one, it is new, has at least three letters and is
    marked as taken. *)
Theorem session_make_obfuscated_fresh (rand : nat → Z) (fuel k pos : nat) (taken : gset bytes) :
  (k < fuel)%nat →
  (candidate rand (8 + Z.of_nat k) (round_pos rand k 8 pos)).1 ∉ taken →
  ∃ obf pos', session_make_obfuscated rand fuel pos (Some taken)
      = Some (obf, pos', Some ({[obf]} ∪ taken)) ∧ obf ∉ taken ∧ component obf.
Proof.
  intros Hk Hfree. unfold session_make_obfuscated.
  destruct (obfuscate_loop_returns rand fuel 8 pos taken k Hk Hfree) as [[obf pos'] Hl].
  rewrite Hl. cbn [mbind option_bind]. exists obf, pos'. split; [done|].
  apply (obfuscate_loop_spec rand fuel 8 pos taken obf pos'); [lia|done].
Qed.

Lemma session_make_obfuscated_fresh_witness :
  ∃ obf pos', session_make_obfuscated sample_rand 3 0 (Some {[str "heeh"]})
      = Some (obf, pos', Some ({[obf]} ∪ {[str "heeh"]})) ∧ obf ∉ ({[str "heeh"]} : gset bytes).
Proof.
  destruct (session_make_obfuscated_fresh sample_rand 3 1 0 {[str "heeh"]})
    as (obf & pos' & Hm & Hn & _); [lia|eval_decide|].
  exists obf, pos'. split; [exact Hm|exact Hn].
Defined.

(** The root is not kept by obfuscation: [/] is split into the directory [/] and the name [/],
    so that it becomes [/] followed by a fresh name instead of staying the root. *)
Theorem session_obfuscate_root (rand : nat → Z) (depth fuel : nat) (o o' : obf_state)
    (res : bytes) :
  obf_ok o → session_obfuscate_rec rand (S depth) fuel o [slash] = Some (o', res) →
  ∃ name, res = slash :: name ∧ component name.
Proof.
  intros Hok. simpl.
  assert (∀ x, obfuscate_base rand fuel o [slash] = Some x → component x.2) as Hb.
  { intros [o1 obf] Hx. simpl. unfold obfuscate_base in Hx.
    destruct (ob_hash o !! [slash]) as [v|] eqn:Hh.
    - injection Hx as <- <-. by eapply (ok_taken _ Hok).
    - unfold session_make_obfuscated in Hx.
      destruct (obfuscate_loop rand fuel 8 (ob_pos o) (Some (ob_taken o))) as [[b q]|] eqn:Hl;
        [|done]. injection Hx as _ <-. eapply obfuscate_loop_spec in Hl; [apply Hl|lia]. }
  destruct (obfuscate_base rand fuel o [slash]) as [[o1 obf]|] eqn:He; [|done].
  intros [= <- <-]. exists obf. split; [done|]. by apply (Hb (o1, obf)).
Qed.

Lemma session_obfuscate_root_witness :
  ∃ name, option_map snd (session_obfuscate_rec sample_rand 1 4 (mk_obf ∅ ∅ 0) [slash])
      = Some (slash :: name) ∧ component name.
Proof.
  destruct (session_obfuscate_rec sample_rand 1 4 (mk_obf ∅ ∅ 0) [slash]) as [[o' res]|] eqn:Hr;
    [|vm_compute in Hr; discriminate Hr].
  destruct (session_obfuscate_root sample_rand 0 4 (mk_obf ∅ ∅ 0) o' res (obf_ok_empty 0) Hr)
    as (name & -> & Hc).
  exists name. split; [reflexivity|exact Hc].
Defined.
