(* ===== verification/SessionOpen.v ===== *)
(** Opening and closing a session: [session_open], [session_close] and [session_free] of
    src/session.c.

    The functions of the Subversion libraries are a class of operations: [false] and [None] stand
    for a returned error, which is printed and cleared. *)
From S2P Require Import Prelude Session.

Open Scope Z_scope.

Class SvnClient := {
  svn_path_canonicalize : bytes → bytes;
  svn_path_uri_encode : bytes → bytes;
  svn_fs_initialize : bool;
  svn_ra_initialize : bool;
  svn_config_ensure : bool;
  svn_client_create_context : bool;
  svn_config_get_config : bool;
  svn_utf_cstring_to_utf8 : bytes → option bytes;
  (** the flags for non-interactive use and for not caching, user name, password and directory *)
  svn_cmdline_setup_auth_baton :
    bool → bool → option bytes → option bytes → option bytes → bool;
  svn_client_open_ra_session : bytes → bool;
  svn_ra_get_repos_root : option bytes
}.

Definition with_encoded_url (se : session) (url : bytes) : session :=
  mk_session (se_url se) (Some url) (se_root se) (se_prefix se) (se_username se) (se_password se)
    (se_config_dir se) (se_flags se) (se_obf_hash se) (se_obf_taken se) (se_rand se).

Definition session_flag (se : session) (f : Z) : bool := negb (Z.land (se_flags se) f =? 0).

Section open.
Context `{!SvnClient}.
Variables (rand : nat → Z) (fuel : nat).

(** [config_dir]: the inner [None] is NULL, the outer one an error. *)
Definition open_config_dir (se : session) : option (option bytes) :=
  match se_config_dir se with
  | None => Some None
  | Some dir => path ← svn_utf_cstring_to_utf8 dir; Some (Some (svn_path_canonicalize path))
  end.

(** [None] is undefined behaviour: no URL, or a root that is not shorter than the URL. *)
Definition session_open (se : session) : option (session * Z) :=
  url ← se_url se;
  let encoded_url := svn_path_uri_encode (svn_path_canonicalize url) in
  let se := with_encoded_url se encoded_url in
  if negb svn_fs_initialize then Some (se, 1)
  else if negb svn_ra_initialize then Some (se, 1)
  else if negb svn_config_ensure then Some (se, 1)
  else if negb svn_client_create_context then Some (se, 1)
  else if negb svn_config_get_config then Some (se, 1)
  else
    match open_config_dir se with
    | None => Some (se, 1)
    | Some config_dir =>
        if negb (svn_cmdline_setup_auth_baton (session_flag se SF_NON_INTERACTIVE)
                   (session_flag se SF_NO_AUTH_CACHE) (se_username se) (se_password se) config_dir)
        then Some (se, 1)
        else if negb (svn_client_open_ra_session encoded_url) then Some (se, 1)
        else
          match svn_ra_get_repos_root with
          | None => Some (se, 1)
          | Some root => se ← session_open_prefix rand fuel se encoded_url root; Some (se, 0)
          end
    end.

(** ** Facts *)

(** The URL of the session as the libraries see it, and the path below the root. *)
Definition below_root (se : session) (prefix : bytes) : Prop :=
  ∃ url root, se_url se = Some url ∧ svn_ra_get_repos_root = Some root ∧
    svn_path_uri_encode (svn_path_canonicalize url)
      = root ++ (if decide (prefix = []) then [] else slash :: prefix).

(** A call that has failed: nothing but the encoded URL has changed. *)
Ltac open_fails :=
  do 2 eexists; split; [reflexivity|]; split_and!; [by right|done|done|discriminate].

Lemma session_open_below se prefix :
  below_root se prefix → obfuscating se = false →
  ∃ se' ret, session_open se = Some (se', ret) ∧ (ret = 0 ∨ ret = 1) ∧
    se_flags se' = se_flags se ∧ se_url se' = se_url se ∧
    (ret = 0 → se_prefix se' = Some prefix).
Proof.
  intros (url & root & Hurl & Hroot & Henc) Hobf. unfold session_open. rewrite Hurl.
  cbn [mbind option_bind]. set (enc := svn_path_uri_encode _) in *.
  repeat match goal with
  | |- context [if ?b then Some (?s, 1) else _] => destruct b; [open_fails|]
  end.
  destruct (open_config_dir _) as [dir|]; [|open_fails].
  repeat match goal with
  | |- context [if ?b then Some (?s, 1) else _] => destruct b; [open_fails|]
  end.
  rewrite Hroot. unfold session_open_prefix. rewrite Henc.
  assert (∀ p, session_obfuscate rand fuel (with_encoded_url se enc) (Some p)
    = Some (with_encoded_url se enc, Some p)) as Hob.
  { intros p. unfold session_obfuscate.
    change (obfuscating (with_encoded_url se enc)) with (obfuscating se). by rewrite Hobf. }
  rewrite <-Henc. destruct (decide (prefix = [])) as [Hp|Hp].
  - rewrite app_nil_r in Henc. rewrite decide_True by done. cbn [mbind option_bind].
    rewrite Hob. cbn [mbind option_bind]. subst. do 2 eexists. split; [done|]. split_and!; auto.
  - assert (length enc = (length root + S (length prefix))%nat) as Hl
      by (rewrite Henc, length_app; done).
    rewrite decide_False by (intros E; rewrite E in Hl; lia).
    rewrite (proj2 (Nat.ltb_lt _ _)) by lia. cbn [mbind option_bind].
    rewrite Hob. cbn [mbind option_bind]. do 2 eexists. split; [done|]. split_and!; auto.
    intros _. simpl. rewrite Henc. f_equal.
    rewrite <-drop_drop, drop_app_length. done.
Qed.

(** The server cannot be reached. *)
Lemma session_open_refused se url :
  se_url se = Some url →
  svn_client_open_ra_session (svn_path_uri_encode (svn_path_canonicalize url)) = false →
  ∃ se', session_open se = Some (se', 1).
Proof.
  intros Hurl Hopen. unfold session_open. rewrite Hurl. cbn [mbind option_bind].
  repeat match goal with
  | |- context [if negb ?b then Some (?s, 1) else _] => destruct b; simpl negb; cbn match; [|by eauto]
  end.
  destruct (open_config_dir _) as [dir|]; [|by eauto].
  destruct (svn_cmdline_setup_auth_baton _ _ _ _ _); simpl negb; cbn match; [|by eauto].
  rewrite Hopen. simpl. eauto.
Qed.

End open.

(** * The pool of a session

    [session_close] clears the pool, [session_free] destroys it: every string allocated there is
    gone, and reading one of them again yields what the memory has been reused for. *)

Inductive pool_string := Live (s : bytes) | Stale (s : bytes).

Definition clear_pool (s : pool_string) : pool_string :=
  match s with Live s | Stale s => Stale s end.

(** [reused] maps a string to what is found later in its place. *)
Definition pool_read (reused : bytes → bytes) (s : pool_string) : bytes :=
  match s with Live s => s | Stale s => reused s end.
