(* ===== verification/Log.v ===== *)
(** Fetching revision logs: src/log.c.

    The log entries delivered by [svn_ra_get_log] are rewritten relative to the session root and
    obfuscated if asked for.  The theorems show which changed paths survive, under which name,
    and what the range determination returns. *)
From S2P Require Import Prelude Utils Types Session.

Open Scope Z_scope.

(** * Data *)

(** What the server delivers for a revision. *)
Record svn_log_entry := mk_entry {
  le_changed_paths : option (gmap bytes svn_log_changed_path);
  le_revision : Z;
  le_author : option bytes;
  le_date : option bytes;
  le_message : option bytes
}.

(** [svn_ra_get_log] from one revision to another with a limit on the number of entries (zero for
    none): the entries passed to the receiver, and whether the call succeeded. *)
Class RALog := { svn_ra_get_log : Z → Z → Z → list svn_log_entry * bool }.

Section log.
Context `{HashIter} `{!RALog}.
Variables (rand : nat → Z) (fuel : nat).

(** * Receivers *)

(** The condition under which an entry is skipped, for the (obfuscated) key. *)
Definition log_skip (prefix key : bytes) : bool :=
  let prefixlen := length prefix in
  let key1 := drop 1 key in
  (length key <? 1)%nat || negb (strncmp_eq prefix key1 prefixlen) ||
  ((0 <? prefixlen)%nat && (prefixlen <? length key1)%nat &&
   negb (bool_decide (key1 !! prefixlen = Some slash))).

(** The path relative to the session root. *)
Definition log_strip (prefix key : bytes) : bytes :=
  let key := match prefix with [] => key | _ => drop (length prefix + 1) key end in
  match key with c :: rest => if decide (c = slash) then rest else key | [] => [] end.

Definition log_copyfrom (copyfrom : option bytes) : option bytes :=
  (λ p, match p with c :: rest => if decide (c = slash) then rest else p | [] => [] end)
    <$> copyfrom.

(** One iteration over the changed paths. *)
Definition log_receive_path (prefix : bytes)
    (acc : option (session * gmap bytes svn_log_changed_path))
    (kv : bytes * svn_log_changed_path) : option (session * gmap bytes svn_log_changed_path) :=
  '(se, changed) ← acc;
  '(se, key) ← session_obfuscate rand fuel se (Some (kv.1));
  key ← key;
  if log_skip prefix key then Some (se, changed)
  else
    '(se, copyfrom) ← session_obfuscate rand fuel se (log_copyfrom (cp_copyfrom_path (kv.2)));
    Some (se, <[log_strip prefix key :=
                 mk_changed (cp_action (kv.2)) copyfrom (cp_copyfrom_rev (kv.2))]> changed).

Definition log_receiver (se : session) (e : svn_log_entry) : option (session * log_revision) :=
  prefix ← se_prefix se;
  '(se, author) ← session_obfuscate_once rand fuel se (le_author e);
  '(se, message) ← session_obfuscate_once rand fuel se (le_message e);
  '(se, changed) ← match le_changed_paths e with
                   | None => Some (se, ∅)
                   | Some cp => foldl (log_receive_path prefix) (Some (se, ∅)) (hash_iter cp)
                   end;
  Some (se, mk_log (le_revision e) author (le_date e) message (Some changed)).

Definition log_receiver_list (acc : option (session * list log_revision)) (e : svn_log_entry)
    : option (session * list log_revision) :=
  '(se, l) ← acc;
  '(se, log) ← log_receiver se e;
  Some (se, l ++ [log]).

(** The baton holds the revision of the last entry; nothing is stored without an entry. *)
Definition log_receiver_revnum (revnum : option Z) (e : svn_log_entry) : option Z :=
  Some (le_revision e).

(** * Operations *)

(** The return value, [*start] and [*end]; [None] is the use of the uninitialised baton. *)
Definition log_get_range (start end_ : Z) : option (Z * Z * Z) :=
  let '(es, ok) := svn_ra_get_log start end_ 1 in
  let baton := foldl log_receiver_revnum None es in
  if negb ok then Some (1, start, end_)
  else
    start ← baton;
    let '(es, ok) := svn_ra_get_log end_ start 1 in
    let baton := foldl log_receiver_revnum baton es in
    if negb ok then Some (1, start, end_)
    else end_ ← baton; Some (0, start, end_).

(** The last entry delivered ends up in the caller's structure. *)
Definition log_fetch_single (se : session) (rev end_ : Z) (log : log_revision)
    : option (session * log_revision * Z) :=
  let '(es, ok) := svn_ra_get_log rev end_ 1 in
  '(se, log) ← foldl (λ acc e, '(se, _) ← acc; log_receiver se e) (Some (se, log)) es;
  Some (se, log, if negb ok then 1 else 0).

Definition log_fetch_all (se : session) (start end_ : Z) (list_ : list log_revision)
    : option (session * list log_revision * Z) :=
  let '(es, ok) := svn_ra_get_log start end_ 0 in
  '(se, l) ← foldl log_receiver_list (Some (se, list_)) es;
  Some (se, l, if negb ok then 1 else 0).

(** * Specification *)

(** The repository path (without its leading slash) of a path relative to the session root. *)
Definition root_path (prefix q : bytes) : bytes :=
  match prefix, q with
  | [], _ => q
  | _, [] => prefix
  | _, _ => prefix ++ [slash] ++ q
  end.

Definition strip_info (info : svn_log_changed_path) : svn_log_changed_path :=
  mk_changed (cp_action info) (log_copyfrom (cp_copyfrom_path info)) (cp_copyfrom_rev info).

(** Paths as the server reports them: absolute, without empty components or a trailing slash. *)
Definition canonical (key : bytes) : Prop :=
  ∃ p, key = slash :: p ∧ cstr p ∧ last p ≠ Some slash ∧
    ∀ i, key !! i = Some slash → key !! S i ≠ Some slash.

(** The same as a check. *)
Definition canonical_b (key : bytes) : bool :=
  match key with
  | c :: p => bool_decide (c = slash ∧ cstr p ∧ last p ≠ Some slash ∧
                Forall (λ ab, ab ≠ (slash, slash)) (zip key p))
  | [] => false
  end.

(** * Lemmas *)

Lemma canonical_check key : canonical_b key = true → canonical key.
Proof.
  destruct key as [|c p]; [done|]. cbn [canonical_b]. rewrite bool_decide_eq_true.
  intros (-> & Hc & Hl & Hz). exists p. split_and!; [done..|]. intros i Hi Hs.
  rewrite Forall_lookup in Hz. refine (Hz i (slash, slash) _ eq_refl).
  apply lookup_zip_with_Some. by exists slash, slash.
Qed.

Lemma canonical_head p : canonical (slash :: p) → head p ≠ Some slash.
Proof.
  intros (p' & [= <-] & _ & _ & Hno). specialize (Hno 0%nat eq_refl). by destruct p.
Qed.

Lemma log_strip_cons x prefix k :
  log_strip (x :: prefix) (slash :: (x :: prefix) ++ slash :: k) = k.
Proof.
  unfold log_strip.
  replace (drop (length (x :: prefix) + 1) (slash :: (x :: prefix) ++ slash :: k))
    with (slash :: k); [done|].
  rewrite app_comm_cons, drop_app_length'; [done|]. simpl. lia.
Qed.

(** An entry is kept exactly when its path is at or below the session root. *)
Lemma log_skip_spec prefix p :
  cstr prefix → last prefix ≠ Some slash → canonical (slash :: p) →
  if log_skip prefix (slash :: p) then ∀ q, p ≠ root_path prefix q
  else p = root_path prefix (log_strip prefix (slash :: p)).
Proof.
  intros Hc Hl Hcan. pose proof (canonical_head p Hcan) as Hh. unfold log_skip.
  cbn [length drop]. rewrite (drop_0 p). simpl (S _ <? 1)%nat. rewrite orb_false_l.
  destruct prefix as [|x prefix].
  { unfold strncmp_eq. rewrite bool_decide_eq_true_2 by done. simpl. unfold log_strip.
    by rewrite decide_True by done. }
  set (pre := x :: prefix) in *.
  destruct (strncmp_eq pre p (length pre)) eqn:Hs; simpl negb.
  2:{ simpl. intros q Heq. apply not_true_iff_false in Hs. apply Hs, strncmp_eq_prefix; [done|].
      subst p. unfold root_path, pre. destruct q as [|a q]; [done|].
      by exists (slash :: a :: q). }
  apply strncmp_eq_prefix in Hs as [k ->]; [|done]. rewrite orb_false_l.
  change (0 <? length pre)%nat with true. rewrite andb_true_l, length_app.
  change (S (length prefix)) with (length pre). rewrite lookup_app_r, Nat.sub_diag by lia. destruct k as [|c k].
  { rewrite (proj2 (Nat.ltb_ge _ _)) by (simpl; lia). simpl andb. cbn match.
    unfold log_strip, pre. rewrite app_nil_r. rewrite drop_ge by (simpl; lia). done. }
  rewrite (proj2 (Nat.ltb_lt _ _)) by (simpl; lia). rewrite andb_true_l. simpl lookup.
  destruct (decide (c = slash)) as [->|Hcs].
  - rewrite bool_decide_eq_true_2 by done. simpl negb. cbn match. unfold pre.
    rewrite log_strip_cons. unfold root_path. destruct k as [|d k]; [|done].
    exfalso. destruct Hcan as (p' & [= <-] & _ & Hlast & _). apply Hlast.
    rewrite app_comm_cons. apply last_snoc.
  - rewrite bool_decide_eq_false_2 by naive_solver. simpl. intros q.
    unfold root_path, pre. destruct q as [|d q].
    + intros Heq%(f_equal length). simpl in Heq. rewrite ?length_app in Heq. simpl in Heq. lia.
    + intros [= Heq]. apply app_inv_head in Heq. by injection Heq as ->.
Qed.

Lemma root_path_inj prefix q1 q2 :
  root_path prefix q1 = root_path prefix q2 → q1 = q2.
Proof.
  unfold root_path. destruct prefix as [|x prefix]; [done|].
  destruct q1 as [|c q1], q2 as [|d q2]; try done.
  - intros Heq%(f_equal length). simpl in Heq. rewrite ?length_app in Heq. simpl in Heq. lia.
  - intros Heq%(f_equal length). simpl in Heq. rewrite ?length_app in Heq. simpl in Heq. lia.
  - intros Heq%app_inv_head. by injection Heq as -> ->.
Qed.

Lemma obfuscate_off se p :
  obfuscating se = false → session_obfuscate rand fuel se p = Some (se, p).
Proof. intros Hf. unfold session_obfuscate. destruct p; [|done]. by rewrite Hf. Qed.

Lemma obfuscate_once_off se p :
  obfuscating se = false → session_obfuscate_once rand fuel se p = Some (se, p).
Proof. intros Hf. unfold session_obfuscate_once. destruct p; [|done]. by rewrite Hf. Qed.

Lemma log_receive_path_plain se prefix changed kv :
  obfuscating se = false →
  log_receive_path prefix (Some (se, changed)) kv =
    Some (se, if log_skip prefix (kv.1) then changed
              else <[log_strip prefix (kv.1) := strip_info (kv.2)]> changed).
Proof.
  intros Hf. unfold log_receive_path. cbn [mbind option_bind].
  rewrite obfuscate_off by done. cbn [mbind option_bind].
  destruct (log_skip prefix (kv.1)); [done|]. by rewrite obfuscate_off.
Qed.

(** What the loop over a part of the table adds. *)
Lemma log_receive_paths_spec se prefix l changed :
  obfuscating se = false → cstr prefix → last prefix ≠ Some slash →
  Forall (λ kv, canonical (kv.1)) l → NoDup l.*1 →
  ∃ changed', foldl (log_receive_path prefix) (Some (se, changed)) l = Some (se, changed') ∧
    ∀ q info, changed' !! q = Some info ↔
      (∃ info0, (slash :: root_path prefix q, info0) ∈ l ∧ info = strip_info info0) ∨
      (changed !! q = Some info ∧ slash :: root_path prefix q ∉ l.*1).
Proof.
  intros Hf Hc Hl Hcan. revert changed.
  induction Hcan as [|[key info0] l Hk Hcan IH]; intros changed Hnd.
  { exists changed. split; [done|]. intros q info. set_solver. }
  apply NoDup_cons in Hnd as [Hkl Hnd]. simpl in Hk, Hkl. cbn [foldl].
  rewrite log_receive_path_plain by done. cbn [fst snd].
  destruct Hk as (p & -> & Hk). pose proof (log_skip_spec prefix p Hc Hl) as Hskip.
  specialize (Hskip ltac:(by exists p)).
  destruct (log_skip prefix (slash :: p)).
  - destruct (IH changed Hnd) as (changed' & -> & Hspec). exists changed'. split; [done|].
    intros q info. rewrite Hspec. specialize (Hskip q). csimpl. set_solver.
  - destruct (IH (<[log_strip prefix (slash :: p) := strip_info info0]> changed) Hnd)
      as (changed' & -> & Hspec). exists changed'. split; [done|]. intros q info. rewrite Hspec.
    set (q0 := log_strip prefix (slash :: p)) in *. rewrite lookup_insert_Some. csimpl.
    destruct (decide (q0 = q)) as [<-|Hne].
    + rewrite <-Hskip. set_solver.
    + assert (p ≠ root_path prefix q) as Hp.
      { intros Hp. rewrite Hskip in Hp. by apply root_path_inj in Hp. }
      set_solver.
Qed.

End log.

(** * Properties *)

(** C26. Logs are rewritten relative to the session root: without obfuscation, and for paths as a
    server reports them, a received log entry keeps exactly the changes at or below the session
    prefix (a sibling that only shares the prefix is dropped), under their path below the root,
    with the leading slash removed from copy sources; everything else is copied. *)
Theorem log_receiver_correct `{HashIter} (rand : nat → Z) (fuel : nat) (se : session)
    (e : svn_log_entry) (prefix : bytes) (cp : gmap bytes svn_log_changed_path) :
  se_prefix se = Some prefix → obfuscating se = false → cstr prefix →
  last prefix ≠ Some slash → le_changed_paths e = Some cp →
  (∀ key info, cp !! key = Some info → canonical key) →
  ∃ changed, log_receiver rand fuel se e =
      Some (se, mk_log (le_revision e) (le_author e) (le_date e) (le_message e) (Some changed)) ∧
    ∀ q info, changed !! q = Some info ↔
      ∃ info0, cp !! (slash :: root_path prefix q) = Some info0 ∧ info = strip_info info0.
Proof.
  intros Hp Hf Hc Hl Hcp Hcan. unfold log_receiver. rewrite Hp, Hcp. cbn [mbind option_bind].
  rewrite !obfuscate_once_off by done. cbn [mbind option_bind].
  rewrite obfuscate_once_off by done. cbn [mbind option_bind].
  destruct (log_receive_paths_spec rand fuel se prefix (hash_iter cp) ∅)
    as (changed & -> & Hspec); try done.
  - apply Forall_forall. intros [key info] Hin%hash_iter_elem. by eapply Hcan.
  - apply hash_iter_nodup.
  - exists changed. split; [done|]. intros q info. rewrite Hspec, lookup_empty.
    setoid_rewrite hash_iter_elem. naive_solver.
Qed.

Definition sample_session (prefix : bytes) : session :=
  mk_session None None None (Some prefix) None None None 0 ∅ ∅ 0.

Definition sample_entry : svn_log_entry :=
  mk_entry (Some {[str "/trunk/a" := mk_changed "A"%char (Some (str "/old")) 3;
                   str "/trunk2/b" := mk_changed "D"%char None (-1)]}) 7 None None None.

Lemma log_receiver_correct_witness :
  ∃ changed, log_receiver sample_rand 1 (sample_session (str "trunk")) sample_entry =
      Some (sample_session (str "trunk"), mk_log 7 None None None (Some changed)) ∧
    changed !! str "a" = Some (mk_changed "A"%char (Some (str "old")) 3) ∧
    changed !! str "2/b" = None.
Proof.
  destruct (log_receiver_correct sample_rand 1 (sample_session (str "trunk")) sample_entry
    (str "trunk") {[str "/trunk/a" := mk_changed "A"%char (Some (str "/old")) 3;
                    str "/trunk2/b" := mk_changed "D"%char None (-1)]})
    as (changed & Hr & Hspec); [reflexivity|reflexivity|eval_decide|discriminate|reflexivity| |].
  - intros key info Hkey. apply canonical_check.
    apply lookup_insert_Some in Hkey as [[<- _]|[_ Hkey]]; [reflexivity|].
    apply lookup_singleton_Some in Hkey as [<- _]. reflexivity.
  - exists changed. split; [exact Hr|]. split.
    + apply Hspec. eexists. split; reflexivity.
    + destruct (changed !! str "2/b") as [i|] eqn:Hi; [|reflexivity].
      apply Hspec in Hi as (info0 & Hi & _). vm_compute in Hi. discriminate Hi.
Defined.

(** The revision range of the session root: the start becomes the first revision the server
    reports from the given start on, the end the first one it reports going back from the given
    end; a failing request changes no more than what was determined before it; and a request
    that reports nothing at all makes the function use an uninitialised number. *)
Theorem log_get_range_correct `{!RALog} (start end_ : Z) (es1 : list svn_log_entry) (ok1 : bool) :
  svn_ra_get_log start end_ 1 = (es1, ok1) →
  (ok1 = false → log_get_range start end_ = Some (1, start, end_)) ∧
  (ok1 = true → last es1 = None → log_get_range start end_ = None) ∧
  (∀ e1 es2 ok2, ok1 = true → last es1 = Some e1 →
    svn_ra_get_log end_ (le_revision e1) 1 = (es2, ok2) →
    log_get_range start end_ =
      if negb ok2 then Some (1, le_revision e1, end_)
      else Some (0, le_revision e1, le_revision (default e1 (last es2)))).
Proof.
  intros H1. unfold log_get_range. rewrite H1.
  assert (∀ es b, foldl log_receiver_revnum b es =
    match last es with Some e => Some (le_revision e) | None => b end) as Hfold.
  { intros es. induction es as [|x es IH] using rev_ind; intros b; [done|].
    by rewrite foldl_app, last_snoc. }
  rewrite Hfold. split_and!.
  - by intros ->.
  - by intros -> ->.
  - intros e1 es2 ok2 -> -> H2. simpl negb. cbn match. cbn [mbind option_bind]. rewrite H2, Hfold.
    destruct ok2, (last es2); done.
Qed.

Definition ralog_sample : RALog :=
  {| svn_ra_get_log start end_ limit :=
       ([mk_entry None (if start <? end_ then start + 2 else start - 1) None None None], true) |}.

Lemma log_get_range_correct_witness :
  @log_get_range ralog_sample 0 10 = Some (0, 2, 9).
Proof.
  destruct (@log_get_range_correct ralog_sample 0 10
    [mk_entry None 2 None None None] true eq_refl) as (_ & _ & Hr).
  exact (Hr (mk_entry None 2 None None None) _ true eq_refl eq_refl eq_refl).
Defined.
