(* ===== verification/DumpFormat.v ===== *)
(** A reference reader of dump streams.

    Not a part of the program: what a consumer of its output (such as [svnadmin load]) does.  A
    record is a block of header lines ended by an empty line, followed by as many bytes as its
    [Content-length] header announces; empty lines between records are skipped. *)
From S2P Require Import Prelude Property.

Open Scope Z_scope.

Definition header_line (name value : bytes) : bytes := name ++ str ": " ++ value ++ [nl].

(** Header names of the dump format (svn_repos.h). *)
Definition NODE_PATH : bytes := str "Node-path".
Definition NODE_KIND : bytes := str "Node-kind".
Definition NODE_ACTION : bytes := str "Node-action".
Definition NODE_COPYFROM_REV : bytes := str "Node-copyfrom-rev".
Definition NODE_COPYFROM_PATH : bytes := str "Node-copyfrom-path".
Definition PROP_DELTA : bytes := str "Prop-delta".
Definition PROP_CONTENT_LENGTH : bytes := str "Prop-content-length".
Definition TEXT_DELTA : bytes := str "Text-delta".
Definition TEXT_CONTENT_LENGTH : bytes := str "Text-content-length".
Definition TEXT_CONTENT_MD5 : bytes := str "Text-content-md5".
Definition CONTENT_LENGTH : bytes := str "Content-length".
Definition REVISION_NUMBER : bytes := str "Revision-number".
Definition MAGIC_HEADER : bytes := str "SVN-fs-dump-format-version".
Definition UUID_HEADER : bytes := str "UUID".

Abbreviation headers := (list (bytes * bytes)).

Definition print_headers (hs : headers) : bytes := concat ((λ h, header_line (h.1) (h.2)) <$> hs).

(** Everything before the first [": "], and what follows it. *)
Fixpoint split_colon (l : bytes) : option (bytes * bytes) :=
  match l with
  | [] => None
  | c :: l' =>
      if bool_decide (take 2 l = str ": ") then Some ([], drop 1 l')
      else '(n, v) ← split_colon l'; Some (c :: n, v)
  end.

Fixpoint read_headers (fuel : nat) (b : bytes) : option (headers * bytes) :=
  match fuel with
  | O => None
  | S fuel =>
      '(line, b) ← read_line b;
      if decide (line = []) then Some ([], b)
      else
        h ← split_colon line;
        '(hs, b) ← read_headers fuel b;
        Some (h :: hs, b)
  end.

Fixpoint skip_newlines (b : bytes) : bytes :=
  match b with
  | c :: b' => if decide (c = nl) then skip_newlines b' else b
  | [] => []
  end.

Fixpoint header_get (name : bytes) (hs : headers) : option bytes :=
  match hs with
  | [] => None
  | (n, v) :: hs => if decide (n = name) then Some v else header_get name hs
  end.

(** The headers, the body and the rest of the stream. *)
Definition read_record (fuel : nat) (b : bytes) : option (headers * bytes * bytes) :=
  '(hs, b) ← read_headers fuel (skip_newlines b);
  let len := Z.to_nat (undec (default [] (header_get CONTENT_LENGTH hs))) in
  if (length b <? len)%nat then None else Some (hs, take len b, drop len b).

(** ** Nodes *)

(** What a node record says. *)
Record node_info := mk_info {
  ni_path : bytes;
  ni_action : bytes;
  ni_kind : option bytes;
  ni_copyfrom : option (Z * bytes);
  ni_props : option (list prop_line);
  ni_text : option bytes
}.

(** The property block, if there is one, fills its part of the body. *)
Definition read_prop_part (fuel : nat) (hs : headers) (body : bytes)
    : option (option (list prop_line) * bytes) :=
  match header_get PROP_CONTENT_LENGTH hs with
  | None => Some (None, body)
  | Some len =>
      let len := Z.to_nat (undec len) in
      '(ls, rest) ← parse_props fuel (take len body);
      if decide (rest = []) then Some (Some ls, drop len body) else None
  end.

(** The text takes the rest of it. *)
Definition read_text_part (hs : headers) (body : bytes) : option (option bytes) :=
  match header_get TEXT_CONTENT_LENGTH hs with
  | None => if decide (body = []) then Some None else None
  | Some len => if undec len =? Z.of_nat (length body) then Some (Some body) else None
  end.

Definition read_copy_part (hs : headers) : option (Z * bytes) :=
  rev ← header_get NODE_COPYFROM_REV hs; path ← header_get NODE_COPYFROM_PATH hs;
  Some (undec rev, path).

Definition read_node (b : bytes) : option (node_info * bytes) :=
  '(hs, body, rest) ← read_record (S (length b)) b;
  path ← header_get NODE_PATH hs;
  action ← header_get NODE_ACTION hs;
  '(props, body) ← read_prop_part (S (length b)) hs body;
  text ← read_text_part hs body;
  Some (mk_info path action (header_get NODE_KIND hs) (read_copy_part hs) props text, rest).

(** * Lemmas *)

(** A header that can be read back. *)
Definition header_ok (h : bytes * bytes) : Prop :=
  h.1 ≠ [] ∧ nl ∉ h.1 ∧ ":"%char ∉ h.1 ∧ nl ∉ h.2.

#[export] Instance header_ok_dec h : Decision (header_ok h) := _.

Lemma split_colon_app n v :
  ":"%char ∉ n → split_colon (n ++ str ": " ++ v) = Some (n, v).
Proof.
  induction n as [|c n IH]; intros Hn.
  - by destruct v.
  - cbn [app split_colon]. rewrite bool_decide_eq_false_2.
    + rewrite IH by set_solver. done.
    + intros Heq. assert (c = ":"%char) as ->; [|set_solver].
      destruct (n ++ str ": " ++ v); simpl in Heq; by injection Heq.
Qed.

Lemma header_line_read name value b :
  header_ok (name, value) →
  read_line (header_line name value ++ b) = Some (name ++ str ": " ++ value, b).
Proof.
  intros (_ & Hn & _ & Hv). unfold header_line. simpl in Hn, Hv.
  replace ((name ++ str ": " ++ value ++ [nl]) ++ b) with ((name ++ str ": " ++ value) ++ nl :: b)
    by by rewrite <-!app_assoc.
  apply read_line_app. rewrite !not_elem_of_app. split_and!; [done|eval_decide|done].
Qed.

Lemma read_headers_print fuel hs b :
  Forall header_ok hs → (length hs < fuel)%nat →
  read_headers fuel (print_headers hs ++ nl :: b) = Some (hs, b).
Proof.
  intros Hhs. revert fuel. induction Hhs as [|[n v] hs Hh Hhs IH]; intros [|fuel] Hf;
    simpl in Hf; try lia; [done|].
  unfold print_headers. cbn [fmap list_fmap concat read_headers fst snd].
  rewrite <-app_assoc, header_line_read by done. cbn [mbind option_bind].
  destruct Hh as (Hne & _ & Hc & _). simpl in Hne, Hc.
  rewrite decide_False by (destruct n; done). rewrite split_colon_app by done.
  cbn [mbind option_bind]. fold (print_headers hs). rewrite IH by lia. done.
Qed.

Lemma skip_newlines_id b : head b ≠ Some nl → skip_newlines b = b.
Proof. destruct b as [|c b]; [done|]. simpl. intros Hc. rewrite decide_False; naive_solver. Qed.

Lemma skip_newlines_app n b : skip_newlines (replicate n nl ++ b) = skip_newlines b.
Proof. induction n as [|n IH]; [done|]. simpl. done. Qed.

(** A printed record is read back, whatever follows it. *)
Lemma read_record_print fuel n hs body rest :
  hs ≠ [] → Forall header_ok hs → (length hs < fuel)%nat →
  Z.of_nat (length body) = undec (default [] (header_get CONTENT_LENGTH hs)) →
  read_record fuel (replicate n nl ++ print_headers hs ++ [nl] ++ body ++ rest)
    = Some (hs, body, rest).
Proof.
  intros Hne Hhs Hf Hlen. unfold read_record. rewrite skip_newlines_app, skip_newlines_id.
  2:{ destruct hs as [|[h v] hs]; [done|]. apply Forall_cons in Hhs as [(Hn & Hnl & _) _].
      simpl in Hn, Hnl. destruct h as [|c h]; [done|]. simpl. set_solver. }
  cbn [app]. rewrite read_headers_print by done. cbn [mbind option_bind].
  rewrite <-Hlen, Nat2Z.id.
  rewrite (proj2 (Nat.ltb_ge _ _)) by (rewrite length_app; lia).
  by rewrite take_app_length, drop_app_length.
Qed.

Lemma print_headers_app hs1 hs2 : print_headers (hs1 ++ hs2) = print_headers hs1 ++ print_headers hs2.
Proof. unfold print_headers. by rewrite fmap_app, concat_app. Qed.

Lemma header_get_app name hs1 hs2 :
  header_get name (hs1 ++ hs2) =
    match header_get name hs1 with Some v => Some v | None => header_get name hs2 end.
Proof. induction hs1 as [|[n v] hs1 IH]; simpl; [done|]. by case_decide. Qed.

Lemma print_headers_nil : print_headers [] = [].
Proof. done. Qed.

Lemma print_headers_cons k v hs : print_headers ((k, v) :: hs) = header_line k v ++ print_headers hs.
Proof. done. Qed.

Lemma print_headers_if (b : bool) hs :
  print_headers (if b then hs else []) = if b then print_headers hs else [].
Proof. by destruct b. Qed.

Lemma print_headers_length hs : (length hs <= length (print_headers hs))%nat.
Proof.
  induction hs as [|[n v] hs IH]; [done|].
  change (print_headers ((n, v) :: hs)) with (header_line n v ++ print_headers hs).
  unfold header_line at 1. rewrite !length_app. cbn [length]. lia.
Qed.

Lemma prop_lines_length ls : (length ls <= length (concat (dump_line <$> ls)))%nat.
Proof.
  induction ls as [|l ls IH]; [done|]. cbn [fmap list_fmap concat length].
  rewrite length_app. assert (0 < length (dump_line l))%nat; [|lia].
  destruct l; cbn [dump_line property_dump property_del_dump]; rewrite !length_app;
    cbn [length]; lia.
Qed.

(** The body that belongs to a node. *)
Definition props_text (i : node_info) : bytes := from_option prop_block [] (ni_props i).
Definition info_body (i : node_info) : bytes := props_text i ++ default [] (ni_text i).

Lemma read_prop_part_body fuel hs i :
  header_get PROP_CONTENT_LENGTH hs
    = (λ ls, dec (Z.of_nat (length (prop_block ls)))) <$> ni_props i →
  (∀ ls, ni_props i = Some ls → Forall line_ok ls ∧ (length ls < fuel)%nat) →
  read_prop_part fuel hs (info_body i) = Some (ni_props i, default [] (ni_text i)).
Proof.
  intros Hlen Hls. unfold read_prop_part, info_body, props_text. rewrite Hlen.
  destruct (ni_props i) as [ls|]; [|done]. cbn [fmap option_fmap option_map from_option].
  destruct (Hls ls eq_refl) as [Hok Hf]. rewrite undec_dec, Nat2Z.id by lia.
  rewrite take_app_length, drop_app_length. unfold prop_block.
  rewrite <-(app_nil_r PROPS_END), parse_props_dump by done. done.
Qed.

Lemma read_text_part_body hs i :
  header_get TEXT_CONTENT_LENGTH hs = (λ t, dec (Z.of_nat (length t))) <$> ni_text i →
  read_text_part hs (default [] (ni_text i)) = Some (ni_text i).
Proof.
  intros Hlen. unfold read_text_part. rewrite Hlen. destruct (ni_text i) as [t|]; [|done].
  simpl. rewrite undec_dec by lia. by rewrite Z.eqb_refl.
Qed.

(** A node record is read back from headers that agree with it. *)
Lemma read_node_print n hs i rest :
  hs ≠ [] → Forall header_ok hs →
  header_get NODE_PATH hs = Some (ni_path i) →
  header_get NODE_ACTION hs = Some (ni_action i) →
  header_get NODE_KIND hs = ni_kind i →
  read_copy_part hs = ni_copyfrom i →
  header_get PROP_CONTENT_LENGTH hs
    = (λ ls, dec (Z.of_nat (length (prop_block ls)))) <$> ni_props i →
  header_get TEXT_CONTENT_LENGTH hs = (λ t, dec (Z.of_nat (length t))) <$> ni_text i →
  Z.of_nat (length (info_body i)) = undec (default [] (header_get CONTENT_LENGTH hs)) →
  (∀ ls, ni_props i = Some ls → Forall line_ok ls) →
  read_node (replicate n nl ++ print_headers hs ++ [nl] ++ info_body i ++ rest) = Some (i, rest).
Proof.
  intros Hne Hhs Hpath Haction Hkind Hcopy Hprops Htext Hlen Hls. unfold read_node.
  pose proof (print_headers_length hs).
  rewrite read_record_print; [|done..|rewrite !length_app; lia|done].
  cbn [mbind option_bind]. rewrite Hpath, Haction. cbn [mbind option_bind].
  rewrite read_prop_part_body; [|done|].
  - cbn [mbind option_bind]. rewrite read_text_part_body, Hkind, Hcopy by done. by destruct i.
  - intros ls Hi. split; [by apply Hls|]. pose proof (prop_lines_length ls).
    unfold info_body, props_text. rewrite Hi. cbn [from_option]. unfold prop_block.
    rewrite !length_app. lia.
Qed.

Lemma header_get_if name (b : bool) hs :
  header_get name (if b then hs else []) = if b then header_get name hs else None.
Proof. by destruct b. Qed.

Lemma if_none {A} (b : bool) : (if b then None else None) = @None A.
Proof. by destruct b. Qed.

(** Looks a constant name up in a list of headers with constant names. *)
Ltac header_tac :=
  repeat (progress (rewrite ?header_get_app, ?header_get_if; cbn [header_get app]));
  repeat match goal with
    | |- context [decide (?a = ?a)] => rewrite (decide_True (P := a = a)) by reflexivity
    | |- context [decide (?a = ?b)] =>
        rewrite (decide_False (P := a = b))
          by (let Heq := fresh in intros Heq; vm_compute in Heq; discriminate Heq)
    end;
  rewrite ?if_none.

(** ** Sequences of nodes *)

(** The stream [b] holds the nodes [is] in front of [rest], up to empty lines. *)
Fixpoint reads (l : list node_info) (b rest : bytes) : Prop :=
  match l with
  | [] => skip_newlines b = skip_newlines rest
  | i :: l => ∃ b', read_node b = Some (i, b') ∧ reads l b' rest
  end.

Lemma reads_newline l b rest : reads l b (nl :: rest) ↔ reads l b rest.
Proof. revert b. induction l as [|i l IH]; intros b; simpl; [done|]. by setoid_rewrite IH. Qed.
