(* ===== verification/Stream.v ===== *)
(** Dump files as sequences of records: the reader of DumpFormat.v extended to whole files, and
    outputs that are made of records one after the other. *)
From S2P Require Import Prelude Property DumpFormat.

Open Scope Z_scope.

(** * Revision records *)

(** The header block of a revision. *)
Definition rev_headers (rev len : Z) : headers :=
  [(REVISION_NUMBER, dec rev); (PROP_CONTENT_LENGTH, dec len); (CONTENT_LENGTH, dec len)].

Definition rev_body (ls : list prop_line) : bytes := match ls with [] => [] | _ => prop_block ls end.

Lemma rev_headers_ok rev len : 0 <= rev → 0 <= len → Forall header_ok (rev_headers rev len).
Proof.
  intros Hrev Hlen. repeat constructor; cbn [fst snd]; try done; try eval_decide;
    by apply dec_no_nl.
Qed.

(** A reader of revision records. *)
Definition read_revision (b : bytes) : option (Z * list prop_line * bytes) :=
  '(hs, body, rest) ← read_record (S (length b)) b;
  rev ← header_get REVISION_NUMBER hs;
  plen ← header_get PROP_CONTENT_LENGTH hs;
  if undec plen =? Z.of_nat (length body) then
    if decide (body = []) then Some (undec rev, [], rest)
    else
      '(ls, tail) ← parse_props (S (length body)) body;
      if decide (tail = []) then Some (undec rev, ls, rest) else None
  else None.

Lemma read_revision_print k rev ls rest :
  0 <= rev → Forall line_ok ls →
  read_revision (replicate k nl ++ print_headers (rev_headers rev (Z.of_nat (length (rev_body ls)))) ++ [nl] ++
                 rev_body ls ++ rest) = Some (rev, ls, rest).
Proof.
  intros Hrev Hls. set (hs := rev_headers _ _). unfold read_revision.
  pose proof (print_headers_length hs) as Hhs.
  rewrite (read_record_print _ k hs (rev_body ls) rest); [|done|apply rev_headers_ok; lia| |].
  - cbn [mbind option_bind]. unfold hs, rev_headers. header_tac. cbn [mbind option_bind].
    rewrite !undec_dec, Z.eqb_refl by lia. destruct ls as [|l ls]; [done|].
    cbn [rev_body]. rewrite decide_False by (unfold prop_block; intros [_ Hn]%app_nil; discriminate).
    pose proof (prop_lines_length (l :: ls)). unfold prop_block at 1 2.
    rewrite <-(app_nil_r PROPS_END), parse_props_dump; [done|done|].
    rewrite !length_app. lia.
  - rewrite !length_app. lia.
  - unfold hs, rev_headers. header_tac. change (default [] (Some ?x)) with x. by rewrite undec_dec by lia.
Qed.

(** * Records of a file *)

(** What a record of a dump file says. *)
Inductive dump_item :=
  | VersionItem (version : Z)
  | UuidItem (uuid : bytes)
  | RevisionItem (rev : Z) (props : list prop_line)
  | NodeItem (node : node_info).

(** The kind of a record is told by its headers. *)
Definition read_item (b : bytes) : option (dump_item * bytes) :=
  '(hs, _, rest) ← read_record (S (length b)) b;
  match header_get MAGIC_HEADER hs, header_get UUID_HEADER hs, header_get REVISION_NUMBER hs with
  | Some version, _, _ => Some (VersionItem (undec version), rest)
  | None, Some uuid, _ => Some (UuidItem uuid, rest)
  | None, None, Some _ =>
      '(rev, props, rest) ← read_revision b; Some (RevisionItem rev props, rest)
  | None, None, None => '(node, rest) ← read_node b; Some (NodeItem node, rest)
  end.

(** Reads a whole file. *)
Fixpoint read_items (fuel : nat) (b : bytes) : option (list dump_item) :=
  match fuel with
  | O => None
  | S fuel =>
      if decide (skip_newlines b = []) then Some []
      else '(i, b) ← read_item b; l ← read_items fuel b; Some (i :: l)
  end.

Definition read_dump (b : bytes) : option (list dump_item) := read_items (S (length b)) b.

(** ** Outputs made of records *)

(** [c] is the record of [i]: it can be read behind empty lines and in front of anything, and
    nothing but empty lines is left of it. *)
Definition chunk (i : dump_item) (c : bytes) : Prop :=
  skip_newlines c ≠ [] ∧
  ∀ k rest, ∃ j, read_item (replicate k nl ++ c ++ rest) = Some (i, replicate j nl ++ rest).

Definition stream (l : list dump_item) (out : bytes) : Prop :=
  ∃ cs, out = concat cs ∧ Forall2 chunk l cs.

Lemma stream_nil : stream [] [].
Proof. by exists []. Qed.

Lemma stream_app l1 l2 out1 out2 : stream l1 out1 → stream l2 out2 → stream (l1 ++ l2) (out1 ++ out2).
Proof.
  intros (cs1 & -> & H1) (cs2 & -> & H2). exists (cs1 ++ cs2).
  split; [by rewrite concat_app|by apply Forall2_app].
Qed.

Lemma stream_chunk i c : chunk i c → stream [i] c.
Proof. intros Hc. exists [c]. split; [simpl; by rewrite app_nil_r|by constructor]. Qed.

Lemma skip_newlines_head b c : skip_newlines b = [] → skip_newlines (b ++ c) = skip_newlines c.
Proof. induction b as [|x b IH]; [done|]. simpl. case_decide; [done|discriminate]. Qed.

Lemma skip_newlines_app_ne b c : skip_newlines b ≠ [] → skip_newlines (b ++ c) ≠ [].
Proof. induction b as [|x b IH]; [done|]. simpl. case_decide; [done|discriminate]. Qed.

Lemma read_items_stream fuel k l cs :
  Forall2 chunk l cs → (length l < fuel)%nat →
  read_items fuel (replicate k nl ++ concat cs) = Some l.
Proof.
  intros Hl. revert fuel k. induction Hl as [|i c l cs [Hne Hc] _ IH]; intros [|fuel] k Hf;
    simpl in Hf; try lia; cbn [read_items].
  - rewrite decide_True; [done|]. by rewrite skip_newlines_app.
  - rewrite decide_False.
    2:{ rewrite skip_newlines_app. by apply skip_newlines_app_ne. }
    cbn [concat]. destruct (Hc k (concat cs)) as [j ->]. cbn [mbind option_bind].
    rewrite IH by lia. done.
Qed.

Lemma chunks_length l cs : Forall2 chunk l cs → (length l <= length (concat cs))%nat.
Proof.
  induction 1 as [|i c l cs [Hne _] _ IH]; [done|]. cbn [concat length]. rewrite length_app.
  destruct c; [done|]. simpl. lia.
Qed.

(** Such an output is read completely. *)
Lemma read_dump_stream l out : stream l out → read_dump out = Some l.
Proof.
  intros (cs & -> & Hl). apply (read_items_stream _ 0); [done|].
  pose proof (chunks_length _ _ Hl). lia.
Qed.

(** ** Records *)

Lemma print_headers_ne h hs c :
  header_ok h → skip_newlines (print_headers (h :: hs) ++ c) ≠ [].
Proof.
  destruct h as [n v]. intros (Hn & Hnl & _ & _). simpl in Hn, Hnl.
  rewrite print_headers_cons. unfold header_line. destruct n as [|x n]; [done|]. simpl.
  rewrite decide_False by set_solver. done.
Qed.

(** A record with headers that tell its kind. *)
Lemma read_item_head k hs body rest :
  hs ≠ [] → Forall header_ok hs →
  Z.of_nat (length body) = undec (default [] (header_get CONTENT_LENGTH hs)) →
  read_item (replicate k nl ++ print_headers hs ++ [nl] ++ body ++ rest) =
    match header_get MAGIC_HEADER hs, header_get UUID_HEADER hs, header_get REVISION_NUMBER hs with
    | Some version, _, _ => Some (VersionItem (undec version), rest)
    | None, Some uuid, _ => Some (UuidItem uuid, rest)
    | None, None, Some _ =>
        '(rev, props, rest) ←
          read_revision (replicate k nl ++ print_headers hs ++ [nl] ++ body ++ rest);
        Some (RevisionItem rev props, rest)
    | None, None, None =>
        '(node, rest) ← read_node (replicate k nl ++ print_headers hs ++ [nl] ++ body ++ rest);
        Some (NodeItem node, rest)
    end.
Proof.
  intros Hne Hhs Hlen. unfold read_item. pose proof (print_headers_length hs).
  rewrite read_record_print; [done|done|done| |done]. rewrite !length_app. lia.
Qed.

(** A record with [n] empty lines behind it. *)
Lemma chunk_record i hs body n :
  hs ≠ [] → Forall header_ok hs →
  (∀ k rest, read_item (replicate k nl ++ print_headers hs ++ [nl] ++ body ++ rest)
     = Some (i, rest)) →
  chunk i (print_headers hs ++ [nl] ++ body ++ replicate n nl).
Proof.
  intros Hne Hhs Hr. split.
  - destruct hs as [|h hs]; [done|]. apply print_headers_ne. by inversion Hhs.
  - intros k rest. exists n. rewrite <-!app_assoc. apply Hr.
Qed.

Lemma chunk_version v :
  0 <= v → chunk (VersionItem v) (header_line MAGIC_HEADER (dec v) ++ [nl]).
Proof.
  intros Hv. set (hs := [(MAGIC_HEADER, dec v)]).
  assert (Forall header_ok hs) as Hhs
    by (repeat constructor; cbn [fst snd]; try done; try eval_decide; by apply dec_no_nl).
  replace (header_line MAGIC_HEADER (dec v) ++ [nl])
    with (print_headers hs ++ [nl] ++ [] ++ replicate 0 nl)
    by (unfold hs; by rewrite print_headers_cons, print_headers_nil, app_nil_r).
  apply chunk_record; [done|done|]. intros k rest. rewrite read_item_head by done.
  unfold hs. header_tac. by rewrite undec_dec.
Qed.

Lemma chunk_uuid u : nl ∉ u → chunk (UuidItem u) (str "UUID: " ++ u ++ [nl; nl]).
Proof.
  intros Hu. set (hs := [(UUID_HEADER, u)]).
  assert (Forall header_ok hs) as Hhs
    by (repeat constructor; cbn [fst snd]; try done; eval_decide).
  replace (str "UUID: " ++ u ++ [nl; nl]) with (print_headers hs ++ [nl] ++ [] ++ replicate 0 nl).
  2:{ unfold hs. rewrite print_headers_cons, print_headers_nil. unfold header_line.
      rewrite <-!app_assoc. done. }
  apply chunk_record; [done|done|]. intros k rest. rewrite read_item_head by done.
  unfold hs. header_tac. done.
Qed.

(** Revision records, with [n] empty lines behind them. *)
Lemma chunk_revision rev ls n :
  0 <= rev → Forall line_ok ls →
  chunk (RevisionItem rev ls)
    (print_headers (rev_headers rev (Z.of_nat (length (rev_body ls)))) ++ [nl] ++ rev_body ls ++
     replicate n nl).
Proof.
  intros Hrev Hls. set (len := Z.of_nat _).
  assert (Forall header_ok (rev_headers rev len)) as Hhs by (apply rev_headers_ok; lia).
  apply chunk_record; [done|done|]. intros k rest. rewrite read_item_head; [|done|done|].
  - unfold len. rewrite read_revision_print by done. unfold rev_headers. header_tac. done.
  - unfold rev_headers. header_tac. change (default [] (Some ?x)) with x.
    by rewrite undec_dec by lia.
Qed.

(** Node records. *)
Lemma chunk_node hs i n :
  hs ≠ [] → Forall header_ok hs →
  header_get MAGIC_HEADER hs = None → header_get UUID_HEADER hs = None →
  header_get REVISION_NUMBER hs = None →
  Z.of_nat (length (info_body i)) = undec (default [] (header_get CONTENT_LENGTH hs)) →
  (∀ k rest, read_node (replicate k nl ++ print_headers hs ++ [nl] ++ info_body i ++ rest)
     = Some (i, rest)) →
  chunk (NodeItem i) (print_headers hs ++ [nl] ++ info_body i ++ replicate n nl).
Proof.
  intros Hne Hhs H1 H2 H3 Hlen Hr. apply chunk_record; [done|done|]. intros k rest.
  rewrite read_item_head by done. by rewrite H1, H2, H3, Hr.
Qed.
