(* ===== verification/Loader.v ===== *)
(** A reference loader of node records: what a consumer of the dump does to its tree of paths.

    Not a part of the program.  A tree maps paths (relative to the root, with slashes between the
    names) to directories with properties and files with properties and a text.  A record that
    does not fit the tree is an error: a path can only be added below a directory and where there
    is nothing, only what is there can be changed or deleted, and only what was there in an
    earlier revision can be copied, with everything below it.  Property deltas and text deltas
    are left out. *)
From S2P Require Import Prelude Property DumpFormat Stream.

Open Scope Z_scope.

(** * Trees *)

Inductive entry := Dir (props : prop_hash) | File (props : prop_hash) (text : bytes).

#[export] Instance entry_eq_dec : EqDecision entry.
Proof. solve_decision. Defined.

Abbreviation tree := (gmap bytes entry).

Definition entry_props (e : entry) : prop_hash := match e with Dir props | File props _ => props end.

(** Everything in front of the last slash. *)
Fixpoint parent_dir (p : bytes) : bytes :=
  match p with
  | [] => []
  | c :: p => if decide (slash ∈ p) then c :: parent_dir p else []
  end.

(** The path of a child of a directory; the root is the empty path. *)
Definition child (dir name : bytes) : bytes :=
  match dir with [] => name | _ => dir ++ slash :: name end.

(** The root is always there. *)
Definition is_dir (t : tree) (p : bytes) : bool :=
  match p with
  | [] => true
  | _ => match t !! p with Some (Dir _) => true | _ => false end
  end.

(** [q] is below the directory [p]. *)
Definition inside (p q : bytes) : bool := bool_decide (p ++ [slash] `prefix_of` q).

(** What follows [p] in [q], when [q] is [p] or below it. *)
Definition suffix_of (p q : bytes) : option bytes :=
  if decide (p `prefix_of` q) then
    let r := drop (length p) q in
    if decide (r = [] ∨ head r = Some slash) then Some r else None
  else None.

(** Without a path and what is below it. *)
Definition remove (p : bytes) (t : tree) : tree :=
  filter (λ kv, kv.1 ≠ p ∧ inside p (kv.1) = false) t.

(** The tree [t] with a copy of what is at [src] and below it in [s], in the place of [dst]. *)
Definition graft (src : bytes) (s : tree) (dst : bytes) (t : tree) : tree :=
  map_fold (λ q e acc, match suffix_of src q with
                       | Some r => <[dst ++ r := e]> acc | None => acc
                       end) (remove dst t) s.

(** * Records *)

(** The properties of a block of property lines. *)
Definition apply_line (m : prop_hash) (l : prop_line) : prop_hash :=
  match l with PropSet k v => <[k := v]> m | PropDel k => delete k m end.

Definition lines_props (ls : list prop_line) : prop_hash := foldl apply_line ∅ ls.

(** A new directory or file, before the contents of its record are seen. *)
Definition new_entry (kind : option bytes) : option entry :=
  k ← kind;
  if decide (k = str "dir") then Some (Dir ∅)
  else if decide (k = str "file") then Some (File ∅ [])
  else None.

(** The properties and the text of a record replace those of the entry, if the record has them. *)
Definition load_entry (e : entry) (i : node_info) : option entry :=
  let props := default (entry_props e) (lines_props <$> ni_props i) in
  k ← ni_kind i;
  match e with
  | Dir _ => if decide (k = str "dir") then Some (Dir props) else None
  | File _ text => if decide (k = str "file") then Some (File props (default text (ni_text i))) else None
  end.

(** [past] are the trees of earlier revisions. *)
Definition load_add (past : gmap Z tree) (t : tree) (i : node_info) : option tree :=
  let p := ni_path i in
  if decide (t !! p = None ∧ is_dir t (parent_dir p) = true) then
    match ni_copyfrom i with
    | None => e ← new_entry (ni_kind i); e ← load_entry e i; Some (<[p := e]> t)
    | Some (rev, src) =>
        s ← past !! rev; e ← s !! src; e ← load_entry e i; Some (<[p := e]> (graft src s p t))
    end
  else None.

Definition load_node (past : gmap Z tree) (t : tree) (i : node_info) : option tree :=
  let p := ni_path i in
  if decide (ni_action i = str "add") then load_add past t i
  else if decide (is_Some (ni_copyfrom i)) then None
  else if decide (ni_action i = str "change") then
    e ← t !! p; e ← load_entry e i; Some (<[p := e]> t)
  else if decide (ni_action i = str "delete") then
    _ ← t !! p; Some (remove p t)
  else None.

Fixpoint load_nodes (past : gmap Z tree) (t : tree) (l : list node_info) : option tree :=
  match l with
  | [] => Some t
  | i :: l => t ← load_node past t i; load_nodes past t l
  end.

(** * Dump files *)

(** A revision: its number, its properties and the tree. *)
Record version := mk_version { vs_number : Z; vs_props : prop_hash; vs_tree : tree }.

(** The revision that has been opened, if there is one, ends with the tree that it has now. *)
Definition close_version (open : option (Z * prop_hash)) (t : tree) : list version :=
  match open with Some (n, props) => [mk_version n props t] | None => [] end.

Definition close_past (open : option (Z * prop_hash)) (t : tree) (past : gmap Z tree) : gmap Z tree :=
  match open with Some (n, _) => <[n := t]> past | None => past end.

(** Nodes belong to a revision, and what describes the file stands in front of all revisions. *)
Fixpoint load_items (past : gmap Z tree) (open : option (Z * prop_hash)) (t : tree)
    (l : list dump_item) : option (list version) :=
  match l with
  | [] => Some (close_version open t)
  | RevisionItem n ls :: l =>
      vs ← load_items (close_past open t past) (Some (n, lines_props ls)) t l;
      Some (close_version open t ++ vs)
  | NodeItem i :: l =>
      if decide (open = None) then None else t ← load_node past t i; load_items past open t l
  | VersionItem _ :: l | UuidItem _ :: l =>
      if decide (open = None) then load_items past None t l else None
  end.

Definition load_dump (b : bytes) : option (list version) :=
  l ← read_dump b; load_items ∅ None ∅ l.

(** * Lemmas *)

Lemma load_items_nodes past open t nodes t' l :
  open ≠ None → load_nodes past t nodes = Some t' →
  load_items past open t ((NodeItem <$> nodes) ++ l) = load_items past open t' l.
Proof.
  intros Hopen. revert t. induction nodes as [|i nodes IH]; intros t Hl; [by injection Hl as ->|].
  cbn [fmap list_fmap app load_items]. rewrite decide_False by done. cbn [load_nodes] in Hl.
  destruct (load_node past t i) as [t1|]; [by apply IH|done].
Qed.

Lemma load_nodes_app past t l1 l2 :
  load_nodes past t (l1 ++ l2) = load_nodes past t l1 ≫= λ t, load_nodes past t l2.
Proof.
  revert t. induction l1 as [|i l1 IH]; intros t; [done|]. cbn [load_nodes app].
  destruct (load_node past t i); [apply IH|done].
Qed.

(** Paths are made of names. *)
Record good_name (name : bytes) : Prop := {
  gn_ne : name ≠ [];
  gn_slash : slash ∉ name;
  gn_nl : nl ∉ name;
  gn_cstr : cstr name
}.

#[export] Instance good_name_dec name : Decision (good_name name).
Proof.
  destruct (decide (name ≠ [] ∧ slash ∉ name ∧ nl ∉ name ∧ cstr name)) as [Hn|Hn].
  - left. destruct Hn as (? & ? & ? & ?). by constructor.
  - right. intros [? ? ? ?]. by apply Hn.
Defined.

Lemma child_cons dir name : dir ≠ [] → child dir name = dir ++ slash :: name.
Proof. by destruct dir. Qed.

Lemma child_longer dir name : good_name name → (length dir < length (child dir name))%nat.
Proof.
  intros [Hne _ _ _]. destruct dir as [|c dir]; [|simpl; rewrite length_app; simpl; lia].
  destruct name; [done|simpl; lia].
Qed.

Lemma child_nl dir name : good_name name → nl ∉ dir → nl ∉ child dir name.
Proof.
  intros [_ _ Hn _] Hd. destruct dir as [|c dir]; [done|]. rewrite child_cons by done.
  apply not_elem_of_app. split; [done|]. by apply not_elem_of_cons.
Qed.

Lemma child_cstr dir name : good_name name → cstr dir → cstr (child dir name).
Proof.
  intros [_ _ _ Hn] Hd. destruct dir as [|c dir]; [done|]. rewrite child_cons by done.
  apply cstr_app. split; [done|]. by apply cstr_cons.
Qed.

Lemma child_ne dir name : good_name name → child dir name ≠ [slash].
Proof.
  intros [Hne Hs _ _] Hc. destruct dir as [|c dir]; [simpl in Hc; subst; set_solver|].
  assert (length (child (c :: dir) name) = 1%nat) as Hl by (by rewrite Hc).
  simpl in Hl. rewrite length_app in Hl. simpl in Hl. lia.
Qed.

Lemma parent_dir_plain p : slash ∉ p → parent_dir p = [].
Proof. intros Hp. destruct p as [|c p]; [done|]. simpl. rewrite decide_False; [done|set_solver]. Qed.

Lemma parent_dir_app dir name : slash ∉ name → parent_dir (dir ++ slash :: name) = dir.
Proof.
  intros Hn. induction dir as [|c dir IH]; simpl.
  - by rewrite decide_False.
  - rewrite IH, decide_True; [done|]. rewrite elem_of_app. right. left.
Qed.

Lemma parent_dir_child dir name : good_name name → parent_dir (child dir name) = dir.
Proof.
  intros [_ Hs _ _]. destruct dir as [|c dir]; [by apply parent_dir_plain|].
  rewrite child_cons by done. by apply parent_dir_app.
Qed.

Lemma inside_longer p q : inside p q = true → (length p < length q)%nat.
Proof.
  unfold inside. rewrite bool_decide_eq_true. intros Hp%prefix_length. rewrite length_app in Hp.
  simpl in Hp. lia.
Qed.

Lemma lookup_remove p t q : t !! q = None → remove p t !! q = None.
Proof. intros Hq. apply map_lookup_filter_None. by left. Qed.

Lemma lookup_remove_self p t : remove p t !! p = None.
Proof. apply map_lookup_filter_None. right. simpl. intros e _ [? _]. done. Qed.

Lemma lookup_remove_Some p t q e : remove p t !! q = Some e → q ≠ p ∧ t !! q = Some e.
Proof. unfold remove. rewrite map_lookup_filter_Some. simpl. tauto. Qed.

(** What is not longer than a removed path is still there. *)
Lemma lookup_remove_short p t q : (length q <= length p)%nat → q ≠ p → remove p t !! q = t !! q.
Proof.
  intros Hl Hne. destruct (t !! q) as [e|] eqn:He; [|by apply lookup_remove].
  apply map_lookup_filter_Some. simpl. split; [done|]. split; [done|].
  destruct (inside p q) eqn:Hi; [|done]. apply inside_longer in Hi. lia.
Qed.

(** The lines of a property table, in any order, give the table. *)
Lemma apply_sets (l : list (bytes * bytes)) (m : prop_hash) :
  NoDup l.*1 → foldl apply_line m ((λ kv, PropSet (kv.1) (kv.2)) <$> l) = list_to_map l ∪ m.
Proof.
  revert m. induction l as [|[k v] l IH]; intros m Hnd; [simpl; by rewrite map_empty_union|].
  apply NoDup_cons in Hnd as [Hk Hnd]. cbn [fmap list_fmap foldl apply_line]. rewrite IH by done.
  simpl. rewrite <-insert_union_l. symmetry. apply insert_union_r. by apply not_elem_of_list_to_map.
Qed.

(** ** Copies *)

Lemma suffix_of_Some p q r : suffix_of p q = Some r ↔ q = p ++ r ∧ (r = [] ∨ head r = Some slash).
Proof.
  unfold suffix_of. split.
  - case_decide as Hp; [|done]. destruct Hp as [k ->]. rewrite drop_app_length. case_decide; [|done].
    by intros [= <-].
  - intros [-> Hr]. rewrite decide_True by by apply prefix_app_r. rewrite drop_app_length.
    by rewrite decide_True.
Qed.

Lemma suffix_of_self p : suffix_of p p = Some [].
Proof. apply suffix_of_Some. rewrite app_nil_r. auto. Qed.

Lemma suffix_of_app p r : r = [] ∨ head r = Some slash → suffix_of p (p ++ r) = Some r.
Proof. intros Hr. by apply suffix_of_Some. Qed.

Lemma suffix_of_inside p q : is_Some (suffix_of p q) ↔ q = p ∨ inside p q = true.
Proof.
  unfold inside. rewrite bool_decide_eq_true. split.
  - intros [r [-> Hr]%suffix_of_Some]. destruct r as [|c r]; [left; by rewrite app_nil_r|right].
    destruct Hr as [?|[= ->]]; [done|]. exists r. by rewrite <-app_assoc.
  - intros [->|[k ->]]; [rewrite suffix_of_self; by eexists|].
    exists (slash :: k). apply suffix_of_Some. rewrite <-app_assoc. auto.
Qed.

Lemma suffix_of_short p q : (length q < length p)%nat → suffix_of p q = None.
Proof.
  intros Hl. destruct (suffix_of p q) as [r|] eqn:Hr; [|done]. apply suffix_of_Some in Hr as [-> _].
  rewrite length_app in Hl. lia.
Qed.

Lemma lookup_remove_suffix p t q : remove p t !! q = if decide (suffix_of p q = None) then t !! q else None.
Proof.
  unfold remove. rewrite map_lookup_filter. case_decide as Hs.
  - destruct (t !! q) as [e|] eqn:He; [|done]. simpl. rewrite option_guard_True; [done|].
    split.
    + intros ->. by rewrite suffix_of_self in Hs.
    + destruct (inside p q) eqn:Hi; [|done].
      assert (is_Some (suffix_of p q)) as [r Hr] by (apply suffix_of_inside; auto). congruence.
  - destruct (t !! q) as [e|]; [|done]. simpl. rewrite option_guard_False; [done|].
    intros [Hne Hi]. apply Hs. destruct (suffix_of p q) eqn:Hr; [|done].
    assert (q = p ∨ inside p q = true) as [?|?] by (apply suffix_of_inside; by eexists); congruence.
Qed.

(** Below the copy is what is below the source, everything else stays. *)
Lemma lookup_graft src s dst t q :
  graft src s dst t !! q = match suffix_of dst q with Some r => s !! (src ++ r) | None => t !! q end.
Proof.
  unfold graft. apply (map_fold_weak_ind (λ acc m, acc !! q =
    match suffix_of dst q with Some r => m !! (src ++ r) | None => t !! q end)).
  - rewrite lookup_remove_suffix. destruct (suffix_of dst q); [by rewrite decide_False|by rewrite decide_True].
  - intros p e m acc Hp Hacc. destruct (suffix_of src p) as [r|] eqn:Hr.
    + apply suffix_of_Some in Hr as [-> Hr]. destruct (decide (q = dst ++ r)) as [->|Hne].
      * by rewrite suffix_of_app, !lookup_insert_eq by done.
      * rewrite lookup_insert_ne, Hacc by done. destruct (suffix_of dst q) as [r'|] eqn:Hq; [|done].
        apply suffix_of_Some in Hq as [-> _]. rewrite lookup_insert_ne; [done|].
        intros Heq%app_inv_head. by subst.
    + rewrite Hacc. destruct (suffix_of dst q) as [r'|] eqn:Hq; [|done].
      apply suffix_of_Some in Hq as [-> Hr']. rewrite lookup_insert_ne; [done|]. intros ->.
      by rewrite suffix_of_app in Hr.
Qed.
