(* ===== verification/Delta.v ===== *)
(** The delta editor of src/delta.c: node batons, copy and action checks, and the output of
    nodes.

    Node batons point to their parent and their children and are entered in tables by address,
    so the model keeps them in a store and passes their addresses around.  The tables
    [delta_hash] and [md5_hash] are represented by the maps they implement (Rhash.v), temporary
    files by a map from names to contents, and the standard output by what has been written to
    it.  The functions run in a state and error monad: undefined behaviour, a returned
    [svn_error_t], or a result. *)
From S2P Require Import Prelude Interfaces Utils Types Copyfrom Property PropStore PathRepo.
From S2P Require Import Session DumpFormat.

Open Scope Z_scope.

(** * Data *)

(** [cp_info_t] *)
Definition CPI_NONE : Z := 1.
Definition CPI_COPY : Z := 2.
Definition CPI_FAILED : Z := 4.
Definition CPI_FAILED_OUTSIDE : Z := 20.

(** [de_node_baton_t], less the pointer to the editor baton and the pool. *)
Record de_node := mk_node {
  n_path : bytes;
  n_filename : option bytes;
  n_old_filename : option bytes;
  n_delta_filename : option bytes;
  n_action : ascii;
  n_kind : svn_node_kind;
  n_properties : gmap bytes bytes;
  n_del_properties : gset bytes;
  n_md5sum : bytes;
  n_copyfrom_path : option bytes;
  n_copyfrom_revision : Z;
  n_copyfrom_rev_local : Z;
  n_cp_info : Z;
  n_applied_delta : bool;
  n_dump_needed : bool;
  n_props_changed : bool;
  n_parent : option nat;
  n_children : list nat
}.

(** Assignments to the fields of a node. *)
Definition set_filename (n : de_node) (v : option bytes) : de_node :=
  mk_node (n_path n) v (n_old_filename n) (n_delta_filename n) (n_action n) (n_kind n)
    (n_properties n) (n_del_properties n) (n_md5sum n) (n_copyfrom_path n)
    (n_copyfrom_revision n) (n_copyfrom_rev_local n) (n_cp_info n) (n_applied_delta n)
    (n_dump_needed n) (n_props_changed n) (n_parent n) (n_children n).
Definition set_old_filename (n : de_node) (v : option bytes) : de_node :=
  mk_node (n_path n) (n_filename n) v (n_delta_filename n) (n_action n) (n_kind n)
    (n_properties n) (n_del_properties n) (n_md5sum n) (n_copyfrom_path n)
    (n_copyfrom_revision n) (n_copyfrom_rev_local n) (n_cp_info n) (n_applied_delta n)
    (n_dump_needed n) (n_props_changed n) (n_parent n) (n_children n).
Definition set_delta_filename (n : de_node) (v : option bytes) : de_node :=
  mk_node (n_path n) (n_filename n) (n_old_filename n) v (n_action n) (n_kind n)
    (n_properties n) (n_del_properties n) (n_md5sum n) (n_copyfrom_path n)
    (n_copyfrom_revision n) (n_copyfrom_rev_local n) (n_cp_info n) (n_applied_delta n)
    (n_dump_needed n) (n_props_changed n) (n_parent n) (n_children n).
Definition set_action (n : de_node) (v : ascii) : de_node :=
  mk_node (n_path n) (n_filename n) (n_old_filename n) (n_delta_filename n) v (n_kind n)
    (n_properties n) (n_del_properties n) (n_md5sum n) (n_copyfrom_path n)
    (n_copyfrom_revision n) (n_copyfrom_rev_local n) (n_cp_info n) (n_applied_delta n)
    (n_dump_needed n) (n_props_changed n) (n_parent n) (n_children n).
Definition set_kind (n : de_node) (v : svn_node_kind) : de_node :=
  mk_node (n_path n) (n_filename n) (n_old_filename n) (n_delta_filename n) (n_action n) v
    (n_properties n) (n_del_properties n) (n_md5sum n) (n_copyfrom_path n)
    (n_copyfrom_revision n) (n_copyfrom_rev_local n) (n_cp_info n) (n_applied_delta n)
    (n_dump_needed n) (n_props_changed n) (n_parent n) (n_children n).
Definition set_properties (n : de_node) (v : gmap bytes bytes) : de_node :=
  mk_node (n_path n) (n_filename n) (n_old_filename n) (n_delta_filename n) (n_action n)
    (n_kind n) v (n_del_properties n) (n_md5sum n) (n_copyfrom_path n)
    (n_copyfrom_revision n) (n_copyfrom_rev_local n) (n_cp_info n) (n_applied_delta n)
    (n_dump_needed n) (n_props_changed n) (n_parent n) (n_children n).
Definition set_del_properties (n : de_node) (v : gset bytes) : de_node :=
  mk_node (n_path n) (n_filename n) (n_old_filename n) (n_delta_filename n) (n_action n)
    (n_kind n) (n_properties n) v (n_md5sum n) (n_copyfrom_path n) (n_copyfrom_revision n)
    (n_copyfrom_rev_local n) (n_cp_info n) (n_applied_delta n) (n_dump_needed n)
    (n_props_changed n) (n_parent n) (n_children n).
Definition set_md5sum (n : de_node) (v : bytes) : de_node :=
  mk_node (n_path n) (n_filename n) (n_old_filename n) (n_delta_filename n) (n_action n)
    (n_kind n) (n_properties n) (n_del_properties n) v (n_copyfrom_path n)
    (n_copyfrom_revision n) (n_copyfrom_rev_local n) (n_cp_info n) (n_applied_delta n)
    (n_dump_needed n) (n_props_changed n) (n_parent n) (n_children n).
Definition set_copyfrom_path (n : de_node) (v : option bytes) : de_node :=
  mk_node (n_path n) (n_filename n) (n_old_filename n) (n_delta_filename n) (n_action n)
    (n_kind n) (n_properties n) (n_del_properties n) (n_md5sum n) v (n_copyfrom_revision
    n) (n_copyfrom_rev_local n) (n_cp_info n) (n_applied_delta n) (n_dump_needed n)
    (n_props_changed n) (n_parent n) (n_children n).
Definition set_copyfrom_revision (n : de_node) (v : Z) : de_node :=
  mk_node (n_path n) (n_filename n) (n_old_filename n) (n_delta_filename n) (n_action n)
    (n_kind n) (n_properties n) (n_del_properties n) (n_md5sum n) (n_copyfrom_path n) v
    (n_copyfrom_rev_local n) (n_cp_info n) (n_applied_delta n) (n_dump_needed n)
    (n_props_changed n) (n_parent n) (n_children n).
Definition set_copyfrom_rev_local (n : de_node) (v : Z) : de_node :=
  mk_node (n_path n) (n_filename n) (n_old_filename n) (n_delta_filename n) (n_action n)
    (n_kind n) (n_properties n) (n_del_properties n) (n_md5sum n) (n_copyfrom_path n)
    (n_copyfrom_revision n) v (n_cp_info n) (n_applied_delta n) (n_dump_needed n)
    (n_props_changed n) (n_parent n) (n_children n).
Definition set_cp_info (n : de_node) (v : Z) : de_node :=
  mk_node (n_path n) (n_filename n) (n_old_filename n) (n_delta_filename n) (n_action n)
    (n_kind n) (n_properties n) (n_del_properties n) (n_md5sum n) (n_copyfrom_path n)
    (n_copyfrom_revision n) (n_copyfrom_rev_local n) v (n_applied_delta n) (n_dump_needed
    n) (n_props_changed n) (n_parent n) (n_children n).
Definition set_applied_delta (n : de_node) (v : bool) : de_node :=
  mk_node (n_path n) (n_filename n) (n_old_filename n) (n_delta_filename n) (n_action n)
    (n_kind n) (n_properties n) (n_del_properties n) (n_md5sum n) (n_copyfrom_path n)
    (n_copyfrom_revision n) (n_copyfrom_rev_local n) (n_cp_info n) v (n_dump_needed n)
    (n_props_changed n) (n_parent n) (n_children n).
Definition set_dump_needed (n : de_node) (v : bool) : de_node :=
  mk_node (n_path n) (n_filename n) (n_old_filename n) (n_delta_filename n) (n_action n)
    (n_kind n) (n_properties n) (n_del_properties n) (n_md5sum n) (n_copyfrom_path n)
    (n_copyfrom_revision n) (n_copyfrom_rev_local n) (n_cp_info n) (n_applied_delta n) v
    (n_props_changed n) (n_parent n) (n_children n).
Definition set_props_changed (n : de_node) (v : bool) : de_node :=
  mk_node (n_path n) (n_filename n) (n_old_filename n) (n_delta_filename n) (n_action n)
    (n_kind n) (n_properties n) (n_del_properties n) (n_md5sum n) (n_copyfrom_path n)
    (n_copyfrom_revision n) (n_copyfrom_rev_local n) (n_cp_info n) (n_applied_delta n)
    (n_dump_needed n) v (n_parent n) (n_children n).
Definition set_children (n : de_node) (v : list nat) : de_node :=
  mk_node (n_path n) (n_filename n) (n_old_filename n) (n_delta_filename n) (n_action n)
    (n_kind n) (n_properties n) (n_del_properties n) (n_md5sum n) (n_copyfrom_path n)
    (n_copyfrom_revision n) (n_copyfrom_rev_local n) (n_cp_info n) (n_applied_delta n)
    (n_dump_needed n) (n_props_changed n) (n_parent n) v.

(** [de_baton_t] and the static tables, with the components it points to; the read-only parts
    are in [de_env]. *)
Record de_state (T : Type) := mk_de {
  d_nodes : gmap nat de_node;
  d_next : nat;
  d_dumped : gmap bytes nat;
  d_root : option nat;
  d_repo : path_repo T;
  d_props : property_storage T;
  d_delta_hash : gmap bytes bytes;
  d_md5_hash : gmap bytes bytes;
  d_files : gmap bytes bytes;
  d_temp : nat;
  d_session : session;
  d_out : bytes
}.
Arguments mk_de {T}.
Arguments d_nodes {T}.
Arguments d_next {T}.
Arguments d_dumped {T}.
Arguments d_root {T}.
Arguments d_repo {T}.
Arguments d_props {T}.
Arguments d_delta_hash {T}.
Arguments d_md5_hash {T}.
Arguments d_files {T}.
Arguments d_temp {T}.
Arguments d_session {T}.
Arguments d_out {T}.

Definition put_nodes {T} (d : de_state T) (v : gmap nat de_node) : de_state T :=
  mk_de v (d_next d) (d_dumped d) (d_root d) (d_repo d) (d_props d) (d_delta_hash d)
    (d_md5_hash d) (d_files d) (d_temp d) (d_session d) (d_out d).
Definition put_dumped {T} (d : de_state T) (v : gmap bytes nat) : de_state T :=
  mk_de (d_nodes d) (d_next d) v (d_root d) (d_repo d) (d_props d) (d_delta_hash d)
    (d_md5_hash d) (d_files d) (d_temp d) (d_session d) (d_out d).
Definition put_root {T} (d : de_state T) (v : option nat) : de_state T :=
  mk_de (d_nodes d) (d_next d) (d_dumped d) v (d_repo d) (d_props d) (d_delta_hash d)
    (d_md5_hash d) (d_files d) (d_temp d) (d_session d) (d_out d).
Definition put_repo {T} (d : de_state T) (v : path_repo T) : de_state T :=
  mk_de (d_nodes d) (d_next d) (d_dumped d) (d_root d) v (d_props d) (d_delta_hash d)
    (d_md5_hash d) (d_files d) (d_temp d) (d_session d) (d_out d).
Definition put_props {T} (d : de_state T) (v : property_storage T) : de_state T :=
  mk_de (d_nodes d) (d_next d) (d_dumped d) (d_root d) (d_repo d) v (d_delta_hash d)
    (d_md5_hash d) (d_files d) (d_temp d) (d_session d) (d_out d).
Definition put_delta_hash {T} (d : de_state T) (v : gmap bytes bytes) : de_state T :=
  mk_de (d_nodes d) (d_next d) (d_dumped d) (d_root d) (d_repo d) (d_props d) v
    (d_md5_hash d) (d_files d) (d_temp d) (d_session d) (d_out d).
Definition put_md5_hash {T} (d : de_state T) (v : gmap bytes bytes) : de_state T :=
  mk_de (d_nodes d) (d_next d) (d_dumped d) (d_root d) (d_repo d) (d_props d)
    (d_delta_hash d) v (d_files d) (d_temp d) (d_session d) (d_out d).
Definition put_files {T} (d : de_state T) (v : gmap bytes bytes) : de_state T :=
  mk_de (d_nodes d) (d_next d) (d_dumped d) (d_root d) (d_repo d) (d_props d)
    (d_delta_hash d) (d_md5_hash d) v (d_temp d) (d_session d) (d_out d).
Definition put_temp {T} (d : de_state T) (v : nat) : de_state T :=
  mk_de (d_nodes d) (d_next d) (d_dumped d) (d_root d) (d_repo d) (d_props d)
    (d_delta_hash d) (d_md5_hash d) (d_files d) v (d_session d) (d_out d).
Definition put_session {T} (d : de_state T) (v : session) : de_state T :=
  mk_de (d_nodes d) (d_next d) (d_dumped d) (d_root d) (d_repo d) (d_props d)
    (d_delta_hash d) (d_md5_hash d) (d_files d) (d_temp d) v (d_out d).
Definition put_out {T} (d : de_state T) (v : bytes) : de_state T :=
  mk_de (d_nodes d) (d_next d) (d_dumped d) (d_root d) (d_repo d) (d_props d)
    (d_delta_hash d) (d_md5_hash d) (d_files d) (d_temp d) (d_session d) v.

(** [session], [opts], [logs], [log_revision] and [local_revnum] of the editor baton. *)
Record de_env := mk_env {
  v_prefix : bytes;               (* session->prefix *)
  v_opts : dump_options;
  v_logs : list log_revision;
  v_log_revision : log_revision;
  v_local_revnum : Z
}.

(** * The monad *)

Inductive outcome (St A : Type) :=
  | UB
  | Fail (d : St) (message : bytes)
  | Done (d : St) (x : A).
Arguments UB {St A}.
Arguments Fail {St A}.
Arguments Done {St A}.

Definition M (St A : Type) : Type := St → outcome St A.

#[export] Instance M_ret St : MRet (M St) := λ A x d, Done d x.
#[export] Instance M_bind St : MBind (M St) := λ A B k m d,
  match m d with
  | UB => UB
  | Fail d msg => Fail d msg
  | Done d x => k x d
  end.

Definition ub {St A} : M St A := λ _, UB.
Definition fail {St A} (msg : string) : M St A := λ d, Fail d (str msg).
Definition get {St} : M St St := λ d, Done d d.
Definition modify {St} (f : St → St) : M St unit := λ d, Done (f d) tt.
(** A definite value, or undefined behaviour. *)
Definition lift {St A} (x : option A) : M St A := λ d, match x with Some a => Done d a | None => UB end.
Definition when {St} (b : bool) (m : M St unit) : M St unit := if b then m else mret tt.

Section delta.
Context `{HashIter} {T : Type} `{KV T} `{Codec}.

(** The random numbers and the bound on obfuscation attempts. *)
Variables (rand : nat → Z) (fuel : nat).
(** Functions of APR and the Subversion libraries. *)
Variables (apr_md5 : bytes → option bytes) (svn_path_dirname : bytes → bytes)
  (svn_md5_digest_to_cstring : bytes → bytes) (svn_property_regular : bytes → bool).
(** [svn_txdelta] followed by [svn_txdelta_to_svndiff2], on source and target. *)
Variable svndiff : bytes → bytes → bytes.
(** Whether the [n]-th temporary file can be created. *)
Variable temp_ok : nat → bool.
(** The values of uninitialised fields. *)
Variables (uninit_kind : svn_node_kind) (uninit_rev : Z).

Variable env : de_env.

Abbreviation D := (M (de_state T)).

(** * Nodes *)

Definition node_get (id : nat) : D de_node := d ← get; lift (d_nodes d !! id).

Definition node_upd (id : nat) (f : de_node → de_node) : D unit :=
  n ← node_get id; modify (λ d, put_nodes d (<[id := f n]> (d_nodes d))).

Definition emit (s : bytes) : D unit := modify (λ d, put_out d (d_out d ++ s)).

Definition no_md5 : bytes := replicate 16 nul.

(** Allocates a node and returns its address. *)
Definition node_alloc (n : de_node) : D nat := λ d,
  Done (mk_de (<[d_next d := n]> (d_nodes d)) (S (d_next d)) (d_dumped d) (d_root d) (d_repo d)
          (d_props d) (d_delta_hash d) (d_md5_hash d) (d_files d) (d_temp d) (d_session d)
          (d_out d)) (d_next d).

Definition delta_create_node (path : bytes) (parent : nat) : D nat :=
  p ← node_get parent;
  id ← node_alloc (mk_node path None None None nul uninit_kind ∅ ∅ no_md5 None 0 uninit_rev
                     (n_cp_info p) false false false (Some parent) []);
  _ ← node_upd parent (λ p, set_children p (n_children p ++ [id]));
  mret id.

Definition delta_create_node_no_parent (path : bytes) : D nat :=
  node_alloc (mk_node path None None None nul uninit_kind ∅ ∅ no_md5 None uninit_rev uninit_rev
                CPI_NONE false false false None []).

Definition delta_mark_node (id : nat) : D unit :=
  n ← node_get id;
  _ ← modify (λ d, put_dumped d (<[n_path n := id]> (d_dumped d)));
  _ ← when (bool_decide (n_kind n = svn_node_file))
        (modify (λ d, put_md5_hash d (<[n_path n := n_md5sum n]> (d_md5_hash d))));
  node_upd id (λ n, set_dump_needed n false).

(** * Copies *)

Definition whole_history : bool :=
  (length (v_prefix env) =? 0)%nat &&
  ((do_start (v_opts env) =? 0) || has_flag (v_opts env) DF_INCREMENTAL).

(** The new copy information of a node. *)
Definition check_copy (n : de_node) : de_node :=
  let opts := v_opts env in
  if (n_cp_info n =? CPI_COPY) && bool_decide (n_copyfrom_path n = None) then n
  else if negb (Z.land (n_cp_info n) CPI_FAILED =? 0) then n
  else
    match n_copyfrom_path n with
    | None => set_cp_info n CPI_NONE
    | Some copyfrom =>
        if whole_history then
          set_cp_info (set_copyfrom_rev_local n (n_copyfrom_revision n)) CPI_COPY
        else if (has_flag opts DF_INCREMENTAL || (do_start opts <=? n_copyfrom_revision n)) &&
                strncmp_eq (v_prefix env) copyfrom (length (v_prefix env)) then
          let rev := delta_get_local_copyfrom_rev (n_copyfrom_revision n) opts (v_logs env)
                       (v_local_revnum env) in
          if 0 <? rev then set_cp_info (set_copyfrom_rev_local n rev) CPI_COPY
          else set_cp_info n CPI_FAILED
        else set_cp_info n CPI_FAILED_OUTSIDE
    end.

Definition delta_check_copy (id : nat) : D unit := node_upd id check_copy.

(** Queries of the path repository. *)
Definition repo_check_parent (parent child : bytes) (revision : Z) : D Z := λ d,
  match path_repo_check_parent (d_repo d) parent child revision with
  | None => UB
  | Some (repo, ret) => Done (put_repo d repo) ret
  end.

Definition repo_exists (path : bytes) (revision : Z) : D Z := λ d,
  match path_repo_exists (d_repo d) path revision with
  | None => UB
  | Some (repo, ret) => Done (put_repo d repo) ret
  end.

(** The loop over the parents: [true] when it leaves the function. *)
Fixpoint check_parents (k : nat) (id : nat) (parent : option nat) : D bool :=
  match k, parent with
  | O, _ => ub
  | _, None => mret false
  | S k, Some pid =>
      p ← node_get pid;
      if n_cp_info p =? CPI_FAILED_OUTSIDE then
        _ ← node_upd id (λ n, set_action n "A"%char); mret false
      else
        match n_copyfrom_path p with
        | Some pcopy =>
            if n_cp_info p =? CPI_COPY then
              n ← node_get id;
              copyfrom_path ← lift (delta_get_local_copyfrom_path (v_prefix env) pcopy);
              let relpath := skip_slashes (drop (length (n_path p)) (n_path n)) in
              check ← repo_check_parent copyfrom_path relpath (n_copyfrom_rev_local p);
              if check <? 0 then fail "Failed to check parent relationship"
              else
                _ ← when (check =? 0) (node_upd id (λ n, set_action n "A"%char));
                mret true
            else check_parents k id (n_parent p)
        | None => check_parents k id (n_parent p)
        end
  end.

Definition delta_check_action (id : nat) : D unit :=
  n ← node_get id;
  if bool_decide (n_action n ≠ "R"%char ∧ n_action n ≠ "M"%char) then mret tt
  else if whole_history then mret tt
  else
    d ← get;
    done ← check_parents (S (size (d_nodes d))) id (n_parent n);
    if (done : bool) then mret tt
    else
      n ← node_get id;
      _ ← when (negb (Z.land (n_cp_info n) CPI_FAILED =? 0) &&
                bool_decide (n_action n = "R"%char))
        (let ppath := svn_path_dirname (n_path n) in
         let relpath := skip_slashes (drop (length ppath) (n_path n)) in
         check ← repo_check_parent ppath relpath (v_local_revnum env - 1);
         if check <? 0 then fail "Failed to check parent relationship"
         else when (check =? 0) (node_upd id (λ n, set_action n "A"%char)));
      n ← node_get id;
      _ ← when (bool_decide (n_action n = "M"%char) && (0 <? v_local_revnum env))
        (check ← repo_exists (n_path n) (v_local_revnum env - 1);
         if check <? 0 then fail "Failed to check parent relationship"
         else when (check =? 0) (node_upd id (λ n, set_action n "A"%char)));
      node_upd id (λ n,
        if bool_decide (n_path n = [slash] ∧ n_action n = "A"%char)
        then set_action n "M"%char else n).

(** [strchr] from an offset. *)
Fixpoint strchr_from (k : nat) (s : bytes) (c : ascii) : option nat :=
  match s with
  | [] => None
  | d :: s =>
      match k with
      | O => if decide (d = c) then Some 0%nat else S <$> strchr_from 0 s c
      | S k => S <$> strchr_from k s c
      end
  end.

(** The loop over the directory levels of [check_path]: [Some true] when every level is a child of
    the one before. *)
Fixpoint check_levels (k : nat) (check_path : bytes) (base : nat) (revision : Z) : D bool :=
  match k with
  | O => ub
  | S k =>
      match strchr_from base check_path slash with
      | None => mret true
      | Some i =>
          let b := S i in
          let tmp := default (length check_path) (strchr_from b check_path slash) in
          check ← repo_check_parent (take i check_path) (take (tmp - b) (drop b check_path))
                    revision;
          if check <? 0 then fail "Failed to propagate copy information"
          else if negb (check =? 0) then check_levels k check_path b revision
          else mret false
      end
  end.

(** The closest node up the tree that has copy information of its own. *)
Fixpoint copied_parent (k : nat) (id : option nat) : D (option de_node) :=
  match k, id with
  | O, _ => ub
  | _, None => mret None
  | S k, Some id =>
      p ← node_get id;
      match n_copyfrom_path p with
      | Some _ => mret (Some p)
      | None => copied_parent k (n_parent p)
      end
  end.

Definition delta_propagate_copy (parent child : nat) : D unit :=
  p ← node_get parent;
  c ← node_get child;
  if negb (n_cp_info p =? CPI_COPY) then
    node_upd child (λ c, set_cp_info c (n_cp_info p))
  else if negb (strncmp_eq (n_path p) (n_path c) (length (n_path p))) then mret tt
  else
    d ← get;
    cp ← copied_parent (S (size (d_nodes d))) (Some parent);
    match cp with
    | None => node_upd child (λ c, set_cp_info c (n_cp_info p))
    | Some cp =>
        copyfrom ← lift (n_copyfrom_path cp);
        match delta_get_local_copyfrom_path (v_prefix env) copyfrom with
        | None => node_upd child (λ c, set_cp_info c CPI_NONE)
        | Some path =>
            let revision := delta_get_local_copyfrom_rev (n_copyfrom_revision cp) (v_opts env)
                              (v_logs env) (v_local_revnum env) in
            let child_relpath := skip_slashes (drop (length (n_path cp)) (n_path c)) in
            let check_path := path ++ [slash] ++ child_relpath in
            ok ← check_levels (S (length check_path)) check_path 0 revision;
            node_upd child (λ c, set_cp_info c (if (ok : bool) then CPI_COPY else CPI_NONE))
        end
    end.

(** * Output *)

(** [utils_mkstemp] with the template [<temp_dir>/<sub>/XXXXXX]: a new empty file. *)
Definition mkstemp (sub : string) : D (option bytes) := λ d,
  let name := default [] (do_temp_dir (v_opts env)) ++ str "/" ++ str sub ++ str "/"
              ++ dec (Z.of_nat (d_temp d)) in
  let d' := put_temp d (S (d_temp d)) in
  if temp_ok (d_temp d) then Done (put_files d' (<[name := []]> (d_files d'))) (Some name)
  else Done d' None.

(** The contents of a file that must exist. *)
Definition read_file (name : bytes) : D bytes :=
  d ← get;
  match d_files d !! name with
  | Some b => mret b
  | None => fail "Unable to open file"
  end.

Definition remove_file (name : bytes) : D unit :=
  modify (λ d, put_files d (delete name (d_files d))).

Definition delta_deltify_node (id : nat) : D unit :=
  n ← node_get id;
  filename ← lift (n_filename n);
  target ← read_file filename;
  source ← match n_old_filename n with Some f => read_file f | None => mret [] end;
  dest ← mkstemp "df";
  match dest with
  | None => fail "Unable to create temporary file"
  | Some name =>
      _ ← node_upd id (λ n, set_delta_filename n (Some name));
      modify (λ d, put_files d (<[name := svndiff source target]> (d_files d)))
  end.

Definition delta_cat_file (path : bytes) : D unit := b ← read_file path; emit b.

(** The path of a node with the user prefix. *)
Definition prefixed (path : bytes) : bytes :=
  match do_prefix (v_opts env) with Some p => p ++ path | None => path end.

(** The properties that are dumped: those that are not deleted. *)
Definition dumped_props (n : de_node) : list (bytes * bytes) :=
  filter (λ kv, kv.1 ∉ n_del_properties n) (hash_iter (n_properties n)).

(** The deleted ones, in the iteration order of their table. *)
Definition dumped_deletions (n : de_node) : list bytes :=
  if do_dump_format (v_opts env) =? 3
  then (hash_iter (set_to_map (λ k, (k, tt)) (n_del_properties n))).*1 else [].

Definition prop_length (n : de_node) : Z :=
  foldr (λ kv len, property_strlen (Some (kv.1)) (Some (kv.2)) + len) 0 (dumped_props n)
  + foldr (λ k len, property_del_strlen (Some k) + len) 0 (dumped_deletions n).

(** [goto finish] *)
Definition dump_finish (id : nat) : D unit :=
  _ ← emit [nl; nl];
  _ ← delta_mark_node id;
  n ← node_get id;
  match n_old_filename n with Some f => remove_file f | None => mret tt end.

Definition action_name (a : ascii) : bytes :=
  if decide (a = "M"%char) then str "change" ++ [nl]
  else if decide (a = "A"%char) then str "add" ++ [nl]
  else if decide (a = "D"%char) then str "delete" ++ [nl]
  else if decide (a = "R"%char) then str "replace" ++ [nl] else [].

(** The copy lines; the result tells whether the contents are dumped. *)
Definition dump_copy (n : de_node) (dump_content : bool) : D bool :=
  copyfrom ← lift (n_copyfrom_path n);
  copyfrom_path ← lift (delta_get_local_copyfrom_path (v_prefix env) copyfrom);
  _ ← emit (header_line NODE_COPYFROM_REV (dec (n_copyfrom_rev_local n)));
  _ ← emit (header_line NODE_COPYFROM_PATH (prefixed copyfrom_path));
  d ← get;
  mret (if bool_decide (n_action n = "A"%char ∧ n_kind n = svn_node_file)
        then negb (bool_decide (d_md5_hash d !! copyfrom_path = Some (n_md5sum n)))
        else dump_content).

(** The file that is printed. *)
Definition content_path (n : de_node) : option bytes :=
  if has_flag (v_opts env) DF_USE_DELTAS then n_delta_filename n else n_filename n.

(** The headers of the text; returns its length. *)
Definition dump_text_headers (n : de_node) (dump_content : bool) : D Z :=
  if dump_content then
    fpath ← lift (content_path n);
    content ← read_file fpath;
    let content_len := Z.of_nat (length content) in
    _ ← when (has_flag (v_opts env) DF_USE_DELTAS) (emit (header_line TEXT_DELTA (str "true")));
    _ ← emit (header_line TEXT_CONTENT_LENGTH (dec content_len));
    _ ← when (negb (bool_decide (head (n_md5sum n) = Some nul)))
          (emit (header_line TEXT_CONTENT_MD5 (svn_md5_digest_to_cstring (n_md5sum n))));
    mret content_len
  else mret 0.

Definition dump_text (n : de_node) : D unit :=
  fpath ← lift (content_path n);
  _ ← delta_cat_file fpath;
  when (has_flag (v_opts env) DF_USE_DELTAS) (remove_file fpath).

(** From the deltification on. *)
Definition dump_body (id : nat) (dump_content dump_props : bool) : D unit :=
  let opts := v_opts env in
  _ ← when (dump_content && has_flag opts DF_USE_DELTAS) (delta_deltify_node id);
  n ← node_get id;
  let prop_len := prop_length n in
  let dump_props := dump_props || (0 <? prop_len) in
  _ ← when (dump_props && (do_dump_format opts =? 3)) (emit (header_line PROP_DELTA (str "true")));
  let prop_len := if dump_props then prop_len + PROPS_END_LEN else prop_len in
  _ ← when dump_props (emit (header_line PROP_CONTENT_LENGTH (dec prop_len)));
  content_len ← dump_text_headers n dump_content;
  _ ← emit (header_line CONTENT_LENGTH (dec (prop_len + content_len)) ++ [nl]);
  _ ← when dump_props
        (emit (concat ((λ kv, property_dump (Some (kv.1)) (Some (kv.2))) <$> dumped_props n) ++
               concat ((λ k, property_del_dump (Some k)) <$> dumped_deletions n) ++ PROPS_END));
  _ ← when dump_content (dump_text n);
  dump_finish id.

(** The part of [delta_dump_node] behind the special handling of replacements. *)
Definition dump_checked (id : nat) : D unit :=
  n ← node_get id;
  _ ← emit (header_line NODE_PATH (prefixed (n_path n)));
  _ ← when (bool_decide (n_action n ≠ "D"%char))
        (emit (header_line NODE_KIND (if decide (n_kind n = svn_node_file) then str "file"
                                      else str "dir")));
  _ ← emit (NODE_ACTION ++ str ": " ++ action_name (n_action n));
  if bool_decide (n_action n = "D"%char) then dump_finish id
  else
    let dump_content := bool_decide (n_kind n = svn_node_file) && n_applied_delta n in
    let dump_props := n_props_changed n || bool_decide (n_action n = "A"%char) in
    if (n_cp_info n =? CPI_COPY) && bool_decide (n_copyfrom_path n ≠ None) then
      dump_content ← dump_copy n dump_content;
      if negb dump_content && negb (n_props_changed n) then dump_finish id
      else dump_body id (dump_content && negb (bool_decide (n_kind n = svn_node_dir))) dump_props
    else dump_body id dump_content dump_props.

(** Why a node is not dumped at all. *)
Definition dump_skipped (n : de_node) : bool :=
  has_flag (v_opts env) DF_INITIAL_DRY_RUN
  || (bool_decide (n_action n = "M"%char ∧ n_kind n = svn_node_dir) && negb (n_props_changed n))
  || ((n_cp_info n =? CPI_COPY) &&
      bool_decide (n_action n = "A"%char ∧ n_copyfrom_path n = None)).

(** [delta_dump_node] with [delta_dump_replace] in its place; the latter turns the action into
    ['A'], so that the recursion is at most one call deep. *)
Fixpoint delta_dump_node (k : nat) (id : nat) : D unit :=
  match k with
  | O => ub
  | S k =>
      n ← node_get id;
      if negb (n_dump_needed n) then mret tt
      else if dump_skipped n then node_upd id (λ n, set_dump_needed n false)
      else
        _ ← delta_check_copy id;
        _ ← delta_check_action id;
        n ← node_get id;
        if bool_decide (n_action n = "R"%char) then
          (* delta_dump_replace *)
          _ ← emit (header_line NODE_PATH (prefixed (n_path n)));
          _ ← emit (header_line NODE_ACTION (str "delete"));
          _ ← emit [nl; nl];
          _ ← node_upd id (λ n, set_action (set_cp_info n CPI_NONE) "A"%char);
          delta_dump_node k id
        else dump_checked id
  end.

(** Runs [f] on every element of a list. *)
Fixpoint for_each (l : list nat) (f : nat → D unit) : D unit :=
  match l with
  | [] => mret tt
  | x :: l => _ ← f x; for_each l f
  end.

(** [k] bounds the depth of the node tree. *)
Fixpoint delta_dump_node_recursive (k : nat) (id : nat) : D unit :=
  match k with
  | O => ub
  | S k =>
      n ← node_get id;
      _ ← when (bool_decide (n_action n ≠ "D"%char)) (delta_dump_node 2 id);
      n ← node_get id;
      _ ← for_each (n_children n) (λ child,
            _ ← delta_propagate_copy id child;
            delta_dump_node_recursive k child);
      n ← node_get id;
      when (bool_decide (n_action n = "D"%char)) (delta_dump_node 2 id)
  end.

(** * Editor callbacks *)

Definition obfuscate (path : bytes) : D bytes := λ d,
  match session_obfuscate rand fuel (d_session d) (Some path) with
  | Some (se, Some p) => Done (put_session d se) p
  | _ => UB
  end.

Definition storage_delete (path : bytes) : D unit := λ d,
  match property_delete (d_props d) path with
  | Some (ps, _) => Done (put_props d ps) tt
  | None => UB
  end.

Definition not_dry_run : bool := negb (has_flag (v_opts env) DF_INITIAL_DRY_RUN).

Definition repo_add (path : bytes) : D unit := λ d,
  let '(repo, ret) := path_repo_add (d_repo d) path in
  if negb (ret =? 0) then Fail (put_repo d repo) (str "Unable to update local tree history")
  else Done (put_repo d repo) tt.

Definition repo_delete (path : bytes) : D unit := λ d,
  match path_repo_delete (d_repo d) path with
  | None => UB
  | Some (repo, ret) =>
      if negb (ret =? 0) then Fail (put_repo d repo) (str "Unable to update local tree history")
      else Done (put_repo d repo) tt
  end.

Definition de_set_target_revision : D unit := mret tt.

Definition de_open_root : D nat :=
  id ← delta_create_node_no_parent [slash];
  _ ← node_upd id (λ n, set_action n "M"%char);
  _ ← modify (λ d, put_root d (Some id));
  mret id.

(** [!strncmp(node->path, npath, pathlen) && npath[pathlen] == '/'] *)
Definition below (path npath : bytes) : bool :=
  strncmp_eq path npath (length path) && bool_decide (npath !! length path = Some slash).

(** [rhash_this] does not set [filename], so that removing the file of an entry below the deleted
    path uses an uninitialised pointer. *)
Definition de_delete_entry (path : bytes) (parent : nat) : D unit :=
  path ← obfuscate path;
  id ← delta_create_node path parent;
  _ ← node_upd id (λ n, set_dump_needed (set_action (set_kind n svn_node_none) "D"%char) true);
  d ← get;
  _ ← (if existsb (λ kv, below path (kv.1)) (hash_iter (d_delta_hash d)) then ub else mret tt);
  _ ← modify (λ d, put_md5_hash d (filter (λ kv, below path (kv.1) = false) (d_md5_hash d)));
  _ ← storage_delete path;
  when not_dry_run (repo_delete path).

(** What [de_add_directory] and [de_add_file] take from the log: the action and the copy source. *)
Definition add_from_log (id : nat) (log : svn_log_changed_path) : D unit :=
  node_upd id (λ n,
    let n := set_action n (cp_action log) in
    match cp_copyfrom_path log with
    | Some p => set_copyfrom_revision (set_copyfrom_path n (Some p)) (cp_copyfrom_rev log)
    | None => n
    end).

Definition changed_path (path : bytes) : D (option svn_log_changed_path) :=
  cp ← lift (lr_changed_paths (v_log_revision env)); mret (cp !! path).

Definition de_add_directory (path : bytes) (parent : nat) : D nat :=
  path ← obfuscate path;
  id ← delta_create_node path parent;
  _ ← node_upd id (λ n, set_dump_needed (set_kind n svn_node_dir) true);
  log ← changed_path path;
  _ ← match log with
      | None => node_upd id (λ n, set_action n "A"%char)
      | Some log =>
          _ ← add_from_log id log;
          node_upd id (λ n, if Z.land (n_cp_info n) CPI_FAILED_OUTSIDE =? 0
                            then set_cp_info n CPI_NONE else n)
      end;
  _ ← when not_dry_run (repo_add path);
  mret id.

Definition storage_load (id : nat) : D unit := λ d,
  match d_nodes d !! id with
  | None => UB
  | Some n =>
      match property_load (d_props d) (n_path n) (n_properties n) with
      | None => UB
      | Some (ps, props, ret) =>
          let d := put_props (put_nodes d (<[id := set_properties n props]> (d_nodes d))) ps in
          if negb (ret =? 0) then Fail d (str "Unable to load properties") else Done d tt
      end
  end.

Definition storage_store (id : nat) : D unit := λ d,
  match d_nodes d !! id with
  | None => UB
  | Some n =>
      match property_store apr_md5 (d_props d) (n_path n) (n_properties n) with
      | None => UB
      | Some (ps, ret) =>
          if negb (ret =? 0) then Fail (put_props d ps) (str "Unable to store properties")
          else Done (put_props d ps) tt
      end
  end.

Definition de_open_directory (path : bytes) (parent : nat) : D nat :=
  path ← obfuscate path;
  id ← delta_create_node path parent;
  _ ← node_upd id (λ n, set_action (set_kind n svn_node_dir) "M"%char);
  _ ← storage_load id;
  mret id.

(** [de_change_dir_prop] and [de_change_file_prop]; a NULL value is a deletion. *)
Definition de_change_prop (id : nat) (name : bytes) (value : option bytes) : D unit :=
  if negb (svn_property_regular name) then mret tt
  else
    node_upd id (λ n,
      let n := match value with
               | Some v => set_properties n (<[name := v]> (n_properties n))
               | None => set_del_properties n ({[name]} ∪ n_del_properties n)
               end in
      set_dump_needed (set_props_changed n true) true).

Definition de_close_directory (id : nat) : D unit := storage_store id.

Definition de_absent (path : bytes) : D unit := _ ← obfuscate path; mret tt.

Definition de_add_file (path : bytes) (parent : nat) : D nat :=
  path ← obfuscate path;
  id ← delta_create_node path parent;
  _ ← node_upd id (λ n, set_dump_needed (set_kind n svn_node_file) true);
  log ← changed_path path;
  _ ← match log with
      | None => node_upd id (λ n, set_action n "A"%char)
      | Some log =>
          _ ← add_from_log id log;
          node_upd id (λ n, if Z.land (n_cp_info n) CPI_FAILED =? 0
                            then set_cp_info n CPI_NONE else n)
      end;
  _ ← node_upd id (λ n, if Z.land (n_cp_info n) CPI_FAILED =? 0 then n
                        else set_action n "A"%char);
  _ ← when not_dry_run (repo_add path);
  mret id.

Definition de_open_file (path : bytes) (parent : nat) : D nat :=
  path ← obfuscate path;
  id ← delta_create_node path parent;
  _ ← node_upd id (λ n, set_action (set_kind n svn_node_file) "M"%char);
  _ ← storage_load id;
  mret id.

(** With the windows that are then sent to the handler: they turn the source text into
    [target source], whose digest is stored in the node. *)
Definition de_apply_textdelta (id : nat) (target : bytes → bytes) : D unit :=
  dest ← mkstemp "td";
  match dest with
  | None => fail "Unable to create temporary file"
  | Some name =>
      n ← node_get id;
      d ← get;
      let filename := d_delta_hash d !! n_path n in
      source ← match filename with None => mret [] | Some f => read_file f end;
      _ ← modify (λ d, put_files d (<[name := target source]> (d_files d)));
      _ ← modify (λ d, put_delta_hash d (<[n_path n := name]> (d_delta_hash d)));
      node_upd id (λ n,
        let n := set_old_filename (set_filename n (Some name)) filename in
        let n := set_md5sum n (default no_md5 (apr_md5 (target source))) in
        set_dump_needed (set_applied_delta n true) true)
  end.

Definition de_close_file (id : nat) : D unit := storage_store id.

(** The loop over the parent directories of a deleted path: whether one of them makes its dump
    superfluous. *)
Fixpoint parent_covers (k : nat) (parent : bytes) : D bool :=
  match k with
  | O => ub
  | S k =>
      if (length parent =? 0)%nat then mret false
      else
        d ← get;
        match d_dumped d !! parent with
        | None => parent_covers k (svn_path_dirname parent)
        | Some pid =>
            p ← node_get pid;
            if bool_decide (n_action p = "D"%char) then mret true
            else if negb (Z.land (n_cp_info p) CPI_FAILED =? 0) then mret true
            else parent_covers k (svn_path_dirname parent)
        end
  end.

Definition close_deleted (path : bytes) (log : svn_log_changed_path) : D unit :=
  let opts := v_opts env in
  d ← get;
  _ ← match d_delta_hash d !! path with
      | Some filename =>
          _ ← remove_file filename;
          modify (λ d, put_delta_hash d (delete path (d_delta_hash d)))
      | None => mret tt
      end;
  d ← get;
  match d_dumped d !! path with
  | Some _ => mret tt
  | None =>
      skip ← parent_covers (S (length path)) (svn_path_dirname path);
      skip ← (if negb skip && (1 <? do_start opts) &&
                 (lr_revision (v_log_revision env) =? do_start opts)
              then ret ← repo_exists path (v_local_revnum env); mret (ret =? 0)
              else mret skip);
      if (skip : bool) then mret tt
      else
        id ← delta_create_node_no_parent path;
        _ ← node_upd id (λ n, set_dump_needed (set_action (set_kind n svn_node_none)
                                                 (cp_action log)) true);
        delta_dump_node 2 id
  end.

Fixpoint close_all (l : list (bytes * svn_log_changed_path)) : D unit :=
  match l with
  | [] => mret tt
  | (path, log) :: l =>
      _ ← when (bool_decide (cp_action log = "D"%char)) (close_deleted path log);
      close_all l
  end.

Definition de_close_edit : D unit :=
  d ← get;
  root ← lift (d_root d);
  _ ← delta_dump_node_recursive (S (size (d_nodes d))) root;
  cp ← lift (lr_changed_paths (v_log_revision env));
  close_all (hash_iter cp).

Definition de_abort_edit : D unit := mret tt.

(** The calls an editor driver makes, with the batons it was given. *)
Inductive editor_call :=
  | SetTargetRevision
  | OpenRoot
  | DeleteEntry (path : bytes) (parent : nat)
  | AddDirectory (path : bytes) (parent : nat)
  | OpenDirectory (path : bytes) (parent : nat)
  | ChangeProp (node : nat) (name : bytes) (value : option bytes)
  | CloseDirectory (node : nat)
  | Absent (path : bytes)
  | AddFile (path : bytes) (parent : nat)
  | OpenFile (path : bytes) (parent : nat)
  | ApplyTextdelta (node : nat) (target : bytes → bytes)
  | CloseFile (node : nat)
  | CloseEdit
  | AbortEdit.

Definition editor_do (c : editor_call) : D unit :=
  match c with
  | SetTargetRevision => de_set_target_revision
  | OpenRoot => _ ← de_open_root; mret tt
  | DeleteEntry path parent => de_delete_entry path parent
  | AddDirectory path parent => _ ← de_add_directory path parent; mret tt
  | OpenDirectory path parent => _ ← de_open_directory path parent; mret tt
  | ChangeProp node name value => de_change_prop node name value
  | CloseDirectory node => de_close_directory node
  | Absent path => de_absent path
  | AddFile path parent => _ ← de_add_file path parent; mret tt
  | OpenFile path parent => _ ← de_open_file path parent; mret tt
  | ApplyTextdelta node target => de_apply_textdelta node target
  | CloseFile node => de_close_file node
  | CloseEdit => de_close_edit
  | AbortEdit => de_abort_edit
  end.

(** A drive ends with the first error. *)
Fixpoint editor_run (l : list editor_call) : D unit :=
  match l with
  | [] => mret tt
  | c :: l => _ ← editor_do c; editor_run l
  end.

(** A new baton; the repositories and the static tables live on. *)
Definition delta_setup_editor (d : de_state T) : de_state T :=
  mk_de ∅ 0 ∅ None (d_repo d) (d_props d) (d_delta_hash d) (d_md5_hash d) (d_files d)
    (d_temp d) (d_session d) (d_out d).

Definition delta_cleanup (d : de_state T) : de_state T :=
  put_md5_hash (put_delta_hash d ∅) ∅.

End delta.
