(* ===== verification/Edits.v ===== *)
(** Edits of a tree, as drives of the delta editor.

    Not a part of the program: a driver that sends the difference between two trees of paths
    (Loader.v) calls the editor in depth-first order.  An edit is such a traversal; what is copied
    from an earlier revision is sent as if it were new, and only the log tells.  An edit stands
    for a list of calls (with the batons that the editor hands out), for a list of changes, one for
    each call that opens or deletes an entry, and for a new tree. *)
From S2P Require Import Prelude Types Property DumpFormat Loader PathRepo Session Delta.

Open Scope Z_scope.

(** * Edits and calls *)

(** How a directory comes about: it was there, or it is new, or it was copied from a path of a
    revision, with everything below it. *)
Inductive how := Opened | Added | Copied (src : bytes) (rev : Z).

Definition is_added (h : how) : bool := match h with Opened => false | _ => true end.

Definition copy_of (h : how) : option (bytes * Z) :=
  match h with Copied src rev => Some (src, rev) | _ => None end.

(** The entries of one directory and what follows them: a forest of names.  A file is changed by a
    function from its old text to its new one, a new one may be a copy. *)
Inductive edits :=
  | EditEnd
  | EditDelete (name : bytes) (rest : edits)
  | EditDir (h : how) (name : bytes) (props : list (bytes * bytes)) (inner rest : edits)
  | EditAddFile (copy : option (bytes * Z)) (name : bytes) (props : list (bytes * bytes))
      (text : bytes) (rest : edits)
  | EditOpenFile (name : bytes) (props : list (bytes * bytes)) (delta : option (bytes → bytes))
      (rest : edits).

(** The number of nodes. *)
Fixpoint edit_size (e : edits) : nat :=
  match e with
  | EditEnd => 0
  | EditDelete _ r | EditAddFile _ _ _ _ r | EditOpenFile _ _ _ r => S (edit_size r)
  | EditDir _ _ _ inner r => S (edit_size inner + edit_size r)
  end.

Definition prop_calls (id : nat) (props : list (bytes * bytes)) : list editor_call :=
  (λ kv, ChangeProp id (kv.1) (Some (kv.2))) <$> props.

Definition text_calls (id : nat) (delta : option (bytes → bytes)) : list editor_call :=
  match delta with Some f => [ApplyTextdelta id f] | None => [] end.

(** The calls for the entries of the directory [dir], whose baton is [parent], when the next baton
    is [next]. *)
Fixpoint edit_calls (dir : bytes) (parent next : nat) (e : edits) : list editor_call :=
  match e with
  | EditEnd => []
  | EditDelete name r => DeleteEntry (child dir name) parent :: edit_calls dir parent (S next) r
  | EditDir h name props inner r =>
      (if is_added h then AddDirectory (child dir name) parent
       else OpenDirectory (child dir name) parent) ::
      prop_calls next props ++ edit_calls (child dir name) next (S next) inner ++
      CloseDirectory next :: edit_calls dir parent (S next + edit_size inner) r
  | EditAddFile copy name props text r =>
      AddFile (child dir name) parent :: prop_calls next props ++
      text_calls next (Some (λ _, text)) ++ CloseFile next :: edit_calls dir parent (S next) r
  | EditOpenFile name props delta r =>
      OpenFile (child dir name) parent :: prop_calls next props ++
      text_calls next delta ++ CloseFile next :: edit_calls dir parent (S next) r
  end.

(** A whole drive. *)
Definition edit_drive (e : edits) : list editor_call :=
  SetTargetRevision :: OpenRoot :: edit_calls [] 0 1 e ++ [CloseDirectory 0; CloseEdit].

(** * Changes *)

(** What happens to one path: [None] for a deletion, otherwise the entry it becomes; whether
    properties and text were sent; where it was copied from; and whether it is below what was
    copied. *)
Record change := mk_change {
  c_path : bytes;
  c_add : bool;
  c_entry : option entry;
  c_props : bool;
  c_text : bool;
  c_copy : option (bytes * Z);
  c_below : bool
}.

#[export] Instance change_eq_dec : EqDecision change.
Proof. solve_decision. Defined.

(** Copies of the root are left out. *)
Definition source_ok (src : bytes) (rev : Z) : Prop :=
  src ≠ [] ∧ head src ≠ Some slash ∧ nl ∉ src ∧ 0 <= rev.

#[export] Instance source_ok_dec src rev : Decision (source_ok src rev).
Proof. unfold source_ok. apply _. Defined.

Section changes.
(** Other properties are ignored by the editor. *)
Variable svn_property_regular : bytes → bool.

(** The trees of earlier revisions. *)
Variable past : gmap Z tree.

Definition set_props (sent : list (bytes * bytes)) (props : prop_hash) : prop_hash :=
  foldl (λ m kv, if svn_property_regular (kv.1) then <[kv.1 := kv.2]> m else m) props sent.

Definition props_sent (sent : list (bytes * bytes)) : bool :=
  existsb (λ kv, svn_property_regular (kv.1)) sent.

(** What was sent for a copy, which made [t'] of [t], is what the source was. *)
Definition copied_as (copy : option (bytes * Z)) (p : bytes) (t t' : tree) : bool :=
  match copy with
  | None => true
  | Some (src, rev) =>
      match past !! rev with
      | Some s => bool_decide (source_ok src rev ∧ t' = graft src s p t)
      | None => false
      end
  end.

(** The old properties of an entry; below a copy everything is new. *)
Definition dir_props (below : bool) (h : how) (old : option entry) : option prop_hash :=
  match h, old with
  | Opened, Some (Dir props) => if below then None else Some props
  | Added, None => Some ∅
  | Copied _ _, None => if below then None else Some ∅
  | _, _ => None
  end.

(** The changes of an edit and the new tree; [None] when the edit does not fit the tree.  [below]
    tells whether the directory was copied. *)
Fixpoint edit_changes (below : bool) (dir : bytes) (e : edits) (t : tree)
    : option (list change * tree) :=
  match e with
  | EditEnd => Some ([], t)
  | EditDelete name r =>
      if decide (good_name name ∧ below = false) then
        _ ← t !! child dir name;
        '(l, t) ← edit_changes below dir r (remove (child dir name) t);
        Some (mk_change (child dir name) false None false false None below :: l, t)
      else None
  | EditDir h name sent inner r =>
      let p := child dir name in
      if decide (good_name name) then
        props ← dir_props below h (t !! p);
        let new := Dir (set_props sent props) in
        '(l1, t1) ← edit_changes (below || bool_decide (copy_of h ≠ None)) p inner (<[p := new]> t);
        if copied_as (copy_of h) p t t1 then
          '(l2, t2) ← edit_changes below dir r t1;
          Some (mk_change p (is_added h) (Some new) (props_sent sent) false (copy_of h) below
                  :: l1 ++ l2, t2)
        else None
      else None
  | EditAddFile copy name sent text r =>
      let p := child dir name in
      let new := File (set_props sent ∅) text in
      if decide (good_name name ∧ t !! p = None ∧ (below = false ∨ copy = None) ∧
                 copied_as copy p t (<[p := new]> t) = true) then
        '(l, t) ← edit_changes below dir r (<[p := new]> t);
        Some (mk_change p true (Some new) (props_sent sent) true copy below :: l, t)
      else None
  | EditOpenFile name sent delta r =>
      let p := child dir name in
      if decide (good_name name ∧ below = false) then
        match t !! p with
        | Some (File props old) =>
            let new := File (set_props sent props) (from_option (λ f, f old) old delta) in
            '(l, t) ← edit_changes below dir r (<[p := new]> t);
            Some (mk_change p false (Some new) (props_sent sent) (bool_decide (is_Some delta)) None
                    below :: l, t)
        | _ => None
        end
      else None
  end.

(** ** The same as a relation *)

Inductive applies : bool → bytes → edits → tree → list change → tree → Prop :=
  | applies_end below dir t : applies below dir EditEnd t [] t
  | applies_delete dir name r (t : tree) e l t' :
      good_name name → t !! child dir name = Some e →
      applies false dir r (remove (child dir name) t) l t' →
      applies false dir (EditDelete name r) t
        (mk_change (child dir name) false None false false None false :: l) t'
  | applies_dir below dir h name sent inner r (t : tree) (props : prop_hash) l1 t1 l2 t2 :
      let p := child dir name in
      let new := Dir (set_props sent props) in
      good_name name → dir_props below h (t !! p) = Some props →
      applies (below || bool_decide (copy_of h ≠ None)) p inner (<[p := new]> t) l1 t1 →
      copied_as (copy_of h) p t t1 = true → applies below dir r t1 l2 t2 →
      applies below dir (EditDir h name sent inner r) t
        (mk_change p (is_added h) (Some new) (props_sent sent) false (copy_of h) below :: l1 ++ l2) t2
  | applies_add_file below dir copy name sent text r (t : tree) l t' :
      let p := child dir name in
      let new := File (set_props sent ∅) text in
      good_name name → t !! p = None → below = false ∨ copy = None →
      copied_as copy p t (<[p := new]> t) = true → applies below dir r (<[p := new]> t) l t' →
      applies below dir (EditAddFile copy name sent text r) t
        (mk_change p true (Some new) (props_sent sent) true copy below :: l) t'
  | applies_open_file dir name sent delta r (t : tree) (props : prop_hash) old l t' :
      let p := child dir name in
      let new := File (set_props sent props) (from_option (λ f, f old) old delta) in
      good_name name → t !! p = Some (File props old) → applies false dir r (<[p := new]> t) l t' →
      applies false dir (EditOpenFile name sent delta r) t
        (mk_change p false (Some new) (props_sent sent) (bool_decide (is_Some delta)) None false
           :: l) t'.

Lemma edit_changes_applies below dir e t l t' :
  edit_changes below dir e t = Some (l, t') → applies below dir e t l t'.
Proof.
  revert below dir t l t'. induction e as [|name r IH|h name sent inner IHi r IHr|
    copy name sent text r IH|name sent delta r IH]; intros below dir t l t' He; cbn [edit_changes] in He.
  - injection He as <- <-. constructor.
  - case_decide as Hn; [|done]. destruct Hn as [? ->]. apply bind_Some in He as (e & He' & He).
    apply bind_Some in He as ([l1 t1] & Hr & [= <- <-]). econstructor; eauto.
  - case_decide; [|done]. apply bind_Some in He as (props & Hp & He).
    apply bind_Some in He as ([l1 t1] & Hi & He). destruct (copied_as _ _ _ _) eqn:Hc; [|done].
    apply bind_Some in He as ([l2 t2] & Hr & [= <- <-]). econstructor; eauto.
  - case_decide as Hn; [|done]. destruct Hn as (? & ? & ? & ?).
    apply bind_Some in He as ([l1 t1] & Hr & [= <- <-]). econstructor; eauto.
  - case_decide as Hn; [|done]. destruct Hn as [? ->].
    destruct (t !! _) as [[|props old]|] eqn:Hp; [done| |done].
    apply bind_Some in He as ([l1 t1] & Hr & [= <- <-]). econstructor; eauto.
Qed.

Lemma applies_size below dir e t l t' : applies below dir e t l t' → length l = edit_size e.
Proof. induction 1; simpl; rewrite ?length_app; lia. Qed.

(** Paths that are not longer than the directory stay as they are. *)
Lemma applies_short below dir e t l t' q :
  applies below dir e t l t' → (length q <= length dir)%nat → t' !! q = t !! q.
Proof.
  induction 1 as [| dir name r t e l t' Hn Hp _ IH|below dir h name sent inner r t props l1 t1 l2 t2 p
    new Hn Hp _ IHi _ _ IHr|below dir copy name sent text r t l t' p new Hn Hp _ _ _ IH|
    dir name sent delta r t props old l t' p new Hn Hp _ IH]; intros Hq; [done|..];
    pose proof (child_longer dir name Hn).
  - rewrite IH by done. apply lookup_remove_short; [lia|]. intros ->. lia.
  - rewrite IHr, IHi by (unfold p; lia). apply lookup_insert_ne. intros <-. unfold p in *. lia.
  - rewrite IH by done. apply lookup_insert_ne. intros <-. unfold p in *. lia.
  - rewrite IH by done. apply lookup_insert_ne. intros <-. unfold p in *. lia.
Qed.

(** What is not there and not mentioned does not appear. *)
Lemma applies_none below dir e t l t' q :
  applies below dir e t l t' → t !! q = None → q ∉ c_path <$> l → t' !! q = None.
Proof.
  induction 1 as [| dir name r t e l t' Hn Hp _ IH|below dir h name sent inner r t props l1 t1 l2 t2 p
    new Hn Hp _ IHi _ _ IHr|below dir copy name sent text r t l t' p new Hn Hp _ _ _ IH|
    dir name sent delta r t props old l t' p new Hn Hp _ IH]; intros Hq Hin; [done|..];
    cbn [fmap list_fmap c_path] in Hin; apply not_elem_of_cons in Hin as [Hne Hin].
  - apply IH; [by apply lookup_remove|done].
  - rewrite fmap_app in Hin. apply not_elem_of_app in Hin as [Hi Hr].
    apply IHr; [|done]. apply IHi; [|done]. by rewrite lookup_insert_ne.
  - apply IH; [|done]. by rewrite lookup_insert_ne.
  - apply IH; [|done]. by rewrite lookup_insert_ne.
Qed.

(** Deleted paths are gone in the end, if nothing is added in their place. *)
Lemma applies_deleted below dir e t l t' c :
  applies below dir e t l t' → NoDup (c_path <$> l) → c ∈ l → c_entry c = None →
  t' !! c_path c = None.
Proof.
  induction 1 as [| dir name r t e l t' Hn Hp Hr IH|below dir h name sent inner r t props l1 t1 l2 t2 p
    new Hn Hp Hi IHi _ Hr IHr|below dir copy name sent text r t l t' p new Hn Hp _ _ _ IH|
    dir name sent delta r t props old l t' p new Hn Hp _ IH]; intros Hnd Hc Hd;
    [by apply elem_of_nil in Hc|..];
    cbn [fmap list_fmap] in Hnd; apply NoDup_cons in Hnd as [Hnin Hnd];
    apply elem_of_cons in Hc as [->|Hc]; try done; try by apply IH.
  - simpl. eapply applies_none; [done|apply lookup_remove_self|done].
  - rewrite fmap_app in Hnd. apply NoDup_app in Hnd as (Hnd1 & Hdis & Hnd2).
    apply elem_of_app in Hc as [Hc|Hc]; [|by apply IHr].
    eapply applies_none; [done|by apply IHi|]. apply Hdis. by apply list_elem_of_fmap_2.
Qed.

(** Paths have no newlines, and texts are only sent for files. *)
Definition well_formed (c : change) : Prop :=
  nl ∉ c_path c ∧ (c_text c = true → ∃ props text, c_entry c = Some (File props text)) ∧
  (∀ src rev, c_copy c = Some (src, rev) →
     source_ok src rev ∧ c_add c = true ∧ c_entry c ≠ None ∧ c_below c = false ∧
     ∀ props text, c_entry c = Some (File props text) → c_text c = true).

Lemma copied_as_ok copy p t t' src rev :
  copied_as copy p t t' = true → copy = Some (src, rev) →
  source_ok src rev ∧ ∃ s, past !! rev = Some s ∧ t' = graft src s p t.
Proof.
  intros Hc ->. unfold copied_as in Hc. destruct (past !! rev) as [s|]; [|done].
  apply bool_decide_eq_true in Hc as [? ->]. split; [done|]. by exists s.
Qed.

Lemma applies_well_formed below dir e t l t' :
  applies below dir e t l t' → nl ∉ dir → Forall well_formed l.
Proof.
  induction 1 as [| dir name r t e l t' Hn Hp _ IH|below dir h name sent inner r t props l1 t1 l2 t2 p
    new Hn Hp _ IHi Hcp _ IHr|below dir copy name sent text r t l t' p new Hn Hp Hb Hcp _ IH|
    dir name sent delta r t props old l t' p new Hn Hp _ IH]; intros Hdir; [done|..];
    pose proof (child_nl dir name Hn Hdir) as Hc.
  - constructor; [by split|auto].
  - constructor; [|apply Forall_app; auto]. split; [done|]. split; [done|]. cbn. intros src rev Hsrc.
    destruct (copied_as_ok _ _ _ _ _ _ Hcp Hsrc) as [? _]. destruct h; try done.
    destruct below; [|done]. cbn in Hp. by destruct (t !! p) as [[]|].
  - constructor; [|auto]. split; [done|]. split; [by do 2 eexists|]. cbn. intros src rev Hsrc.
    destruct (copied_as_ok _ _ _ _ _ _ Hcp Hsrc) as [? _]. split_and!; try done.
    destruct Hb as [|Hb]; congruence.
  - constructor; [|auto]. split; [done|]. split; [|done]. intros _. by do 2 eexists.
Qed.

(** ** What is below a copy *)

Definition hidden (c : change) : Prop :=
  c_below c = true ∧ c_add c = true ∧ c_copy c = None ∧ c_entry c ≠ None.

Lemma applies_hidden dir e t l t' : applies true dir e t l t' → Forall hidden l.
Proof.
  intros He. remember true as below eqn:Hb. revert Hb.
  induction He as [| dir name r t e l t' Hn Hp _ IH|below dir h name sent inner r t props l1 t1 l2 t2 p
    new Hn Hp _ IHi _ _ IHr|below dir copy name sent text r t l t' p new Hn Hp Hb' _ _ IH|
    dir name sent delta r t props old l t' p new Hn Hp _ IH]; intros Hb; try done; subst below.
  - constructor; [|apply Forall_app; auto]. destruct h; cbn in Hp; destruct (t !! p) as [[]|]; done.
  - constructor; [|auto]. by destruct Hb' as [?| ->].
Qed.

(** Nothing is lost, and what is added is there. *)
Lemma applies_stays dir e t l t' q : applies true dir e t l t' → is_Some (t !! q) → is_Some (t' !! q).
Proof.
  intros He. remember true as below eqn:Hb. revert Hb.
  induction He as [| dir name r t e l t' Hn Hp _ IH|below dir h name sent inner r t props l1 t1 l2 t2 p
    new Hn Hp _ IHi _ _ IHr|below dir copy name sent text r t l t' p new Hn Hp _ _ _ IH|
    dir name sent delta r t props old l t' p new Hn Hp _ IH]; intros Hb Hq;
    try done; subst below.
  - apply IHr, IHi; [done|done|]. apply lookup_insert_is_Some'. auto.
  - apply IH; [done|]. apply lookup_insert_is_Some'. auto.
Qed.

Lemma applies_present dir e t l t' c : applies true dir e t l t' → c ∈ l → is_Some (t' !! c_path c).
Proof.
  intros He. remember true as below eqn:Hb. revert Hb.
  induction He as [| dir name r t e l t' Hn Hp _ IH|below dir h name sent inner r t props l1 t1 l2 t2 p
    new Hn Hp Hi IHi _ Hr IHr|below dir copy name sent text r t l t' p new Hn Hp Hb' _ Hr IH|
    dir name sent delta r t props old l t' p new Hn Hp _ IH]; intros Hb Hc; try done; subst below;
    [by apply elem_of_nil in Hc|..]; apply elem_of_cons in Hc as [->|Hc].
  - eapply applies_stays; [done|]. eapply applies_stays; [done|]. cbn. rewrite lookup_insert_eq. by eexists.
  - apply elem_of_app in Hc as [Hc|Hc]; [|by apply IHr]. eapply applies_stays; [done|]. by apply IHi.
  - eapply applies_stays; [done|]. cbn. rewrite lookup_insert_eq. by eexists.
  - by apply IH.
Qed.

Lemma good_name_head name r : good_name name → head (name ++ r) ≠ Some slash.
Proof. intros [Hne Hs _ _]. destruct name as [|c name]; [done|]. intros [= ->]. apply Hs. left. Qed.

(** All paths are below the directory. *)
Lemma applies_inside below dir e t l t' c :
  applies below dir e t l t' → dir ≠ [] → c ∈ l →
  ∃ r, c_path c = dir ++ slash :: r ∧ head r ≠ Some slash.
Proof.
  intros He Hdir Hc. assert (∀ name, good_name name → ∀ r, r = [] ∨ head r = Some slash →
    ∃ r', child dir name ++ r = dir ++ slash :: r' ∧ head r' ≠ Some slash) as Hchild.
  { intros name Hn r Hr. exists (name ++ r). rewrite child_cons, <-app_assoc by done.
    split; [done|by apply good_name_head]. }
  revert Hdir Hc Hchild. induction He as [| dir name r t e l t' Hn Hp _ IH|below dir h name sent inner r t props l1 t1 l2 t2 p
    new Hn Hp _ IHi _ _ IHr|below dir copy name sent text r t l t' p new Hn Hp _ _ _ IH|
    dir name sent delta r t props old l t' p new Hn Hp _ IH];
    intros Hdir Hc Hchild; [by apply elem_of_nil in Hc|..]; apply elem_of_cons in Hc as [->|Hc];
    try (by apply IH); try (cbn [c_path]; destruct (Hchild name Hn []) as (r' & Hr' & ?); [by left|];
      exists r'; rewrite app_nil_r in Hr'; done).
  apply elem_of_app in Hc as [Hc|Hc]; [|by apply IHr].
  destruct IHi as (r' & Hr' & Hh); [by unfold p; destruct dir|done| |].
  { intros name' Hn' r0 Hr0. exists (name' ++ r0). rewrite child_cons, <-app_assoc by (by unfold p; destruct dir).
    split; [done|by apply good_name_head]. }
  rewrite Hr'. apply Hchild; [done|]. by right.
Qed.

(** ** Directories are in the tree *)

(** Every directory on the way to an entry is there. *)
Definition closed (t : tree) : Prop :=
  ∀ q p, is_Some (t !! p) → q ++ [slash] `prefix_of` p → is_Some (t !! q).

Lemma closed_empty : closed ∅.
Proof. intros q p [e He]. by rewrite lookup_empty in He. Qed.

Lemma dir_prefix_child q dir name :
  slash ∉ name → q ++ [slash] `prefix_of` dir ++ slash :: name → q = dir ∨ q ++ [slash] `prefix_of` dir.
Proof.
  intros Hn [k Hk]. apply app_eq_app in Hk as (l & [[-> _]|[Hq Hl]]); [right; by exists l|].
  destruct l as [|c l _] using rev_ind; [right; rewrite app_nil_r in Hq; by rewrite Hq|].
  rewrite app_assoc in Hq. apply app_inj_tail in Hq as [-> <-]. destruct l as [|d l]; [left; by rewrite app_nil_r|].
  exfalso. apply Hn. injection Hl as -> ->. rewrite !elem_of_app. left. right. left.
Qed.

Lemma closed_insert t dir name e :
  good_name name → is_dir t dir = true → closed t → closed (<[child dir name := e]> t).
Proof.
  intros [Hne Hs _ _] Hdir Ht q p Hp Hq. apply lookup_insert_is_Some'.
  apply lookup_insert_is_Some' in Hp as [<-|Hp]; [right|right; by eapply Ht].
  destruct dir as [|c dir].
  - destruct Hq as [k Hk]. simpl in Hk. exfalso. apply Hs. subst name.
    rewrite !elem_of_app. left. right. left.
  - assert (is_Some (t !! (c :: dir))) as Hd by (unfold is_dir in Hdir; destruct (t !! (c :: dir)); [by eexists|done]).
    rewrite child_cons in Hq by done. apply dir_prefix_child in Hq as [->|Hq]; [done| |done].
    by apply (Ht q (c :: dir)).
Qed.

Lemma closed_remove t p : closed t → closed (remove p t).
Proof.
  intros Ht q x Hx Hq. rewrite lookup_remove_suffix in *.
  destruct (suffix_of p x) as [r|] eqn:Hr; [by destruct Hx|]. rewrite decide_True in Hx by done.
  rewrite decide_True; [by eapply Ht|]. destruct (suffix_of p q) as [r|] eqn:Hq'; [|done].
  apply suffix_of_Some in Hq' as [-> Hr']. destruct Hq as [k ->].
  rewrite <-!app_assoc, suffix_of_app in Hr; [done|]. right. destruct r as [|c r]; [done|].
  by destruct Hr' as [?|[= ->]].
Qed.

Lemma is_dir_same t t' dir : t' !! dir = t !! dir → is_dir t' dir = is_dir t dir.
Proof. intros Ht. unfold is_dir. by rewrite Ht. Qed.

Lemma applies_is_dir below dir e t l t' : applies below dir e t l t' → is_dir t' dir = is_dir t dir.
Proof. intros He. eapply is_dir_same, applies_short; [done|lia]. Qed.

Lemma is_dir_child t dir name e : good_name name → is_dir (<[child dir name := e]> t) dir = is_dir t dir.
Proof.
  intros Hn. apply is_dir_same, lookup_insert_ne. intros Heq. pose proof (child_longer dir name Hn) as Hl.
  rewrite Heq in Hl. lia.
Qed.

Lemma is_dir_new t p props : is_dir (<[p := Dir props]> t) p = true.
Proof. unfold is_dir. rewrite lookup_insert_eq. by destruct p. Qed.

Lemma is_dir_remove t dir name : good_name name → is_dir (remove (child dir name) t) dir = is_dir t dir.
Proof.
  intros Hn. pose proof (child_longer dir name Hn). apply is_dir_same, lookup_remove_short; [lia|].
  intros Heq. rewrite <-Heq in *. lia.
Qed.

Lemma applies_closed below dir e t l t' :
  applies below dir e t l t' → is_dir t dir = true → closed t → closed t'.
Proof.
  induction 1 as [| dir name r t e l t' Hn Hp _ IH|below dir h name sent inner r t props l1 t1 l2 t2 p
    new Hn Hp Hi IHi _ _ IHr|below dir copy name sent text r t l t' p new Hn Hp _ _ _ IH|
    dir name sent delta r t props old l t' p new Hn Hp _ IH]; intros Hd Ht; [done|..].
  - apply IH; [by rewrite is_dir_remove|by apply closed_remove].
  - apply IHr.
    + rewrite <-Hd, <-(is_dir_child t dir name new Hn). apply is_dir_same.
      eapply applies_short; [done|]. pose proof (child_longer dir name Hn). unfold p. lia.
    + apply IHi; [apply is_dir_new|]. by apply closed_insert.
  - apply IH; [by unfold p; rewrite is_dir_child|by apply closed_insert].
  - apply IH; [by unfold p; rewrite is_dir_child|by apply closed_insert].
Qed.

(** ** Records of changes *)

(** The nodes that are due: everything but entries that were only opened. *)
Definition touched (c : change) : bool :=
  match c_entry c with
  | None => true
  | Some (Dir _) => c_add c || c_props c
  | Some (File _ _) => c_add c || c_props c || c_text c
  end.

(** The changes that are written: what is below a copy comes with it. *)
Definition printed (c : change) : bool := touched c && negb (c_below c).

(** What the record of a change has to say; that of a copy may leave out what the source says. *)
Record says (i : node_info) (c : change) : Prop := {
  sy_path : ni_path i = c_path c;
  sy_copy : ni_copyfrom i = prod_swap <$> c_copy c;
  sy_action : ni_action i = match c_entry c with
                            | None => str "delete"
                            | Some _ => if c_add c then str "add" else str "change"
                            end;
  sy_kind : ni_kind i = match c_entry c with
                        | None => None
                        | Some (Dir _) => Some (str "dir")
                        | Some (File _ _) => Some (str "file")
                        end;
  sy_props : ∀ e, c_entry c = Some e →
    match ni_props i with
    | Some ls => lines_props ls = entry_props e
    | None => c_props c = false ∧ (c_add c = false ∨ c_copy c ≠ None)
    end;
  sy_text : ∀ props text, c_entry c = Some (File props text) →
    ni_text i = (if c_text c then Some text else None) ∨ c_copy c ≠ None ∧ ni_text i = None
}.

(** The records of the changes that are written, in their order. *)
Inductive report : list node_info → list change → Prop :=
  | report_nil : report [] []
  | report_skip l c cs : printed c = false → report l cs → report l (c :: cs)
  | report_cons i l c cs : printed c = true → says i c → report l cs → report (i :: l) (c :: cs).

Lemma report_app l1 l2 cs1 cs2 : report l1 cs1 → report l2 cs2 → report (l1 ++ l2) (cs1 ++ cs2).
Proof. induction 1; intros; simpl; [done|apply report_skip|apply report_cons]; auto. Qed.

Lemma report_app_inv l cs1 cs2 :
  report l (cs1 ++ cs2) → ∃ l1 l2, l = l1 ++ l2 ∧ report l1 cs1 ∧ report l2 cs2.
Proof.
  revert l. induction cs1 as [|c cs1 IH]; intros l Hr; [by exists [], l; repeat constructor|].
  simpl in Hr. inversion Hr as [|? ? ? Hp Hr'|i l' ? ? Hp Hs Hr']; subst;
    destruct (IH _ Hr') as (l1 & l2 & -> & H1 & H2).
  - exists l1, l2. split_and!; [done|by apply report_skip|done].
  - exists (i :: l1), l2. split_and!; [done|by apply report_cons|done].
Qed.

Lemma printed_hidden c : hidden c → printed c = false.
Proof. intros (Hb & _). unfold printed. rewrite Hb. apply andb_false_r. Qed.

Lemma report_hidden cs : Forall hidden cs → report [] cs.
Proof. induction 1; [constructor|]. apply report_skip; [by apply printed_hidden|done]. Qed.

Lemma report_hidden_inv l cs : Forall hidden cs → report l cs → l = [].
Proof.
  intros Hcs. induction 1 as [| |? ? ? ? Hp]; [done|..]; apply Forall_cons in Hcs as [Hc Hcs]; [auto|].
  rewrite (printed_hidden _ Hc) in Hp. done.
Qed.

(** ** Loading them *)

Lemma set_props_none sent props : props_sent sent = false → set_props sent props = props.
Proof.
  revert props. induction sent as [|[k v] sent IH]; intros props; [done|]. simpl.
  intros [-> Hs]%orb_false_iff. by apply IH.
Qed.

(** An entry before a change, as far as the change relies on it. *)
Definition fits (old new : entry) (props text : bool) : Prop :=
  match old, new with
  | Dir p1, Dir p2 => props = false → p1 = p2
  | File p1 x1, File p2 x2 => (props = false → p1 = p2) ∧ (text = false → x1 = x2)
  | _, _ => False
  end.

Lemma load_change t i c old new :
  says i c → c_entry c = Some new → c_add c = false → c_copy c = None → t !! c_path c = Some old →
  fits old new (c_props c) (c_text c) → load_node past t i = Some (<[c_path c := new]> t).
Proof.
  intros [Hp Hc Ha Hk Hps Htx] Hnew Hadd Hcopy Hold Hfits. unfold load_node.
  rewrite Hp, Hc, Ha, Hnew, Hadd, Hold, Hcopy. rewrite decide_False by discriminate.
  rewrite decide_False by (by intros [? ?]). rewrite decide_True by done.
  cbn [mbind option_bind]. unfold load_entry. rewrite Hk, Hnew.
  specialize (Hps new Hnew). destruct old as [p1|p1 x1], new as [p2|p2 x2]; try done; cbn in *.
  - destruct (ni_props i) as [ls|]; cbn; [by rewrite Hps|]. destruct Hps as [Hps _].
    by rewrite Hfits.
  - destruct (Htx p2 x2 Hnew) as [->|[? _]]; [|done]. destruct Hfits as [Hf1 Hf2].
    assert (default x1 (if c_text c then Some x2 else None) = x2) as ->
      by (destruct (c_text c); [done|by apply Hf2]).
    destruct (ni_props i) as [ls|]; cbn; [by rewrite Hps|]. destruct Hps as [Hps _].
    by rewrite Hf1.
Qed.

Lemma load_new t i c new :
  says i c → c_entry c = Some new → c_add c = true → c_copy c = None → t !! c_path c = None →
  is_dir t (parent_dir (c_path c)) = true → (∀ ps x, new = File ps x → c_text c = true) →
  load_node past t i = Some (<[c_path c := new]> t).
Proof.
  intros [Hp Hc Ha Hk Hps Htx] Hnew Hadd Hcopy Hnone Hdir Hfile. unfold load_node, load_add.
  rewrite Hp, Hc, Ha, Hnew, Hadd, Hcopy, !decide_True by done. cbn [fmap option_fmap option_map].
  specialize (Hps new Hnew). unfold load_entry. rewrite Hk, Hnew.
  destruct (ni_props i) as [ls|]; [|destruct Hps as [_ []]; congruence].
  destruct new as [p2|p2 x2]; cbn in *; [by rewrite Hps|].
  destruct (Htx p2 x2 Hnew) as [->|[? _]]; [|done]. by rewrite (Hfile p2 x2), Hps.
Qed.

(** The source of a copy already is what the copy is to be. *)
Lemma load_copy t i c new src rev s :
  says i c → c_entry c = Some new → c_add c = true → c_copy c = Some (src, rev) →
  t !! c_path c = None → is_dir t (parent_dir (c_path c)) = true → past !! rev = Some s →
  s !! src = Some new → (∀ ps x, new = File ps x → c_text c = true) →
  load_node past t i = Some (graft src s (c_path c) t).
Proof.
  intros [Hp Hc Ha Hk Hps Htx] Hnew Hadd Hcopy Hnone Hdir Hrev Hsrc Hfile. unfold load_node, load_add.
  rewrite Hp, Hc, Ha, Hnew, Hadd, Hcopy, !decide_True by done. cbn [fmap option_fmap option_map prod_swap fst snd].
  rewrite Hrev. cbn [mbind option_bind]. rewrite Hsrc. cbn [mbind option_bind].
  assert (graft src s (c_path c) t !! c_path c = Some new) as Hid
    by (by rewrite lookup_graft, suffix_of_self, app_nil_r).
  specialize (Hps new Hnew). unfold load_entry. rewrite Hk, Hnew.
  assert (default (entry_props new) (lines_props <$> ni_props i) = entry_props new) as ->.
  { destruct (ni_props i) as [ls|]; [exact Hps|done]. }
  destruct new as [p2|p2 x2]; cbn [mbind option_bind entry_props] in *; rewrite decide_True by done;
    cbn [mbind option_bind]; [by rewrite insert_id|].
  assert (default x2 (ni_text i) = x2) as ->; [|by rewrite insert_id].
  destruct (Htx p2 x2 Hnew) as [->|[_ ->]]; [|done]. by rewrite (Hfile p2 x2).
Qed.

Lemma load_delete t i c e :
  says i c → c_entry c = None → c_copy c = None → t !! c_path c = Some e →
  load_node past t i = Some (remove (c_path c) t).
Proof.
  intros [Hp Hc Ha _ _ _] Hnew Hcopy He. unfold load_node. rewrite Hp, Hc, Ha, Hnew, He, Hcopy.
  rewrite decide_False by discriminate. rewrite decide_False by (by intros [? ?]).
  rewrite decide_False by discriminate. by rewrite decide_True by done.
Qed.

(** A change of an entry, written or not. *)
Lemma load_report t nodes c cs old new :
  report nodes (c :: cs) → c_entry c = Some new → c_copy c = None → c_below c = false →
  (if c_add c then t !! c_path c = None ∧ is_dir t (parent_dir (c_path c)) = true ∧
                   (∀ ps x, new = File ps x → c_text c = true)
   else t !! c_path c = Some old ∧ fits old new (c_props c) (c_text c)) →
  ∃ rest, report rest cs ∧ load_nodes past t nodes = load_nodes past (<[c_path c := new]> t) rest.
Proof.
  intros Hr Hnew Hcopy Hb Hold. inversion Hr as [|? ? ? Hp Hr'|i rest ? ? Hp Hs Hr']; subst.
  - exists nodes. split; [done|]. unfold printed, touched in Hp. rewrite Hnew, Hb, andb_true_r in Hp.
    destruct (c_add c); [by destruct new|]. destruct Hold as [Hold Hfits].
    rewrite insert_id; [done|]. rewrite Hold. destruct old as [p1|p1 x1], new as [p2|p2 x2]; try done.
    + by rewrite Hfits.
    + apply orb_false_iff in Hp as [Hp Ht]. destruct Hfits as [-> ->]; done.
  - exists rest. split; [done|]. cbn [load_nodes]. destruct (c_add c) eqn:Hadd.
    + destruct Hold as (? & ? & ?). by erewrite load_new.
    + destruct Hold as (? & ?). by erewrite load_change.
Qed.

(** A copy, with everything below it. *)
Lemma load_report_copy t nodes c cs1 cs2 new src rev s :
  report nodes (c :: cs1 ++ cs2) → Forall hidden cs1 → c_entry c = Some new → c_add c = true →
  c_below c = false → c_copy c = Some (src, rev) → t !! c_path c = None →
  is_dir t (parent_dir (c_path c)) = true → past !! rev = Some s → s !! src = Some new →
  (∀ ps x, new = File ps x → c_text c = true) →
  ∃ rest, report rest cs2 ∧
    load_nodes past t nodes = load_nodes past (graft src s (c_path c) t) rest.
Proof.
  intros Hr Hcs Hnew Hadd Hb Hcopy ? ? ? ? ?.
  assert (printed c = true) as Hpr by (unfold printed, touched; rewrite Hnew, Hadd, Hb; by destruct new).
  inversion Hr as [|? ? ? Hp Hr'|i rest ? ? Hp Hs Hr']; subst; [congruence|].
  apply report_app_inv in Hr' as (n1 & n2 & -> & Hn1 & Hn2).
  rewrite (report_hidden_inv _ _ Hcs Hn1) in *. exists n2. split; [done|]. cbn [load_nodes app].
  by erewrite load_copy.
Qed.

(** Whoever loads the report of an edit gets the new tree. *)
Lemma applies_load dir e t l t' nodes :
  applies false dir e t l t' → is_dir t dir = true → report nodes l →
  load_nodes past t nodes = Some t'.
Proof.
  intros He. remember false as below eqn:Hb. revert nodes Hb.
  induction He as [|dir name r t e l t' Hn Hp He IH|
    below dir h name sent inner r t props l1 t1 l2 t2 p new Hn Hp Hi IHi Hcp Hr IHr|
    below dir copy name sent text r t l t' p new Hn Hp Hb' Hcp He IH|
    dir name sent delta r t props old l t' p new Hn Hp He IH]; intros nodes Hb Hdir Hrep; subst;
    try pose proof (child_longer dir name Hn) as Hlen.
  - by inversion Hrep.
  - inversion Hrep as [|? ? ? Hpr|i rest ? ? _ Hs Hr']; subst; [done|]. cbn [load_nodes].
    erewrite load_delete by done. cbn [mbind option_bind c_path]. apply IH; [done| |done].
    by rewrite is_dir_remove.
  - assert (is_dir t1 dir = true) as Hdir1.
    { rewrite <-Hdir, <-(is_dir_child t dir name new Hn). apply is_dir_same.
      eapply applies_short; [done|]. unfold p. lia. }
    destruct (copy_of h) as [[src rev]|] eqn:Hcopy.
    + destruct h as [| |src' rev']; try done. injection Hcopy as -> ->.
      destruct (copied_as_ok _ _ _ _ _ _ Hcp eq_refl) as (_ & s & Hs & Ht1).
      cbn in Hp. destruct (t !! p) eqn:Htp; [done|]. injection Hp as <-.
      destruct (load_report_copy t nodes _ l1 l2 new src rev s Hrep) as (rest & Hrest & ->); try done.
      { by eapply applies_hidden. }
      { cbn [c_path]. unfold p. by rewrite parent_dir_child. }
      { assert (t1 !! p = Some new) as Hnew.
        { erewrite applies_short; [apply lookup_insert_eq|done|done]. }
        by rewrite Ht1, lookup_graft, suffix_of_self, app_nil_r in Hnew. }
      cbn [c_path]. rewrite <-Ht1. by apply IHr.
    + destruct (load_report t nodes _ _ (Dir props) new Hrep eq_refl) as (rest & Hr' & ->); [done|done|..].
      { cbn [c_add c_path]. destruct h; cbn in Hp; destruct (t !! p) as [[|]|] eqn:Htp; try done.
        - injection Hp as <-. split; [done|]. intros Hs. unfold new. by rewrite set_props_none.
        - injection Hp as <-. split_and!; [done|by unfold p; rewrite parent_dir_child|done]. }
      cbn [c_path]. apply report_app_inv in Hr' as (n1 & n2 & -> & Hn1 & Hn2).
      rewrite load_nodes_app, (IHi n1); [|done|apply is_dir_new|done]. by apply IHr.
  - destruct copy as [[src rev]|].
    + destruct (copied_as_ok _ _ _ _ _ _ Hcp eq_refl) as (_ & s & Hs & Ht1).
      destruct (load_report_copy t nodes _ [] l new src rev s Hrep) as (rest & Hrest & ->); try done.
      { cbn [c_path]. unfold p. by rewrite parent_dir_child. }
      { assert (<[p := new]> t !! p = Some new) as Hnew by apply lookup_insert_eq.
        by rewrite Ht1, lookup_graft, suffix_of_self, app_nil_r in Hnew. }
      cbn [c_path]. rewrite <-Ht1. apply IH; [done| |done]. by unfold p; rewrite is_dir_child.
    + destruct (load_report t nodes _ _ (Dir ∅) new Hrep eq_refl) as (rest & Hr' & ->); [done|done|..].
      { cbn [c_add c_path]. split_and!; [done|by unfold p; rewrite parent_dir_child|done]. }
      apply IH; [done| |done]. by unfold p; rewrite is_dir_child.
  - destruct (load_report t nodes _ _ (File props old) new Hrep eq_refl) as (rest & Hr' & ->); [done|done|..].
    { cbn [c_add c_path]. split; [done|]. unfold new. split; intros Hs; [by rewrite set_props_none|].
      by destruct delta. }
    apply IH; [done| |done]. by unfold p; rewrite is_dir_child.
Qed.

(** ** Files that stay *)

(** Neither the path nor a directory above it is deleted. *)
Definition spared (l : list change) (p : bytes) : Prop :=
  ∀ c, c ∈ l → c_entry c = None → c_path c ≠ p ∧ inside (c_path c) p = false.

Definition is_file (t : tree) (p : bytes) : Prop := ∃ props text, t !! p = Some (File props text).

(** Only what has no files below it is deleted. *)
Definition file_free (q p : bytes) (e : entry) : bool :=
  match e with File _ _ => negb (inside q p) | Dir _ => true end.

Definition tidy (t : tree) (l : list change) : Prop :=
  Forall (λ c, c_entry c = None → map_Forall (λ p e, file_free (c_path c) p e = true) t) l.

#[export] Instance tidy_dec t l : Decision (tidy t l).
Proof. unfold tidy. apply _. Defined.

Lemma tidy_file t l c p :
  tidy t l → c ∈ l → c_entry c = None → is_file t p → inside (c_path c) p = false.
Proof.
  intros Ht Hc Hn (props & text & Hp). unfold tidy in Ht. rewrite Forall_forall in Ht.
  apply negb_true_iff, (Ht c Hc Hn p _ Hp).
Qed.

Lemma spared_app l1 l2 p : spared (l1 ++ l2) p → spared l1 p ∧ spared l2 p.
Proof. intros Hs. split; intros c Hc; apply Hs, elem_of_app; auto. Qed.

Lemma is_file_insert (t : tree) p q e :
  (∀ props text, e = File props text → True) → (q = p → ∃ props text, e = File props text) →
  is_file t p → is_file (<[q := e]> t) p.
Proof.
  intros _ He (ps & x & Hp). destruct (decide (q = p)) as [->|Hne].
  - destruct (He eq_refl) as (ps' & x' & ->). exists ps', x'. apply lookup_insert_eq.
  - exists ps, x. by rewrite lookup_insert_ne.
Qed.

Lemma is_file_remove (t : tree) p q : p ≠ q → inside q p = false → is_file t p → is_file (remove q t) p.
Proof.
  intros Hne Hi (ps & x & Hp). exists ps, x. by apply map_lookup_filter_Some.
Qed.

Lemma applies_file_kept below dir e t l t' p :
  applies below dir e t l t' → spared l p → is_file t p → is_file t' p.
Proof.
  induction 1 as [| dir name r t e l t' Hn Hp _ IH|below dir h name sent inner r t props l1 t1 l2 t2 q
    new Hn Hp _ IHi _ _ IHr|below dir copy name sent text r t l t' q new Hn Hp _ _ _ IH|
    dir name sent delta r t props old l t' q new Hn Hp _ IH]; intros Hs Hf; [done|..].
  - apply (spared_app [_] l) in Hs as [Hs1 Hs]. apply IH; [done|].
    destruct (Hs1 _ (list_elem_of_here _ _) eq_refl) as [Hne Hi]. apply is_file_remove; [by apply not_eq_sym|done..].
  - rewrite app_comm_cons in Hs. apply spared_app in Hs as [Hs1 Hs2].
    apply (spared_app [_] l1) in Hs1 as [_ Hs1]. apply IHr, IHi; [done..|].
    apply is_file_insert; [done| |done]. intros ->. destruct Hf as (ps & x & Hf).
    rewrite Hf in Hp. by destruct h, below.
  - apply (spared_app [_] l) in Hs as [_ Hs]. apply IH; [done|]. apply is_file_insert; [done|by do 2 eexists|done].
  - apply (spared_app [_] l) in Hs as [_ Hs]. apply IH; [done|]. apply is_file_insert; [done|by do 2 eexists|done].
Qed.

Lemma applies_file_new below dir e t l t' c props text :
  applies below dir e t l t' → c ∈ l → c_entry c = Some (File props text) → spared l (c_path c) →
  is_file t' (c_path c).
Proof.
  induction 1 as [| dir name r t e l t' Hn Hp Hr IH|below dir h name sent inner r t ps l1 t1 l2 t2 q
    new Hn Hp Hi IHi _ Hr IHr|below dir copy name sent x r t l t' q new Hn Hp _ _ Hr IH|
    dir name sent delta r t ps old l t' q new Hn Hp Hr IH]; intros Hc He Hs; [by apply elem_of_nil in Hc|..].
  - apply (spared_app [_] l) in Hs as [_ Hs]. apply elem_of_cons in Hc as [->|Hc]; [done|by apply IH].
  - rewrite app_comm_cons in Hs. apply spared_app in Hs as [Hs1 Hs2].
    apply (spared_app [_] l1) in Hs1 as [_ Hs1]. apply elem_of_cons in Hc as [->|Hc]; [done|].
    apply elem_of_app in Hc as [Hc|Hc]; [|by apply IHr].
    eapply applies_file_kept; [exact Hr|done|by apply IHi].
  - apply (spared_app [_] l) in Hs as [_ Hs]. apply elem_of_cons in Hc as [->|Hc]; [|by apply IH].
    eapply applies_file_kept; [done..|]. cbn. do 2 eexists. apply lookup_insert_eq.
  - apply (spared_app [_] l) in Hs as [_ Hs]. apply elem_of_cons in Hc as [->|Hc]; [|by apply IH].
    eapply applies_file_kept; [done..|]. cbn. do 2 eexists. apply lookup_insert_eq.
Qed.

Lemma inside_child q dir name :
  good_name name → inside q (child dir name) = true → q = dir ∧ dir ≠ [] ∨ inside q dir = true.
Proof.
  intros [_ Hs _ _] Hq%bool_decide_eq_true. destruct dir as [|c dir].
  - destruct Hq as [k Hk]. exfalso. apply Hs. simpl in Hk. rewrite Hk, !elem_of_app. left. right. by left.
  - rewrite child_cons in Hq by done. apply dir_prefix_child in Hq as [->|Hq]; [by left| |done].
    right. by apply bool_decide_eq_true.
Qed.

(** What is changed is below directories that are opened or added. *)
Lemma applies_above below dir e t l t' c q :
  applies below dir e t l t' → c ∈ l → inside q (c_path c) = true →
  q = dir ∧ dir ≠ [] ∨ inside q dir = true ∨ ∃ c', c' ∈ l ∧ c_path c' = q ∧ c_entry c' ≠ None.
Proof.
  induction 1 as [| dir name r t e l t' Hn Hp _ IH|below dir h name sent inner r t props l1 t1 l2 t2 p
    new Hn Hp _ IHi _ _ IHr|below dir copy name sent text r t l t' p new Hn Hp _ _ _ IH|
    dir name sent delta r t props old l t' p new Hn Hp _ IH]; intros Hc Hq; [by apply elem_of_nil in Hc|..];
    apply elem_of_cons in Hc as [->|Hc];
    try (by destruct (inside_child q dir name Hn Hq) as [?|?]; auto);
    try (destruct IH as [?|[?|(c' & ? & ?)]]; auto; right; right; exists c'; split; [by right|done]).
  apply elem_of_app in Hc as [Hc|Hc].
  - destruct IHi as [[-> _]|[Hi|(c' & ? & ?)]]; [done..| | |].
    + right. right. eexists. split; [by left|done].
    + destruct (inside_child q dir name Hn Hi) as [?|?]; auto.
    + right. right. exists c'. split; [right; apply elem_of_app; by left|done].
  - destruct IHr as [?|[?|(c' & ? & ?)]]; auto. right. right. exists c'.
    split; [right; apply elem_of_app; by right|done].
Qed.

Lemma applies_cstr below dir e t l t' c : applies below dir e t l t' → cstr dir → c ∈ l → cstr (c_path c).
Proof.
  induction 1 as [| dir name r t e l t' Hn Hp _ IH|below dir h name sent inner r t props l1 t1 l2 t2 p
    new Hn Hp _ IHi _ _ IHr|below dir copy name sent text r t l t' p new Hn Hp _ _ _ IH|
    dir name sent delta r t props old l t' p new Hn Hp _ IH]; intros Hdir Hc; [by apply elem_of_nil in Hc|..];
    apply elem_of_cons in Hc as [->|Hc]; try (by apply child_cstr); try (by apply IH).
  apply elem_of_app in Hc as [Hc|Hc]; [apply IHi; [by apply child_cstr|done]|by apply IHr].
Qed.

Lemma once_same (l : list change) c1 c2 :
  NoDup (c_path <$> l) → c1 ∈ l → c2 ∈ l → c_path c1 = c_path c2 → c1 = c2.
Proof.
  intros Hnd Hc1 Hc2 Hp. apply list_elem_of_lookup in Hc1 as [i Hi], Hc2 as [j Hj].
  assert (i = j) as <-; [|congruence].
  apply (NoDup_lookup (c_path <$> l) i j (c_path c1)); [done|by rewrite list_lookup_fmap, Hi|].
  by rewrite list_lookup_fmap, Hj, Hp.
Qed.

(** Nothing that is changed is below a deleted path. *)
Lemma applies_not_inside below e t l t' c1 c2 :
  applies below [] e t l t' → NoDup (c_path <$> l) → c1 ∈ l → c_entry c1 = None → c2 ∈ l →
  inside (c_path c1) (c_path c2) = false.
Proof.
  intros He Hnd Hc1 Hn Hc2. apply not_true_iff_false. intros Hi.
  destruct (applies_above _ _ _ _ _ _ _ _ He Hc2 Hi)
    as [[_ ?]|[[k Hk]%bool_decide_eq_true|(c' & Hc' & Hp & Hn')]]; [done| |].
  - by destruct (c_path c1).
  - by rewrite (once_same l c' c1 Hnd Hc' Hc1 Hp) in Hn'.
Qed.

(** The files of the new tree that were there or are new. *)
Lemma applies_files below e t l t' p :
  applies below [] e t l t' → NoDup (c_path <$> l) → tidy t l →
  is_file t p ∨ (∃ c ps x, c ∈ l ∧ c_path c = p ∧ c_entry c = Some (File ps x)) →
  (∀ c, c ∈ l → c_path c = p → c_entry c ≠ None) → is_file t' p.
Proof.
  intros He Hnd Htidy Hp Hdel.
  assert (spared l p) as Hs.
  { intros c Hc Hn. split; [intros Heq; by apply (Hdel c)|].
    destruct Hp as [Hp|(c' & _ & _ & Hc' & <- & _)]; [by eapply tidy_file|by eapply applies_not_inside]. }
  destruct Hp as [Hp|(c & ps & x & Hc & <- & Hent)]; [by eapply applies_file_kept|by eapply applies_file_new].
Qed.

End changes.
