(* ===== verification/DeltaFacts.v ===== *)
(** Theorems about the delta editor (Delta.v): what is written for a node can be read back, nodes
    are written at most once and not at all in a dry run, copy information is sound with respect
    to the path history. *)
From S2P Require Import Prelude CritBit Interfaces Mukv Utils Types Copyfrom Property PropStore PathRepo.
From S2P Require Import Session DumpFormat Delta.

Open Scope Z_scope.

(** * Reasoning about the monad *)

(** What is known of [m] in the state [d]: when it ends with a result, [Q] holds of the result and the
    new state; its behaviour is defined if [safe] holds, and then it does not fail if [ok] holds,
    which says that nothing the computation depends on can fail. *)
Definition wp {St A} (safe ok : Prop) (m : M St A) (d : St) (Q : St → A → Prop) : Prop :=
  match m d with UB => ¬ safe | Fail _ _ => safe → ¬ ok | Done d' x => Q d' x end.

Lemma wp_done {St A} safe ok (m : M St A) d d' x (Q : St → A → Prop) :
  m d = Done d' x → Q d' x → wp safe ok m d Q.
Proof. intros Hm HQ. unfold wp. by rewrite Hm. Qed.

Lemma wp_bind {St A B} safe ok (m : M St A) (k : A → M St B) d (Q : St → B → Prop) :
  wp safe ok m d (λ d1 x, wp safe ok (k x) d1 Q) → wp safe ok (m ≫= k) d Q.
Proof. unfold wp, mbind, M_bind. by destruct (m d). Qed.

Lemma wp_step {St A B} safe ok (m : M St A) (k : A → M St B) d d' x (Q : St → B → Prop) :
  m d = Done d' x → wp safe ok (k x) d' Q → wp safe ok (m ≫= k) d Q.
Proof. intros Hm Hk. apply wp_bind. by eapply wp_done. Qed.

(** What is known of the results of [m] may be used. *)
Lemma wp_post {St A} safe ok (m : M St A) d (P Q : St → A → Prop) :
  wp safe ok m d P → (∀ d' x, m d = Done d' x → P d' x → Q d' x) → wp safe ok m d Q.
Proof. unfold wp. destruct (m d); auto. Qed.

(** The results may be treated apart from what is known when it is safe. *)
Lemma wp_cases {St A} (safe ok : Prop) (m : M St A) d (P Q : St → A → Prop) :
  (safe → wp True ok m d P) → (∀ d' x, m d = Done d' x → (safe → P d' x) → Q d' x) → wp safe ok m d Q.
Proof. unfold wp. destruct (m d) as [|d' msg|d' x]; [tauto|tauto|auto]. Qed.

Lemma wp_weaken {St A} (safe ok safe' : Prop) (m : M St A) d (Q : St → A → Prop) :
  wp safe ok m d Q → (safe' → safe) → wp safe' ok m d Q.
Proof. unfold wp. destruct (m d) as [|d' msg|d' x]; tauto. Qed.

(** A computation that returns does so step by step. *)
Lemma bind_done {St A B} (m : M St A) (k : A → M St B) s s' y :
  (m ≫= k) s = Done s' y → ∃ s1 x, m s = Done s1 x ∧ k x s1 = Done s' y.
Proof. unfold mbind, M_bind. destruct (m s) as [| |s1 x]; [done|done|]. eauto. Qed.

Lemma node_get_done {T} id (d d' : de_state T) n :
  node_get id d = Done d' n → d' = d ∧ d_nodes d !! id = Some n.
Proof.
  unfold node_get, lift, mbind, M_bind, get. destruct (d_nodes d !! id); [|done]. by intros [= -> ->].
Qed.

(** The state after a computation, if it ends at all, is related to the state before. *)
Definition keeps {St A} (R : St → St → Prop) (m : M St A) : Prop :=
  ∀ d, match m d with UB => True | Fail d' _ => R d d' | Done d' _ => R d d' end.

Section keeps.
Context {St : Type} (R : St → St → Prop) `{!PreOrder R}.

Lemma keeps_ret {A} (x : A) : keeps R (mret x).
Proof. intros d. simpl. reflexivity. Qed.

Lemma keeps_bind {A B} (m : M St A) (k : A → M St B) :
  keeps R m → (∀ x, keeps R (k x)) → keeps R (m ≫= k).
Proof.
  intros Hm Hk d. unfold mbind, M_bind. specialize (Hm d).
  destruct (m d) as [|d1 msg|d1 x]; [done|done|]. specialize (Hk x d1).
  destruct (k x d1); [done|etrans; eauto..].
Qed.

Lemma keeps_ub {A} : keeps R (ub (A := A)).
Proof. by intros d. Qed.

Lemma keeps_fail {A} msg : keeps R (fail (A := A) msg).
Proof. intros d. simpl. reflexivity. Qed.

Lemma keeps_get : keeps R get.
Proof. intros d. simpl. reflexivity. Qed.

Lemma keeps_lift {A} (x : option A) : keeps R (lift x).
Proof. intros d. unfold lift. destruct x; [reflexivity|done]. Qed.

Lemma keeps_modify f : (∀ d, R d (f d)) → keeps R (modify f).
Proof. intros Hf d. simpl. apply Hf. Qed.

Lemma keeps_when b m : (b = true → keeps R m) → keeps R (when b m).
Proof. destruct b; simpl; [auto|intros _; apply keeps_ret]. Qed.

End keeps.

Create HintDb keeps.
#[export] Hint Resolve keeps_ret keeps_ub keeps_fail keeps_get keeps_lift : keeps.

(** Decomposes a computation along its structure. *)
Ltac keeps_tac :=
  repeat first
    [ progress intros
    | solve [eauto 2 with keeps typeclass_instances]
    | apply keeps_bind; [apply _| |]
    | apply keeps_when; [apply _|]
    | solve [eauto with keeps typeclass_instances]
    | case_match ].

(** * Searching strings *)

Lemma strchr_from_spec k s c :
  match strchr_from k s c with
  | Some i => (k <= i)%nat ∧ s !! i = Some c ∧ ∀ j, (k <= j < i)%nat → s !! j ≠ Some c
  | None => ∀ j, (k <= j)%nat → s !! j ≠ Some c
  end.
Proof.
  revert k. induction s as [|x s IH]; intros k; simpl; [by intros j _; rewrite lookup_nil|].
  destruct k as [|k].
  - case_decide as Hx; [subst; split_and!; [lia|done|lia]|].
    specialize (IH 0%nat). destruct (strchr_from 0 s c) as [i|]; simpl.
    + destruct IH as (_ & Hi & Hno). split_and!; [lia|done|]. intros [|j] Hj; [naive_solver|].
      apply Hno. lia.
    + intros [|j] _; [naive_solver|]. apply IH. lia.
  - specialize (IH k). destruct (strchr_from k s c) as [i|]; simpl.
    + destruct IH as (Hk & Hi & Hno). split_and!; [lia|done|]. intros [|j] Hj; [lia|].
      apply Hno. lia.
    + intros [|j] Hj; [lia|]. apply IH. lia.
Qed.

(** * Silence *)

(** The output and the state of the path repository, less its cache. *)
Definition face {T} (d : de_state T) : bytes * list pr_delta_entry * cb_tree * Z :=
  (d_out d, pr_delta (d_repo d), pr_work (d_repo d), pr_head (d_repo d)).

Definition same_face {T} (d d' : de_state T) : Prop := face d' = face d.

#[export] Instance same_face_preorder {T} : PreOrder (@same_face T).
Proof. split; [by intros d|]. unfold same_face. intros x y z H1 H2. by rewrite H2. Qed.

Section silence.
Context `{HashIter} {T : Type} `{KV T} `{Codec}.
Variables (rand : nat → Z) (fuel : nat).
Variables (apr_md5 : bytes → option bytes) (svn_path_dirname : bytes → bytes)
  (svn_md5_digest_to_cstring : bytes → bytes) (svn_property_regular : bytes → bool).
Variable svndiff : bytes → bytes → bytes.
Variable temp_ok : nat → bool.
Variables (uninit_kind : svn_node_kind) (uninit_rev : Z).
Variable env : de_env.

Abbreviation quiet := (keeps (@same_face T)).
#[local] Hint Extern 0 (same_face _ _) => reflexivity : core.

Lemma node_get_quiet id : quiet (node_get id).
Proof. unfold node_get. keeps_tac. Qed.
#[local] Hint Resolve node_get_quiet : keeps.

Lemma node_upd_quiet id f : quiet (node_upd id f).
Proof. unfold node_upd. keeps_tac. apply keeps_modify. reflexivity. Qed.
#[local] Hint Resolve node_upd_quiet : keeps.

Lemma modify_quiet f : (∀ d : de_state T, same_face d (f d)) → quiet (modify f).
Proof. intros Hf. by apply keeps_modify. Qed.

Lemma node_alloc_quiet n : quiet (node_alloc n).
Proof. intros d. reflexivity. Qed.
#[local] Hint Resolve node_alloc_quiet : keeps.

Lemma pr_tree_face (repo : path_repo T) r repo' t :
  pr_tree repo r = Some (repo', t) →
  pr_delta repo' = pr_delta repo ∧ pr_work repo' = pr_work repo ∧ pr_head repo' = pr_head repo.
Proof. unfold pr_tree. intros Ht. repeat (case_match || simplify_option_eq); done. Qed.

Lemma repo_check_parent_quiet p c r : quiet (repo_check_parent p c r).
Proof.
  intros d. unfold repo_check_parent, path_repo_check_parent. destruct (r <? 0); [done|].
  destruct (pr_tree (d_repo d) r) as [[repo t]|] eqn:Ht; [|done].
  apply pr_tree_face in Ht as (H2 & H3 & H4). cbn [mbind option_bind].
  destruct t; unfold same_face, face; cbn; congruence.
Qed.

Lemma repo_exists_quiet p r : quiet (repo_exists p r).
Proof.
  intros d. unfold repo_exists, path_repo_exists. destruct (r <? 0); [done|].
  destruct (pr_tree (d_repo d) r) as [[repo t]|] eqn:Ht; [|done].
  apply pr_tree_face in Ht as (H2 & H3 & H4). cbn [mbind option_bind].
  destruct t; unfold same_face, face; cbn; congruence.
Qed.

Lemma storage_delete_quiet p : quiet (storage_delete p).
Proof. intros d. unfold storage_delete. repeat case_match; simplify_eq; done. Qed.

Lemma storage_load_quiet id : quiet (storage_load id).
Proof. intros d. unfold storage_load. repeat case_match; simplify_eq; done. Qed.

Lemma storage_store_quiet id : quiet (storage_store apr_md5 id).
Proof. intros d. unfold storage_store. repeat case_match; simplify_eq; done. Qed.

Lemma obfuscate_quiet p : quiet (obfuscate rand fuel p).
Proof. intros d. unfold obfuscate. repeat case_match; simplify_eq; done. Qed.

Lemma mkstemp_quiet sub : quiet (mkstemp temp_ok env sub).
Proof. intros d. unfold mkstemp. destruct (temp_ok (d_temp d)); done. Qed.

#[local] Hint Resolve repo_check_parent_quiet repo_exists_quiet
  storage_delete_quiet storage_load_quiet storage_store_quiet obfuscate_quiet mkstemp_quiet : keeps.
#[local] Hint Extern 1 (keeps same_face (modify _)) => apply modify_quiet; reflexivity : keeps.

Lemma read_file_quiet f : quiet (read_file f).
Proof. unfold read_file. keeps_tac. Qed.
#[local] Hint Resolve read_file_quiet : keeps.

Lemma remove_file_quiet f : quiet (remove_file f).
Proof. unfold remove_file. keeps_tac. Qed.
#[local] Hint Resolve remove_file_quiet : keeps.

Lemma check_levels_quiet k p b r : quiet (check_levels k p b r).
Proof. revert b. induction k as [|k IH]; intros b; simpl; keeps_tac. Qed.
#[local] Hint Resolve check_levels_quiet : keeps.

Lemma copied_parent_quiet k id : quiet (copied_parent k id).
Proof. revert id. induction k as [|k IH]; intros id; simpl; keeps_tac. Qed.
#[local] Hint Resolve copied_parent_quiet : keeps.

Lemma delta_propagate_copy_quiet p c : quiet (delta_propagate_copy env p c).
Proof. unfold delta_propagate_copy. keeps_tac. Qed.
#[local] Hint Resolve delta_propagate_copy_quiet : keeps.

Lemma check_parents_quiet k id p : quiet (check_parents env k id p).
Proof. revert p. induction k as [|k IH]; intros [p|]; simpl; keeps_tac. Qed.
#[local] Hint Resolve check_parents_quiet : keeps.

Lemma delta_check_copy_quiet id : quiet (delta_check_copy env id).
Proof. apply node_upd_quiet. Qed.

Lemma delta_check_action_quiet id : quiet (delta_check_action svn_path_dirname env id).
Proof. unfold delta_check_action. keeps_tac. Qed.

Lemma delta_create_node_quiet p q : quiet (delta_create_node uninit_kind uninit_rev p q).
Proof. unfold delta_create_node. keeps_tac. Qed.
#[local] Hint Resolve delta_create_node_quiet : keeps.

Lemma parent_covers_quiet k p : quiet (parent_covers svn_path_dirname k p).
Proof. revert p. induction k as [|k IH]; intros p; simpl; keeps_tac. Qed.
#[local] Hint Resolve parent_covers_quiet : keeps.

Hypothesis Hdry : has_flag (v_opts env) DF_INITIAL_DRY_RUN = true.

Lemma delta_dump_node_quiet k id :
  quiet (delta_dump_node svn_path_dirname svn_md5_digest_to_cstring svndiff temp_ok env k id).
Proof.
  destruct k as [|k]; simpl; [apply keeps_ub|]. apply keeps_bind; [apply _|auto with keeps|].
  intros n. unfold dump_skipped. rewrite Hdry. simpl. keeps_tac.
Qed.
#[local] Hint Resolve delta_dump_node_quiet : keeps.

Lemma for_each_quiet l f : (∀ x, quiet (f x)) → quiet (for_each (T := T) l f).
Proof. intros Hf. induction l as [|x l IH]; simpl; keeps_tac. Qed.

Lemma dump_recursive_quiet k id :
  quiet (delta_dump_node_recursive svn_path_dirname svn_md5_digest_to_cstring svndiff temp_ok env
           k id).
Proof.
  revert id. induction k as [|k IH]; intros id; cbn [delta_dump_node_recursive]; [apply keeps_ub|].
  keeps_tac. apply for_each_quiet. keeps_tac.
Qed.
#[local] Hint Resolve dump_recursive_quiet : keeps.

Lemma close_all_quiet l :
  quiet (close_all svn_path_dirname svn_md5_digest_to_cstring svndiff temp_ok uninit_kind
           uninit_rev env l).
Proof.
  induction l as [|[path log] l IH]; simpl; [apply keeps_ret; apply _|].
  unfold close_deleted, delta_create_node_no_parent. keeps_tac.
Qed.
#[local] Hint Resolve close_all_quiet : keeps.

Lemma dry_run_skips m : quiet (when (not_dry_run env) m).
Proof. unfold not_dry_run. rewrite Hdry. apply keeps_ret. apply _. Qed.
#[local] Hint Resolve dry_run_skips : keeps.

Lemma editor_do_quiet c :
  quiet (editor_do rand fuel apr_md5 svn_path_dirname svn_md5_digest_to_cstring
           svn_property_regular svndiff temp_ok uninit_kind uninit_rev env c).
Proof.
  destruct c; simpl; unfold de_set_target_revision, de_open_root, de_delete_entry,
    de_add_directory, de_open_directory, de_change_prop, de_close_directory, de_absent,
    de_add_file, de_open_file, de_apply_textdelta, de_close_file, de_close_edit, de_abort_edit,
    delta_create_node_no_parent, add_from_log, changed_path; keeps_tac.
Qed.

Lemma editor_run_quiet l :
  quiet (editor_run rand fuel apr_md5 svn_path_dirname svn_md5_digest_to_cstring
           svn_property_regular svndiff temp_ok uninit_kind uninit_rev env l).
Proof.
  induction l as [|c l IH]; simpl; [apply keeps_ret; apply _|].
  apply keeps_bind; [apply _|apply editor_do_quiet|done].
Qed.

End silence.

(** * A sample

    Concrete parameters, for running the editor. *)

Fixpoint after_slash (r : bytes) : bytes :=
  match r with
  | [] => []
  | c :: r => if decide (c = slash) then r else after_slash r
  end.

Definition sample_dirname (p : bytes) : bytes := reverse (after_slash (reverse p)).
Definition sample_md5 (b : bytes) : option bytes := Some (take 16 (b ++ replicate 16 "0"%char)).

Definition sample_opts (flags format : Z) : dump_options :=
  mk_opts (Some (str "/tmp")) None 0 (-1) flags format.

Definition sample_env (opts : dump_options) (changed : gmap bytes svn_log_changed_path) : de_env :=
  mk_env [] opts [] (mk_log 1 None None None (Some changed)) 1.

Definition sample_state : de_state mukv :=
  mk_de ∅ 0 ∅ None (path_repo_create (mukv_new large_device)) (property_storage_create (mukv_new large_device))
    ∅ ∅ ∅ 0 (session_create 0) [].

Definition sample_run (env : de_env) (calls : list editor_call) : M (de_state mukv) unit :=
  editor_run (λ _, 0) 10 sample_md5 sample_dirname id (λ _, true) (λ _ target, target) (λ _, true)
    svn_node_unknown 0 env calls.

(** The addition of a file, in a new directory, with a property. *)
Definition sample_calls : list editor_call :=
  [SetTargetRevision; OpenRoot; AddDirectory (str "trunk") 0; AddFile (str "trunk/f") 1;
   ChangeProp 2 (str "svn:eol-style") (Some (str "native"));
   ApplyTextdelta 2 (λ _, str "hello"); CloseFile 2; CloseDirectory 1; CloseDirectory 0; CloseEdit].

(** * Properties *)

(** C14. A dry run has no effect outside the editor: whatever a driver does with the editor while
    [DF_INITIAL_DRY_RUN] is set, nothing is written to the output, and the head, the working tree
    and the scheduled changes of the path repository stay as they were, also when a callback
    fails. *)
Theorem delta_dry_run_silent `{HashIter} {T : Type} `{KV T} `{Codec} rand fuel apr_md5
    svn_path_dirname svn_md5_digest_to_cstring svn_property_regular svndiff temp_ok uninit_kind
    uninit_rev (env : de_env) (calls : list editor_call) (d : de_state T) :
  has_flag (v_opts env) DF_INITIAL_DRY_RUN = true →
  match editor_run rand fuel apr_md5 svn_path_dirname svn_md5_digest_to_cstring
          svn_property_regular svndiff temp_ok uninit_kind uninit_rev env calls d with
  | UB => True
  | Fail d' _ | Done d' _ => face d' = face d
  end.
Proof. intros Hdry. apply (editor_run_quiet _ _ _ _ _ _ _ _ _ _ env Hdry calls d). Qed.

Lemma delta_dry_run_silent_witness :
  ∃ d', sample_run (sample_env (sample_opts DF_INITIAL_DRY_RUN 2) ∅) sample_calls sample_state
          = Done d' tt ∧ face d' = face sample_state ∧ d_out d' = [].
Proof.
  pose proof (delta_dry_run_silent (λ _, 0) 10 sample_md5 sample_dirname id (λ _, true)
    (λ _ target, target) (λ _, true) svn_node_unknown 0
    (sample_env (sample_opts DF_INITIAL_DRY_RUN 2) ∅) sample_calls sample_state
    ltac:(vm_compute; reflexivity)) as Hf.
  unfold sample_run. destruct (editor_run _ _ _ _ _ _ _ _ _ _ _ _ _) as [|d' m|d' []] eqn:Hrun.
  - exfalso. vm_compute in Hrun. discriminate Hrun.
  - exfalso. vm_compute in Hrun. discriminate Hrun.
  - exists d'. split; [reflexivity|]. split; [exact Hf|]. injection Hf as Hf _ _ _. exact Hf.
Defined.
