(* ===== verification/DeltaDump.v ===== *)
(** The records written by the delta editor (Delta.v): what [delta_dump_node] prints for a node is
    read back, by the reader of DumpFormat.v, as exactly what the node says. *)
From S2P Require Import Prelude Interfaces Mukv Utils Types Copyfrom Property PropStore PathRepo.
From S2P Require Import Session DumpFormat Stream Delta DeltaFacts.

Open Scope Z_scope.

Section dump.
Context `{HashIter} {T : Type} `{KV T} `{Codec}.
Variables (svn_path_dirname svn_md5_digest_to_cstring : bytes → bytes).
Variable svndiff : bytes → bytes → bytes.
Variable temp_ok : nat → bool.
Variable env : de_env.

Implicit Types (d : de_state T) (n : de_node) (id : nat).

Abbreviation dump_body := (dump_body svn_md5_digest_to_cstring svndiff temp_ok env).
Abbreviation dump_checked := (dump_checked svn_md5_digest_to_cstring svndiff temp_ok env).
Abbreviation deltas := (has_flag (v_opts env) DF_USE_DELTAS).
Abbreviation format3 := (do_dump_format (v_opts env) =? 3).

(** * Running the monad *)

Lemma run_bind {A B} (m : M (de_state T) A) (k : A → M (de_state T) B) d d' x :
  m d = Done d' x → (m ≫= k) d = k x d'.
Proof. intros Hm. unfold mbind, M_bind. by rewrite Hm. Qed.

Lemma run_node_get d id n : d_nodes d !! id = Some n → node_get id d = Done d n.
Proof. intros Hn. unfold node_get, mbind, M_bind, get, lift. by rewrite Hn. Qed.

Lemma run_node_upd d id n f :
  d_nodes d !! id = Some n →
  node_upd id f d = Done (put_nodes d (<[id := f n]> (d_nodes d))) tt.
Proof. intros Hn. unfold node_upd. by rewrite (run_bind _ _ _ _ _ (run_node_get _ _ _ Hn)). Qed.

Lemma run_lift {A} d (x : A) : lift (Some x) d = Done d x.
Proof. done. Qed.

Lemma run_read_file d f b : d_files d !! f = Some b → read_file f d = Done d b.
Proof. intros Hf. unfold read_file, mbind, M_bind, get. by rewrite Hf. Qed.

(** * What is expected *)

(** Values are printed up to their first NUL. *)
Definition node_lines n : list prop_line :=
  ((λ kv, PropSet (kv.1) (c_str (kv.2))) <$> dumped_props n) ++ (PropDel <$> dumped_deletions env n).

(** Whether the node is written as a copy, with its contents, and with a property block. *)
Definition as_copy n : bool := (n_cp_info n =? CPI_COPY) && bool_decide (n_copyfrom_path n ≠ None).

Definition local_copyfrom n : option bytes :=
  p ← n_copyfrom_path n; delta_get_local_copyfrom_path (v_prefix env) p.

Definition with_content d n : bool :=
  if as_copy n && bool_decide (n_action n = "A"%char ∧ n_kind n = svn_node_file)
  then negb (bool_decide (local_copyfrom n ≫= (d_md5_hash d !!.) = Some (n_md5sum n)))
  else bool_decide (n_kind n = svn_node_file) && n_applied_delta n.

Definition with_body d n : bool :=
  bool_decide (n_action n ≠ "D"%char) &&
  negb (as_copy n && negb (with_content d n) && negb (n_props_changed n)).

Definition with_props n : bool :=
  n_props_changed n || bool_decide (n_action n = "A"%char) || (0 <? prop_length env n).

(** The text of a node: the file, or the difference to the file before. *)
Definition node_content d n : option bytes :=
  target ← n_filename n ≫= (d_files d !!.);
  if deltas then
    source ← match n_old_filename n with Some f => d_files d !! f | None => Some [] end;
    Some (svndiff source target)
  else Some target.

Definition action_word (a : ascii) : bytes :=
  if decide (a = "M"%char) then str "change"
  else if decide (a = "A"%char) then str "add" else str "delete".

(** What the record of a node has to say. *)
Definition node_expected d n : node_info :=
  let deleted := bool_decide (n_action n = "D"%char) in
  {| ni_path := prefixed env (n_path n);
     ni_action := action_word (n_action n);
     ni_kind := if deleted then None
                else Some (if decide (n_kind n = svn_node_file) then str "file" else str "dir");
     ni_copyfrom := if negb deleted && as_copy n
                    then Some (n_copyfrom_rev_local n, prefixed env (default [] (local_copyfrom n)))
                    else None;
     ni_props := if with_body d n && with_props n then Some (node_lines n) else None;
     ni_text := if with_body d n && with_content d n then node_content d n else None |}.

(** The actions a record can have. *)
Definition plain_action n : Prop :=
  n_action n = "M"%char ∨ n_action n = "A"%char ∨ n_action n = "D"%char.

(** A node that can be dumped: its action is not the one of a replacement; what is printed in
    header lines has no newline; properties are C strings; the copy source is local; the files
    are there. *)
Record dumpable d n : Prop := {
  dn_action : plain_action n;
  dn_path : nl ∉ prefixed env (n_path n);
  dn_props : Forall line_ok (node_lines n);
  dn_copy : n_action n ≠ "D"%char → as_copy n = true → 0 <= n_copyfrom_rev_local n ∧
    ∃ p, local_copyfrom n = Some p ∧ nl ∉ prefixed env p;
  dn_content : with_body d n && with_content d n = true → is_Some (node_content d n);
  dn_temp : deltas = true → with_body d n && with_content d n = true → temp_ok (d_temp d) = true;
  dn_md5 : nl ∉ svn_md5_digest_to_cstring (n_md5sum n)
}.

(** * Lengths and headers *)

Lemma prop_length_block n :
  prop_length env n + PROPS_END_LEN = Z.of_nat (length (prop_block (node_lines n))).
Proof.
  rewrite prop_block_length. unfold prop_length, node_lines.
  generalize (dumped_props n) (dumped_deletions env n). intros ps ds.
  induction ps as [|[k v] ps IH]; cbn [fmap list_fmap foldr app].
  - induction ds as [|k ds IH]; [done|]. cbn [fmap list_fmap foldr app line_strlen] in *.
    rewrite <-IH. ring.
  - cbn [line_strlen fst snd]. rewrite property_strlen_c_str, <-IH. ring.
Qed.

Lemma prop_length_nonneg n : 0 <= prop_length env n.
Proof.
  unfold prop_length. assert (∀ k v, 0 <= property_strlen k v) as Hs
    by (intros; rewrite property_strlen_dump; lia).
  assert (∀ k, 0 <= property_del_strlen k) as Hd
    by (intros; rewrite property_del_strlen_dump; lia).
  apply Z.add_nonneg_nonneg.
  - induction (dumped_props n) as [|[k v] ps IH]; [done|]. by apply Z.add_nonneg_nonneg.
  - induction (dumped_deletions env n) as [|k ds IH]; [done|]. by apply Z.add_nonneg_nonneg.
Qed.

(** The headers of the text. *)
Definition text_headers n (text : bytes) : headers :=
  (if deltas then [(TEXT_DELTA, str "true")] else []) ++
  [(TEXT_CONTENT_LENGTH, dec (Z.of_nat (length text)))] ++
  (if bool_decide (head (n_md5sum n) = Some nul) then []
   else [(TEXT_CONTENT_MD5, svn_md5_digest_to_cstring (n_md5sum n))]).

(** The headers behind the copy lines. *)
Definition body_headers n (content : option bytes) (props : bool) : headers :=
  let plen := if props then prop_length env n + PROPS_END_LEN else prop_length env n in
  (if props && format3 then [(PROP_DELTA, str "true")] else []) ++
  (if props then [(PROP_CONTENT_LENGTH, dec plen)] else []) ++
  from_option (text_headers n) [] content ++
  [(CONTENT_LENGTH, dec (plen + Z.of_nat (length (default [] content))))].

(** The first header lines. *)
Definition first_headers n : headers :=
  (NODE_PATH, prefixed env (n_path n)) ::
  (if bool_decide (n_action n ≠ "D"%char)
   then [(NODE_KIND, if decide (n_kind n = svn_node_file) then str "file" else str "dir")] else []) ++
  [(NODE_ACTION, action_word (n_action n))].

(** The copy lines. *)
Definition copy_headers n : headers :=
  if bool_decide (n_action n ≠ "D"%char) && as_copy n
  then [(NODE_COPYFROM_REV, dec (n_copyfrom_rev_local n));
        (NODE_COPYFROM_PATH, prefixed env (default [] (local_copyfrom n)))] else [].

Definition tail_headers d n : headers :=
  if with_body d n
  then body_headers n (if with_content d n then node_content d n else None) (with_props n) else [].

Definition record_headers d n : headers := first_headers n ++ copy_headers n ++ tail_headers d n.

(** * Runs *)

(** The node is marked, and nothing but the node, the table of dumped entries and the digests
    differ from before, apart from files and the output. *)
Definition marked d id n d' : Prop :=
  d_dumped d' = <[n_path n := id]> (d_dumped d) ∧
  d_md5_hash d' = (if decide (n_kind n = svn_node_file)
                   then <[n_path n := n_md5sum n]> (d_md5_hash d) else d_md5_hash d) ∧
  ∃ n', d_nodes d' = <[id := n']> (d_nodes d) ∧ n_dump_needed n' = false ∧ n_path n' = n_path n.

Lemma run_dump_finish d id n :
  d_nodes d !! id = Some n →
  ∃ d', dump_finish id d = Done d' tt ∧ d_out d' = d_out d ++ [nl; nl] ∧ marked d id n d'.
Proof.
  intros Hn. unfold dump_finish.
  rewrite (run_bind _ _ d (put_out d (d_out d ++ [nl; nl])) tt) by done.
  assert (∃ d1, delta_mark_node id (put_out d (d_out d ++ [nl; nl])) = Done d1 tt ∧
    d_out d1 = d_out d ++ [nl; nl] ∧ marked d id n d1 ∧
    d_nodes d1 !! id = Some (set_dump_needed n false)) as (d1 & Hd1 & Hout & Hm & Hn1).
  { unfold delta_mark_node, marked. erewrite run_bind by (apply run_node_get; exact Hn).
    case_decide as Hk; [rewrite bool_decide_eq_true_2 by done
                       |rewrite bool_decide_eq_false_2 by done];
      cbn; (eexists; split; [by apply run_node_upd|]); cbn; rewrite lookup_insert_eq;
      eauto 10. }
  rewrite (run_bind _ _ _ _ _ Hd1), (run_bind _ _ _ _ _ (run_node_get _ _ _ Hn1)).
  cbn. destruct (n_old_filename n); (eexists; split; [reflexivity|done]).
Qed.

(** After the deltification the text is in the file that is printed. *)
Lemma run_deltify d id n :
  d_nodes d !! id = Some n → deltas = true → temp_ok (d_temp d) = true →
  is_Some (node_content d n) →
  ∃ d' name, delta_deltify_node svndiff temp_ok env id d = Done d' tt ∧
    d_nodes d' = <[id := set_delta_filename n (Some name)]> (d_nodes d) ∧
    d_files d' !! name = node_content d n ∧ d_out d' = d_out d ∧
    d_dumped d' = d_dumped d ∧ d_md5_hash d' = d_md5_hash d.
Proof.
  intros Hn Hd Ht [c Hc]. unfold node_content in *. rewrite Hd in *.
  destruct (n_filename n) as [f|] eqn:Hf; [|done]. simpl in *.
  destruct (d_files d !! f) as [target|] eqn:Htgt; [|done]. simpl in *.
  unfold delta_deltify_node. rewrite (run_bind _ _ _ _ _ (run_node_get _ _ _ Hn)), Hf.
  unfold mbind at 1, M_bind, lift. rewrite (run_bind _ _ _ _ _ (run_read_file _ _ _ Htgt)).
  assert (∃ source, match n_old_filename n with Some f => d_files d !! f | None => Some [] end
    = Some source ∧ match n_old_filename n with Some f => read_file f | None => mret [] end d
    = Done d source) as (source & Hsrc & Hrd).
  { destruct (n_old_filename n) as [o|]; [|by eexists].
    destruct (d_files d !! o) as [source|] eqn:Ho; [|done].
    exists source. split; [done|by apply run_read_file]. }
  rewrite (run_bind _ _ _ _ _ Hrd), Hsrc. unfold mkstemp. unfold mbind at 1, M_bind. rewrite Ht.
  cbn -[mkstemp]. unfold mbind at 1, M_bind.
  erewrite run_node_upd by (cbn; exact Hn). cbn.
  do 2 eexists. split; [reflexivity|]. cbn. split; [done|]. by rewrite lookup_insert_eq.
Qed.

Lemma run_when_emit d b s :
  when b (emit s) d = Done (put_out d (d_out d ++ if b then s else [])) tt.
Proof. destruct b; [done|]. rewrite app_nil_r. by destruct d. Qed.

Lemma run_emit d s : emit s d = Done (put_out d (d_out d ++ s)) tt.
Proof. done. Qed.

Lemma put_out_put d s s' : put_out (put_out d s) s' = put_out d s'.
Proof. done. Qed.

Lemma run_text_headers d n content :
  (∀ text, content = Some text → content_path env n ≫= (d_files d !!.) = Some text) →
  dump_text_headers svn_md5_digest_to_cstring env n (bool_decide (is_Some content)) d
  = Done (put_out d (d_out d ++ from_option (λ t, print_headers (text_headers n t)) [] content))
      (Z.of_nat (length (default [] content))).
Proof.
  destruct content as [text|]; simpl.
  - intros Ht. specialize (Ht text eq_refl). destruct (content_path env n) as [f|] eqn:Hf; [|done].
    change (d_files d !! f = Some text) in Ht.
    rewrite (run_bind _ _ _ _ _ (run_lift _ _)), (run_bind _ _ _ _ _ (run_read_file _ _ _ Ht)).
    rewrite (run_bind _ _ _ _ _ (run_when_emit _ _ _)), (run_bind _ _ _ _ _ (run_emit _ _)),
      (run_bind _ _ _ _ _ (run_when_emit _ _ _)).
    rewrite !put_out_put. unfold text_headers, mret, M_ret. rewrite !print_headers_app.
    case_bool_decide; destruct deltas; cbn [negb d_out put_out];
      rewrite ?print_headers_cons, ?print_headers_nil, ?app_nil_r, <-?app_assoc; done.
  - intros _. rewrite app_nil_r. by destruct d.
Qed.

Lemma run_text d n content :
  (∀ text, content = Some text → content_path env n ≫= (d_files d !!.) = Some text) →
  ∃ d', when (bool_decide (is_Some content)) (dump_text env n) d = Done d' tt ∧
    d_out d' = d_out d ++ default [] content ∧
    d_nodes d' = d_nodes d ∧ d_dumped d' = d_dumped d ∧ d_md5_hash d' = d_md5_hash d.
Proof.
  destruct content as [text|]; intros Ht; [|eexists; split; [done|by rewrite app_nil_r]].
  specialize (Ht text eq_refl). destruct (content_path env n) as [f|] eqn:Hf; [|done].
  change (d_files d !! f = Some text) in Ht. cbn [when bool_decide decide_rel default].
  change (when _ ?m) with m. unfold dump_text, delta_cat_file. rewrite Hf.
  rewrite (run_bind _ _ _ _ _ (run_lift _ _)).
  erewrite run_bind by (rewrite (run_bind _ _ _ _ _ (run_read_file _ _ _ Ht)); apply run_emit).
  destruct deltas; (eexists; split; [reflexivity|done]).
Qed.

(** The node as it is when its headers are printed. *)
Definition prepared n n1 : Prop := n1 = n ∨ ∃ name, n1 = set_delta_filename n name.

Lemma run_prepare d id n (dc : bool) :
  d_nodes d !! id = Some n → (deltas = true → dc = true → temp_ok (d_temp d) = true) →
  (dc = true → is_Some (node_content d n)) →
  ∃ d' n1, when (dc && deltas) (delta_deltify_node svndiff temp_ok env id) d = Done d' tt ∧
    d_nodes d' = <[id := n1]> (d_nodes d) ∧ prepared n n1 ∧
    (dc = true → content_path env n1 ≫= (d_files d' !!.) = node_content d n) ∧
    d_out d' = d_out d ∧ d_dumped d' = d_dumped d ∧ d_md5_hash d' = d_md5_hash d.
Proof.
  intros Hn Ht Hc. unfold content_path.
  destruct dc; [destruct deltas eqn:Hd|].
  - destruct (run_deltify d id n) as (d' & name & Hrun & Hns & Hf & ?); auto.
    exists d', (set_delta_filename n (Some name)). unfold prepared.
    split; [exact Hrun|]. cbn. eauto 10.
  - exists d, n. unfold prepared, node_content. rewrite insert_id, Hd by done.
    split; [done|]. split_and!; auto. intros _. destruct (n_filename n) as [f|]; [|done].
    cbn. by destruct (d_files d !! f).
  - exists d, n. unfold prepared. rewrite insert_id by done. by split_and!; auto.
Qed.

Lemma prop_block_node n :
  concat ((λ kv, property_dump (Some (kv.1)) (Some (kv.2))) <$> dumped_props n) ++
  concat ((λ k, property_del_dump (Some k)) <$> dumped_deletions env n) ++ PROPS_END
  = prop_block (node_lines n).
Proof.
  unfold prop_block, node_lines. rewrite fmap_app, concat_app, <-app_assoc.
  rewrite <-!list_fmap_compose. do 2 f_equal. apply list_fmap_ext. intros i [k v] _.
  symmetry. apply property_dump_c_str.
Qed.

Lemma marked_prepared d d1 id n n1 d' :
  prepared n n1 → d_nodes d1 = <[id := n1]> (d_nodes d) →
  d_dumped d1 = d_dumped d → d_md5_hash d1 = d_md5_hash d →
  marked d1 id n1 d' → marked d id n d'.
Proof.
  intros Hp Hns Hd Hm (Hd' & Hm' & n' & Hns' & Hneed & Hpath). unfold marked.
  rewrite Hd', Hm', Hns', Hns, Hd, Hm, insert_insert_eq.
  destruct Hp as [->|[name ->]]; eauto 10.
Qed.

Lemma body_headers_prepared n n1 content props :
  prepared n n1 → body_headers n1 content props = body_headers n content props.
Proof. by intros [->|[name ->]]. Qed.

Lemma node_lines_prepared n n1 : prepared n n1 → node_lines n1 = node_lines n.
Proof. by intros [->|[name ->]]. Qed.

Lemma prop_length_prepared n n1 : prepared n n1 → prop_length env n1 = prop_length env n.
Proof. by intros [->|[name ->]]. Qed.

(** The text of the headers behind the copy lines. *)
Lemma print_body_headers n content props :
  print_headers (body_headers n content props) =
  (if props && format3 then header_line PROP_DELTA (str "true") else []) ++
  (if props then header_line PROP_CONTENT_LENGTH (dec (prop_length env n + PROPS_END_LEN)) else []) ++
  from_option (λ t, print_headers (text_headers n t)) [] content ++
  header_line CONTENT_LENGTH
    (dec ((if props then prop_length env n + PROPS_END_LEN else prop_length env n)
          + Z.of_nat (length (default [] content)))).
Proof.
  unfold body_headers. rewrite !print_headers_app, print_headers_cons, print_headers_nil, app_nil_r.
  rewrite !print_headers_if, !print_headers_cons, print_headers_nil, !app_nil_r.
  destruct content; destruct props; done.
Qed.

Lemma run_dump_body d id n content dp :
  let props := dp || (0 <? prop_length env n) in
  d_nodes d !! id = Some n → (deltas = true → is_Some content → temp_ok (d_temp d) = true) →
  (∀ text, content = Some text → node_content d n = Some text) →
  ∃ d', dump_body id (bool_decide (is_Some content)) dp d = Done d' tt ∧
    d_out d' = d_out d ++ print_headers (body_headers n content props) ++ [nl] ++
      (if props then prop_block (node_lines n) else []) ++ default [] content ++ [nl; nl] ∧
    marked d id n d'.
Proof.
  intros props Hn Ht Hc. unfold Delta.dump_body.
  destruct (run_prepare d id n (bool_decide (is_Some content))) as
    (d1 & n1 & Hrun & Hns & Hp & Hf & Hout & Hd & Hm); [done| | |].
  { intros ? ?%bool_decide_eq_true. auto. }
  { intros [text Htext]%bool_decide_eq_true. rewrite (Hc text Htext). eauto. }
  assert (∀ text, content = Some text → content_path env n1 ≫= (d_files d1 !!.) = Some text) as Hc1.
  { intros text Htext. rewrite Hf, (Hc text) by (rewrite ?Htext; done). done. }
  rewrite (run_bind _ _ _ _ _ Hrun).
  assert (d_nodes d1 !! id = Some n1) as Hn1 by (by rewrite Hns, lookup_insert_eq).
  rewrite (run_bind _ _ _ _ _ (run_node_get _ _ _ Hn1)), (prop_length_prepared _ _ Hp).
  fold props. cbv zeta.
  rewrite (run_bind _ _ _ _ _ (run_when_emit _ _ _)), (run_bind _ _ _ _ _ (run_when_emit _ _ _)).
  rewrite put_out_put, (run_bind _ _ _ _ _ (run_text_headers (put_out _ _) n1 content Hc1)).
  rewrite (run_bind _ _ _ _ _ (run_emit _ _)), (run_bind _ _ _ _ _ (run_when_emit _ _ _)).
  rewrite !put_out_put, prop_block_node, (node_lines_prepared _ _ Hp).
  cbn [d_out put_out].
  match goal with |- context [(when _ _ ≫= _) ?x] => set (d2 := x) end.
  destruct (run_text d2 n1 content Hc1) as (d3 & Hrun3 & Hout3 & Hns3 & Hd3 & Hm3).
  rewrite (run_bind _ _ _ _ _ Hrun3).
  destruct (run_dump_finish d3 id n1) as (d4 & Hrun4 & Hout4 & Hmark); [by rewrite Hns3|].
  exists d4. split; [exact Hrun4|]. split.
  - rewrite Hout4, Hout3. cbn [d2 d_out put_out]. rewrite Hout.
    rewrite <-(body_headers_prepared n n1) by done. rewrite print_body_headers.
    rewrite (prop_length_prepared _ _ Hp). destruct props; rewrite <-!app_assoc; done.
  - apply (marked_prepared d d3 id n n1); auto.
    + by rewrite Hns3.
    + by rewrite Hd3.
    + by rewrite Hm3.
Qed.

Lemma with_content_file d n : with_content d n = true → n_kind n = svn_node_file.
Proof.
  unfold with_content. destruct (as_copy n && _) eqn:Hc.
  - apply andb_true_iff in Hc as [_ [_ Hk]%bool_decide_eq_true]. done.
  - intros [Hk%bool_decide_eq_true _]%andb_true_iff. done.
Qed.

Lemma run_dump_copy d n p :
  as_copy n = true → local_copyfrom n = Some p →
  dump_copy env n (bool_decide (n_kind n = svn_node_file) && n_applied_delta n) d
  = Done (put_out d (d_out d ++ header_line NODE_COPYFROM_REV (dec (n_copyfrom_rev_local n)) ++
                     header_line NODE_COPYFROM_PATH (prefixed env p))) (with_content d n).
Proof.
  intros Hc Hp. unfold dump_copy, with_content. rewrite Hc, Hp.
  unfold local_copyfrom in Hp. destruct (n_copyfrom_path n) as [c|]; [|done]. cbn in Hp.
  rewrite (run_bind _ _ _ _ _ (run_lift _ _)), Hp, (run_bind _ _ _ _ _ (run_lift _ _)).
  rewrite (run_bind _ _ _ _ _ (run_emit _ _)), (run_bind _ _ _ _ _ (run_emit _ _)).
  rewrite put_out_put, (run_bind get _ _ _ _ eq_refl). cbn [d_out d_md5_hash put_out].
  rewrite <-app_assoc. done.
Qed.

Lemma action_name_word n :
  plain_action n →
  NODE_ACTION ++ str ": " ++ action_name (n_action n)
  = header_line NODE_ACTION (action_word (n_action n)).
Proof. by intros [->|[->| ->]]. Qed.

(** Everything after the first header lines. *)
Definition dump_rest id n : M (de_state T) unit :=
  if bool_decide (n_action n = "D"%char) then dump_finish id
  else
    let dump_content := bool_decide (n_kind n = svn_node_file) && n_applied_delta n in
    let dump_props := n_props_changed n || bool_decide (n_action n = "A"%char) in
    if as_copy n then
      dump_content ← dump_copy env n dump_content;
      if negb dump_content && negb (n_props_changed n) then dump_finish id
      else dump_body id (dump_content && negb (bool_decide (n_kind n = svn_node_dir))) dump_props
    else dump_body id dump_content dump_props.

Lemma run_first d id n :
  d_nodes d !! id = Some n → plain_action n →
  dump_checked id d
  = dump_rest id n (put_out d (d_out d ++ print_headers (first_headers n))).
Proof.
  intros Hn Hd. unfold Delta.dump_checked, dump_rest.
  rewrite (run_bind _ _ _ _ _ (run_node_get _ _ _ Hn)), (run_bind _ _ _ _ _ (run_emit _ _)).
  rewrite (run_bind _ _ _ _ _ (run_when_emit _ _ _)), (run_bind _ _ _ _ _ (run_emit _ _)).
  rewrite !put_out_put, (action_name_word n) by done.
  do 2 f_equal. unfold first_headers. rewrite print_headers_cons, print_headers_app, print_headers_if.
  rewrite !print_headers_cons, print_headers_nil, !app_nil_r. cbn [d_out put_out].
  by rewrite <-!app_assoc.
Qed.

Definition trailer d n : bytes := if with_body d n then [nl; nl] else [nl].

Lemma run_body_expected d id n :
  d_nodes d !! id = Some n → dumpable d n → with_body d n = true →
  ∃ d', dump_body id (with_content d n) (n_props_changed n || bool_decide (n_action n = "A"%char)) d
          = Done d' tt ∧
    d_out d' = d_out d ++ print_headers (tail_headers d n) ++ [nl] ++ info_body (node_expected d n)
      ++ trailer d n ∧
    marked d id n d'.
Proof.
  intros Hn Hd Hb. pose proof (dn_content _ _ Hd) as Hc. rewrite Hb in Hc. simpl in Hc.
  destruct (run_dump_body d id n (if with_content d n then node_content d n else None)
    (n_props_changed n || bool_decide (n_action n = "A"%char))) as (d' & Hrun & Hout & Hm);
    [done| |by destruct (with_content d n)|].
  { intros Hdl [? ?]. apply (dn_temp _ _ Hd Hdl). rewrite Hb. by destruct (with_content d n). }
  exists d'. split_and!; [|rewrite Hout|done].
  - rewrite <-Hrun. f_equal. destruct (with_content d n); [|done].
    destruct (Hc eq_refl) as [? ->]. done.
  - unfold tail_headers, info_body, props_text, node_expected, trailer, with_props.
    rewrite Hb. cbn [ni_props ni_text andb].
    destruct (_ || (0 <? _)); cbn [from_option]; rewrite <-?app_assoc;
      destruct (with_content d n); done.
Qed.

Lemma no_body_expected d n :
  with_body d n = false → info_body (node_expected d n) = [] ∧ tail_headers d n = [].
Proof. intros Hb. unfold info_body, props_text, node_expected, tail_headers. by rewrite Hb. Qed.

Lemma dumpable_put_out d n s : dumpable d n → dumpable (put_out d s) n.
Proof. intros []. by constructor. Qed.

(** A record that ends behind the headers printed so far. *)
Lemma run_finish_expected d id n :
  d_nodes d !! id = Some n → with_body d n = false →
  ∃ d', dump_finish id d = Done d' tt ∧
    d_out d' = d_out d ++ print_headers (tail_headers d n) ++ [nl] ++ info_body (node_expected d n)
      ++ trailer d n ∧
    marked d id n d'.
Proof.
  intros Hn Hb. destruct (no_body_expected d n Hb) as [-> ->]. unfold trailer. rewrite Hb.
  by apply run_dump_finish.
Qed.

(** A record written as a copy. *)
Lemma run_copy_rest d id n :
  d_nodes d !! id = Some n → dumpable d n → n_action n ≠ "D"%char → as_copy n = true →
  ∃ d', dump_rest id n d = Done d' tt ∧
    d_out d' = d_out d ++ print_headers (copy_headers n ++ tail_headers d n) ++ [nl] ++
      info_body (node_expected d n) ++ trailer d n ∧
    marked d id n d'.
Proof.
  intros Hn Hd Ha Hc. unfold dump_rest, copy_headers.
  destruct (dn_copy _ _ Hd Ha Hc) as (_ & p & Hp & _).
  rewrite (bool_decide_eq_false_2 (n_action n = "D"%char)), (bool_decide_eq_true_2 (n_action n ≠ "D"%char)), Hc, Hp by done.
  cbn [andb default].
  rewrite (run_bind _ _ _ _ _ (run_dump_copy d n p Hc Hp)).
  match goal with |- context [put_out d ?s] => set (d1 := put_out d s) end.
  assert (∃ d', (if negb (with_content d n) && negb (n_props_changed n) then dump_finish id
    else dump_body id (with_content d n && negb (bool_decide (n_kind n = svn_node_dir)))
           (n_props_changed n || bool_decide (n_action n = "A"%char))) d1 = Done d' tt ∧
    d_out d' = d_out d1 ++ print_headers (tail_headers d1 n) ++ [nl] ++
      info_body (node_expected d1 n) ++ trailer d1 n ∧ marked d1 id n d') as (d' & Hrun & Hout & Hm).
  { destruct (negb _ && negb _) eqn:Hb.
    - apply run_finish_expected; [done|]. unfold with_body. rewrite Hc.
      change (with_content d1 n) with (with_content d n). cbn [andb]. rewrite Hb.
      by rewrite andb_false_r.
    - assert (with_content d n && negb (bool_decide (n_kind n = svn_node_dir))
              = with_content d n) as ->.
      { destruct (with_content d n) eqn:Hwc; [|done]. apply with_content_file in Hwc as ->. done. }
      apply (run_body_expected d1); [done|by apply dumpable_put_out|]. unfold with_body.
      rewrite bool_decide_eq_true_2, Hc by done. cbn [andb].
      change (with_content d1 n) with (with_content d n). by rewrite Hb. }
  exists d'. split; [done|]. split; [|done]. rewrite Hout. cbn [d1 d_out put_out].
  rewrite print_headers_app, !print_headers_cons, print_headers_nil, app_nil_r.
  by rewrite <-!app_assoc.
Qed.

Lemma run_rest d id n :
  d_nodes d !! id = Some n → dumpable d n →
  ∃ d', dump_rest id n d = Done d' tt ∧
    d_out d' = d_out d ++ print_headers (copy_headers n ++ tail_headers d n) ++ [nl] ++
      info_body (node_expected d n) ++ trailer d n ∧
    marked d id n d'.
Proof.
  intros Hn Hd. destruct (decide (n_action n = "D"%char)) as [Ha|Ha].
  - unfold dump_rest, copy_headers. 
    rewrite (bool_decide_eq_true_2 (n_action n = "D"%char)), (bool_decide_eq_false_2 (n_action n ≠ "D"%char)) by tauto.
    apply run_finish_expected; [done|]. unfold with_body. by rewrite bool_decide_eq_false_2 by tauto.
  - destruct (as_copy n) eqn:Hc; [by apply run_copy_rest|].
    destruct (run_body_expected d id n) as (d' & Hrun & Hout & Hm); [done..| |].
    { unfold with_body. rewrite bool_decide_eq_true_2, Hc by done. done. }
    exists d'. unfold dump_rest, copy_headers. 
    rewrite Hc, andb_false_r, (bool_decide_eq_false_2 (n_action n = "D"%char)) by done.
    split; [|done]. rewrite <-Hrun. unfold with_content. by rewrite Hc.
Qed.

(** What [delta_dump_node] writes once the action and the copy source are settled. *)
Lemma run_dump_checked d id n :
  d_nodes d !! id = Some n → dumpable d n →
  ∃ d', dump_checked id d = Done d' tt ∧
    d_out d' = d_out d ++ print_headers (record_headers d n) ++ [nl] ++
      info_body (node_expected d n) ++ trailer d n ∧
    marked d id n d'.
Proof.
  intros Hn Hd. rewrite (run_first d id n Hn (dn_action _ _ Hd)).
  destruct (run_rest (put_out d (d_out d ++ print_headers (first_headers n))) id n) as
    (d' & Hrun & Hout & Hm); [done|by apply dumpable_put_out|].
  exists d'. split; [done|]. split; [|done]. rewrite Hout. unfold record_headers.
  cbn [d_out put_out]. rewrite (print_headers_app (first_headers n)), <-!app_assoc. done.
Qed.

(** * Reading back *)

Lemma Forall_if {A} (P : A → Prop) (b : bool) l :
  (b = true → Forall P l) → Forall P (if b then l else []).
Proof. destruct b; auto. Qed.

(** The text headers have names of their own. *)
Lemma get_text_other n content name :
  bool_decide (name ∈ [TEXT_DELTA; TEXT_CONTENT_LENGTH; TEXT_CONTENT_MD5]) = false →
  header_get name (from_option (text_headers n) [] content) = None.
Proof.
  intros Hname%bool_decide_eq_false. destruct content as [text|]; [|done].
  cbn [from_option]. unfold text_headers. rewrite !header_get_app, header_get_if.
  assert (name ≠ TEXT_DELTA ∧ name ≠ TEXT_CONTENT_LENGTH ∧ name ≠ TEXT_CONTENT_MD5)
    as (? & ? & ?) by set_solver.
  destruct deltas; case_bool_decide; cbn [header_get]; by rewrite !decide_False by congruence.
Qed.

Lemma get_text_length n content :
  header_get TEXT_CONTENT_LENGTH (from_option (text_headers n) [] content)
  = (λ t, dec (Z.of_nat (length t))) <$> content.
Proof.
  destruct content as [text|]; [|done]. cbn [from_option fmap option_fmap option_map].
  unfold text_headers. header_tac. done.
Qed.

(** The value of a header in the record of a node. *)
Ltac get_tac :=
  unfold record_headers, first_headers, copy_headers, tail_headers, body_headers; header_tac;
  rewrite ?get_text_length, ?get_text_other by (vm_compute; reflexivity); rewrite ?if_none.

Lemma get_path d n : header_get NODE_PATH (record_headers d n) = Some (prefixed env (n_path n)).
Proof. get_tac. done. Qed.

Lemma get_action d n :
  header_get NODE_ACTION (record_headers d n) = Some (action_word (n_action n)).
Proof. get_tac. done. Qed.

Lemma get_kind d n : header_get NODE_KIND (record_headers d n) = ni_kind (node_expected d n).
Proof. get_tac. unfold node_expected. cbn [ni_kind]. by do 2 case_bool_decide. Qed.

Lemma get_copy d n :
  dumpable d n → read_copy_part (record_headers d n) = ni_copyfrom (node_expected d n).
Proof.
  intros Hd. unfold read_copy_part.
  assert (header_get NODE_COPYFROM_REV (record_headers d n) =
    if bool_decide (n_action n ≠ "D"%char) && as_copy n
    then Some (dec (n_copyfrom_rev_local n)) else None) as ->
    by (get_tac; by destruct (_ && as_copy n)).
  assert (header_get NODE_COPYFROM_PATH (record_headers d n) =
    if bool_decide (n_action n ≠ "D"%char) && as_copy n
    then Some (prefixed env (default [] (local_copyfrom n))) else None) as ->
    by (get_tac; by destruct (_ && as_copy n)).
  unfold node_expected. cbn [ni_copyfrom].
  destruct (as_copy n) eqn:Hc; [|by rewrite !andb_false_r].
  rewrite !andb_true_r.
  do 2 case_bool_decide; cbn [negb mbind option_bind]; try done.
  destruct (dn_copy _ _ Hd ltac:(done) Hc) as [Hrev _]. by rewrite undec_dec.
Qed.

Lemma get_prop_length d n :
  header_get PROP_CONTENT_LENGTH (record_headers d n)
  = (λ ls, dec (Z.of_nat (length (prop_block ls)))) <$> ni_props (node_expected d n).
Proof.
  get_tac. unfold node_expected. cbn [ni_props].
  destruct (with_body d n), (with_props n); try done. cbn [andb fmap option_fmap option_map].
  by rewrite <-prop_length_block.
Qed.

Lemma get_text d n :
  header_get TEXT_CONTENT_LENGTH (record_headers d n)
  = (λ t, dec (Z.of_nat (length t))) <$> ni_text (node_expected d n).
Proof.
  get_tac. unfold node_expected. cbn [ni_text]. rewrite ?if_none.
  destruct (with_body d n), (with_content d n), (node_content d n); done.
Qed.

Lemma get_content_length d n :
  Z.of_nat (length (info_body (node_expected d n)))
  = undec (default [] (header_get CONTENT_LENGTH (record_headers d n))).
Proof.
  get_tac. unfold info_body, props_text, node_expected. cbn [ni_props ni_text].
  pose proof (prop_length_block n) as Hlen. pose proof (prop_length_nonneg n).
  destruct (with_body d n); [|done]. cbn [andb].
  change (default [] (Some ?x)) with x. set (text := default [] _).
  rewrite undec_dec, length_app, Nat2Z.inj_add by (destruct (with_props n); unfold PROPS_END_LEN; lia).
  f_equal. destruct (with_props n) eqn:Hp; [by rewrite Hlen|]. cbn [from_option length].
  unfold with_props in Hp. apply orb_false_iff in Hp as [_ Hp]. lia.
Qed.

(** Uses what is known about a node that is written as a copy. *)
Ltac copying :=
  match goal with Hx : _ && as_copy _ = true, Hd : dumpable _ _ |- _ =>
    apply andb_true_iff in Hx as [Ha%bool_decide_eq_true Hc];
    destruct (dn_copy _ _ Hd Ha Hc) as (Hrev & p & Hp & ?) end.

Lemma record_headers_ok d n : dumpable d n → Forall header_ok (record_headers d n).
Proof.
  intros Hd. assert (∀ z, 0 <= z → nl ∉ dec z) as Hdec by apply dec_no_nl.
  pose proof (prop_length_nonneg n) as Hlen.
  assert (∀ name, name ∈ [NODE_PATH; NODE_KIND; NODE_ACTION; NODE_COPYFROM_REV; NODE_COPYFROM_PATH;
    PROP_DELTA; PROP_CONTENT_LENGTH; TEXT_DELTA; TEXT_CONTENT_LENGTH; TEXT_CONTENT_MD5;
    CONTENT_LENGTH] → ∀ v, nl ∉ v → header_ok (name, v)) as Hok.
  { intros name Hname v Hv. rewrite !elem_of_cons, elem_of_nil in Hname.
    destruct_or!; subst; (split_and!; [done|eval_decide|eval_decide|exact Hv]) || done. }
  unfold record_headers, first_headers, copy_headers, tail_headers, body_headers.
  repeat first
    [ apply Forall_app_2 | apply Forall_cons_2 | apply Forall_nil_2
    | apply Forall_if; intros ? | apply Hok; [set_solver|] ].
  - apply Hd.
  - destruct (decide (n_kind n = svn_node_file)); eval_decide.
  - unfold action_word. destruct (dn_action _ _ Hd) as [->|[->| ->]]; eval_decide.
  - copying. by apply Hdec.
  - copying. by rewrite Hp.
  - eval_decide.
  - apply Hdec. unfold PROPS_END_LEN. destruct (with_props n); lia.
  - destruct (if with_content d n then _ else _) as [text|]; [|apply Forall_nil_2].
    cbn [from_option]. unfold text_headers. repeat first
      [ apply Forall_app_2 | apply Forall_cons_2 | apply Forall_nil_2 | case_bool_decide
      | apply Forall_if; intros ? | apply Hok; [set_solver|] ].
    + eval_decide.
    + apply Hdec. lia.
    + apply Hd.
  - apply Hdec. unfold PROPS_END_LEN. destruct (with_props n); lia.
Qed.

(** What is written for a node reads back as what the node says. *)
Lemma record_read d n k rest :
  dumpable d n →
  read_node (replicate k nl ++ print_headers (record_headers d n) ++ [nl] ++
    info_body (node_expected d n) ++ rest) = Some (node_expected d n, rest).
Proof.
  intros Hd. apply read_node_print; auto using record_headers_ok, get_path, get_action, get_kind,
    get_copy, get_prop_length, get_text, get_content_length.
  intros ls Hls. unfold node_expected in Hls. cbn [ni_props] in Hls.
  destruct (with_body d n && with_props n); simplify_eq. apply Hd.
Qed.

Definition record_text d n : bytes :=
  print_headers (record_headers d n) ++ [nl] ++ info_body (node_expected d n) ++ trailer d n.

(** It is a record of a dump file. *)
Lemma record_chunk d n : dumpable d n → chunk (NodeItem (node_expected d n)) (record_text d n).
Proof.
  intros Hd. unfold record_text.
  replace (trailer d n) with (replicate (if with_body d n then 2 else 1) nl)
    by (unfold trailer; by destruct (with_body d n)).
  apply chunk_node; auto using record_headers_ok, get_content_length.
  1-3: get_tac; done.
  intros k rest. by apply record_read.
Qed.

(** * Nodes *)

(** The copy and action checks return, and leave the node as [n1]. *)
Definition settles d id d1 n1 : Prop :=
  (_ ← delta_check_copy env id; delta_check_action svn_path_dirname env id) d = Done d1 tt ∧
  d_nodes d1 !! id = Some n1.

Lemma settles_out d id d1 n1 : settles d id d1 n1 → d_out d1 = d_out d.
Proof.
  intros [Hrun _]. pose proof (keeps_bind same_face (delta_check_copy env id)
    (λ _, delta_check_action svn_path_dirname env id) (delta_check_copy_quiet _ _)
    (λ _, delta_check_action_quiet _ _ _)) as Hq.
  specialize (Hq d). rewrite Hrun in Hq. by injection Hq.
Qed.

(** Nothing but the copy check is to be done for additions and deletions, and when the whole
    history is dumped. *)
Lemma settles_pure d id n :
  d_nodes d !! id = Some n →
  whole_history env = true ∨ (n_action n ≠ "R"%char ∧ n_action n ≠ "M"%char) →
  settles d id (put_nodes d (<[id := check_copy env n]> (d_nodes d))) (check_copy env n).
Proof.
  intros Hn Hcase. split; [|apply lookup_insert_eq].
  unfold delta_check_copy, delta_check_action.
  rewrite (run_bind _ _ _ _ _ (run_node_upd d id n _ Hn)).
  rewrite (run_bind _ _ _ _ _ (run_node_get (put_nodes _ _) id _ (lookup_insert_eq _ _ _))).
  assert (n_action (check_copy env n) = n_action n) as ->.
  { unfold check_copy. repeat case_match; done. }
  destruct Hcase as [->|Ha]; [by destruct (bool_decide _)|].
  by rewrite bool_decide_eq_true_2.
Qed.

Abbreviation delta_dump_node :=
  (delta_dump_node svn_path_dirname svn_md5_digest_to_cstring svndiff temp_ok env).

(** The beginning of [delta_dump_node]. *)
Lemma run_checks d id n d1 n1 k :
  d_nodes d !! id = Some n → n_dump_needed n = true → dump_skipped env n = false →
  settles d id d1 n1 →
  delta_dump_node (S k) id d
  = (if bool_decide (n_action n1 = "R"%char) then
       _ ← emit (header_line NODE_PATH (prefixed env (n_path n1)));
       _ ← emit (header_line NODE_ACTION (str "delete"));
       _ ← emit [nl; nl];
       _ ← node_upd id (λ n, set_action (set_cp_info n CPI_NONE) "A"%char);
       delta_dump_node k id
     else dump_checked id) d1.
Proof.
  intros Hn Hneed Hskip [Hrun Hn1]. cbn [Delta.delta_dump_node].
  rewrite (run_bind _ _ _ _ _ (run_node_get _ _ _ Hn)), Hneed, Hskip. cbn [negb].
  destruct (delta_check_copy env id d) as [| |d0 []] eqn:Hcopy;
    unfold mbind at 1, M_bind in Hrun; rewrite Hcopy in Hrun; try done.
  rewrite (run_bind _ _ _ _ _ Hcopy), (run_bind _ _ _ _ _ Hrun).
  by rewrite (run_bind _ _ _ _ _ (run_node_get _ _ _ Hn1)).
Qed.

Lemma skip_trailer d n rest : skip_newlines (trailer d n ++ rest) = skip_newlines rest.
Proof. unfold trailer. by destruct (with_body d n). Qed.

Lemma run_marked d id n d' k : marked d id n d' → delta_dump_node (S k) id d' = Done d' tt.
Proof.
  intros (_ & _ & n' & Hns & Hneed & _). cbn [Delta.delta_dump_node].
  erewrite run_bind by (apply run_node_get; rewrite Hns; apply lookup_insert_eq).
  by rewrite Hneed.
Qed.

(** ** Replacements *)

Definition delete_info (path : bytes) : node_info :=
  mk_info (prefixed env path) (str "delete") None None None None.

Definition delete_record (path : bytes) : bytes :=
  header_line NODE_PATH (prefixed env path) ++ header_line NODE_ACTION (str "delete") ++ [nl; nl].

Lemma delete_record_read path rest :
  nl ∉ prefixed env path →
  read_node (delete_record path ++ rest) = Some (delete_info path, nl :: rest).
Proof.
  intros Hp. pose proof (read_node_print 0 [(NODE_PATH, prefixed env path);
    (NODE_ACTION, str "delete")] (delete_info path) (nl :: rest)) as Hr.
  rewrite !print_headers_cons, print_headers_nil, app_nil_r, <-!app_assoc in Hr.
  unfold delete_record. rewrite <-!app_assoc. apply Hr; try done.
  repeat constructor; try done; eval_decide.
Qed.

Lemma delete_record_chunk path :
  nl ∉ prefixed env path → chunk (NodeItem (delete_info path)) (delete_record path).
Proof.
  intros Hp. set (hs := [(NODE_PATH, prefixed env path); (NODE_ACTION, str "delete")]).
  assert (delete_record path = print_headers hs ++ [nl] ++ info_body (delete_info path) ++
    replicate 1 nl) as ->.
  { unfold hs, delete_record. rewrite !print_headers_cons, print_headers_nil, app_nil_r.
    by rewrite <-!app_assoc. }
  assert (Forall header_ok hs) as Hhs by (repeat constructor; try done; eval_decide).
  apply chunk_node; try done. intros k rest. apply read_node_print; try done.
Qed.

(** What a replaced node becomes before it is dumped as an addition. *)
Definition replaced n : de_node :=
  check_copy env (set_action (set_cp_info n CPI_NONE) "A"%char).

Lemma run_replace d id n d1 n1 :
  d_nodes d !! id = Some n → n_dump_needed n = true → dump_skipped env n = false →
  settles d id d1 n1 → n_action n1 = "R"%char → n_dump_needed n1 = true →
  delta_dump_node 2 id d
  = dump_checked id (put_nodes (put_out d1 (d_out d1 ++ delete_record (n_path n1)))
                       (<[id := replaced n1]> (d_nodes d1))).
Proof.
  intros Hn Hneed Hskip Hset Ha Hneed1. rewrite (run_checks d id n d1 n1) by done.
  rewrite bool_decide_eq_true_2 by done.
  rewrite !(run_bind _ _ _ _ _ (run_emit _ _)), !put_out_put. cbn [d_out put_out].
  erewrite run_bind by (apply run_node_upd; apply Hset).
  set (n2 := set_action (set_cp_info n1 CPI_NONE) "A"%char).
  match goal with |- Delta.delta_dump_node _ _ _ _ _ _ _ ?x = _ => set (d2 := x) end.
  assert (d_nodes d2 !! id = Some n2) as Hn2 by apply lookup_insert_eq.
  assert (dump_skipped env n2 = false) as Hskip2.
  { unfold dump_skipped in Hskip |- *. apply orb_false_iff in Hskip as [[Hd _]%orb_false_iff _].
    by rewrite Hd. }
  assert (n_action n2 ≠ "R"%char ∧ n_action n2 ≠ "M"%char) as Ha2 by by split.
  pose proof (settles_pure d2 id n2 Hn2 (or_intror Ha2)) as Hset2.
  rewrite (run_checks _ _ _ _ _ 0 Hn2 Hneed1 Hskip2 Hset2).
  replace (n_action (check_copy env n2)) with "A"%char; [|unfold check_copy; by repeat case_match].
  rewrite bool_decide_eq_false_2 by done. f_equal. unfold delete_record.
  change (d_nodes d2) with (<[id := n2]> (d_nodes d1)). rewrite insert_insert_eq, !app_assoc. done.
Qed.

End dump.

(** C6. Dumped nodes read back: when a node has to be dumped and the copy and action checks have
    settled its action as an addition, a change or a deletion, [delta_dump_node] returns without
    error and adds one record to the output.  A reader of the dump format that relies on the
    announced lengths finds in it the node's path (behind the user prefix), kind and action, the
    copy source, the properties (up to a NUL) and deletions, and the text (as a difference when deltas are
    used); it stops exactly behind the record.  The node is entered into the tables of dumped
    entries and digests, and dumping it again writes nothing. *)
Theorem delta_dump_node_record `{HashIter} {T : Type} `{KV T} `{Codec}
    (svn_path_dirname svn_md5_digest_to_cstring : bytes → bytes) (svndiff : bytes → bytes → bytes)
    (temp_ok : nat → bool) (env : de_env) (d d1 : de_state T) (id : nat) (n n1 : de_node) :
  d_nodes d !! id = Some n → n_dump_needed n = true → dump_skipped env n = false →
  settles svn_path_dirname env d id d1 n1 →
  dumpable svn_md5_digest_to_cstring svndiff temp_ok env d1 n1 →
  let dump := delta_dump_node svn_path_dirname svn_md5_digest_to_cstring svndiff temp_ok env 2 id in
  ∃ d' record,
    dump d = Done d' tt ∧ d_out d' = d_out d ++ record ∧
    (∀ rest, ∃ rest', read_node (record ++ rest) = Some (node_expected svndiff env d1 n1, rest') ∧
       skip_newlines rest' = skip_newlines rest) ∧
    marked d1 id n1 d' ∧ dump d' = Done d' tt.
Proof.
  intros Hn Hneed Hskip Hset Hd dump.
  destruct (run_dump_checked svn_md5_digest_to_cstring svndiff temp_ok env d1 id n1) as
    (d' & Hrun & Hout & Hm); [apply Hset|done|].
  exists d', (print_headers (record_headers svn_md5_digest_to_cstring svndiff env d1 n1) ++ [nl] ++
    info_body (node_expected svndiff env d1 n1) ++ trailer env d1 n1).
  split_and!; [| | |done|by eapply run_marked].
  - unfold dump. rewrite (run_checks _ _ _ _ _ d id n d1 n1) by done.
    rewrite bool_decide_eq_false_2; [done|]. intros Ha. destruct (dn_action _ _ _ _ _ _ Hd) as
      [Ha'|[Ha'|Ha']]; congruence.
  - by rewrite Hout, (settles_out _ _ _ _ _ _ Hset).
  - intros rest. exists (trailer env d1 n1 ++ rest). split; [|apply skip_trailer].
    rewrite <-!app_assoc. exact (record_read svn_path_dirname _ _ _ _ _ _ 0 _ Hd).
Qed.

(** A file that was added with some text and a property. *)
Definition sample_node : de_node :=
  mk_node (str "trunk/f") (Some (str "/tmp/td/0")) None None "A"%char svn_node_file
    {[str "svn:eol-style" := str "native"]} ∅ (str "0123456789abcdef") None 0 0 CPI_NONE true true
    true None [].

Definition sample_nodes (n : de_node) : de_state mukv :=
  put_files (put_nodes sample_state {[0%nat := n]}) {[str "/tmp/td/0" := str "hello"]}.

Lemma delta_dump_node_record_witness :
  let env := sample_env (sample_opts 0 2) ∅ in
  let d := sample_nodes sample_node in
  ∃ d', delta_dump_node sample_dirname id (λ _ t, t) (λ _, true) env 2 0 d = Done d' tt ∧
    read_node (d_out d') =
      Some (mk_info (str "trunk/f") (str "add") (Some (str "file")) None
              (Some [PropSet (str "svn:eol-style") (str "native")]) (Some (str "hello")), [nl; nl]).
Proof.
  intros env d.
  destruct (delta_dump_node_record sample_dirname id (λ _ t, t) (λ _, true) env d
    (put_nodes d (<[0%nat := check_copy env sample_node]> (d_nodes d))) 0 sample_node
    (check_copy env sample_node)) as (d' & record & Hrun & Hout & Hread & _).
  - reflexivity.
  - reflexivity.
  - vm_compute. reflexivity.
  - apply settles_pure; [reflexivity|]. left. vm_compute. reflexivity.
  - constructor.
    + right. left. reflexivity.
    + eval_decide.
    + eval_decide.
    + discriminate.
    + intros _. exists (str "hello"). reflexivity.
    + reflexivity.
    + eval_decide.
  - exists d'. split; [exact Hrun|]. rewrite Hout.
    destruct (Hread []) as (rest' & Hr & _). rewrite app_nil_r in Hr.
    vm_compute in Hrun. injection Hrun as <-. vm_compute in Hout. subst record.
    vm_compute in Hr. injection Hr as <-. vm_compute. reflexivity.
Defined.

(** C23. A replacement is dumped as a deletion followed by an addition: when the checks leave the
    action at 'R', [delta_dump_node] returns after writing a deletion record for the path and then
    the record of the same node as an addition, whose copy source is checked anew and does not
    inherit the copy information of its parent.  Both are read back, one after the other. *)
Theorem delta_dump_replace_records `{HashIter} {T : Type} `{KV T} `{Codec}
    (svn_path_dirname svn_md5_digest_to_cstring : bytes → bytes) (svndiff : bytes → bytes → bytes)
    (temp_ok : nat → bool) (env : de_env) (d d1 : de_state T) (id : nat) (n n1 : de_node) :
  d_nodes d !! id = Some n → n_dump_needed n = true → dump_skipped env n = false →
  settles svn_path_dirname env d id d1 n1 → n_action n1 = "R"%char → n_dump_needed n1 = true →
  dumpable svn_md5_digest_to_cstring svndiff temp_ok env d1 (replaced env n1) →
  ∃ d' records,
    delta_dump_node svn_path_dirname svn_md5_digest_to_cstring svndiff temp_ok env 2 id d
      = Done d' tt ∧
    d_out d' = d_out d ++ records ∧
    (∀ rest, ∃ rest' rest'',
       read_node (records ++ rest) = Some (delete_info env (n_path n1), rest') ∧
       read_node rest' = Some (node_expected svndiff env d1 (replaced env n1), rest'') ∧
       skip_newlines rest'' = skip_newlines rest) ∧
    marked d1 id (replaced env n1) d'.
Proof.
  intros Hn Hneed Hskip Hset Ha Hneed1 Hd.
  rewrite (run_replace _ _ _ _ _ d id n d1 n1) by done.
  set (d2 := put_nodes _ _). set (n2 := replaced env n1) in *.
  destruct (run_dump_checked svn_md5_digest_to_cstring svndiff temp_ok env d2 id n2) as
    (d' & Hrun & Hout & Hm); [apply lookup_insert_eq|by destruct Hd; constructor|].
  exists d', (delete_record env (n_path n1) ++
    print_headers (record_headers svn_md5_digest_to_cstring svndiff env d1 n2) ++ [nl] ++
    info_body (node_expected svndiff env d1 n2) ++ trailer env d1 n2).
  assert (n_path n2 = n_path n1) as Hpath by (unfold n2, replaced, check_copy; by repeat case_match).
  split; [done|]. split; [|split].
  - rewrite Hout. cbn [d2 d_out put_nodes put_out]. rewrite (settles_out _ _ _ _ _ _ Hset).
    by rewrite <-app_assoc.
  - intros rest. eexists _, (trailer env d1 n2 ++ rest). rewrite <-!app_assoc.
    split; [apply delete_record_read; rewrite <-Hpath; apply Hd|].
    split; [exact (record_read svn_path_dirname _ _ _ _ _ _ 1 _ Hd)|apply skip_trailer].
  - destruct Hm as (Hm1 & Hm2 & n' & Hm3 & Hm4). split; [done|]. split; [done|].
    exists n'. split; [|done]. rewrite Hm3. apply insert_insert_eq.
Qed.

(** The same file, as the replacement of another. *)
Definition sample_replacement : de_node := set_action sample_node "R"%char.

Lemma delta_dump_replace_records_witness :
  let env := sample_env (sample_opts 0 2) ∅ in
  ∃ d' rest' rest'',
    delta_dump_node sample_dirname id (λ _ t, t) (λ _, true) env 2 0
      (sample_nodes sample_replacement) = Done d' tt ∧
    read_node (d_out d') = Some (mk_info (str "trunk/f") (str "delete") None None None None, rest') ∧
    read_node rest' =
      Some (mk_info (str "trunk/f") (str "add") (Some (str "file")) None
              (Some [PropSet (str "svn:eol-style") (str "native")]) (Some (str "hello")), rest'') ∧
    skip_newlines rest'' = [].
Proof.
  intros env. set (d := sample_nodes sample_replacement).
  destruct (delta_dump_replace_records sample_dirname id (λ _ t, t) (λ _, true) env d
    (put_nodes d (<[0%nat := check_copy env sample_replacement]> (d_nodes d))) 0 sample_replacement
    (check_copy env sample_replacement)) as (d' & records & Hrun & Hout & Hread & _).
  - reflexivity.
  - reflexivity.
  - vm_compute. reflexivity.
  - apply settles_pure; [reflexivity|]. left. vm_compute. reflexivity.
  - reflexivity.
  - reflexivity.
  - constructor.
    + right. left. reflexivity.
    + eval_decide.
    + eval_decide.
    + discriminate.
    + intros _. exists (str "hello"). reflexivity.
    + reflexivity.
    + eval_decide.
  - destruct (Hread []) as (rest' & rest'' & Hr1 & Hr2 & Hs). rewrite app_nil_r in Hr1.
    exists d', rest', rest''. split; [exact Hrun|]. rewrite Hout. split; [exact Hr1|].
    split; [|exact Hs]. rewrite Hr2. vm_compute. reflexivity.
Defined.
