(* ===== verification/DeltaCopy.v ===== *)
(** Copies in the delta editor (Delta.v): what [delta_check_copy], [delta_propagate_copy] and
    [delta_check_action] decide, in terms of the history kept by the path repository. *)
From S2P Require Import Prelude CritBit Interfaces Mukv Utils Types Copyfrom Property PropStore.
From S2P Require Import PathRepo Session DumpFormat Delta DeltaFacts DeltaDump.

Open Scope Z_scope.

(** * Directory levels *)

(** [i] is the end of a level of [p] below the first one. *)
Definition level_end (p : bytes) (i : nat) : Prop :=
  slash ∈ take i p ∧ (i = length p ∨ p !! i = Some slash).

#[export] Instance level_end_dec p i : Decision (level_end p i) := _.

(** The paths of all levels below the first one: for [a/b/c] these are [a/b] and [a/b/c]. *)
Definition levels (p : bytes) : list bytes :=
  (λ i, take i p) <$> filter (level_end p) (seq 0 (S (length p))).

(** The end of the level that begins behind the slash at [i]. *)
Definition next_end (p : bytes) (i : nat) : nat := default (length p) (strchr_from (S i) p slash).

Lemma next_end_bounds p i : (i < length p)%nat → (i < next_end p i <= length p)%nat.
Proof.
  intros Hi. unfold next_end. pose proof (strchr_from_spec (S i) p slash) as Hs.
  destruct (strchr_from (S i) p slash) as [j|]; simpl; [|lia].
  destruct Hs as (? & Hj & _). apply lookup_lt_Some in Hj. lia.
Qed.

Lemma next_end_take p i :
  p !! i = Some slash →
  take i p ++ [slash] ++ take (next_end p i - S i) (drop (S i) p) = take (next_end p i) p.
Proof.
  intros Hi. pose proof (lookup_lt_Some _ _ _ Hi). pose proof (next_end_bounds p i ltac:(done)).
  replace (take (next_end p i) p) with (take (next_end p i) (take i p ++ slash :: drop (S i) p))
    by (by rewrite take_drop_middle).
  rewrite take_app_ge by (rewrite length_take; lia). f_equal.
  rewrite length_take, Nat.min_l by lia.
  replace (next_end p i - i)%nat with (S (next_end p i - S i)) by lia. done.
Qed.

Lemma last_before (P : nat → Prop) `{!∀ i, Decision (P i)} j i :
  P i → (i < j)%nat → ∃ i, (i < j)%nat ∧ P i ∧ ∀ k, (i < k < j)%nat → ¬ P k.
Proof.
  revert i. induction j as [|j IH]; intros i Hi Hlt; [lia|].
  destruct (decide (P j)) as [Hj|Hj]; [exists j; split_and!; [lia|done|lia]|].
  destruct (IH i Hi) as (i' & Hi' & HP & Hno); [assert (i ≠ j) by congruence; lia|].
  exists i'. split_and!; [lia|done|]. intros k Hk. destruct (decide (k = j)) as [->|]; [done|].
  apply Hno. lia.
Qed.

(** Every level ends where a slash in front of it leads to. *)
Lemma level_end_iff p j :
  level_end p j ↔ ∃ i, p !! i = Some slash ∧ next_end p i = j.
Proof.
  split.
  - intros [[i Hi]%list_elem_of_lookup Hj].
    apply lookup_take_Some in Hi as [Hi Hlt].
    destruct (last_before (λ i, p !! i = Some slash) j i Hi Hlt) as (i' & Hlt' & Hi' & Hno).
    exists i'. split; [done|]. unfold next_end.
    pose proof (strchr_from_spec (S i') p slash) as Hs.
    destruct (strchr_from (S i') p slash) as [j'|]; simpl.
    + destruct Hs as (Hle & Hj' & Hno'). pose proof (lookup_lt_Some _ _ _ Hj').
      destruct (decide (j' < j)%nat); [exfalso; apply (Hno j'); [lia|done]|].
      destruct Hj as [->|Hj]; [lia|]. destruct (decide (j < j')%nat); [|lia].
      exfalso. apply (Hno' j); [lia|done].
    + destruct Hj as [->|Hj]; [done|]. exfalso. apply (Hs j); [lia|done].
  - intros (i & Hi & <-). pose proof (lookup_lt_Some _ _ _ Hi).
    pose proof (next_end_bounds p i ltac:(done)). split.
    + apply list_elem_of_lookup. exists i. apply lookup_take_Some. split; [done|lia].
    + unfold next_end. pose proof (strchr_from_spec (S i) p slash) as Hs.
      destruct (strchr_from (S i) p slash) as [j|]; simpl; [right; apply Hs|by left].
Qed.

Lemma levels_forall (P : bytes → Prop) p :
  Forall P (levels p) ↔ ∀ i, p !! i = Some slash → P (take (next_end p i) p).
Proof.
  unfold levels. rewrite Forall_fmap, Forall_forall. setoid_rewrite list_elem_of_filter.
  setoid_rewrite elem_of_seq. split.
  - intros Hall i Hi. apply (Hall (next_end p i)). split; [apply level_end_iff; eauto|].
    pose proof (lookup_lt_Some _ _ _ Hi). pose proof (next_end_bounds p i ltac:(done)). lia.
  - intros Hall j [(i & Hi & <-)%level_end_iff _]. by apply Hall.
Qed.

(** * Node trees *)

(** Nodes are allocated one after the other, parents before their children. *)
Record nodes_ok {T} (d : de_state T) : Prop := {
  no_dom : ∀ id, is_Some (d_nodes d !! id) ↔ (id < d_next d)%nat;
  no_parent : ∀ id n p, d_nodes d !! id = Some n → n_parent n = Some p → (p < id)%nat
}.

(** The closest node, from [id] upwards, with a copy source of its own. *)
Inductive copied_from {T} (d : de_state T) : option nat → option de_node → Prop :=
  | copied_none : copied_from d None None
  | copied_here id n :
      d_nodes d !! id = Some n → n_copyfrom_path n ≠ None → copied_from d (Some id) (Some n)
  | copied_up id n r :
      d_nodes d !! id = Some n → n_copyfrom_path n = None → copied_from d (n_parent n) r →
      copied_from d (Some id) r.

Section copies.
Context `{HashIter} {T : Type} `{KV T} `{Codec}.
Variable env : de_env.

Implicit Types (d : de_state T) (n : de_node) (id : nat).

Lemma nodes_ok_size d : nodes_ok d → size (d_nodes d) = d_next d.
Proof.
  intros [Hdom _]. rewrite <-size_dom.
  replace (dom (d_nodes d)) with (set_seq 0 (d_next d) : gset nat).
  - by rewrite size_set_seq.
  - apply set_eq. intros id. rewrite elem_of_set_seq, elem_of_dom, Hdom. lia.
Qed.

Lemma nodes_ok_parent d id n p :
  nodes_ok d → d_nodes d !! id = Some n → n_parent n = Some p → is_Some (d_nodes d !! p).
Proof.
  intros Hok Hn Hp. apply (no_dom _ Hok). pose proof (no_parent _ Hok _ _ _ Hn Hp).
  assert (id < d_next d)%nat by (apply (no_dom _ Hok); eauto). lia.
Qed.

(** The walk up the tree ends within the fuel given to it. *)
Lemma run_copied_parent d k id n :
  nodes_ok d → d_nodes d !! id = Some n → (S id < k)%nat →
  ∃ r, copied_parent k (Some id) d = Done d r ∧ copied_from d (Some id) r.
Proof.
  intros Hok. revert k n. induction id as [id IH] using lt_wf_ind. intros [|k] n Hn Hk; [lia|].
  cbn [copied_parent]. rewrite (run_bind _ _ _ _ _ (run_node_get _ _ _ Hn)).
  destruct (n_copyfrom_path n) as [c|] eqn:Hc.
  - exists (Some n). split; [done|]. apply copied_here; congruence.
  - destruct (n_parent n) as [p|] eqn:Hp.
    + pose proof (no_parent _ Hok _ _ _ Hn Hp).
      destruct (nodes_ok_parent d id n p) as [pn Hpn]; [done..|].
      destruct (IH p ltac:(done) k pn Hpn ltac:(lia)) as (r & Hr & Hfrom).
      exists r. split; [exact Hr|]. eapply copied_up; [done..|]. by rewrite Hp.
    + destruct k as [|k]; [lia|]. exists None. split; [done|].
      eapply copied_up; [done..|]. rewrite Hp. constructor.
Qed.

(** ** Queries *)

Lemma run_check_parent d s parent child rev :
  pr_inv (d_repo d) s → rev <= sp_last s →
  ∃ d', repo_check_parent parent child rev d
          = Done d' (if decide (parent ++ [slash] ++ child ∈ sp_hist s rev) then 1 else 0) ∧
    pr_inv (d_repo d') s ∧ d_nodes d' = d_nodes d ∧ d_out d' = d_out d.
Proof.
  intros Hinv Hrev. unfold repo_check_parent, path_repo_check_parent.
  destruct (pr_query_spec (d_repo d) s rev (parent ++ [slash] ++ child) Hinv Hrev)
    as (repo' & -> & Hinv'). eexists. split; [done|]. done.
Qed.

Lemma run_check_levels d s k p b rev :
  pr_inv (d_repo d) s → rev <= sp_last s → (b <= length p < k + b)%nat →
  ∃ d' ok, check_levels k p b rev d = Done d' ok ∧
    (ok = true ↔ ∀ i, (b <= i)%nat → p !! i = Some slash → take (next_end p i) p ∈ sp_hist s rev) ∧
    pr_inv (d_repo d') s ∧ d_nodes d' = d_nodes d ∧ d_out d' = d_out d.
Proof.
  intros Hinv Hrev. revert d b Hinv. induction k as [|k IH]; intros d b Hinv Hk; [lia|].
  cbn [check_levels]. pose proof (strchr_from_spec b p slash) as Hs.
  destruct (strchr_from b p slash) as [i|].
  2:{ exists d, true. split; [done|]. split; [|done]. split; [|done].
      intros _ i Hi Hp. exfalso. by apply (Hs i). }
  destruct Hs as (Hle & Hi & Hno). cbv zeta. change (default _ _) with (next_end p i).
  destruct (run_check_parent d s (take i p) (take (next_end p i - S i) (drop (S i) p)) rev Hinv Hrev)
    as (d1 & Hrun & Hinv1 & Hn1 & Ho1).
  rewrite next_end_take in Hrun by done. rewrite (run_bind _ _ _ _ _ Hrun).
  pose proof (lookup_lt_Some _ _ _ Hi). clear Hrun. case_decide as Hin.
  - cbn. destruct (IH d1 (S i) Hinv1) as (d2 & ok & Hrun2 & Hok & Hinv2 & Hn2 & Ho2); [lia|].
    exists d2, ok. split; [exact Hrun2|]. split; [|split_and!; congruence].
    rewrite Hok. split; [|naive_solver lia].
    intros Hall j Hj Hp. destruct (decide (j = i)) as [->|]; [done|]. apply Hall; [|done].
    destruct (decide (j < i)%nat); [exfalso; apply (Hno j); [lia|done]|lia].
  - cbn. exists d1, false. split; [done|]. split; [|done]. split; [done|].
    intros Hall. exfalso. by apply Hin, Hall.
Qed.

(** ** Propagation *)

(** The revision and the path that the copy of [cp] gives to the node with the path [path]. *)
Definition source_rev (cp : de_node) : Z :=
  delta_get_local_copyfrom_rev (n_copyfrom_revision cp) (v_opts env) (v_logs env)
    (v_local_revnum env).

Definition source_path (cp : de_node) (path : bytes) : option bytes :=
  src ← n_copyfrom_path cp;
  local ← delta_get_local_copyfrom_path (v_prefix env) src;
  Some (local ++ [slash] ++ skip_slashes (drop (length (n_path cp)) path)).

(** The copy information of a child: that of its parent, but a child of a copied directory is a
    part of the copy exactly when it is found, with every directory on the way to it, in the
    source revision. *)
Definition propagated (s : pr_spec) (p c : de_node) (r : option de_node) : Z :=
  if negb (n_cp_info p =? CPI_COPY) then n_cp_info p
  else if negb (strncmp_eq (n_path p) (n_path c) (length (n_path p))) then n_cp_info c
  else match r with
       | None => n_cp_info p
       | Some cp =>
           match source_path cp (n_path c) with
           | None => CPI_NONE
           | Some path =>
               if decide (Forall (λ q, q ∈ sp_hist s (source_rev cp)) (levels path))
               then CPI_COPY else CPI_NONE
           end
       end.

Lemma set_cp_info_same n : set_cp_info n (n_cp_info n) = n.
Proof. by destruct n. Qed.

Lemma copied_from_has d (o : option nat) n : copied_from d o (Some n) → n_copyfrom_path n ≠ None.
Proof. intros Hc. remember (Some n) as r eqn:Hr. induction Hc; simplify_eq; auto. Qed.

Lemma run_propagate d s pid p cid c :
  nodes_ok d → pr_inv (d_repo d) s →
  d_nodes d !! pid = Some p → d_nodes d !! cid = Some c →
  (∀ cp, copied_from d (Some pid) (Some cp) → source_rev cp <= sp_last s) →
  ∃ r d', copied_from d (Some pid) r ∧ delta_propagate_copy env pid cid d = Done d' tt ∧
    d_nodes d' = <[cid := set_cp_info c (propagated s p c r)]> (d_nodes d) ∧
    pr_inv (d_repo d') s ∧ d_out d' = d_out d.
Proof.
  intros Hok Hinv Hp Hc Hrev.
  assert (pid < d_next d)%nat by (apply (no_dom _ Hok); eauto).
  destruct (run_copied_parent d (S (size (d_nodes d))) pid p Hok Hp) as (r & Hr & Hfrom).
  { rewrite nodes_ok_size by done. lia. }
  exists r. unfold delta_propagate_copy, propagated.
  rewrite (run_bind _ _ _ _ _ (run_node_get _ _ _ Hp)), (run_bind _ _ _ _ _ (run_node_get _ _ _ Hc)).
  destruct (negb (n_cp_info p =? CPI_COPY)).
  { eexists. split; [done|]. split; [by apply run_node_upd|done]. }
  destruct (negb (strncmp_eq _ _ _)).
  { exists d. split; [done|]. split; [done|]. by rewrite set_cp_info_same, insert_id. }
  rewrite (run_bind get _ _ _ _ eq_refl), (run_bind _ _ _ _ _ Hr).
  destruct r as [cp|]; [|eexists; split; [done|]; split; [by apply run_node_upd|done]].
  unfold source_path. pose proof (copied_from_has _ _ _ Hfrom) as Hcp.
  destruct (n_copyfrom_path cp) as [src|]; [|done]. cbn [mbind option_bind].
  rewrite (run_bind _ _ _ _ _ (run_lift _ _)).
  destruct (delta_get_local_copyfrom_path _ src) as [path|];
    [|eexists; split; [done|]; split; [by apply run_node_upd|done]].
  cbn [mbind option_bind]. fold (source_rev cp).
  set (check := path ++ [slash] ++ skip_slashes (drop (length (n_path cp)) (n_path c))).
  destruct (run_check_levels d s (S (length check)) check 0 (source_rev cp) Hinv) as
    (d1 & ok & Hrun & Hiff & Hinv1 & Hn1 & Ho1); [by apply Hrev|lia|].
  rewrite (run_bind _ _ _ _ _ Hrun). eexists. split; [done|]. split.
  { apply run_node_upd. by rewrite Hn1. }
  split; [|done]. cbn [d_nodes put_nodes]. rewrite Hn1. do 3 f_equal.
  case_decide as Hall; rewrite levels_forall in Hall; destruct ok; try done.
  - exfalso. assert (false = true); [apply Hiff; naive_solver|done].
  - exfalso. apply Hall. naive_solver lia.
Qed.

(** ** Copy sources *)

Lemma check_copy_reachable n src :
  n_copyfrom_path n = Some src → Z.land (n_cp_info n) CPI_FAILED = 0 → cstr (v_prefix env) →
  let rev := source_rev n in
  check_copy env n =
    if whole_history env then
      set_cp_info (set_copyfrom_rev_local n (n_copyfrom_revision n)) CPI_COPY
    else if decide ((has_flag (v_opts env) DF_INCREMENTAL = true ∨
                     do_start (v_opts env) <= n_copyfrom_revision n) ∧
                    v_prefix env `prefix_of` src) then
      if decide (0 < rev) then set_cp_info (set_copyfrom_rev_local n rev) CPI_COPY
      else set_cp_info n CPI_FAILED
    else set_cp_info n CPI_FAILED_OUTSIDE.
Proof.
  intros Hsrc Hok Hp rev. unfold check_copy. rewrite Hsrc, Hok.
  rewrite bool_decide_eq_false_2, andb_false_r by done. cbn [negb Z.eqb].
  destruct (whole_history env); [done|]. fold (source_rev n). fold rev.
  destruct (strncmp_eq (v_prefix env) src (length (v_prefix env))) eqn:Hs.
  - apply strncmp_eq_prefix in Hs; [|done]. rewrite andb_true_r.
    destruct (has_flag _ _) eqn:Hf; [|destruct (Z.leb_spec (do_start (v_opts env)) (n_copyfrom_revision n))].
    + rewrite decide_True by auto. cbn [orb]. case_decide; destruct (Z.ltb_spec 0 rev); done || lia.
    + rewrite decide_True by auto. cbn [orb]. case_decide; destruct (Z.ltb_spec 0 rev); done || lia.
    + rewrite decide_False; [done|]. intros [[?|?] _]; [done|lia].
  - rewrite andb_false_r, decide_False; [done|]. intros [_ Hpre].
    apply strncmp_eq_prefix in Hpre; [congruence|done].
Qed.

(** ** Actions *)

(** The closest node, from [id] upwards, that decides about the actions below it: one whose copy
    source is out of reach, or one that has been copied. *)
Definition decides n : bool :=
  (n_cp_info n =? CPI_FAILED_OUTSIDE) ||
  ((n_cp_info n =? CPI_COPY) && bool_decide (n_copyfrom_path n ≠ None)).

Inductive decided_by d : option nat → option de_node → Prop :=
  | decided_none : decided_by d None None
  | decided_here id n :
      d_nodes d !! id = Some n → decides n = true → decided_by d (Some id) (Some n)
  | decided_up id n r :
      d_nodes d !! id = Some n → decides n = false → decided_by d (n_parent n) r →
      decided_by d (Some id) r.

Definition outside n : bool := n_cp_info n =? CPI_FAILED_OUTSIDE.

(** The counterpart of [path] below the copy source of [a]. *)
Definition counterpart (a : de_node) (path : bytes) : bytes :=
  default [] (local_copyfrom env a) ++ [slash] ++ skip_slashes (drop (length (n_path a)) path).

(** The action of [n] below the deciding node: an addition if that was not copied, or if the copy
    did not bring [n] along. *)
Definition action_below (s : pr_spec) n (r : option de_node) : ascii :=
  match r with
  | None => n_action n
  | Some a =>
      if outside a then "A"%char
      else if decide (counterpart a (n_path n) ∈ sp_hist s (n_copyfrom_rev_local a))
      then n_action n else "A"%char
  end.

Lemma set_action_same n : set_action n (n_action n) = n.
Proof. by destruct n. Qed.

(** A copied node can be asked for its history. *)
Definition copies_known (s : pr_spec) d (o : option nat) : Prop :=
  ∀ a, decided_by d o (Some a) → outside a = false →
    is_Some (local_copyfrom env a) ∧ n_copyfrom_rev_local a <= sp_last s.

Lemma run_decided d s k pid p id n :
  decides p = true → pr_inv (d_repo d) s → copies_known s d (Some pid) →
  d_nodes d !! pid = Some p → d_nodes d !! id = Some n →
  ∃ d', check_parents env (S k) id (Some pid) d = Done d' (negb (outside p)) ∧
    pr_inv (d_repo d') s ∧ d_out d' = d_out d ∧
    d_nodes d' = <[id := set_action n (action_below s n (Some p))]> (d_nodes d).
Proof.
  intros Hdec Hinv Hknown Hp Hn. cbn [check_parents].
  rewrite (run_bind _ _ _ _ _ (run_node_get _ _ _ Hp)). unfold action_below, outside.
  destruct (n_cp_info p =? CPI_FAILED_OUTSIDE) eqn:Hout.
  { rewrite (run_bind _ _ _ _ _ (run_node_upd _ _ _ _ Hn)). by eexists. }
  destruct (Hknown p) as [[local Hlocal] Hrev]; [by apply decided_here|done|].
  unfold decides in Hdec. rewrite Hout in Hdec. cbn [orb] in Hdec.
  apply andb_true_iff in Hdec as [Hcopy Hsrc]. unfold counterpart. rewrite Hlocal.
  unfold local_copyfrom in Hlocal. destruct (n_copyfrom_path p) as [src|]; [|done].
  cbn [mbind option_bind] in Hlocal. rewrite Hcopy.
  rewrite (run_bind _ _ _ _ _ (run_node_get _ _ _ Hn)), Hlocal.
  rewrite (run_bind _ _ _ _ _ (run_lift _ _)).
  destruct (run_check_parent d s local (skip_slashes (drop (length (n_path p)) (n_path n)))
    (n_copyfrom_rev_local p) Hinv Hrev) as (d1 & Hrun & Hinv1 & Hn1 & Ho1).
  rewrite (run_bind _ _ _ _ _ Hrun). change (default [] (Some local)) with local.
  clear Hrun. case_decide as Hin.
  - exists d1. split; [done|]. rewrite set_action_same, insert_id by done. done.
  - eexists. split.
    { cbn -[node_upd]. erewrite run_bind by (apply run_node_upd; by rewrite Hn1). reflexivity. }
    cbn. by rewrite Hn1.
Qed.

Lemma run_check_parents d s k id n o :
  nodes_ok d → pr_inv (d_repo d) s → d_nodes d !! id = Some n → copies_known s d o →
  (∀ p, o = Some p → is_Some (d_nodes d !! p) ∧ (S p < k)%nat) → (0 < k)%nat →
  ∃ r d', decided_by d o r ∧
    check_parents env k id o d = Done d' (from_option (negb ∘ outside) false r) ∧
    pr_inv (d_repo d') s ∧ d_out d' = d_out d ∧
    d_nodes d' = <[id := set_action n (action_below s n r)]> (d_nodes d).
Proof.
  intros Hok Hinv Hn. revert o. induction k as [|k IH]; intros o Hknown Ho Hk; [lia|].
  destruct o as [pid|].
  2:{ exists None, d. split; [constructor|]. split; [done|].
      cbn [action_below]. by rewrite set_action_same, insert_id. }
  destruct (Ho pid eq_refl) as [[p Hp] Hlt]. destruct (decides p) eqn:Hdec.
  - destruct (run_decided d s k pid p id n) as (d' & Hrun & ?); [done..|].
    exists (Some p), d'. split; [by apply decided_here|]. done.
  - destruct (IH (n_parent p)) as (r & d' & Hr & Hrun & Hrest); [|..|lia|].
    { intros a Ha. apply Hknown. by eapply decided_up. }
    { intros q Hq. pose proof (no_parent _ Hok _ _ _ Hp Hq).
      split; [by eapply nodes_ok_parent|lia]. }
    exists r, d'. split; [by eapply decided_up|]. split; [|done].
    rewrite <-Hrun. cbn [check_parents]. rewrite (run_bind _ _ _ _ _ (run_node_get _ _ _ Hp)).
    unfold decides in Hdec. apply orb_false_iff in Hdec as [-> Hcp].
    destruct (n_copyfrom_path p) as [src|]; [|done].
    rewrite andb_true_r in Hcp. by rewrite Hcp.
Qed.

Lemma run_exists d s path rev :
  pr_inv (d_repo d) s → rev <= sp_last s →
  ∃ d', repo_exists path rev d = Done d' (if decide (path ∈ sp_hist s rev) then 1 else 0) ∧
    pr_inv (d_repo d') s ∧ d_nodes d' = d_nodes d ∧ d_out d' = d_out d.
Proof.
  intros Hinv Hrev. unfold repo_exists, path_repo_exists.
  destruct (pr_query_spec (d_repo d) s rev path Hinv Hrev) as (repo' & -> & Hinv').
  eexists. split; [done|]. done.
Qed.

(** A question to the history, after which the node may become an addition. *)
Lemma run_ask d s (c : bool) id n (ask : M (de_state T) Z) (P : Prop) `{!Decision P} msg :
  d_nodes d !! id = Some n → pr_inv (d_repo d) s →
  (∃ d', ask d = Done d' (if decide P then 1 else 0) ∧
    pr_inv (d_repo d') s ∧ d_nodes d' = d_nodes d ∧ d_out d' = d_out d) →
  ∃ d', when c (check ← ask;
                if check <? 0 then fail msg
                else when (check =? 0) (node_upd id (λ n, set_action n "A"%char))) d = Done d' tt ∧
    pr_inv (d_repo d') s ∧ d_out d' = d_out d ∧
    d_nodes d' = <[id := set_action n (if c && negb (bool_decide P) then "A"%char
                                       else n_action n)]> (d_nodes d).
Proof.
  intros Hn Hinv (d1 & Hrun & Hinv1 & Hn1 & Ho1).
  destruct c; [|exists d; split; [done|]; cbn [andb]; by rewrite set_action_same, insert_id].
  cbn [when andb]. rewrite (run_bind _ _ _ _ _ Hrun). destruct (decide P) as [HP|HP].
  - rewrite bool_decide_eq_true_2 by done. exists d1. split; [done|].
    cbn [negb]. by rewrite set_action_same, Hn1, insert_id.
  - rewrite bool_decide_eq_false_2 by done. eexists.
    split; [cbn -[node_upd]; apply run_node_upd; by rewrite Hn1|]. cbn. by rewrite Hn1.
Qed.

Variable svn_path_dirname : bytes → bytes.

(** The action a node ends up with. *)
Definition settled_action (s : pr_spec) n (r : option de_node) : ascii :=
  let prev := v_local_revnum env - 1 in
  let rel := skip_slashes (drop (length (svn_path_dirname (n_path n))) (n_path n)) in
  let a := action_below s n r in
  if from_option (negb ∘ outside) false r then a
  else
    let failed := negb (Z.land (n_cp_info n) CPI_FAILED =? 0) in
    let a := if failed && bool_decide (a = "R"%char) &&
                negb (bool_decide (svn_path_dirname (n_path n) ++ [slash] ++ rel ∈ sp_hist s prev))
             then "A"%char else a in
    let a := if bool_decide (a = "M"%char) && (0 <? v_local_revnum env) &&
                negb (bool_decide (n_path n ∈ sp_hist s prev))
             then "A"%char else a in
    if bool_decide (n_path n = [slash] ∧ a = "A"%char) then "M"%char else a.

Lemma run_check_action d s id n :
  nodes_ok d → pr_inv (d_repo d) s → d_nodes d !! id = Some n →
  n_action n = "R"%char ∨ n_action n = "M"%char → whole_history env = false →
  copies_known s d (n_parent n) → v_local_revnum env - 1 <= sp_last s →
  ∃ r d', decided_by d (n_parent n) r ∧
    delta_check_action svn_path_dirname env id d = Done d' tt ∧
    pr_inv (d_repo d') s ∧ d_out d' = d_out d ∧
    d_nodes d' = <[id := set_action n (settled_action s n r)]> (d_nodes d).
Proof.
  intros Hok Hinv Hn Ha Hw Hknown Hrev. unfold delta_check_action.
  rewrite (run_bind _ _ _ _ _ (run_node_get _ _ _ Hn)).
  rewrite bool_decide_eq_false_2, Hw by (destruct Ha; naive_solver).
  rewrite (run_bind get _ _ _ _ eq_refl).
  assert (id < d_next d)%nat by (apply (no_dom _ Hok); eauto).
  destruct (run_check_parents d s (S (size (d_nodes d))) id n (n_parent n)) as
    (r & d1 & Hr & Hrun & Hinv1 & Ho1 & Hn1); [done..| |lia|].
  { intros p Hp. pose proof (no_parent _ Hok _ _ _ Hn Hp). rewrite nodes_ok_size by done.
    split; [by eapply nodes_ok_parent|lia]. }
  exists r. rewrite (run_bind _ _ _ _ _ Hrun). unfold settled_action.
  destruct (from_option (negb ∘ outside) false r); [by exists d1|].
  set (n1 := set_action n (action_below s n r)) in *.
  assert (d_nodes d1 !! id = Some n1) as Hl1 by (by rewrite Hn1, lookup_insert_eq).
  rewrite (run_bind _ _ _ _ _ (run_node_get _ _ _ Hl1)).
  edestruct (run_ask d1 s) as (d2 & Hrun2 & Hinv2 & Ho2 & Hn2); [exact Hl1|exact Hinv1|
    by apply run_check_parent|].
  erewrite (run_bind _ _ _ _ _ Hrun2). clear Hrun2.
  set (n2 := set_action n1 _) in Hn2.
  assert (d_nodes d2 !! id = Some n2) as Hl2 by (by rewrite Hn2, lookup_insert_eq).
  rewrite (run_bind _ _ _ _ _ (run_node_get _ _ _ Hl2)).
  edestruct (run_ask d2 s) as (d3 & Hrun3 & Hinv3 & Ho3 & Hn3); [exact Hl2|exact Hinv2|
    by apply run_exists|].
  erewrite (run_bind _ _ _ _ _ Hrun3). clear Hrun3.
  eexists. split; [done|]. split.
  { apply run_node_upd. by rewrite Hn3, lookup_insert_eq. }
  split; [done|]. split; [by rewrite <-Ho1, <-Ho2, <-Ho3|].
  cbn [d_nodes put_nodes]. rewrite Hn3, Hn2, Hn1, !insert_insert_eq. f_equal.
  unfold n2, n1. cbv zeta. cbn [n_path n_action n_cp_info set_action].
  match goal with |- (if bool_decide ?P then _ else _) = _ => destruct (bool_decide P) end; done.
Qed.

End copies.

(** * Properties *)

(** C8. Copies propagate exactly to what was copied: for a node tree as the editor builds it and a
    path repository that holds the history [s], [delta_propagate_copy] returns, and the child
    inherits the copy information of its parent, except that a node below a copied directory is
    taken as a part of the copy if and only if its counterpart below the copy source, and every
    directory on the way to it, exist in the source revision.  Nothing is written and the history
    stays as it is. *)
Theorem delta_propagate_copy_correct `{HashIter} {T : Type} `{KV T} `{Codec} (env : de_env)
    (d : de_state T) (s : pr_spec) (pid cid : nat) (p c : de_node) :
  nodes_ok d → pr_inv (d_repo d) s →
  d_nodes d !! pid = Some p → d_nodes d !! cid = Some c →
  (∀ cp, copied_from d (Some pid) (Some cp) → source_rev env cp <= sp_last s) →
  ∃ r d', copied_from d (Some pid) r ∧ delta_propagate_copy env pid cid d = Done d' tt ∧
    d_nodes d' = <[cid := set_cp_info c (propagated env s p c r)]> (d_nodes d) ∧
    pr_inv (d_repo d') s ∧ d_out d' = d_out d.
Proof. apply run_propagate. Qed.

(** A repository with [trunk] and [trunk/f] in revision 0. *)
Definition sample_ops : list pr_op := [PAdd (str "trunk"); PAdd (str "trunk/f"); PCommit 0].

Definition sample_repo : path_repo mukv :=
  match pr_run (path_repo_create (mukv_new large_device)) sample_ops with
  | Some (repo, _) => repo
  | None => path_repo_create (mukv_new large_device)
  end.

Lemma sample_repo_inv : ∃ s, pr_inv sample_repo s ∧ sp_last s = 0.
Proof.
  assert (kv_models (mukv_new large_device) ∅) as Hdb by (apply large_steady).
  assert (pr_ops_ok pr_spec_init sample_ops) as Hops.
  { ops_ok_step; [eval_decide|]. ops_ok_step; [eval_decide|].
    ops_ok_step; [|exact I].
    split; [vm_compute; split; congruence|]. split; [simpl; intros r Hr; lia|].
    split; vm_compute; reflexivity. }
  destruct (pr_run_simulates _ _ sample_ops (path_repo_create_inv _ Hdb) Hops)
    as (repo & rets & s & Hrun & Hspec & Hinv).
  unfold sample_repo. rewrite Hrun. exists s. split; [exact Hinv|].
  vm_compute in Hrun. injection Hrun as _ <-.
  repeat match goal with
    | Hs : pr_spec_run _ _ _ _ |- _ => inversion Hs; subst; clear Hs; try discriminate
    | Hs : pr_spec_step _ _ _ _ |- _ => inversion Hs; subst; clear Hs; try discriminate
    end; reflexivity.
Qed.

(** The directory [branch], a copy of [trunk] in revision 0, with a child [branch/<name>]. *)
Definition sample_copy : de_node :=
  mk_node (str "branch") None None None "A"%char svn_node_dir ∅ ∅ no_md5 (Some (str "trunk")) 0 0
    CPI_COPY false true false None [1%nat].

Definition sample_child (name : bytes) : de_node :=
  mk_node (str "branch/" ++ name) None None None "A"%char svn_node_file ∅ ∅ no_md5 None 0 0
    CPI_NONE false true false (Some 0%nat) [].

Definition sample_copied (name : bytes) : de_state mukv :=
  mk_de {[0%nat := sample_copy; 1%nat := sample_child name]} 2 ∅ (Some 0%nat) sample_repo
    (property_storage_create (mukv_new large_device)) ∅ ∅ ∅ 0 (session_create 0) [].

Lemma sample_copied_ok name : nodes_ok (sample_copied name).
Proof.
  split.
  - intros id. cbn. rewrite lookup_insert_is_Some, lookup_singleton_is_Some. lia.
  - intros id n p Hn Hp. cbn in Hn. apply lookup_insert_Some in Hn as [[<- <-]|[_ Hn]]; [done|].
    apply lookup_singleton_Some in Hn as [<- <-]. cbn in Hp. injection Hp as <-. lia.
Qed.

(** [branch/f] was copied, [branch/g] was not. *)
Lemma delta_propagate_copy_correct_witness :
  let env := sample_env (sample_opts DF_KEEP_REVNUMS 2) ∅ in
  (∃ d', delta_propagate_copy env 0 1 (sample_copied (str "f")) = Done d' tt ∧
     n_cp_info <$> d_nodes d' !! 1%nat = Some CPI_COPY) ∧
  (∃ d', delta_propagate_copy env 0 1 (sample_copied (str "g")) = Done d' tt ∧
     n_cp_info <$> d_nodes d' !! 1%nat = Some CPI_NONE).
Proof.
  intros env. destruct sample_repo_inv as (s & Hinv & Hlast).
  assert (∀ name cp, copied_from (sample_copied name) (Some 0%nat) (Some cp) →
    source_rev env cp <= sp_last s) as Hrev.
  { intros name cp Hcp. rewrite Hlast. inversion Hcp as [|? ? Hn _|? ? ? Hn Hno _]; subst;
      vm_compute in Hn; injection Hn as Hn; subst; [vm_compute; discriminate|discriminate]. }
  pose proof (λ name, delta_propagate_copy_correct env (sample_copied name) s 0 1 sample_copy
    (sample_child name) (sample_copied_ok name) Hinv eq_refl eq_refl (Hrev name)) as Hall.
  split.
  - destruct (Hall (str "f")) as (r & d' & _ & Hrun & _). exists d'. split; [exact Hrun|].
    vm_compute in Hrun. injection Hrun as <-. vm_compute. reflexivity.
  - destruct (Hall (str "g")) as (r & d' & _ & Hrun & _). exists d'. split; [exact Hrun|].
    vm_compute in Hrun. injection Hrun as <-. vm_compute. reflexivity.
Defined.

(** C13. Copy sources are resolved soundly: a node with a copy source, below no failed copy, is
    dumped as a copy exactly when the whole history is dumped, or when the source lies in the
    range of revisions and starts with the prefix of the session and some earlier local revision
    (numbered from 1) corresponds to it.  A node marked as a copy always has a local source path,
    and its local source revision is the original one (whole history) or the positive number that
    was found; otherwise the failure says whether the source was out of reach. *)
Theorem delta_check_copy_correct (env : de_env) (n : de_node) (src : bytes) :
  n_copyfrom_path n = Some src → Z.land (n_cp_info n) CPI_FAILED = 0 → cstr (v_prefix env) →
  let n' := check_copy env n in
  let reachable := (has_flag (v_opts env) DF_INCREMENTAL = true ∨
                    do_start (v_opts env) <= n_copyfrom_revision n) ∧ v_prefix env `prefix_of` src in
  (n_cp_info n' = CPI_COPY ↔ whole_history env = true ∨ (reachable ∧ 0 < source_rev env n)) ∧
  (n_cp_info n' = CPI_COPY →
     is_Some (local_copyfrom env n') ∧
     n_copyfrom_rev_local n'
       = if whole_history env then n_copyfrom_revision n else source_rev env n) ∧
  (n_cp_info n' = CPI_FAILED ↔ whole_history env = false ∧ reachable ∧ source_rev env n <= 0) ∧
  (n_cp_info n' = CPI_FAILED_OUTSIDE ↔ whole_history env = false ∧ ¬ reachable).
Proof.
  intros Hsrc Hok Hp n' reachable. unfold n'. rewrite (check_copy_reachable env n src) by done.
  unfold local_copyfrom. fold reachable.
  assert (v_prefix env `prefix_of` src →
    is_Some (delta_get_local_copyfrom_path (v_prefix env) src)) as Hlocal.
  { intros Hpre. destruct (delta_get_local_copyfrom_path (v_prefix env) src) eqn:Hl; [eauto|].
    by apply copyfrom_path_none in Hl. }
  assert (whole_history env = true → v_prefix env `prefix_of` src) as Hwhole.
  { unfold whole_history. intros [Hl%Nat.eqb_eq _]%andb_true_iff.
    apply nil_length_inv in Hl as ->. apply prefix_nil. }
  destruct (whole_history env); [|case_decide as Hr; [case_decide as Hrev|]];
    cbn [n_cp_info set_cp_info n_copyfrom_path set_copyfrom_rev_local n_copyfrom_rev_local];
    rewrite ?Hsrc; cbn [mbind option_bind];
    unfold CPI_COPY, CPI_FAILED, CPI_FAILED_OUTSIDE; split_and!; try (split; intros; naive_solver lia);
    intros; try done; (split; [|done]).
  apply Hlocal, Hr.
Qed.

Lemma delta_check_copy_correct_witness :
  let env := mk_env (str "trunk") (mk_opts None None 2 (-1) 0 2) sample_logs
               (mk_log 12 None None None None) 4 in
  let n := set_copyfrom_revision (set_copyfrom_path sample_copy (Some (str "trunk/a"))) 6 in
  n_cp_info (check_copy env n) = CPI_COPY ∧ n_copyfrom_rev_local (check_copy env n) = 2 ∧
  is_Some (local_copyfrom env (check_copy env n)).
Proof.
  intros env n.
  destruct (delta_check_copy_correct env n (str "trunk/a")) as (H1 & H2 & _);
    [reflexivity|reflexivity|eval_decide|].
  assert (n_cp_info (check_copy env n) = CPI_COPY) as Hc.
  { apply H1. right. split; [|vm_compute; reflexivity].
    split; [right; vm_compute; discriminate|]. exists (str "/a"). reflexivity. }
  split; [exact Hc|]. split; [vm_compute; reflexivity|]. exact (proj1 (H2 Hc)).
Defined.

(** C9. Actions agree with the local history: when only a part of the repository or of its history
    is dumped, [delta_check_action] returns for every changed or replaced node of a tree as the
    editor builds it, and settles the action by the history of the path repository.  Below a copy
    that was written as one, the node becomes an addition exactly when its counterpart was not in
    the copy source; below a copy that was out of reach it becomes an addition; otherwise a change
    becomes an addition exactly when the path did not exist in the previous local revision, and
    so does a replacement in a failed copy; the root is never added. *)
Theorem delta_check_action_correct `{HashIter} {T : Type} `{KV T} `{Codec}
    (svn_path_dirname : bytes → bytes) (env : de_env) (d : de_state T) (s : pr_spec) (id : nat)
    (n : de_node) :
  nodes_ok d → pr_inv (d_repo d) s → d_nodes d !! id = Some n →
  n_action n = "R"%char ∨ n_action n = "M"%char → whole_history env = false →
  copies_known env s d (n_parent n) → v_local_revnum env - 1 <= sp_last s →
  ∃ r d', decided_by d (n_parent n) r ∧
    delta_check_action svn_path_dirname env id d = Done d' tt ∧
    pr_inv (d_repo d') s ∧ d_out d' = d_out d ∧
    d_nodes d' = <[id := set_action n (settled_action env svn_path_dirname s n r)]> (d_nodes d).
Proof. apply run_check_action. Qed.

Lemma delta_check_action_correct_witness :
  let env := mk_env [] (mk_opts None None 1 (-1) 0 2) [] (mk_log 1 None None None None) 1 in
  let d := sample_copied (str "g") in
  let d := put_nodes d (<[1%nat := set_action (sample_child (str "g")) "M"%char]> (d_nodes d)) in
  ∃ d', delta_check_action sample_dirname env 1 d = Done d' tt ∧
    n_action <$> d_nodes d' !! 1%nat = Some "A"%char.
Proof.
  intros env d0 d. destruct sample_repo_inv as (s & Hinv & Hlast).
  assert (nodes_ok d) as Hok.
  { destruct (sample_copied_ok (str "g")) as [Hdom Hpar]. split.
    - intros id. etrans; [|exact (Hdom id)]. cbn.
      rewrite !lookup_insert_is_Some, !lookup_singleton_is_Some. destruct (decide (1%nat = id)); naive_solver.
    - intros id n p Hn Hp. cbn in Hn. apply lookup_insert_Some in Hn as [[<- <-]|[Hne Hn]].
      + cbn in Hp. injection Hp as <-. lia.
      + exact (Hpar id n p Hn Hp). }
  destruct (delta_check_action_correct sample_dirname env d s 1
    (set_action (sample_child (str "g")) "M"%char)) as (r & d' & _ & Hrun & _).
  - exact Hok.
  - exact Hinv.
  - apply lookup_insert_eq.
  - right. reflexivity.
  - reflexivity.
  - intros a Ha _. inversion Ha as [|? ? Hn _|? ? ? Hn Hno _]; subst;
      vm_compute in Hn; injection Hn as Hn; subst; [|discriminate Hno].
    split; [vm_compute; eexists; reflexivity|]. rewrite Hlast. vm_compute. discriminate.
  - rewrite Hlast. vm_compute. discriminate.
  - exists d'. split; [exact Hrun|]. vm_compute in Hrun. injection Hrun as <-. reflexivity.
Defined.
