(* ===== verification/DeltaTree.v ===== *)
(** The node store of the delta editor: whatever a driver calls, the batons form a forest whose
    nodes know their parents and their children in the order of their creation; the recursive
    dump ends within its fuel and leaves no node behind that has yet to be dumped. *)
From S2P Require Import Prelude CritBit Interfaces Mukv Utils Types Copyfrom Property PropStore PathRepo.
From S2P Require Import Session DumpFormat Delta DeltaFacts DeltaDump DeltaCopy.

Open Scope Z_scope.

(** * Invariant *)

(** The fields of a node that hold addresses. *)
Definition links (n : de_node) : option nat * list nat := (n_parent n, n_children n).

Record tree_ok {T} (d : de_state T) : Prop := {
  tree_nodes : nodes_ok d;
  tree_child : ∀ id n c, d_nodes d !! id = Some n → c ∈ n_children n →
    ∃ cn, d_nodes d !! c = Some cn ∧ n_parent cn = Some id;
  tree_parent : ∀ c cn p, d_nodes d !! c = Some cn → n_parent cn = Some p →
    ∃ n, d_nodes d !! p = Some n ∧ c ∈ n_children n;
  tree_order : ∀ id n, d_nodes d !! id = Some n → StronglySorted lt (n_children n);
  tree_root : ∀ r, d_root d = Some r → ∃ n, d_nodes d !! r = Some n ∧ n_parent n = None
}.

(** The nodes below a node, itself included. *)
Inductive in_tree {T} (d : de_state T) : nat → nat → Prop :=
  | in_tree_here id n : d_nodes d !! id = Some n → in_tree d id id
  | in_tree_child id n c j :
      d_nodes d !! id = Some n → c ∈ n_children n → in_tree d c j → in_tree d id j.

Lemma in_tree_node {T} (d : de_state T) id j : in_tree d id j → is_Some (d_nodes d !! j).
Proof. induction 1; eauto. Qed.

(** The node has yet to be dumped. *)
Definition needed {T} (d : de_state T) (id : nat) : Prop :=
  ∃ n, d_nodes d !! id = Some n ∧ n_dump_needed n = true.

(** * Changes that keep the tree *)

Definition same_shape {T} (d d' : de_state T) : Prop :=
  d_next d' = d_next d ∧ d_root d' = d_root d ∧ links <$> d_nodes d' = links <$> d_nodes d.

#[export] Instance same_shape_preorder {T} : PreOrder (@same_shape T).
Proof.
  split; [by intros d|]. unfold same_shape.
  intros x y z (H1 & H2 & H3) (H4 & H5 & H6). by rewrite H4, H5, H6.
Qed.

(** Only the node [id] changes, and it keeps its links and does not become due. *)
Definition calm {T} (id : nat) (d d' : de_state T) : Prop :=
  same_shape d d' ∧ (∀ j, j ≠ id → d_nodes d' !! j = d_nodes d !! j) ∧
  (needed d' id → needed d id).

#[export] Instance calm_preorder {T} id : PreOrder (@calm T id).
Proof.
  split; [intros d; split_and!; [reflexivity|done..]|].
  intros x y z (S1 & O1 & N1) (S2 & O2 & N2). split_and!; [by etrans| |auto].
  intros j Hj. by rewrite O2, O1.
Qed.

Lemma same_nodes_shape {T} (d d' : de_state T) :
  d_next d' = d_next d → d_root d' = d_root d → d_nodes d' = d_nodes d → same_shape d d'.
Proof. intros H1 H2 H3. split_and!; [done..|by rewrite H3]. Qed.

Lemma same_nodes_calm {T} id (d d' : de_state T) :
  d_next d' = d_next d → d_root d' = d_root d → d_nodes d' = d_nodes d → calm id d d'.
Proof.
  intros H1 H2 H3. unfold calm, needed. rewrite H3. split_and!; [by apply same_nodes_shape|done..].
Qed.

Lemma shape_lookup {T} (d d' : de_state T) id n :
  same_shape d d' → d_nodes d !! id = Some n →
  ∃ n', d_nodes d' !! id = Some n' ∧ links n' = links n.
Proof.
  intros (_ & _ & Hl) Hn. assert ((links <$> d_nodes d') !! id = Some (links n)) as Hn'.
  { by rewrite Hl, lookup_fmap, Hn. }
  rewrite lookup_fmap in Hn'. apply fmap_Some in Hn' as (n' & ? & ?). eauto.
Qed.

#[export] Instance same_shape_sym {T} : Symmetric (@same_shape T).
Proof. intros x y (H1 & H2 & H3). by split_and!. Qed.

Lemma shape_tree {T} (d d' : de_state T) : same_shape d d' → tree_ok d → tree_ok d'.
Proof.
  intros Hs [[Hdom Hpar] Hc Hp Ho Hr].
  assert (∀ id n', d_nodes d' !! id = Some n' → ∃ n, d_nodes d !! id = Some n ∧
    n_parent n = n_parent n' ∧ n_children n = n_children n') as Hback.
  { intros id n' Hn'. apply symmetry in Hs. destruct (shape_lookup _ _ _ _ Hs Hn') as (n & ? & Hl).
    injection Hl. eauto. }
  assert (∀ id n, d_nodes d !! id = Some n → ∃ n', d_nodes d' !! id = Some n' ∧
    n_parent n' = n_parent n ∧ n_children n' = n_children n) as Hforth.
  { intros id n Hn. destruct (shape_lookup _ _ _ _ Hs Hn) as (n' & ? & Hl). injection Hl. eauto. }
  destruct Hs as (Hnext & Hroot & _). split; [split|..].
  - intros id. rewrite Hnext, <-Hdom. split; intros [n Hn];
      [apply Hback in Hn as (? & ? & _)|apply Hforth in Hn as (? & ? & _)]; eauto.
  - intros id n p (m & Hm & <- & _)%Hback. by apply Hpar.
  - intros id n c (m & Hm & _ & <-)%Hback Hin. destruct (Hc _ _ _ Hm Hin) as (cn & Hcn & Hcp).
    apply Hforth in Hcn as (cn' & ? & ? & _). exists cn'. split; congruence.
  - intros c cn p (m & Hm & <- & _)%Hback Hcp. destruct (Hp _ _ _ Hm Hcp) as (n & Hn & Hin).
    apply Hforth in Hn as (n' & ? & _ & ?). exists n'. split; congruence.
  - intros id n (m & Hm & _ & <-)%Hback. by eapply Ho.
  - intros r. rewrite Hroot. intros (n & Hn & Hnp)%Hr. apply Hforth in Hn as (n' & ? & ? & _).
    exists n'. split; congruence.
Qed.

Lemma keeps_weaken {St A} (R R' : St → St → Prop) (m : M St A) :
  (∀ d d', R d d' → R' d d') → keeps R m → keeps R' m.
Proof. intros HR Hm d. specialize (Hm d). destruct (m d); auto. Qed.

Lemma calm_shape {T A} id (m : M (de_state T) A) : keeps (calm id) m → keeps same_shape m.
Proof. apply keeps_weaken. by intros d d' (? & _). Qed.

(** An update of a node that leaves its links alone and does not make it due. *)
Definition calm_upd (f : de_node → de_node) : Prop :=
  ∀ n, links (f n) = links n ∧ (n_dump_needed (f n) = true → n_dump_needed n = true).

Section tree.
Context `{HashIter} {T : Type} `{KV T} `{Codec}.
Variables (svn_path_dirname svn_md5_digest_to_cstring : bytes → bytes).
Variable svndiff : bytes → bytes → bytes.
Variable temp_ok : nat → bool.
Variable env : de_env.

Implicit Types (d : de_state T) (n : de_node) (id : nat).

Abbreviation tame id := (keeps (@calm T id)).
#[local] Hint Extern 0 (calm _ _ _) => solve [apply same_nodes_calm; reflexivity] : core.

Lemma node_get_tame i id : tame i (node_get id).
Proof. unfold node_get. keeps_tac. Qed.
#[local] Hint Resolve node_get_tame : keeps.

Lemma upd_shape d id n f :
  d_nodes d !! id = Some n → links (f n) = links n →
  same_shape d (put_nodes d (<[id := f n]> (d_nodes d))).
Proof.
  intros Hn Hf. split_and!; [done..|]. simpl. rewrite fmap_insert, Hf. apply insert_id.
  by rewrite lookup_fmap, Hn.
Qed.

Lemma node_upd_tame id f : calm_upd f → tame id (node_upd id f).
Proof.
  intros Hf d. unfold node_upd, node_get, lift, mbind, M_bind. cbn.
  destruct (d_nodes d !! id) as [n|] eqn:Hn; [|done]. cbn. destruct (Hf n) as [Hl Hd].
  split_and!.
  - by apply upd_shape.
  - intros j Hj. simpl. by rewrite lookup_insert_ne.
  - unfold needed. simpl. rewrite lookup_insert_eq. intros (n' & [= <-] & ?). eauto.
Qed.

Lemma modify_tame i f :
  (∀ d, d_next (f d) = d_next d ∧ d_root (f d) = d_root d ∧ d_nodes (f d) = d_nodes d) →
  tame i (modify f).
Proof. intros Hf. apply keeps_modify. intros d. destruct (Hf d) as (? & ? & ?). by apply same_nodes_calm. Qed.

#[local] Hint Extern 1 (keeps (calm _) (modify _)) => apply modify_tame; by intros : keeps.
#[local] Hint Extern 1 (keeps (calm _) (node_upd _ _)) =>
  apply node_upd_tame; intros ?; repeat case_match; (split; [reflexivity|first [done|by intros ?]]) : keeps.

Lemma emit_tame i s : tame i (emit s).
Proof. unfold emit. keeps_tac. Qed.
#[local] Hint Resolve emit_tame : keeps.

Lemma repo_check_parent_tame i p c r : tame i (repo_check_parent p c r).
Proof. intros d. unfold repo_check_parent. destruct path_repo_check_parent as [[]|]; auto. Qed.

Lemma repo_exists_tame i p r : tame i (repo_exists p r).
Proof. intros d. unfold repo_exists. destruct path_repo_exists as [[]|]; auto. Qed.

Lemma mkstemp_tame i sub : tame i (mkstemp temp_ok env sub).
Proof. intros d. unfold mkstemp. destruct (temp_ok (d_temp d)); auto. Qed.
#[local] Hint Resolve repo_check_parent_tame repo_exists_tame mkstemp_tame : keeps.

Lemma read_file_tame i f : tame i (read_file f).
Proof. unfold read_file. keeps_tac. Qed.

Lemma remove_file_tame i f : tame i (remove_file f).
Proof. unfold remove_file. keeps_tac. Qed.
#[local] Hint Resolve read_file_tame remove_file_tame : keeps.

Lemma check_levels_tame i k p b r : tame i (check_levels k p b r).
Proof. revert b. induction k as [|k IH]; intros b; simpl; keeps_tac. Qed.

Lemma copied_parent_tame i k o : tame i (copied_parent k o).
Proof. revert o. induction k as [|k IH]; intros o; simpl; keeps_tac. Qed.
#[local] Hint Resolve check_levels_tame copied_parent_tame : keeps.

Lemma delta_propagate_copy_tame p c : tame c (delta_propagate_copy env p c).
Proof. unfold delta_propagate_copy. keeps_tac. Qed.

Lemma check_parents_tame k id p : tame id (check_parents env k id p).
Proof. revert p. induction k as [|k IH]; intros [p|]; simpl; keeps_tac. Qed.
#[local] Hint Resolve check_parents_tame : keeps.

Lemma delta_check_copy_tame id : tame id (delta_check_copy env id).
Proof. unfold delta_check_copy, check_copy. keeps_tac. Qed.

Lemma delta_check_action_tame id : tame id (delta_check_action svn_path_dirname env id).
Proof. unfold delta_check_action. keeps_tac. Qed.
#[local] Hint Resolve delta_check_copy_tame delta_check_action_tame : keeps.

Lemma dump_finish_tame id : tame id (dump_finish id).
Proof. unfold dump_finish, delta_mark_node. keeps_tac. Qed.
#[local] Hint Resolve dump_finish_tame : keeps.

Lemma dump_body_tame id b c :
  tame id (dump_body svn_md5_digest_to_cstring svndiff temp_ok env id b c).
Proof.
  unfold dump_body, delta_deltify_node, dump_text_headers, dump_text, delta_cat_file. keeps_tac.
Qed.
#[local] Hint Resolve dump_body_tame : keeps.

Lemma dump_checked_tame id : tame id (dump_checked svn_md5_digest_to_cstring svndiff temp_ok env id).
Proof. unfold dump_checked, dump_copy. keeps_tac. Qed.
#[local] Hint Resolve dump_checked_tame : keeps.

Lemma delta_dump_node_tame k id :
  tame id (delta_dump_node svn_path_dirname svn_md5_digest_to_cstring svndiff temp_ok env k id).
Proof. induction k as [|k IH]; simpl; keeps_tac. Qed.

(** ** The recursive dump *)

Abbreviation shaped := (keeps (@same_shape T)).
Abbreviation dump_tree :=
  (delta_dump_node_recursive svn_path_dirname svn_md5_digest_to_cstring svndiff temp_ok env).
Abbreviation dump_node :=
  (delta_dump_node svn_path_dirname svn_md5_digest_to_cstring svndiff temp_ok env).

Lemma dump_node_shaped k id : shaped (dump_node k id).
Proof. eapply calm_shape, delta_dump_node_tame. Qed.

Lemma propagate_shaped p c : shaped (delta_propagate_copy env p c).
Proof. eapply calm_shape, delta_propagate_copy_tame. Qed.

Lemma node_get_shaped id : shaped (node_get id).
Proof. apply (calm_shape 0), node_get_tame. Qed.
#[local] Hint Resolve dump_node_shaped propagate_shaped node_get_shaped : keeps.

Lemma for_each_shaped l f : (∀ c, shaped (f c)) → shaped (for_each (T := T) l f).
Proof. intros Hf. induction l as [|c l IH]; simpl; keeps_tac. Qed.

Lemma dump_tree_shaped k id : shaped (dump_tree k id).
Proof.
  revert id. induction k as [|k IH]; intros id; cbn [delta_dump_node_recursive]; [apply keeps_ub|].
  keeps_tac. apply for_each_shaped. keeps_tac.
Qed.

(** ** Termination *)

Lemma bind_ext {St A B} (m : M St A) (k k' : A → M St B) (R : St → St → Prop) s :
  keeps R m → (∀ x s1, m s = Done s1 x → R s s1 → k x s1 = k' x s1) → (m ≫= k) s = (m ≫= k') s.
Proof.
  intros Hm Hk. specialize (Hm s). unfold mbind, M_bind. destruct (m s) as [| |s1 x] eqn:E; auto.
Qed.

Lemma for_each_ext l f g d :
  (∀ c, shaped (f c)) → (∀ c d', c ∈ l → same_shape d d' → f c d' = g c d') →
  for_each l f d = for_each l g d.
Proof.
  intros Hf. revert d. induction l as [|c l IH]; intros d Hfg; [done|].
  cbn [for_each]. unfold mbind, M_bind. rewrite <-Hfg; [|left|reflexivity].
  specialize (Hf c d). destruct (f c d) as [| |d1 []]; [done..|]. apply IH.
  intros c' d' Hc Hd. apply Hfg; [by right|by etrans].
Qed.

(** Children are younger than their parents, so that the distance to the newest node bounds the
    depth of the recursion. *)
Lemma dump_tree_fuel k k' id d :
  tree_ok d → (d_next d - id < k)%nat → (d_next d - id < k')%nat →
  dump_tree k id d = dump_tree k' id d.
Proof.
  revert k' id d. induction k as [|k IH]; intros [|k'] id d Hok Hk Hk'; [lia..|].
  cbn [delta_dump_node_recursive]. apply (bind_ext _ _ _ same_shape); [auto with keeps|].
  intros n d1 _ Hs1.
  apply (bind_ext _ _ _ same_shape); [keeps_tac|]. intros [] d2 _ Hs2.
  apply (bind_ext _ _ _ same_shape); [auto with keeps|]. intros n' d3 Hget Hs3.
  apply node_get_done in Hget as [-> Hn'].
  assert (same_shape d d2) as Hs by (by etrans).
  pose proof (shape_tree _ _ Hs Hok) as Hok2.
  unfold mbind at 1 3. unfold M_bind at 1 3.
  rewrite (for_each_ext _ _ (λ c, delta_propagate_copy env id c ≫= λ _, dump_tree k' c)); [done| |].
  - intros c. apply keeps_bind; [apply _|auto with keeps|]. intros _. apply dump_tree_shaped.
  - intros c d4 Hc Hs4. apply (bind_ext _ _ _ same_shape); [auto with keeps|].
    intros [] d5 _ Hs5. assert (same_shape d d5) as Hs' by (by do 2 (etrans; [|done])).
    destruct (tree_child _ Hok2 _ _ _ Hn' Hc) as (cn & Hcn & Hp).
    pose proof (no_parent _ (tree_nodes _ Hok2) _ _ _ Hcn Hp).
    assert (c < d_next d2)%nat by (apply (no_dom _ (tree_nodes _ Hok2)); eauto).
    assert (d_next d5 = d_next d ∧ d_next d2 = d_next d) as [] by (split; [apply Hs'|apply Hs]).
    apply IH; [by eapply shape_tree|lia..].
Qed.

(** ** Completeness *)

(** [m] leaves the node [id] with nothing to dump. *)
Definition clears (id : nat) (m : M (de_state T) unit) : Prop :=
  ∀ d d', m d = Done d' tt → ¬ needed d' id.

Lemma clears_bind {A} id (m : M (de_state T) A) k : (∀ x, clears id (k x)) → clears id (m ≫= k).
Proof. intros Hk d d' (d1 & x & _ & Hx)%bind_done. by eapply Hk. Qed.

Lemma node_upd_clears id f : (∀ n, n_dump_needed (f n) = false) → clears id (node_upd id f).
Proof.
  intros Hf d d' (d1 & n & _ & [= <-])%bind_done (n' & Hn' & Hd).
  simpl in Hn'. rewrite lookup_insert_eq in Hn'. injection Hn' as <-. by rewrite Hf in Hd.
Qed.

Lemma keeps_done {St A} (R : St → St → Prop) (m : M St A) s s' x :
  keeps R m → m s = Done s' x → R s s'.
Proof. intros Hm Hs. specialize (Hm s). by rewrite Hs in Hm. Qed.

Lemma clears_then {A} id (m : M (de_state T) unit) (k : M (de_state T) A) (u : A → unit) :
  clears id m → tame id k → ∀ d d' x, (m ≫= λ _, k) d = Done d' x → ¬ needed d' id.
Proof.
  intros Hm Hk d d' x (d1 & [] & Hd1 & Hx)%bind_done Hn.
  eapply Hm; [done|]. by apply (keeps_done _ _ _ _ _ Hk Hx).
Qed.

Lemma dump_finish_clears id : clears id (dump_finish id).
Proof.
  unfold dump_finish. apply clears_bind. intros [] d d' Hd.
  eapply (clears_then id (delta_mark_node id)); [exact (λ x, x)| | |exact Hd].
  - unfold delta_mark_node. do 3 (apply clears_bind; intros ?). by apply node_upd_clears.
  - keeps_tac.
Qed.

Lemma dump_body_clears id b c :
  clears id (dump_body svn_md5_digest_to_cstring svndiff temp_ok env id b c).
Proof. unfold dump_body. repeat first [apply dump_finish_clears|apply clears_bind; intros ?]. Qed.

Lemma dump_checked_clears id :
  clears id (dump_checked svn_md5_digest_to_cstring svndiff temp_ok env id).
Proof.
  unfold dump_checked. do 4 (apply clears_bind; intros ?). case_bool_decide; [apply dump_finish_clears|].
  case_match; [apply clears_bind; intros ?; case_match|];
    first [apply dump_finish_clears|apply dump_body_clears].
Qed.

Lemma dump_node_clears k id : clears id (dump_node k id).
Proof.
  induction k as [|k IH]; [by intros d d'|]. cbn [delta_dump_node].
  intros d d' (d1 & n & [-> Hn]%node_get_done & Hrest)%bind_done.
  destruct (n_dump_needed n) eqn:Hneed; simpl in Hrest.
  - refine ((_ : clears id _) d d' Hrest). case_match; [by apply node_upd_clears|].
    do 3 (apply clears_bind; intros ?). case_bool_decide; [|apply dump_checked_clears].
    do 4 (apply clears_bind; intros ?). apply IH.
  - injection Hrest as <-. intros (n' & Hn' & ?). congruence.
Qed.

(** Nodes older than [b] stay as they are, and no node becomes due. *)
Definition progress (b : nat) d d' : Prop :=
  same_shape d d' ∧ (∀ j, (j < b)%nat → d_nodes d' !! j = d_nodes d !! j) ∧
  (∀ j, needed d' j → needed d j).

#[local] Instance progress_preorder b : PreOrder (progress b).
Proof.
  split; [intros d; split_and!; [reflexivity|done..]|]. intros x y z (S1 & O1 & N1) (S2 & O2 & N2).
  split_and!; [by etrans| |auto]. intros j Hj. by rewrite O2, O1.
Qed.

Lemma calm_progress b id d d' : (b <= id)%nat → calm id d d' → progress b d d'.
Proof.
  intros Hb (S1 & O1 & N1). split_and!; [done|intros j Hj; apply O1; lia|].
  intros j Hj. destruct (decide (j = id)) as [->|Hne]; [auto|].
  destruct Hj as (n & Hn & ?). exists n. by rewrite <-O1.
Qed.

Lemma progress_le b b' d d' : (b <= b')%nat → progress b' d d' → progress b d d'.
Proof. intros Hb (? & O & ?). split_and!; [done| |done]. intros j Hj. apply O. lia. Qed.

Lemma in_tree_shape d d' id j : same_shape d d' → in_tree d id j → in_tree d' id j.
Proof.
  intros Hs. induction 1 as [id n Hn|id n c j Hn Hc _ IH];
    destruct (shape_lookup _ _ _ _ Hs Hn) as (n' & Hn' & Hl).
  - by eapply in_tree_here.
  - eapply in_tree_child; [done| |done]. injection Hl. congruence.
Qed.

(** What a run over the nodes below [c] achieves. *)
Definition dumps (b c : nat) (m : M (de_state T) unit) d0 : Prop :=
  ∀ d d', same_shape d0 d → m d = Done d' tt →
    progress b d d' ∧ ∀ j, in_tree d0 c j → ¬ needed d' j.

Lemma for_each_dumps b l f d0 d d' :
  (∀ c, c ∈ l → dumps b c (f c) d0) → same_shape d0 d → for_each l f d = Done d' tt →
  progress b d d' ∧ ∀ c j, c ∈ l → in_tree d0 c j → ¬ needed d' j.
Proof.
  revert d. induction l as [|c l IH]; intros d Hf Hs Hrun.
  - injection Hrun as <-. split; [reflexivity|]. intros c j Hc. by apply elem_of_nil in Hc.
  - apply bind_done in Hrun as (d1 & [] & Hr1 & Hr2).
    destruct (Hf c ltac:(left) d d1 Hs Hr1) as [Hp1 Hd1].
    destruct (IH d1) as [Hp2 Hd2]; [intros c' Hc'; apply Hf; by right| |done|].
    { etrans; [done|apply Hp1]. }
    split; [by etrans|]. intros c' j [->|Hc']%elem_of_cons Hj; [|by eapply Hd2].
    intros Hn. by eapply Hd1, Hp2.
Qed.

Lemma child_dumps k id n c d0 :
  tree_ok d0 → d_nodes d0 !! id = Some n → c ∈ n_children n → dumps c c (dump_tree k c) d0 →
  dumps (S id) c (delta_propagate_copy env id c ≫= λ _, dump_tree k c) d0.
Proof.
  intros Hok Hn Hc IH d d' Hs (d1 & [] & Hprop & Hdump)%bind_done.
  destruct (tree_child _ Hok _ _ _ Hn Hc) as (cn & Hcn & Hp).
  pose proof (no_parent _ (tree_nodes _ Hok) _ _ _ Hcn Hp).
  assert (progress (S id) d d1) as P1.
  { apply (calm_progress _ c); [lia|].
    apply (keeps_done _ _ _ _ _ (delta_propagate_copy_tame _ _) Hprop). }
  destruct (IH d1 d') as [Pc Dc]; [etrans; [done|apply P1]|done|].
  split; [|done]. etrans; [done|]. eapply progress_le; [|done]. lia.
Qed.

Lemma when_progress b id d d' : when b (dump_node 2 id) d = Done d' tt → progress id d d'.
Proof.
  intros Hd. apply (calm_progress id id); [done|]. refine (keeps_done _ _ _ _ _ _ Hd).
  apply keeps_when; [apply _|]. intros _. apply delta_dump_node_tame.
Qed.

(** The node itself is dumped before its children, or behind them if it is a deletion. *)
Lemma dump_tree_dumps k id d0 : tree_ok d0 → dumps id id (dump_tree k id) d0.
Proof.
  intros Hok. revert id. induction k as [|k IH]; intros id d d' Hs0 Hrun; [done|].
  cbn [delta_dump_node_recursive] in Hrun.
  apply bind_done in Hrun as (? & n & [-> Hn]%node_get_done & Hrun).
  apply bind_done in Hrun as (d1 & [] & Hr1 & Hrun).
  apply bind_done in Hrun as (? & n1 & [-> Hn1]%node_get_done & Hrun).
  apply bind_done in Hrun as (d2 & [] & Hr2 & Hrun).
  apply bind_done in Hrun as (? & n2 & [-> Hn2]%node_get_done & Hr3).
  pose proof (when_progress _ _ _ _ Hr1) as P1. pose proof (when_progress _ _ _ _ Hr3) as P3.
  assert (same_shape d0 d1) as Hs1 by (etrans; [done|apply P1]).
  destruct (shape_lookup _ _ _ _ (symmetry Hs1) Hn1) as (n0 & Hn0 & Hl).
  assert (n_children n0 = n_children n1) as Hch by (by injection Hl).
  destruct (for_each_dumps (S id) (n_children n1)
    (λ c, delta_propagate_copy env id c ≫= λ _, dump_tree k c) d0 d1 d2) as [P2 D2];
    [|done|exact Hr2|].
  { intros c Hc. eapply child_dumps; [done..| |apply IH]. by rewrite Hch. }
  assert (progress id d1 d2) as P2' by (eapply progress_le; [|done]; lia).
  split; [by do 2 (etrans; [done|])|].
  intros j Hj Hneed. inversion Hj as [? m Hm|? m c ? Hm Hc Hj']; subst.
  - destruct P2 as (_ & Hold & _). rewrite Hold, Hn1 in Hn2 by lia. injection Hn2 as <-.
    destruct (decide (n_action n1 = "D"%char)) as [Ha|Ha].
    { rewrite bool_decide_eq_true_2 in Hr3 by done. by eapply dump_node_clears. }
    destruct (decide (n_action n = "D"%char)) as [Ha'|Ha'].
    + rewrite bool_decide_eq_false_2 in Hr1 by (intros ?; done). injection Hr1 as <-. congruence.
    + rewrite bool_decide_eq_true_2 in Hr1 by done.
      eapply dump_node_clears; [exact Hr1|]. by apply P2', P3.
  - assert (m = n0) as -> by congruence. eapply D2; [|done|by apply P3]. congruence.
Qed.

(** ** Allocation *)

(** The state behind [node_alloc]. *)
Definition add_node d n : de_state T :=
  mk_de (<[d_next d := n]> (d_nodes d)) (S (d_next d)) (d_dumped d) (d_root d) (d_repo d)
    (d_props d) (d_delta_hash d) (d_md5_hash d) (d_files d) (d_temp d) (d_session d) (d_out d).

Lemma tree_fresh d : tree_ok d → d_nodes d !! d_next d = None.
Proof.
  intros Hok. destruct (d_nodes d !! d_next d) eqn:Hn; [|done].
  assert (d_next d < d_next d)%nat by (apply (no_dom _ (tree_nodes _ Hok)); eauto). lia.
Qed.

Lemma tree_older d id n : tree_ok d → d_nodes d !! id = Some n → (id < d_next d)%nat.
Proof. intros Hok Hn. apply (no_dom _ (tree_nodes _ Hok)). eauto. Qed.

Lemma children_older d id n c :
  tree_ok d → d_nodes d !! id = Some n → c ∈ n_children n → (c < d_next d)%nat.
Proof. intros Hok Hn Hc. destruct (tree_child _ Hok _ _ _ Hn Hc) as (cn & ? & _). by eapply tree_older. Qed.

Lemma add_root_ok d n :
  tree_ok d → n_parent n = None → n_children n = [] → tree_ok (add_node d n).
Proof.
  intros Hok Hnp Hnc. pose proof (tree_fresh d Hok) as Hfresh.
  assert (∀ id m, d_nodes (add_node d n) !! id = Some m →
    id = d_next d ∧ m = n ∨ d_nodes d !! id = Some m) as Hinv.
  { intros id m. simpl. rewrite lookup_insert_Some. naive_solver. }
  assert (∀ id m, d_nodes d !! id = Some m → d_nodes (add_node d n) !! id = Some m) as Hold.
  { intros id m Hm. simpl. rewrite lookup_insert_ne; [done|]. congruence. }
  split; [split|..].
  - intros id. simpl. rewrite lookup_insert_is_Some, (no_dom _ (tree_nodes _ Hok)). lia.
  - intros id m p [[-> ->]|Hm]%Hinv Hp; [congruence|]. by eapply (no_parent _ (tree_nodes _ Hok)).
  - intros id m c [[-> ->]|Hm]%Hinv Hc; [rewrite Hnc in Hc; by apply elem_of_nil in Hc|].
    destruct (tree_child _ Hok _ _ _ Hm Hc) as (cn & ? & ?). eauto.
  - intros c cn p [[-> ->]|Hm]%Hinv Hp; [congruence|].
    destruct (tree_parent _ Hok _ _ _ Hm Hp) as (m & ? & ?). eauto.
  - intros id m [[-> ->]|Hm]%Hinv; [rewrite Hnc; constructor|by eapply tree_order].
  - intros r (m & ? & ?)%(tree_root _ Hok). eauto.
Qed.

Lemma sorted_snoc l c : StronglySorted lt l → Forall (λ x, (x < c)%nat) l → StronglySorted lt (l ++ [c]).
Proof.
  induction 1 as [|x l Hl IH Hx]; intros Hc; simpl; [by repeat constructor|].
  inversion Hc; subst. constructor; [by apply IH|]. apply Forall_app. by repeat constructor.
Qed.

(** The new child of [p]. *)
Definition add_child d p pn n : de_state T :=
  put_nodes (add_node d n) (<[p := set_children pn (n_children pn ++ [d_next d])]>
    (<[d_next d := n]> (d_nodes d))).

Lemma add_child_ok d p pn n :
  tree_ok d → d_nodes d !! p = Some pn → n_parent n = Some p → n_children n = [] →
  tree_ok (add_child d p pn n).
Proof.
  intros Hok Hp Hnp Hnc. pose proof (tree_fresh d Hok) as Hfresh.
  pose proof (tree_older _ _ _ Hok Hp) as Hlt.
  set (pn' := set_children pn (n_children pn ++ [d_next d])).
  assert (∀ id m, d_nodes (add_child d p pn n) !! id = Some m →
    id = p ∧ m = pn' ∨ id = d_next d ∧ m = n ∨ d_nodes d !! id = Some m ∧ id ≠ p) as Hinv.
  { intros id m. simpl. rewrite !lookup_insert_Some. naive_solver. }
  assert (∀ id m, d_nodes d !! id = Some m → ∃ m', d_nodes (add_child d p pn n) !! id = Some m' ∧
    n_parent m' = n_parent m ∧ ∀ c, c ∈ n_children m → c ∈ n_children m') as Hold.
  { intros id m Hm. simpl. destruct (decide (id = p)) as [->|Hne].
    - exists pn'. rewrite lookup_insert_eq. assert (m = pn) as -> by congruence.
      split_and!; [done..|]. intros c Hc. simpl. by apply elem_of_app; left.
    - exists m. rewrite lookup_insert_ne by done. rewrite lookup_insert_ne by congruence. done. }
  assert (d_nodes (add_child d p pn n) !! d_next d = Some n) as Hnew.
  { simpl. rewrite lookup_insert_ne by lia. apply lookup_insert_eq. }
  split; [split|..].
  - intros id. simpl. rewrite !lookup_insert_is_Some, (no_dom _ (tree_nodes _ Hok)). lia.
  - intros id m q [[-> ->]|[[-> ->]|[Hm _]]]%Hinv Hq; simpl in Hq;
      [by eapply (no_parent _ (tree_nodes _ Hok))|congruence|by eapply (no_parent _ (tree_nodes _ Hok))].
  - intros id m c [[-> ->]|[[-> ->]|[Hm _]]]%Hinv Hc.
    + simpl in Hc. apply elem_of_app in Hc as [Hc|Hc%list_elem_of_singleton]; [|subst; eauto].
      destruct (tree_child _ Hok _ _ _ Hp Hc) as (cn & Hcn & <-).
      destruct (Hold _ _ Hcn) as (cn' & ? & ? & _). eauto.
    + rewrite Hnc in Hc. by apply elem_of_nil in Hc.
    + destruct (tree_child _ Hok _ _ _ Hm Hc) as (cn & Hcn & <-).
      destruct (Hold _ _ Hcn) as (cn' & ? & ? & _). eauto.
  - intros c cn q [[-> ->]|[[-> ->]|[Hm _]]]%Hinv Hq.
    + destruct (tree_parent _ Hok _ _ _ Hp Hq) as (m & Hm & ?).
      destruct (Hold _ _ Hm) as (m' & ? & _ & ?). eauto.
    + assert (q = p) as -> by congruence. exists pn'. simpl. rewrite lookup_insert_eq.
      split; [done|]. apply elem_of_app. right. by left.
    + destruct (tree_parent _ Hok _ _ _ Hm Hq) as (m & Hm' & ?).
      destruct (Hold _ _ Hm') as (m' & ? & _ & ?). eauto.
  - intros id m [[-> ->]|[[-> ->]|[Hm _]]]%Hinv; [|rewrite Hnc; constructor|by eapply tree_order].
    apply sorted_snoc; [by eapply tree_order|]. apply Forall_forall. intros c Hc.
    by eapply children_older.
  - intros r (m & Hm & ?)%(tree_root _ Hok). destruct (Hold _ _ Hm) as (m' & ? & ? & _).
    exists m'. split; congruence.
Qed.

(** ** The callbacks *)

Variables (rand : nat → Z) (fuel : nat).
Variables (apr_md5 : bytes → option bytes) (svn_property_regular : bytes → bool).
Variables (uninit_kind : svn_node_kind) (uninit_rev : Z).

Definition grows d d' : Prop := tree_ok d → tree_ok d'.

#[local] Instance grows_preorder : PreOrder grows.
Proof. split; [intros d Hd; exact Hd|]. unfold grows. intros x y z. auto. Qed.

Abbreviation sound := (keeps grows).

Lemma shaped_sound {A} (m : M (de_state T) A) : shaped m → sound m.
Proof. apply keeps_weaken. intros d d' Hs Hok. by eapply shape_tree. Qed.

Lemma tame_sound {A} id (m : M (de_state T) A) : tame id m → sound m.
Proof. intros Hm. by eapply shaped_sound, calm_shape. Qed.

Lemma node_upd_shaped id f : (∀ n, links (f n) = links n) → shaped (node_upd id f).
Proof.
  intros Hf d. unfold node_upd, node_get, lift, mbind, M_bind. cbn.
  destruct (d_nodes d !! id) as [n|] eqn:Hn; [|done]. cbn. by apply upd_shape.
Qed.

Lemma delta_create_node_no_parent_sound p :
  sound (delta_create_node_no_parent uninit_kind uninit_rev p).
Proof. intros d Hok. by apply (add_root_ok d). Qed.

Lemma delta_create_node_sound p parent : sound (delta_create_node uninit_kind uninit_rev p parent).
Proof.
  intros d. unfold delta_create_node, node_alloc, node_upd, node_get, lift, get, mbind, M_bind.
  destruct (d_nodes d !! parent) as [pn|] eqn:Hp; cbn; [|done].
  destruct (decide (parent = d_next d)) as [->|Hne].
  { rewrite lookup_insert_eq. cbn. intros Hok. by rewrite (tree_fresh d Hok) in Hp. }
  rewrite lookup_insert_ne by done. rewrite Hp. cbn. intros Hok. by apply (add_child_ok d).
Qed.

Lemma de_open_root_sound : sound (de_open_root uninit_kind uninit_rev).
Proof.
  intros d. unfold de_open_root, delta_create_node_no_parent, node_alloc, node_upd, node_get, lift,
    get, modify, mbind, M_bind. cbn. rewrite lookup_insert_eq. cbn.
  rewrite insert_insert_eq. intros Hok.
  set (n := set_action _ _). pose proof (add_root_ok d n Hok eq_refl eq_refl) as [[Hd Hn] Hc Hp Ho _].
  split; [split; [exact Hd|exact Hn]|exact Hc|exact Hp|exact Ho|]. intros r [= <-]. exists n. split; [|done].
  apply lookup_insert_eq.
Qed.

Create HintDb tame.
#[local] Hint Resolve node_get_tame read_file_tame remove_file_tame repo_exists_tame
  mkstemp_tame : tame.
#[local] Hint Extern 1 (keeps grows _) =>
  solve [eapply (tame_sound 0); eauto with tame] : keeps.
#[local] Hint Extern 1 (keeps grows (modify _)) =>
  apply (tame_sound 0), modify_tame; by intros : keeps.
#[local] Hint Extern 1 (keeps grows (node_upd _ _)) =>
  apply shaped_sound, node_upd_shaped; intros ?; repeat case_match; reflexivity : keeps.
#[local] Hint Resolve delta_create_node_sound delta_create_node_no_parent_sound : keeps.

Lemma obfuscate_sound p : sound (obfuscate rand fuel p).
Proof.
  apply (tame_sound 0). intros d. unfold obfuscate. repeat case_match; simplify_eq; auto.
Qed.

Lemma storage_delete_sound p : sound (storage_delete p).
Proof. apply (tame_sound 0). intros d. unfold storage_delete. repeat case_match; simplify_eq; auto. Qed.

Lemma storage_store_sound id : sound (storage_store apr_md5 id).
Proof. apply (tame_sound 0). intros d. unfold storage_store. repeat case_match; simplify_eq; auto. Qed.

Lemma storage_load_sound id : sound (storage_load id).
Proof.
  apply shaped_sound. intros d. unfold storage_load. destruct (d_nodes d !! id) as [n|] eqn:Hn; [|done].
  destruct (property_load _ _ _) as [[[ps props] ret]|]; [|done].
  assert (same_shape d (put_nodes d (<[id := set_properties n props]> (d_nodes d)))) as Hs
    by exact (upd_shape d id n (λ n, set_properties n props) Hn eq_refl).
  by destruct (negb (ret =? 0)).
Qed.

Lemma repo_add_sound p : sound (repo_add p).
Proof.
  apply (tame_sound 0). intros d. unfold repo_add. destruct (path_repo_add _ _) as [r z].
  destruct (negb (z =? 0)); auto.
Qed.

Lemma repo_delete_sound p : sound (repo_delete p).
Proof.
  apply (tame_sound 0). intros d. unfold repo_delete. destruct (path_repo_delete _ _) as [[r z]|]; [|done].
  destruct (negb (z =? 0)); auto.
Qed.
#[local] Hint Resolve obfuscate_sound storage_delete_sound storage_store_sound storage_load_sound
  repo_add_sound repo_delete_sound : keeps.

Lemma parent_covers_sound k p : sound (parent_covers svn_path_dirname k p).
Proof. revert p. induction k as [|k IH]; intros p; simpl; keeps_tac. Qed.

Lemma dump_node_sound k id : sound (dump_node k id).
Proof. eapply tame_sound, delta_dump_node_tame. Qed.

Lemma dump_tree_sound k id : sound (dump_tree k id).
Proof. apply shaped_sound, dump_tree_shaped. Qed.
#[local] Hint Resolve parent_covers_sound dump_node_sound dump_tree_sound : keeps.

Lemma close_all_sound l :
  sound (close_all svn_path_dirname svn_md5_digest_to_cstring svndiff temp_ok uninit_kind
           uninit_rev env l).
Proof.
  induction l as [|[path log] l IH]; simpl; [apply keeps_ret; apply _|].
  unfold close_deleted. keeps_tac.
Qed.
#[local] Hint Resolve close_all_sound de_open_root_sound : keeps.

Lemma editor_do_sound c :
  sound (editor_do rand fuel apr_md5 svn_path_dirname svn_md5_digest_to_cstring
           svn_property_regular svndiff temp_ok uninit_kind uninit_rev env c).
Proof.
  destruct c; simpl; unfold de_set_target_revision, de_delete_entry, de_add_directory,
    de_open_directory, de_change_prop, de_close_directory, de_absent, de_add_file, de_open_file,
    de_apply_textdelta, de_close_file, de_close_edit, de_abort_edit, add_from_log, changed_path;
    keeps_tac.
Qed.

Lemma editor_run_sound l :
  sound (editor_run rand fuel apr_md5 svn_path_dirname svn_md5_digest_to_cstring
           svn_property_regular svndiff temp_ok uninit_kind uninit_rev env l).
Proof.
  induction l as [|c l IH]; simpl; [apply keeps_ret; apply _|].
  apply keeps_bind; [apply _|apply editor_do_sound|done].
Qed.

End tree.

(** * Properties *)

Lemma setup_tree_ok {T} (d : de_state T) : tree_ok (delta_setup_editor d).
Proof.
  split; [split|..]; simpl; try (intros; simplify_map_eq; done).
  intros id. rewrite lookup_empty. split; [by intros []|lia].
Qed.

(** C17. The node store is a forest at any time: whatever calls a driver makes on a new editor, with
    whatever batons, and also when one of them fails, every node but a root has a parent that is
    older and lists it among its children, the children are listed once and in the order of their
    creation, and the root baton has no parent. *)
Theorem delta_tree_invariant `{HashIter} {T : Type} `{KV T} `{Codec} rand fuel apr_md5
    svn_path_dirname svn_md5_digest_to_cstring svn_property_regular svndiff temp_ok uninit_kind
    uninit_rev (env : de_env) (calls : list editor_call) (d : de_state T) :
  match editor_run rand fuel apr_md5 svn_path_dirname svn_md5_digest_to_cstring
          svn_property_regular svndiff temp_ok uninit_kind uninit_rev env calls
          (delta_setup_editor d) with
  | UB => True
  | Fail d' _ | Done d' _ => tree_ok d'
  end.
Proof.
  pose proof (editor_run_sound svn_path_dirname svn_md5_digest_to_cstring svndiff temp_ok
    env rand fuel apr_md5 svn_property_regular uninit_kind uninit_rev calls
    (delta_setup_editor d)) as Hs.
  pose proof (setup_tree_ok d). destruct (editor_run _ _ _ _ _ _ _ _ _ _ _ _ _); auto.
Qed.

(** C18. No node is forgotten: the recursive dump, for which the number of nodes is fuel enough,
    leaves a forest behind in which no node below its argument has yet to be dumped. *)
Theorem delta_dump_recursive_complete `{HashIter} {T : Type} `{KV T} `{Codec}
    (svn_path_dirname svn_md5_digest_to_cstring : bytes → bytes) (svndiff : bytes → bytes → bytes)
    (temp_ok : nat → bool) (env : de_env) (d : de_state T) (id k : nat) :
  tree_ok d → (size (d_nodes d) < k)%nat →
  let dump k := delta_dump_node_recursive svn_path_dirname svn_md5_digest_to_cstring svndiff
                  temp_ok env k id d in
  dump k = dump (S (size (d_nodes d))) ∧
  ∀ d', dump k = Done d' tt →
    tree_ok d' ∧
    ∀ j, in_tree d id j → ∃ n, d_nodes d' !! j = Some n ∧ n_dump_needed n = false.
Proof.
  intros Hok Hk dump. pose proof (nodes_ok_size d (tree_nodes d Hok)) as Hsize. split.
  - apply dump_tree_fuel; [done|lia..].
  - intros d' Hd. destruct (dump_tree_dumps svn_path_dirname svn_md5_digest_to_cstring svndiff temp_ok env k id d Hok d d') as [(Hs & _) Hc];
      [reflexivity|done|]. split; [by eapply shape_tree|]. intros j Hj.
    assert (∃ n, d_nodes d' !! j = Some n) as [n Hn].
    { destruct (in_tree_node d id j Hj) as [m Hm].
      destruct (shape_lookup _ _ _ _ Hs Hm) as (? & ? & _). eauto. }
    exists n. split; [done|]. destruct (n_dump_needed n) eqn:He; [|done]. destruct (Hc j Hj). by exists n.
Qed.

(** The editor before the drive is closed, and its recursive dump. *)
Definition sample_open : outcome (de_state mukv) unit :=
  sample_run (sample_env (sample_opts 0 2) ∅) (take 9 sample_calls) (delta_setup_editor sample_state).

Definition final (o : outcome (de_state mukv) unit) : de_state mukv :=
  match o with Done d _ => d | _ => sample_state end.

Definition sample_dump : M (de_state mukv) unit :=
  delta_dump_node_recursive sample_dirname id (λ _ target, target) (λ _, true)
    (sample_env (sample_opts 0 2) ∅) 4 0.

Lemma sample_open_ok : tree_ok (final sample_open).
Proof.
  pose proof (editor_run_sound sample_dirname id (λ _ target, target) (λ _, true)
    (sample_env (sample_opts 0 2) ∅) (λ _, 0) 10 sample_md5 (λ _, true) svn_node_unknown 0
    (take 9 sample_calls) (delta_setup_editor sample_state)) as Hs.
  assert (sample_open = Done (final sample_open) tt) as Hrun by (vm_compute; reflexivity).
  unfold sample_open, sample_run in Hrun. rewrite Hrun in Hs. apply Hs, setup_tree_ok.
Qed.

Lemma sample_path : in_tree (final sample_open) 0 2.
Proof.
  do 2 (eapply in_tree_child; [vm_compute; reflexivity|vm_compute; left|]).
  eapply in_tree_here. vm_compute. reflexivity.
Qed.

Lemma delta_dump_recursive_complete_witness :
  let d := final sample_open in
  sample_open = Done d tt ∧ in_tree d 0 2 ∧ n_dump_needed <$> d_nodes d !! 2%nat = Some true ∧
  let d' := final (sample_dump d) in
  sample_dump d = Done d' tt ∧
  ∀ j, in_tree d 0 j → ∃ n, d_nodes d' !! j = Some n ∧ n_dump_needed n = false.
Proof.
  split; [vm_compute; reflexivity|]. split; [exact sample_path|].
  split; [vm_compute; reflexivity|]. split; [vm_compute; reflexivity|].
  apply (delta_dump_recursive_complete sample_dirname id (λ _ target, target) (λ _, true)
    (sample_env (sample_opts 0 2) ∅) (final sample_open) 0 4 sample_open_ok).
  - vm_compute. lia.
  - vm_compute. reflexivity.
Defined.
