(* ===== verification/DeltaOutput.v ===== *)
(** The output of a whole drive of the delta editor: when a drive ends without an error, what has
    been written is a sequence of complete records, whatever the driver did. *)
From S2P Require Import Prelude CritBit Interfaces Mukv Utils Types Copyfrom Property PropStore PathRepo.
From S2P Require Import Session DumpFormat Stream Delta DeltaFacts DeltaDump DeltaCopy DeltaTree.

Open Scope Z_scope.

(** * Partial correctness *)

(** If [m] starts with [P] and returns, [Q] holds of the result and the state behind it. *)
Definition triple {St A} (P : St → Prop) (m : M St A) (Q : A → St → Prop) : Prop :=
  ∀ d d' x, P d → m d = Done d' x → Q x d'.

Section triple.
Context {St : Type}.
Implicit Types P : St → Prop.

Lemma triple_ret {A} P (Q : A → St → Prop) x : (∀ d, P d → Q x d) → triple P (mret x) Q.
Proof. intros HQ d d' y HP [= <- <-]. auto. Qed.

Lemma triple_bind {A B} P (m : M St A) (k : A → M St B) R Q :
  triple P m R → (∀ x, triple (R x) (k x) Q) → triple P (m ≫= k) Q.
Proof. intros Hm Hk d d' y HP (d1 & x & Hr & Hkx)%bind_done. exact (Hk x d1 d' y (Hm _ _ _ HP Hr) Hkx). Qed.

Lemma triple_weaken {A} P P' (m : M St A) Q Q' :
  triple P m Q → (∀ d, P' d → P d) → (∀ x d, Q x d → Q' x d) → triple P' m Q'.
Proof. intros Hm HP HQ d d' x Hd Hr. eapply HQ, Hm; [by apply HP|done]. Qed.

(** A fact that does not depend on the state. *)
Lemma triple_pure {A} (φ : Prop) P (m : M St A) Q :
  (φ → triple P m Q) → triple (λ d, φ ∧ P d) m Q.
Proof. intros Hm d d' x [Hφ HP] Hr. by eapply Hm. Qed.

Lemma triple_pure_r {A} (φ : Prop) P (m : M St A) Q :
  (φ → triple P m Q) → triple (λ d, P d ∧ φ) m Q.
Proof. intros Hm d d' x [HP Hφ] Hr. by eapply Hm. Qed.

Lemma triple_if {A} (b : bool) P (m1 m2 : M St A) Q :
  (b = true → triple P m1 Q) → (b = false → triple P m2 Q) → triple P (if b then m1 else m2) Q.
Proof. destruct b; auto. Qed.

Lemma triple_when (b : bool) P (m : M St unit) :
  (b = true → triple P m (λ _, P)) → triple P (when b m) (λ _, P).
Proof. intros Hm. apply triple_if; [done|]. intros _. by apply triple_ret. Qed.

(** Computations that keep a relation keep what is invariant under it. *)
Lemma keeps_triple {A} (R : St → St → Prop) P (m : M St A) :
  keeps R m → (∀ d d', R d d' → P d → P d') → triple P m (λ _, P).
Proof.
  intros Hm HP d d' x Hd Hr. specialize (Hm d). rewrite Hr in Hm. eauto.
Qed.

(** One step after another, with the same assertion in between. *)
Lemma triple_seq {A B} P (m : M St A) (k : A → M St B) Q :
  triple P m (λ _, P) → (∀ x, triple P (k x) Q) → triple P (m ≫= k) Q.
Proof. intros Hm Hk. by eapply triple_bind. Qed.

End triple.

(** * What is given *)

(** The actions of a log. *)
Definition known_action (a : ascii) : Prop :=
  a = "M"%char ∨ a = "A"%char ∨ a = "D"%char ∨ a = "R"%char.

Definition log_ok (log : svn_log_changed_path) : Prop :=
  known_action (cp_action log) ∧
  ∀ p, cp_copyfrom_path log = Some p → nl ∉ p ∧ 0 <= cp_copyfrom_rev log.

(** Options, and the log entry of the revision, as they come from the command line and the
    server: no newlines in paths. *)
Record env_ok (env : de_env) : Prop := {
  eo_prefix : ∀ p, do_prefix (v_opts env) = Some p → nl ∉ p;
  eo_log : ∀ cp path log, lr_changed_paths (v_log_revision env) = Some cp →
    cp !! path = Some log → nl ∉ path ∧ log_ok log
}.

Definition prop_change_ok (used : prop_hash → Prop) (name : bytes) (value : option bytes) : Prop :=
  match value with
  | Some v => ∀ props, used props → used (<[name := v]> props)
  | None => cstr name
  end.

(** What a driver sends: paths without newlines, and (regular) properties that stay within the
    ones that can be stored. *)
Definition call_ok (svn_property_regular : bytes → bool) (used : prop_hash → Prop)
    (c : editor_call) : Prop :=
  match c with
  | DeleteEntry path _ | AddDirectory path _ | OpenDirectory path _ | AddFile path _
  | OpenFile path _ => nl ∉ path
  | ChangeProp _ name value => svn_property_regular name = true → prop_change_ok used name value
  | _ => True
  end.

(** The property hashes that occur can be stored, and loading adds some of them to others. *)
Record props_closed `{HashIter} (used : prop_hash → Prop) : Prop := {
  pc_fit : props_fit used;
  pc_empty : used ∅;
  pc_union : ∀ p1 p2, used p1 → used p2 → used (p1 ∪ p2)
}.

(** * Invariants *)

(** A node whose strings can be printed. *)
Record node_ok (used : prop_hash → Prop) (n : de_node) : Prop := {
  no_path : nl ∉ n_path n;
  no_props : used (n_properties n);
  no_dels : ∀ k, k ∈ n_del_properties n → cstr k;
  no_copy : ∀ p, n_copyfrom_path n = Some p → nl ∉ p ∧ 0 <= n_copyfrom_revision n
}.

(** The copy source of a node has a revision number that can be printed. *)
Definition copy_settled (n : de_node) : Prop := as_copy n = true → 0 <= n_copyfrom_rev_local n.

Section output.
Context `{HashIter} {T : Type} `{KV T} `{Codec}.
Variables (rand : nat → Z) (fuel : nat).
Variables (apr_md5 : bytes → option bytes) (svn_path_dirname : bytes → bytes)
  (svn_md5_digest_to_cstring : bytes → bytes) (svn_property_regular : bytes → bool).
Variable svndiff : bytes → bytes → bytes.
Variable temp_ok : nat → bool.
Variables (uninit_kind : svn_node_kind) (uninit_rev : Z).
Variable used : prop_hash → Prop.

Implicit Types (d : de_state T) (n : de_node) (id : nat).

Abbreviation node_ok := (node_ok used).

(** All nodes are fine, but [ex] may not have its action yet; so are the property storage and the
    names of the obfuscation. *)
Record good (ex : option nat) d : Prop := {
  gd_nodes : ∀ id n, d_nodes d !! id = Some n →
    node_ok n ∧ (Some id ≠ ex → known_action (n_action n));
  gd_props : ∃ m, ps_wf apr_md5 used (d_props d) m;
  gd_names : names_ok (se_obf (d_session d))
}.

(** The revisions among some records. *)
Definition revisions (l : list dump_item) : list Z :=
  omap (λ i, match i with RevisionItem r _ => Some r | _ => None end) l.

(** Records behind the file header; nodes are added, changed or deleted. *)
Definition item_ok (i : dump_item) : Prop :=
  match i with
  | NodeItem i => ni_action i = str "add" ∨ ni_action i = str "change" ∨ ni_action i = str "delete"
  | RevisionItem rev _ => 0 <= rev
  | _ => False
  end.

(** Behind [out0], some records have been written, with the revisions [rs] among them. *)
Definition written (out0 : bytes) (rs : list Z) (b : bytes) : Prop :=
  ∃ l out, b = out0 ++ out ∧ stream l out ∧ Forall item_ok l ∧ revisions l = rs.

Definition wrote (out0 : bytes) (rs : list Z) d : Prop := written out0 rs (d_out d).

Definition sound (ex : option nat) (out0 : bytes) (rs : list Z) d : Prop :=
  good ex d ∧ wrote out0 rs d.

Lemma wrote_nil d : wrote (d_out d) [] d.
Proof. exists [], []. rewrite app_nil_r. split_and!; [done|apply stream_nil|done..]. Qed.

Lemma wrote_chunk out0 rs d d' i c :
  wrote out0 rs d → chunk i c → item_ok i → d_out d' = d_out d ++ c →
  wrote out0 (rs ++ revisions [i]) d'.
Proof.
  intros (l & out & Ho & Hl & Hi & <-) Hc Hok Hd'. exists (l ++ [i]), (out ++ c).
  split_and!.
  - by rewrite Hd', Ho, app_assoc.
  - apply stream_app; [done|by apply stream_chunk].
  - apply Forall_app. by repeat constructor.
  - unfold revisions. by rewrite omap_app.
Qed.

Lemma wrote_out out0 rs d d' : d_out d' = d_out d → wrote out0 rs d → wrote out0 rs d'.
Proof. intros Ho. unfold wrote. by rewrite Ho. Qed.

(** ** Steps that keep them *)

(** The invariant is kept; with [silent], nothing is written. *)
Definition calmly (silent : bool) (ex : option nat) d d' : Prop :=
  (good ex d → good ex d') ∧ (silent = true → d_out d' = d_out d).

#[local] Instance calmly_preorder silent ex : PreOrder (calmly silent ex).
Proof.
  split; [by intros d; split|]. unfold calmly. intros x y z [G1 O1] [G2 O2].
  split; [auto|]. intros Hs. by rewrite O2, O1.
Qed.

Abbreviation still silent ex := (keeps (calmly silent ex)).

Lemma same_parts_good ex d d' :
  d_nodes d' = d_nodes d → d_props d' = d_props d → d_session d' = d_session d →
  good ex d → good ex d'.
Proof. intros E1 E2 E3 [? ? ?]. split; rewrite ?E1, ?E2, ?E3; done. Qed.

Lemma still_triple {A} ex out0 rs (m : M (de_state T) A) :
  still true ex m → triple (sound ex out0 rs) m (λ _, sound ex out0 rs).
Proof.
  intros Hm. eapply keeps_triple; [exact Hm|]. intros d d' [Hg Ho] [? ?].
  split; [auto|]. by eapply wrote_out; [apply Ho|].
Qed.

Lemma modify_still silent ex f :
  (∀ d, d_nodes (f d) = d_nodes d ∧ d_props (f d) = d_props d ∧ d_session (f d) = d_session d ∧
        (silent = true → d_out (f d) = d_out d)) →
  still silent ex (modify f).
Proof.
  intros Hf. apply keeps_modify. intros d. destruct (Hf d) as (? & ? & ? & ?).
  split; [by apply same_parts_good|done].
Qed.
#[local] Hint Extern 1 (keeps (calmly _ _) (modify _)) => apply modify_still; by intros : keeps.
#[local] Hint Extern 0 (calmly _ _ _ _) => solve [split; [by apply same_parts_good|done]] : core.

Lemma emit_still ex b : still false ex (emit b).
Proof. unfold emit. keeps_tac. Qed.
#[local] Hint Resolve emit_still : keeps.

Lemma node_get_still silent ex id : still silent ex (node_get id).
Proof. unfold node_get. keeps_tac. Qed.
#[local] Hint Resolve node_get_still : keeps.

(** A change of a node that leaves what is printed as fine as it was. *)
Definition node_kept (f : de_node → de_node) : Prop :=
  ∀ n, (node_ok n → node_ok (f n)) ∧ (known_action (n_action n) → known_action (n_action (f n))).

Lemma put_node_good ex ex' d id n n' :
  good ex d → d_nodes d !! id = Some n → (node_ok n → node_ok n') →
  (Some id ≠ ex' → known_action (n_action n')) → (ex' = ex ∨ ex = Some id) →
  good ex' (put_nodes d (<[id := n']> (d_nodes d))).
Proof.
  intros [Hn Hp Hs] Hid Hok Ha Hex. split; [|done|done]. intros j m. simpl.
  rewrite lookup_insert_Some. intros [[<- <-]|[Hne Hj]].
  - split; [|done]. by apply Hok, (Hn _ _ Hid).
  - destruct (Hn _ _ Hj) as [? Hact]. split; [done|]. intros Hex'. apply Hact.
    destruct Hex as [->| ->]; congruence.
Qed.

Lemma node_upd_still silent ex id f : node_kept f → still silent ex (node_upd id f).
Proof.
  intros Hf d. unfold node_upd, node_get, lift, mbind, M_bind. cbn.
  destruct (d_nodes d !! id) as [n|] eqn:Hn; [|done]. cbn. split; [|done]. intros Hg.
  eapply put_node_good; [done|done|apply Hf| |by left]. intros Hex. apply Hf.
  by apply (gd_nodes _ _ Hg _ _ Hn).
Qed.

(** Assignments to fields that are not printed, and of known actions. *)
Lemma node_ok_same n n' :
  n_path n' = n_path n → n_properties n' = n_properties n → n_del_properties n' = n_del_properties n →
  n_copyfrom_path n' = n_copyfrom_path n → n_copyfrom_revision n' = n_copyfrom_revision n →
  node_ok n → node_ok n'.
Proof. intros E1 E2 E3 E4 E5 []. split; rewrite ?E1, ?E2, ?E3, ?E4, ?E5; done. Qed.

Ltac kept_tac :=
  intros ?; split;
  [ repeat case_match; by apply node_ok_same
  | repeat case_match; first [done | intros _; unfold known_action; cbn; tauto] ].
#[local] Hint Extern 1 (keeps (calmly _ _) (node_upd _ _)) =>
  apply node_upd_still; kept_tac : keeps.

Variable env : de_env.

Lemma repo_check_parent_still silent ex p c r : still silent ex (repo_check_parent p c r).
Proof. intros d. unfold repo_check_parent. destruct path_repo_check_parent as [[]|]; auto. Qed.

Lemma repo_exists_still silent ex p r : still silent ex (repo_exists p r).
Proof. intros d. unfold repo_exists. destruct path_repo_exists as [[]|]; auto. Qed.

Lemma mkstemp_still silent ex sub : still silent ex (mkstemp temp_ok env sub).
Proof. intros d. unfold mkstemp. destruct (temp_ok (d_temp d)); auto. Qed.
#[local] Hint Resolve repo_check_parent_still repo_exists_still mkstemp_still : keeps.

Lemma read_file_still silent ex f : still silent ex (read_file f).
Proof. unfold read_file. keeps_tac. Qed.

Lemma remove_file_still silent ex f : still silent ex (remove_file f).
Proof. unfold remove_file. keeps_tac. Qed.
#[local] Hint Resolve read_file_still remove_file_still : keeps.

Lemma check_levels_still silent ex k p b r : still silent ex (check_levels k p b r).
Proof. revert b. induction k as [|k IH]; intros b; simpl; keeps_tac. Qed.

Lemma copied_parent_still silent ex k o : still silent ex (copied_parent k o).
Proof. revert o. induction k as [|k IH]; intros o; simpl; keeps_tac. Qed.
#[local] Hint Resolve check_levels_still copied_parent_still : keeps.

Lemma delta_propagate_copy_still silent ex p c : still silent ex (delta_propagate_copy env p c).
Proof. unfold delta_propagate_copy. keeps_tac. Qed.

Lemma check_parents_still silent ex k id p : still silent ex (check_parents env k id p).
Proof. revert p. induction k as [|k IH]; intros [p|]; simpl; keeps_tac. Qed.
#[local] Hint Resolve delta_propagate_copy_still check_parents_still : keeps.

Lemma delta_check_action_still silent ex id : still silent ex (delta_check_action svn_path_dirname env id).
Proof. unfold delta_check_action. keeps_tac. Qed.

Lemma delta_check_copy_still silent ex id : still silent ex (delta_check_copy env id).
Proof. apply node_upd_still. unfold check_copy. kept_tac. Qed.
#[local] Hint Resolve delta_check_action_still delta_check_copy_still : keeps.

Lemma dump_finish_still ex id : still false ex (dump_finish id).
Proof. unfold dump_finish, delta_mark_node. keeps_tac. Qed.
#[local] Hint Resolve dump_finish_still : keeps.

Lemma dump_body_still ex id b c :
  still false ex (dump_body svn_md5_digest_to_cstring svndiff temp_ok env id b c).
Proof.
  unfold dump_body, delta_deltify_node, dump_text_headers, dump_text, delta_cat_file. keeps_tac.
Qed.
#[local] Hint Resolve dump_body_still : keeps.

Lemma dump_checked_still ex id :
  still false ex (dump_checked svn_md5_digest_to_cstring svndiff temp_ok env id).
Proof. unfold dump_checked, dump_copy. keeps_tac. Qed.

Lemma repo_add_still silent ex p : still silent ex (repo_add p).
Proof.
  intros d. unfold repo_add. destruct (path_repo_add _ _) as [r z]. destruct (negb (z =? 0)); auto.
Qed.

Lemma repo_delete_still silent ex p : still silent ex (repo_delete p).
Proof.
  intros d. unfold repo_delete. destruct (path_repo_delete _ _) as [[r z]|]; [|done].
  destruct (negb (z =? 0)); auto.
Qed.

Lemma parent_covers_still silent ex k p : still silent ex (parent_covers svn_path_dirname k p).
Proof. revert p. induction k as [|k IH]; intros p; simpl; keeps_tac. Qed.
#[local] Hint Resolve repo_add_still repo_delete_still parent_covers_still : keeps.

(** ** Inversion: what a dump that returns has found *)

Abbreviation deltas := (has_flag (v_opts env) DF_USE_DELTAS).
Abbreviation dump_body := (dump_body svn_md5_digest_to_cstring svndiff temp_ok env).
Abbreviation dump_checked := (dump_checked svn_md5_digest_to_cstring svndiff temp_ok env).
Abbreviation dumpable := (dumpable svn_md5_digest_to_cstring svndiff temp_ok env).

Lemma read_file_done f d d' b : read_file f d = Done d' b → d' = d ∧ d_files d !! f = Some b.
Proof.
  unfold read_file, mbind, M_bind, get. destruct (d_files d !! f); [|done]. by intros [= -> ->].
Qed.

Lemma lift_done {A} (x : option A) d d' y : lift x d = Done d' y → d' = d ∧ x = Some y.
Proof. unfold lift. destruct x; [|done]. by intros [= -> ->]. Qed.

Lemma deltify_done id d d' n :
  d_nodes d !! id = Some n → deltas = true →
  delta_deltify_node svndiff temp_ok env id d = Done d' tt →
  is_Some (node_content svndiff env d n) ∧ temp_ok (d_temp d) = true.
Proof.
  intros Hn Hdl (d1 & n' & [-> Hn']%node_get_done & Hrun)%bind_done.
  assert (n' = n) as -> by congruence.
  apply bind_done in Hrun as (d1 & f & [-> Hf]%lift_done & Hrun).
  apply bind_done in Hrun as (d1 & target & [-> Ht]%read_file_done & Hrun).
  apply bind_done in Hrun as (d1 & source & Hsrc & Hrun).
  assert (d1 = d ∧ match n_old_filename n with Some f => d_files d !! f | None => Some [] end
    = Some source) as [-> Hs].
  { destruct (n_old_filename n); [by apply read_file_done in Hsrc|by injection Hsrc as <- <-]. }
  apply bind_done in Hrun as (d1 & dest & Hmk & Hrun). unfold node_content.
  rewrite Hdl, Hf. cbn [mbind option_bind]. rewrite Ht, Hs. split; [by eexists|].
  unfold mkstemp in Hmk. destruct (temp_ok (d_temp d)); [done|]. injection Hmk as <- <-. done.
Qed.

Lemma dump_body_done id dp d d' n :
  d_nodes d !! id = Some n → dump_body id true dp d = Done d' tt →
  is_Some (node_content svndiff env d n) ∧ (deltas = true → temp_ok (d_temp d) = true).
Proof.
  intros Hn (d1 & [] & Hdelt & Hrun)%bind_done. destruct deltas eqn:Hdl; cbn [andb when] in Hdelt.
  { by destruct (deltify_done id d d1 n) as [? ?]. }
  split; [|done]. injection Hdelt as <-.
  apply bind_done in Hrun as (d1 & n' & [-> Hn']%node_get_done & Hrun).
  assert (n' = n) as -> by congruence. cbv zeta in Hrun.
  do 2 (rewrite (run_bind _ _ _ _ _ (run_when_emit _ _ _)) in Hrun).
  apply bind_done in Hrun as (d1 & len & Hlen & _). unfold dump_text_headers in Hlen.
  apply bind_done in Hlen as (d2 & f & [-> Hf]%lift_done & Hlen).
  apply bind_done in Hlen as (d2 & b & [-> Hb]%read_file_done & _).
  unfold content_path in Hf. unfold node_content. rewrite Hdl in Hf |- *. rewrite Hf.
  cbn [mbind option_bind]. cbn in Hb. by rewrite Hb.
Qed.

(** A copy is only written when its source is local. *)
Lemma dump_copy_done n b d d' x : dump_copy env n b d = Done d' x → is_Some (local_copyfrom env n).
Proof.
  intros (d1 & c & [-> Hc]%lift_done & Hrun)%bind_done.
  apply bind_done in Hrun as (d1 & p & [-> Hp]%lift_done & _).
  unfold local_copyfrom. rewrite Hc. cbn [mbind option_bind]. by rewrite Hp.
Qed.

Lemma dump_rest_done id n d d' :
  d_nodes d !! id = Some n → n_action n ≠ "D"%char →
  dump_rest svn_md5_digest_to_cstring svndiff temp_ok env id n d = Done d' tt →
  (as_copy n = true → is_Some (local_copyfrom env n)) ∧
  (with_body env d n && with_content env d n = true →
     is_Some (node_content svndiff env d n) ∧ (deltas = true → temp_ok (d_temp d) = true)).
Proof.
  intros Hn Ha. unfold dump_rest. rewrite bool_decide_eq_false_2 by done.
  destruct (as_copy n) eqn:Hc; intros Hrun.
  - pose proof Hrun as (d1 & x & Hcp & _)%bind_done. apply dump_copy_done in Hcp as [p Hp].
    split; [by rewrite Hp|]. rewrite (run_bind _ _ _ _ _ (run_dump_copy env d n p Hc Hp)) in Hrun.
    intros [Hb Hw]%andb_true_iff. rewrite Hw in Hrun. cbn [negb andb] in Hrun.
    rewrite bool_decide_eq_false_2 in Hrun
      by (rewrite (with_content_file env d n Hw); discriminate).
    by apply (dump_body_done _ _ _ _ n) in Hrun.
  - split; [done|]. intros [Hb Hw]%andb_true_iff.
    assert (bool_decide (n_kind n = svn_node_file) && n_applied_delta n = true) as Hdc
      by (unfold with_content in Hw; by rewrite Hc in Hw).
    rewrite Hdc in Hrun. by apply (dump_body_done _ _ _ _ n) in Hrun.
Qed.

Hypothesis Hused : props_closed used.
Hypothesis Henv : env_ok env.
(** A digest is printed in hexadecimal digits. *)
Hypothesis Hdigest : ∀ b, nl ∉ svn_md5_digest_to_cstring b.

Lemma prefixed_ok p : nl ∉ p → nl ∉ prefixed env p.
Proof.
  intros Hp. unfold prefixed. destruct (do_prefix (v_opts env)) as [q|] eqn:Hq; [|done].
  rewrite not_elem_of_app. split; [by apply (eo_prefix _ Henv)|done].
Qed.

Lemma node_lines_ok n : node_ok n → Forall line_ok (node_lines env n).
Proof.
  intros Hn. unfold node_lines. apply Forall_app. split; apply Forall_fmap, Forall_forall.
  - intros [k v] [_ Hkv%hash_iter_elem]%list_elem_of_filter.
    pose proof (pf_ok _ (pc_fit _ Hused) _ (no_props _ _ Hn) _ _ Hkv) as (_ & Hk & _).
    split; [done|apply c_str_cstr].
  - intros k Hk. simpl. unfold dumped_deletions in Hk. destruct (_ =? 3); [|by apply elem_of_nil in Hk].
    apply list_elem_of_fmap in Hk as ([k' []] & -> & Hk%hash_iter_elem).
    apply lookup_set_to_map in Hk as (x & Hx & Heq); [|done]. injection Heq as ->.
    by apply (no_dels _ _ Hn).
Qed.

Lemma skip_slashes_elem c p : c ∈ skip_slashes p → c ∈ p.
Proof. induction p as [|x p IH]; [done|]. simpl. case_decide; [|done]. intros Hc. right. auto. Qed.

Lemma local_copyfrom_ok n p : node_ok n → local_copyfrom env n = Some p → nl ∉ p.
Proof.
  intros Hn Hp. unfold local_copyfrom in Hp. destruct (n_copyfrom_path n) as [c|] eqn:Hc; [|done].
  cbn [mbind option_bind] in Hp. unfold delta_get_local_copyfrom_path in Hp.
  destruct (negb _); [done|]. injection Hp as <-. destruct (no_copy _ _ Hn _ Hc) as [Hnl _].
  intros Hin%skip_slashes_elem. apply Hnl. by eapply subseteq_drop.
Qed.

(** A node of the invariant whose dump returns could be dumped. *)
Lemma dump_checked_done id n d d' :
  d_nodes d !! id = Some n → node_ok n → plain_action n → copy_settled n →
  dump_checked id d = Done d' tt → dumpable d n.
Proof.
  intros Hn Hok Ha Hcp Hrun. rewrite (run_first _ _ _ _ _ _ _ Hn Ha) in Hrun.
  set (d0 := put_out d _) in Hrun.
  assert (n_action n ≠ "D"%char →
    (as_copy n = true → is_Some (local_copyfrom env n)) ∧
    (with_body env d n && with_content env d n = true →
     is_Some (node_content svndiff env d n) ∧ (deltas = true → temp_ok (d_temp d) = true))) as Hrest.
  { intros Hna. by apply (dump_rest_done id n d0 d'). }
  assert (with_body env d n = true → n_action n ≠ "D"%char) as Hbody.
  { unfold with_body. intros [Hb _]%andb_true_iff. by apply bool_decide_eq_true in Hb. }
  split; [done| |by apply node_lines_ok| | | |done].
  - apply prefixed_ok. by apply (no_path _ _ Hok).
  - intros Hna Hc. split; [by apply Hcp|]. destruct (Hrest Hna) as [[p Hp] _]; [done|].
    exists p. split; [done|]. apply prefixed_ok. by eapply local_copyfrom_ok.
  - intros Hb. pose proof Hb as [Hb' _]%andb_true_iff. by apply Hrest; [apply Hbody|].
  - intros Hdl Hb. pose proof Hb as [Hb' _]%andb_true_iff. by apply Hrest; [apply Hbody| |].
Qed.

(** ** Dumping nodes *)

Definition settled id d : Prop := ∀ n, d_nodes d !! id = Some n → copy_settled n.

Lemma check_copy_settled n : node_ok n → copy_settled (check_copy env n).
Proof.
  intros Hn. unfold copy_settled, as_copy, check_copy.
  destruct ((n_cp_info n =? CPI_COPY) && bool_decide (n_copyfrom_path n = None)) eqn:H1'.
  { apply andb_true_iff in H1' as [_ Hnone%bool_decide_eq_true].
    rewrite andb_true_iff, bool_decide_eq_true. by intros [_ ?]. }
  destruct (negb (Z.land (n_cp_info n) CPI_FAILED =? 0)) eqn:H2'.
  { rewrite andb_true_iff, Z.eqb_eq. intros [Hcp _]. by rewrite Hcp in H2'. }
  destruct (n_copyfrom_path n) as [p|] eqn:Hp; [|done].
  destruct (no_copy _ _ Hn _ Hp) as [_ Hrev].
  destruct (whole_history env); [done|].
  destruct (_ && strncmp_eq _ _ _); [|done]. destruct (Z.ltb_spec 0 (delta_get_local_copyfrom_rev
    (n_copyfrom_revision n) (v_opts env) (v_logs env) (v_local_revnum env))); [|done].
  intros _. simpl. lia.
Qed.

Definition still_settled id d d' : Prop := settled id d → settled id d'.

#[local] Instance still_settled_preorder id : PreOrder (still_settled id).
Proof. split; [intros d Hd; exact Hd|]. unfold still_settled. intros x y z. auto. Qed.

Lemma node_upd_settled id f :
  (∀ n, copy_settled n → copy_settled (f n)) → keeps (still_settled id) (node_upd id f).
Proof.
  intros Hf d. unfold node_upd, node_get, lift, mbind, M_bind. cbn.
  destruct (d_nodes d !! id) as [n|] eqn:Hn; [|done]. cbn. intros Hs m. simpl.
  rewrite lookup_insert_eq. intros [= <-]. by apply Hf, Hs.
Qed.
#[local] Hint Extern 1 (keeps (still_settled _) (node_upd _ _)) =>
  apply node_upd_settled; intros ?; repeat case_match; by intros : keeps.

Lemma check_action_settled id : keeps (still_settled id) (delta_check_action svn_path_dirname env id).
Proof.
  assert (∀ i, keeps (still_settled id) (node_get (T := T) i)) as Hget
    by (intros i; unfold node_get; keeps_tac).
  assert (∀ p c r, keeps (still_settled id) (repo_check_parent p c r)) as Hpar.
  { intros p c r d. unfold repo_check_parent. destruct path_repo_check_parent as [[]|];
      [intros Hs; exact Hs|done]. }
  assert (∀ p r, keeps (still_settled id) (repo_exists p r)) as Hex.
  { intros p r d. unfold repo_exists. destruct path_repo_exists as [[]|];
      [intros Hs; exact Hs|done]. }
  assert (∀ k p, keeps (still_settled id) (check_parents env k id p)) as Hcheck.
  { intros k. induction k as [|k IH]; intros [p|]; simpl; keeps_tac. }
  unfold delta_check_action. keeps_tac.
Qed.

Variables (out0 : bytes) (rs : list Z).

Abbreviation stable := (sound None out0 rs).
Abbreviation dump_node :=
  (delta_dump_node svn_path_dirname svn_md5_digest_to_cstring svndiff temp_ok env).

Lemma node_info_ok d n : plain_action n → item_ok (NodeItem (node_expected svndiff env d n)).
Proof. intros [Ha|[Ha|Ha]]; simpl; rewrite Ha; vm_compute; auto. Qed.

Lemma wrote_node d d' i c :
  wrote out0 rs d → chunk (NodeItem i) c → item_ok (NodeItem i) → d_out d' = d_out d ++ c →
  wrote out0 rs d'.
Proof.
  intros Hw Hc Hi Ho. pose proof (wrote_chunk _ _ _ _ _ _ Hw Hc Hi Ho) as Hw'. cbn in Hw'.
  by rewrite app_nil_r in Hw'.
Qed.

(** The record of a node. *)
Lemma dump_checked_triple id n :
  plain_action n →
  triple (λ d, stable d ∧ settled id d ∧ d_nodes d !! id = Some n) (dump_checked id)
    (λ _, stable).
Proof.
  intros Ha d d' [] ([Hg Hw] & Hs & Hn) Hrun.
  destruct (gd_nodes _ _ Hg _ _ Hn) as [Hok _].
  pose proof (dump_checked_done id n d d' Hn Hok Ha (Hs _ Hn) Hrun) as Hd.
  destruct (run_dump_checked _ _ _ _ d id n Hn Hd) as (d'' & Hrun' & Hout & _).
  rewrite Hrun in Hrun'. injection Hrun' as <-. split.
  - by apply (keeps_done _ _ _ _ _ (dump_checked_still None id) Hrun).
  - eapply wrote_node; [done|exact (record_chunk svn_path_dirname _ _ _ _ _ _ Hd)|by apply node_info_ok|exact Hout].
Qed.

(** Turning a replacement into an addition writes a deletion. *)
Lemma replace_stable d n :
  node_ok n → stable d → stable (put_out d (d_out d ++ delete_record env (n_path n))).
Proof.
  intros Hn [Hg Hw]. split; [by apply (same_parts_good None d)|].
  eapply wrote_node; [done|apply (delete_record_chunk env (n_path n))| |done].
  - apply prefixed_ok, Hn.
  - right. by right.
Qed.

Lemma dump_node_triple k id : triple stable (dump_node k id) (λ _, stable).
Proof.
  induction k as [|k IH]; [by intros d d' x _|]. cbn [delta_dump_node].
  intros d d' [] Hd (d1 & n & [-> Hn]%node_get_done & Hrun)%bind_done.
  destruct (negb (n_dump_needed n)); [by injection Hrun as <-|].
  destruct (dump_skipped env n).
  { refine (still_triple None out0 rs _ _ d d' tt Hd Hrun). apply node_upd_still. kept_tac. }
  apply bind_done in Hrun as (d1 & [] & Hcopy & Hrun).
  assert (stable d1) as Hd1
    by exact (still_triple None out0 rs _ (delta_check_copy_still true None id) d d1 tt Hd Hcopy).
  assert (settled id d1) as Hs1.
  { unfold delta_check_copy in Hcopy. rewrite (run_node_upd _ _ _ _ Hn) in Hcopy.
    injection Hcopy as <-. intros m. simpl. rewrite lookup_insert_eq. intros [= <-].
    apply check_copy_settled. by apply (gd_nodes _ _ (proj1 Hd) _ _ Hn). }
  apply bind_done in Hrun as (d2 & [] & Hact & Hrun).
  assert (stable d2) as Hd2
    by exact (still_triple None out0 rs _ (delta_check_action_still true None id) d1 d2 tt Hd1 Hact).
  assert (settled id d2) as Hs2
    by exact (keeps_done _ _ _ _ _ (check_action_settled id) Hact Hs1).
  apply bind_done in Hrun as (d3 & n2 & [-> Hn2]%node_get_done & Hrun).
  destruct (gd_nodes _ _ (proj1 Hd2) _ _ Hn2) as [Hok2 Ha2].
  case_bool_decide as Hr.
  - do 3 (rewrite (run_bind _ _ _ _ _ (run_emit _ _)), ?put_out_put in Hrun).
    cbn [d_out put_out] in Hrun. rewrite <-!app_assoc in Hrun.
    pose proof (replace_stable d2 n2 Hok2 Hd2) as Hd3. unfold delete_record in Hd3.
    apply bind_done in Hrun as (d4 & [] & Hupd & Hrun). refine (IH _ _ _ _ Hrun).
    refine (still_triple None out0 rs _ _ _ d4 tt Hd3 Hupd). apply node_upd_still. kept_tac.
  - refine (dump_checked_triple id n2 _ d2 d' tt _ Hrun); [|by split_and!].
    destruct (Ha2 ltac:(done)) as [?|[?|[?|?]]]; [by left|by right; left|by right; right|done].
Qed.

Lemma for_each_triple l f :
  (∀ c, triple stable (f c) (λ _, stable)) → triple stable (for_each (T := T) l f) (λ _, stable).
Proof.
  intros Hf. induction l as [|c l IH]; [by apply triple_ret|]. by apply triple_seq.
Qed.

Lemma node_get_triple ex id : triple (sound ex out0 rs) (node_get id) (λ _, sound ex out0 rs).
Proof. apply still_triple, node_get_still. Qed.

Lemma dump_tree_triple k id :
  triple stable (delta_dump_node_recursive svn_path_dirname svn_md5_digest_to_cstring svndiff
                   temp_ok env k id) (λ _, stable).
Proof.
  revert id. induction k as [|k IH]; intros id; [by intros d d' x _|].
  cbn [delta_dump_node_recursive].
  apply triple_seq; [apply node_get_triple|]. intros n.
  apply triple_seq; [apply triple_when; intros _; apply dump_node_triple|]. intros _.
  apply triple_seq; [apply node_get_triple|]. intros n'.
  apply triple_seq.
  { apply for_each_triple. intros c. apply triple_seq; [|intros _; apply IH].
    apply still_triple, delta_propagate_copy_still. }
  intros _. apply triple_seq; [apply node_get_triple|]. intros n2.
  apply triple_when. intros _. apply dump_node_triple.
Qed.

(** ** Callbacks *)

Abbreviation steady m := (triple stable m (λ _, stable)).
Abbreviation unfinished id := (sound (Some id) out0 rs).

Lemma stable_steady {A} (m : M (de_state T) A) : still true None m → steady m.
Proof. apply still_triple. Qed.

Lemma put_props_good ex d ps :
  good ex d → (∃ m, ps_wf apr_md5 used ps m) → good ex (put_props d ps).
Proof. intros [? ? ?] ?. by split. Qed.

Lemma storage_store_still silent ex id : still silent ex (storage_store apr_md5 id).
Proof.
  intros d. unfold storage_store. destruct (d_nodes d !! id) as [n|] eqn:Hn; [|done].
  destruct (property_store _ _ _ _) as [[ps ret]|] eqn:Hst; [|done].
  assert (calmly silent ex d (put_props d ps)); [|by destruct (negb (ret =? 0))].
  split; [|done]. intros Hg. apply put_props_good; [done|].
  destruct (gd_props _ _ Hg) as [m Hm]. destruct (gd_nodes _ _ Hg _ _ Hn) as [Hok _].
  destruct (property_store_models apr_md5 used (d_props d) m (n_path n) (n_properties n)
    (no_props _ _ Hok) Hm) as (st' & ret' & m' & Hst' & Hwf & _).
  rewrite Hst in Hst'. injection Hst' as <- _. by exists m'.
Qed.

Lemma storage_delete_still silent ex p : still silent ex (storage_delete p).
Proof.
  intros d. unfold storage_delete. destruct (property_delete _ _) as [[ps ret]|] eqn:Hst; [|done].
  split; [|done]. intros Hg. apply put_props_good; [done|]. destruct (gd_props _ _ Hg) as [m Hm].
  destruct (property_delete_models apr_md5 used (d_props d) m p Hm) as (st' & Hst' & Hwf & _).
  rewrite Hst in Hst'. injection Hst' as <- _. by exists m.
Qed.

Lemma storage_load_still silent ex id : still silent ex (storage_load id).
Proof.
  intros d. unfold storage_load. destruct (d_nodes d !! id) as [n|] eqn:Hn; [|done].
  destruct (property_load _ _ _) as [[[ps props] ret]|] eqn:Hld; [|done].
  set (d1 := put_props _ _).
  assert (calmly silent ex d d1); [|by destruct (negb (ret =? 0))].
  split; [|done]. intros Hg. destruct (gd_props _ _ Hg) as [m Hm].
  destruct (property_load_wf apr_md5 used (pc_fit _ Hused) (d_props d) m (n_path n)
    (n_properties n) Hm) as (st' & out & ret' & Hld' & Hwf & Hout).
  rewrite Hld in Hld'. injection Hld' as <- <- _. apply put_props_good; [|by exists m].
  apply (put_node_good ex ex d id n (set_properties n props)); try done; [| |by left].
  - intros []. split; try done. simpl. destruct Hout as [->|(p & Hp & ->)]; [done|].
    by apply (pc_union _ Hused).
  - intros Hex. by apply (gd_nodes _ _ Hg _ _ Hn).
Qed.
#[local] Hint Resolve storage_store_still storage_delete_still storage_load_still : keeps.

Lemma obfuscate_triple p :
  nl ∉ p → triple stable (obfuscate rand fuel p) (λ p' d, nl ∉ p' ∧ stable d).
Proof.
  intros Hp d d' p' [[Hn Hps Hs] Hw] Hrun. unfold obfuscate in Hrun.
  destruct (session_obfuscate _ _ _ _) as [[se [q|]]|] eqn:Hob; [|done..].
  injection Hrun as <- <-. apply session_obfuscate_no_nl in Hob as [Hs' Hq]; [|done..].
  split; [done|]. split; [by split|]. by eapply wrote_out; [|exact Hw].
Qed.

(** A new node lacks nothing but its action. *)
Lemma node_alloc_triple n :
  node_ok n → triple stable (node_alloc n) (λ id, unfinished id).
Proof.
  intros Hok d d' id [[Hn Hp Hs] Hw] [= <- <-]. split; [split; [|done|done]|].
  - intros j m. simpl. rewrite lookup_insert_Some. intros [[<- <-]|[Hne Hj]]; [done|].
    destruct (Hn _ _ Hj) as [? Ha]. split; [done|]. intros _. by apply Ha.
  - by eapply wrote_out; [|exact Hw].
Qed.

(** The node gets its action. *)
Lemma finish_triple id f :
  (∀ n, node_ok n → node_ok (f n)) → (∀ n, known_action (n_action (f n))) →
  triple (unfinished id) (node_upd id f) (λ _, stable).
Proof.
  intros Hf Ha d d' [] [Hg Hw] (d1 & n & [-> Hn]%node_get_done & [= <-])%bind_done. split.
  - apply (put_node_good (Some id) None d id n (f n)); auto.
  - by eapply wrote_out; [|exact Hw].
Qed.

Lemma blank_node_ok path kind cr crl cp parent :
  nl ∉ path →
  node_ok (mk_node path None None None nul kind ∅ ∅ no_md5 None cr crl cp false false false
             parent []).
Proof. intros Hp. split; [done|apply Hused|set_solver|done]. Qed.

Lemma create_triple path parent :
  nl ∉ path →
  triple stable (delta_create_node uninit_kind uninit_rev path parent) (λ id, unfinished id).
Proof.
  intros Hp. unfold delta_create_node. apply triple_seq; [apply node_get_triple|]. intros p.
  eapply triple_bind; [by apply node_alloc_triple, blank_node_ok|]. intros id.
  apply triple_seq; [|intros _; by apply triple_ret]. apply still_triple, node_upd_still. kept_tac.
Qed.

Lemma create_no_parent_triple path :
  nl ∉ path →
  triple stable (delta_create_node_no_parent uninit_kind uninit_rev path) (λ id, unfinished id).
Proof. intros Hp. by apply node_alloc_triple, blank_node_ok. Qed.

(** Callbacks begin with the name and the node. *)
Lemma new_node_triple {A} path parent (k : bytes → nat → M (de_state T) A) :
  nl ∉ path →
  (∀ path id, nl ∉ path → triple (unfinished id) (k path id) (λ _, stable)) →
  steady (path ← obfuscate rand fuel path;
          id ← delta_create_node uninit_kind uninit_rev path parent; k path id).
Proof.
  intros Hp Hk. eapply triple_bind; [by apply obfuscate_triple|]. intros path'.
  apply triple_pure. intros Hp'. eapply triple_bind; [by apply create_triple|]. intros id.
  by apply Hk.
Qed.

Lemma changed_path_triple P path :
  triple P (changed_path env path : M (de_state T) _)
    (λ o d, (∀ log, o = Some log → log_ok log) ∧ P d).
Proof.
  intros d d' o HP Hrun. apply bind_done in Hrun as (d1 & cp & [-> Hcp]%lift_done & [= <- <-]).
  split; [|done]. intros log Hlog. by apply (eo_log _ Henv _ _ _ Hcp Hlog).
Qed.

Lemma log_node_triple id log :
  log_ok log → triple (unfinished id) (add_from_log id log) (λ _, stable).
Proof.
  intros [Ha Hc]. apply finish_triple; intros n; destruct (cp_copyfrom_path log) as [p|] eqn:Hp;
    try done.
  - intros []. by split.
  - by apply node_ok_same.
Qed.

Lemma action_triple id a :
  known_action a → triple (unfinished id) (node_upd id (λ n, set_action n a)) (λ _, stable).
Proof. intros Ha. apply finish_triple; [|done]. intros n. by apply node_ok_same. Qed.

Lemma opt_repo_add_still silent ex p : still silent ex (when (not_dry_run env) (repo_add p)).
Proof. keeps_tac. Qed.
#[local] Hint Resolve opt_repo_add_still : keeps.

Lemma de_open_root_steady : steady (de_open_root uninit_kind uninit_rev).
Proof.
  unfold de_open_root. eapply triple_bind; [apply create_no_parent_triple; eval_decide|]. intros id.
  eapply triple_bind; [apply action_triple; by left|]. intros []. apply stable_steady. keeps_tac.
Qed.

Lemma de_delete_entry_steady path parent :
  nl ∉ path → steady (de_delete_entry rand fuel uninit_kind uninit_rev env path parent).
Proof.
  intros Hp. unfold de_delete_entry. apply new_node_triple; [done|]. clear path Hp.
  intros path id Hp. eapply triple_bind.
  { apply finish_triple; [intros n; by apply node_ok_same|]. intros n. right. right. by left. }
  intros []. apply stable_steady. keeps_tac.
Qed.

Lemma de_add_directory_steady path parent :
  nl ∉ path → steady (de_add_directory rand fuel uninit_kind uninit_rev env path parent).
Proof.
  intros Hp. unfold de_add_directory. apply new_node_triple; [done|]. clear path Hp.
  intros path id Hp. apply triple_seq; [apply still_triple, node_upd_still; kept_tac|]. intros _.
  eapply triple_bind; [apply changed_path_triple|]. intros log. apply triple_pure. intros Hlog.
  apply (triple_bind _ _ _ (λ _, stable)); [|intros []; apply stable_steady; keeps_tac].
  destruct log as [log|]; [|apply action_triple; by right; left].
  eapply triple_bind; [by apply log_node_triple, Hlog|]. intros []. apply stable_steady. keeps_tac.
Qed.

Lemma de_add_file_steady path parent :
  nl ∉ path → steady (de_add_file rand fuel uninit_kind uninit_rev env path parent).
Proof.
  intros Hp. unfold de_add_file. apply new_node_triple; [done|]. clear path Hp.
  intros path id Hp. apply triple_seq; [apply still_triple, node_upd_still; kept_tac|]. intros _.
  eapply triple_bind; [apply changed_path_triple|]. intros log. apply triple_pure. intros Hlog.
  apply (triple_bind _ _ _ (λ _, stable)); [|intros []; apply stable_steady; keeps_tac].
  destruct log as [log|]; [|apply action_triple; by right; left].
  eapply triple_bind; [by apply log_node_triple, Hlog|]. intros []. apply stable_steady. keeps_tac.
Qed.

Lemma open_node_triple id kind :
  triple (unfinished id) (_ ← node_upd id (λ n, set_action (set_kind n kind) "M"%char);
                          _ ← storage_load id; mret id) (λ _, stable).
Proof.
  eapply triple_bind.
  { apply finish_triple; [intros n; by apply node_ok_same|]. intros n. by left. }
  intros []. apply stable_steady. keeps_tac.
Qed.

Lemma de_open_directory_steady path parent :
  nl ∉ path → steady (de_open_directory rand fuel uninit_kind uninit_rev path parent).
Proof. intros Hp. apply new_node_triple; [done|]. intros. by apply open_node_triple. Qed.

Lemma de_open_file_steady path parent :
  nl ∉ path → steady (de_open_file rand fuel uninit_kind uninit_rev path parent).
Proof. intros Hp. apply new_node_triple; [done|]. intros. by apply open_node_triple. Qed.

Lemma de_change_prop_steady id name value :
  (svn_property_regular name = true → prop_change_ok used name value) →
  steady (de_change_prop svn_property_regular id name value).
Proof.
  intros Hc. unfold de_change_prop. destruct (svn_property_regular name); [|by apply triple_ret].
  specialize (Hc eq_refl). apply stable_steady, node_upd_still. intros n.
  split; [|by destruct value]. intros []. destruct value as [v|]; split; try done.
  - simpl. by apply Hc.
  - simpl. intros k. rewrite elem_of_union, elem_of_singleton. intros [->|?]; [done|auto].
Qed.

Lemma de_absent_steady path : steady (de_absent rand fuel path).
Proof.
  intros d d' [] [[Hn Hps Hs] Hw] (d1 & q & Hob & [= <-])%bind_done. unfold obfuscate in Hob.
  destruct (session_obfuscate _ _ _ _) as [[se [p|]]|] eqn:Hse; [|done..]. injection Hob as <- <-.
  split; [|by eapply wrote_out; [|exact Hw]]. split; [done|done|].
  unfold session_obfuscate in Hse. destruct (negb _); [by injection Hse as <- _|].
  destruct (session_obfuscate_rec _ _ _ _) as [[o obf]|] eqn:Hr; [|done]. injection Hse as <- _.
  apply session_obfuscate_rec_letters in Hr as [Ho _]; [exact Ho|done].
Qed.

Lemma de_apply_textdelta_steady id target :
  steady (de_apply_textdelta apr_md5 temp_ok env id target).
Proof. apply stable_steady. unfold de_apply_textdelta. keeps_tac. Qed.

Lemma close_deleted_steady path log :
  nl ∉ path → log_ok log →
  steady (close_deleted svn_path_dirname svn_md5_digest_to_cstring svndiff temp_ok uninit_kind
            uninit_rev env path log).
Proof.
  intros Hp [Ha _]. unfold close_deleted.
  do 3 (apply triple_seq; [apply stable_steady; keeps_tac|intros ?]).
  case_match; [by apply triple_ret|].
  do 2 (apply triple_seq; [apply stable_steady; keeps_tac|intros ?]).
  case_match; [by apply triple_ret|].
  eapply triple_bind; [by apply create_no_parent_triple|]. intros id. eapply triple_bind.
  { apply finish_triple; [intros n; by apply node_ok_same|]. done. }
  intros []. apply dump_node_triple.
Qed.

Lemma close_all_steady l :
  (∀ path log, (path, log) ∈ l → nl ∉ path ∧ log_ok log) →
  steady (close_all svn_path_dirname svn_md5_digest_to_cstring svndiff temp_ok uninit_kind
            uninit_rev env l).
Proof.
  induction l as [|[path log] l IH]; intros Hl; [by apply triple_ret|]. cbn [close_all].
  destruct (Hl path log) as [? ?]; [by left|].
  apply triple_seq; [apply triple_when; intros _; by apply close_deleted_steady|]. intros _.
  apply IH. intros p lg Hin. apply Hl. by right.
Qed.

Lemma de_close_edit_steady :
  steady (de_close_edit svn_path_dirname svn_md5_digest_to_cstring svndiff temp_ok uninit_kind
            uninit_rev env).
Proof.
  unfold de_close_edit. do 2 (apply triple_seq; [apply stable_steady; keeps_tac|intros ?]).
  apply triple_seq; [apply dump_tree_triple|]. intros [].
  intros d d' [] Hd (d1 & cp & [-> Hcp]%lift_done & Hrun)%bind_done.
  refine (close_all_steady _ _ d d' tt Hd Hrun). intros path log Hin%hash_iter_elem.
  by apply (eo_log _ Henv _ _ _ Hcp).
Qed.

Abbreviation editor_do := (editor_do rand fuel apr_md5 svn_path_dirname svn_md5_digest_to_cstring
  svn_property_regular svndiff temp_ok uninit_kind uninit_rev env).
Abbreviation editor_run := (editor_run rand fuel apr_md5 svn_path_dirname svn_md5_digest_to_cstring
  svn_property_regular svndiff temp_ok uninit_kind uninit_rev env).

Lemma steady_unit {A} (m : M (de_state T) A) : steady m → steady (_ ← m; mret tt).
Proof. intros Hm. apply triple_seq; [done|]. intros _. by apply triple_ret. Qed.

Lemma editor_do_steady c : call_ok svn_property_regular used c → steady (editor_do c).
Proof.
  intros Hc. destruct c; simpl in Hc |- *.
  - by apply triple_ret.
  - apply steady_unit, de_open_root_steady.
  - by apply de_delete_entry_steady.
  - by apply steady_unit, de_add_directory_steady.
  - by apply steady_unit, de_open_directory_steady.
  - by apply de_change_prop_steady.
  - apply stable_steady, storage_store_still.
  - apply de_absent_steady.
  - by apply steady_unit, de_add_file_steady.
  - by apply steady_unit, de_open_file_steady.
  - apply de_apply_textdelta_steady.
  - apply stable_steady, storage_store_still.
  - apply de_close_edit_steady.
  - by apply triple_ret.
Qed.

Lemma editor_run_steady l : Forall (call_ok svn_property_regular used) l → steady (editor_run l).
Proof.
  induction 1 as [|c l Hc _ IH]; [by apply triple_ret|]. cbn [Delta.editor_run].
  apply triple_seq; [by apply editor_do_steady|]. intros _. exact IH.
Qed.

End output.

(** Without revisions there are only nodes. *)
Lemma items_nodes l :
  Forall item_ok l → revisions l = [] →
  ∃ nodes, l = NodeItem <$> nodes ∧
    Forall (λ i, ni_action i ∈ [str "add"; str "change"; str "delete"]) nodes.
Proof.
  induction 1 as [|i l Hi _ IH]; intros Hr; [by exists []|].
  destruct i as [v|u|rev ls|i]; [done..|]. destruct IH as (nodes & -> & Hn); [done|].
  exists (i :: nodes). split; [done|]. constructor; [|done].
  rewrite !elem_of_cons. simpl in Hi. tauto.
Qed.

Lemma setup_good `{HashIter} {T : Type} `{KV T} `{Codec} apr_md5 used (d : de_state T) m :
  ps_wf apr_md5 used (d_props d) m → names_ok (se_obf (d_session d)) →
  good apr_md5 used None (delta_setup_editor d).
Proof. intros Hm Hs. split; [by intros id n|by exists m|done]. Qed.

(** * Properties *)

(** C4. The output of a drive is well-formed: whatever a driver does with a new editor, with whatever
    batons and in whatever order, if the drive ends without an error then what it has added to the
    output is read, by a reader that relies on the announced lengths, as a sequence of complete
    node records from its first to its last byte, each of them an addition, a change or a
    deletion.  The server must send paths without newlines, known actions and properties that fit
    an [int] when stored; digests are printed without newlines.  The property storage is left in
    order for the next drive. *)
Theorem delta_drive_records `{HashIter} {T : Type} `{KV T} `{Codec} (rand : nat → Z) (fuel : nat)
    (apr_md5 : bytes → option bytes) (svn_path_dirname svn_md5_digest_to_cstring : bytes → bytes)
    (svn_property_regular : bytes → bool) (svndiff : bytes → bytes → bytes) (temp_ok : nat → bool)
    (uninit_kind : svn_node_kind) (uninit_rev : Z) (used : prop_hash → Prop) (env : de_env) (calls : list editor_call) (d d' : de_state T) (m : gmap bytes bytes) :
  props_closed used → env_ok env → (∀ b, nl ∉ svn_md5_digest_to_cstring b) →
  Forall (call_ok svn_property_regular used) calls →
  ps_wf apr_md5 used (d_props d) m → names_ok (se_obf (d_session d)) →
  editor_run rand fuel apr_md5 svn_path_dirname svn_md5_digest_to_cstring svn_property_regular
    svndiff temp_ok uninit_kind uninit_rev env calls (delta_setup_editor d) = Done d' tt →
  ∃ out nodes, d_out d' = d_out d ++ out ∧ read_dump out = Some (NodeItem <$> nodes) ∧
    Forall (λ i, ni_action i ∈ [str "add"; str "change"; str "delete"]) nodes ∧
    ∃ m', ps_wf apr_md5 used (d_props d') m'.
Proof.
  intros Hused Henv Hdigest Hcalls Hm Hs Hrun.
  destruct (editor_run_steady rand fuel apr_md5 svn_path_dirname svn_md5_digest_to_cstring
    svn_property_regular svndiff temp_ok uninit_kind uninit_rev used env Hused Henv Hdigest
    (d_out d) [] calls Hcalls (delta_setup_editor d) d' tt) as [Hg (l & out & Ho & Hl & Hi & Hr)].
  - split; [by eapply setup_good|]. apply (wrote_nil (delta_setup_editor d)).
  - exact Hrun.
  - destruct (items_nodes l Hi Hr) as (nodes & -> & Hn). exists out, nodes.
    split_and!; [done|by apply read_dump_stream|done|by apply (gd_props _ _ _ _ Hg)].
Qed.

(** The property hashes of the sample drive. *)
Definition sample_used (props : prop_hash) : Prop :=
  props = ∅ ∨ props = {[str "svn:eol-style" := str "native"]}.

Lemma sample_used_closed : props_closed sample_used.
Proof.
  split; [split|by left|].
  - intros props [->| ->] k v; [by rewrite lookup_empty|]. rewrite lookup_singleton_Some.
    intros [<- <-]. split; [discriminate|]. split; [eval_decide|]. split; vm_compute; reflexivity.
  - intros props [->| ->]; vm_compute; reflexivity.
  - intros p1 p2 [->| ->] [->| ->]; [left|right..]; reflexivity.
Qed.

(** The sample drive, with a printable digest. *)
Definition sample_drive : M (de_state mukv) unit :=
  editor_run (λ _, 0) 10 sample_md5 sample_dirname (λ _, str "0a1b") (λ _, true)
    (λ _ target, target) (λ _, true) svn_node_unknown 0 (sample_env (sample_opts 0 2) ∅)
    sample_calls.

Lemma delta_drive_records_witness :
  let d' := final (sample_drive (delta_setup_editor sample_state)) in
  sample_drive (delta_setup_editor sample_state) = Done d' tt ∧
  ∃ nodes, read_dump (d_out d') = Some (NodeItem <$> nodes) ∧
    ni_path <$> nodes = [str "trunk"; str "trunk/f"].
Proof.
  intros d'. assert (sample_drive (delta_setup_editor sample_state) = Done d' tt) as Hrun
    by (vm_compute; reflexivity). split; [exact Hrun|].
  destruct (delta_drive_records (λ _, 0) 10 sample_md5 sample_dirname (λ _, str "0a1b") (λ _, true)
    (λ _ target, target) (λ _, true) svn_node_unknown 0 sample_used
    (sample_env (sample_opts 0 2) ∅) sample_calls sample_state d' ∅ sample_used_closed)
    as (out & nodes & Ho & Hr & _).
  - split; [discriminate|]. intros cp path log [= <-] Hp. by rewrite lookup_empty in Hp.
  - intros b. eval_decide.
  - assert (∀ props, sample_used props →
      sample_used (<[str "svn:eol-style" := str "native"]> props)) as Hp
      by (intros props [->| ->]; right; reflexivity).
    unfold sample_calls. repeat first [apply Forall_nil_2|apply Forall_cons_2];
      first [exact I|intros _; exact Hp|eval_decide].
  - apply ps_create_models, large_steady.
  - intros k v Hk. discriminate Hk.
  - exact Hrun.
  - exists nodes. rewrite Ho. split; [exact Hr|]. change (d_out sample_state) with (@nil ascii) in Ho.
    cbn [app] in Ho. subst out. vm_compute in Hr. injection Hr as Hr.
    destruct nodes as [|n1 [|n2 [|]]]; try discriminate Hr. injection Hr as <- <-.
    vm_compute. reflexivity.
Defined.
