(* ===== verification/DeltaPlain.v ===== *)
(** Drives of the delta editor (Edits.v), up to the end of the edit: what the nodes,
    the texts and the properties are when a driver has sent an edit of a tree. *)
From S2P Require Import Prelude CritBit Interfaces Mukv Utils Types Copyfrom Property PropStore PathRepo.
From S2P Require Import Session DumpFormat Stream Loader Delta Edits DeltaFacts DeltaDump DeltaCopy.
From S2P Require Import DeltaTree DeltaOutput.

Open Scope Z_scope.

(** * Shapes *)

(** The children of a forest of edits, and the shape of the nodes below. *)
Fixpoint kids (next : nat) (e : edits) : list nat :=
  match e with
  | EditEnd => []
  | EditDelete _ r | EditAddFile _ _ _ _ r | EditOpenFile _ _ _ r => next :: kids (S next) r
  | EditDir _ _ _ inner r => next :: kids (S next + edit_size inner) r
  end.

Definition has_children {T} (d : de_state T) (id : nat) (l : list nat) : Prop :=
  ∃ n, d_nodes d !! id = Some n ∧ n_children n = l.

Fixpoint forest {T} (d : de_state T) (next : nat) (e : edits) : Prop :=
  match e with
  | EditEnd => True
  | EditDelete _ r | EditAddFile _ _ _ _ r | EditOpenFile _ _ _ r =>
      has_children d next [] ∧ forest d (S next) r
  | EditDir _ _ _ inner r =>
      has_children d next (kids (S next) inner) ∧ forest d (S next) inner ∧
      forest d (S next + edit_size inner) r
  end.

Lemma forest_same {T} (d d' : de_state T) next e :
  (∀ id, (next <= id < next + edit_size e)%nat → links <$> d_nodes d' !! id = links <$> d_nodes d !! id) →
  forest d next e → forest d' next e.
Proof.
  assert (∀ id l, links <$> d_nodes d' !! id = links <$> d_nodes d !! id →
    has_children d id l → has_children d' id l) as Hc.
  { intros id l Hl (n & Hn & <-). rewrite Hn in Hl. cbn in Hl.
    apply fmap_Some in Hl as (n' & Hn' & [= _ Hl]). by exists n'. }
  revert next. induction e as [|name r IH|h name sent inner IHi r IHr|copy name sent text r IH|
    name sent delta r IH]; intros next Hs; cbn [forest edit_size] in *; [done|..].
  - intros [? ?]. split; [apply Hc; [apply Hs; lia|done]|apply IH; [intros; apply Hs; lia|done]].
  - intros (? & ? & ?). split_and!; [apply Hc; [apply Hs; lia|done]| |].
    + apply IHi; [intros; apply Hs; lia|done].
    + apply IHr; [intros; apply Hs; lia|done].
  - intros [? ?]. split; [apply Hc; [apply Hs; lia|done]|apply IH; [intros; apply Hs; lia|done]].
  - intros [? ?]. split; [apply Hc; [apply Hs; lia|done]|apply IH; [intros; apply Hs; lia|done]].
Qed.

(** * Texts *)

Section store.
Context {T : Type}.
Variable temp_dir : option bytes.

Implicit Types (d : de_state T) (n : de_node) (id : nat).

Definition temp_name (i : nat) : bytes :=
  default [] temp_dir ++ str "/" ++ str "td" ++ str "/" ++ dec (Z.of_nat i).

Lemma temp_name_inj i j : temp_name i = temp_name j → i = j.
Proof.
  unfold temp_name. rewrite !(inj_iff (app _)). intros Hd.
  apply (f_equal undec) in Hd. rewrite !undec_dec in Hd by lia. lia.
Qed.

(** The text the editor keeps of a path; none was sent of an empty file. *)
Definition file_text d (path : bytes) : option bytes :=
  match d_delta_hash d !! path with None => Some [] | Some f => d_files d !! f end.

(** Texts are kept in files of their own, in the order of their creation. *)
Record names_fresh d : Prop := {
  nf_name : ∀ p f, d_delta_hash d !! p = Some f → ∃ i, (i < d_temp d)%nat ∧ f = temp_name i;
  nf_inj : ∀ p q f, d_delta_hash d !! p = Some f → d_delta_hash d !! q = Some f → p = q
}.

(** From [d] to [d'], texts have only been sent for [paths], and no file was removed. *)
Record extends (paths : list bytes) d d' : Prop := {
  ex_temp : (d_temp d <= d_temp d')%nat;
  ex_hash : ∀ p, p ∉ paths → d_delta_hash d' !! p = d_delta_hash d !! p;
  ex_new : ∀ p f, d_delta_hash d' !! p = Some f →
    d_delta_hash d !! p = Some f ∨ ∃ i, (d_temp d <= i)%nat ∧ f = temp_name i;
  ex_files : ∀ i, (i < d_temp d)%nat → d_files d' !! temp_name i = d_files d !! temp_name i;
  ex_session : d_session d' = d_session d;
  ex_out : d_out d' = d_out d;
  ex_root : d_root d' = d_root d;
  ex_dumped : d_dumped d' = d_dumped d
}.

Lemma extends_refl d : extends [] d d.
Proof. split; auto. Qed.

Lemma extends_app ps1 ps2 d1 d2 d3 :
  extends ps1 d1 d2 → extends ps2 d2 d3 → extends (ps1 ++ ps2) d1 d3.
Proof.
  intros E1 E2. split.
  - pose proof (ex_temp _ _ _ E1). pose proof (ex_temp _ _ _ E2). lia.
  - intros p [Hp1 Hp2]%not_elem_of_app. by rewrite (ex_hash _ _ _ E2), (ex_hash _ _ _ E1).
  - intros p f [Hf|(i & Hi & ->)]%(ex_new _ _ _ E2); [by apply (ex_new _ _ _ E1)|].
    right. exists i. pose proof (ex_temp _ _ _ E1). split; [lia|done].
  - intros i Hi. pose proof (ex_temp _ _ _ E1).
    rewrite (ex_files _ _ _ E2), (ex_files _ _ _ E1) by lia. done.
  - by rewrite (ex_session _ _ _ E2), (ex_session _ _ _ E1).
  - by rewrite (ex_out _ _ _ E2), (ex_out _ _ _ E1).
  - by rewrite (ex_root _ _ _ E2), (ex_root _ _ _ E1).
  - by rewrite (ex_dumped _ _ _ E2), (ex_dumped _ _ _ E1).
Qed.

Lemma extends_more ps d d' : extends [] d d' → extends ps d d'.
Proof. intros []. split; try done. intros p _. apply ex_hash0, not_elem_of_nil. Qed.

(** The parts of the state that nodes do not reach. *)
Definition same_store d d' : Prop :=
  d_delta_hash d' = d_delta_hash d ∧ d_files d' = d_files d ∧ d_temp d' = d_temp d ∧
  d_session d' = d_session d.

Lemma same_store_extends d d' :
  same_store d d' → d_out d' = d_out d → d_root d' = d_root d → d_dumped d' = d_dumped d →
  extends [] d d'.
Proof. intros (E1 & E2 & E3 & E4) ? ? ?. split; rewrite ?E1, ?E2, ?E3; auto. Qed.

Lemma same_store_names d d' : same_store d d' → names_fresh d → names_fresh d'.
Proof. intros (E1 & _ & E3 & _) []. split; by rewrite E1, ?E3. Qed.

Lemma same_store_text d d' p : same_store d d' → file_text d' p = file_text d p.
Proof. intros (E1 & E2 & _). unfold file_text. by rewrite E1, E2. Qed.

(** The file that was replaced by a new text is not in use any more. *)
Definition old_file d (f : bytes) : Prop :=
  (∃ i, (i < d_temp d)%nat ∧ f = temp_name i) ∧ ∀ p, d_delta_hash d !! p ≠ Some f.

Lemma old_file_extends ps d d' f : extends ps d d' → old_file d f → old_file d' f.
Proof.
  intros E [(i & Hi & ->) Hf]. pose proof (ex_temp _ _ _ E). split; [exists i; split; [lia|done]|].
  intros p [Hp|(j & Hj & ->%temp_name_inj)]%(ex_new _ _ _ E); [by eapply Hf|lia].
Qed.

(** * Nodes and changes *)

Definition kind_of (e : option entry) : svn_node_kind :=
  match e with
  | None => svn_node_none | Some (Dir _) => svn_node_dir | Some (File _ _) => svn_node_file
  end.

(** The node of a change, ready to be dumped. *)
Record node_as d n (c : change) : Prop := {
  na_path : n_path n = c_path c;
  na_action : n_action n =
    match c_entry c with None => "D"%char | Some _ => if c_add c then "A"%char else "M"%char end;
  na_kind : n_kind n = kind_of (c_entry c);
  na_props : n_properties n = from_option entry_props ∅ (c_entry c);
  na_dels : n_del_properties n = ∅;
  na_cp : n_cp_info n = CPI_NONE;
  na_copy : n_copyfrom_path n = fst <$> c_copy c;
  na_copyrev : ∀ src rev, c_copy c = Some (src, rev) → n_copyfrom_revision n = rev;
  na_changed : n_props_changed n = c_props c;
  na_applied : n_applied_delta n = c_text c;
  na_needed : n_dump_needed n = touched c;
  na_text : ∀ props text, c_entry c = Some (File props text) → c_text c = true →
    ∃ i, n_filename n = Some (temp_name i) ∧ (i < d_temp d)%nat ∧
         d_delta_hash d !! c_path c = Some (temp_name i) ∧ d_files d !! temp_name i = Some text;
  na_old : ∀ f, n_old_filename n = Some f → old_file d f
}.

Lemma node_as_extends ps d d' n c :
  extends ps d d' → c_path c ∉ ps → node_as d n c → node_as d' n c.
Proof.
  intros E Hp []. split; try done.
  - intros props text Hc Ht. destruct (na_text0 props text Hc Ht) as (i & ? & ? & ? & ?).
    pose proof (ex_temp _ _ _ E). exists i. split_and!; [done|lia| |].
    + by rewrite (ex_hash _ _ _ E).
    + by rewrite (ex_files _ _ _ E).
  - intros f Hf. by eapply old_file_extends, na_old0.
Qed.

(** ** What the state holds *)

Context `{HashIter} `{KV T} `{Codec}.
Variables (apr_md5 : bytes → option bytes) (used : prop_hash → Prop).

Definition props_hold (open : list bytes) d (t : tree) : Prop :=
  ∃ A m, ps_models apr_md5 used (d_props d) A m ∧
    ∀ p e, t !! p = Some e → p ∉ open → default ∅ (A !! p) = entry_props e.

(** The state keeps the texts and the properties of a tree, except the properties of entries that
    are being edited, and of the root. *)
Record holds (open : list bytes) d (t : tree) : Prop := {
  ho_names : names_fresh d;
  ho_text : ∀ p props text, t !! p = Some (File props text) → file_text d p = Some text;
  ho_props : props_hold open d t;
  ho_plain : obfuscating (d_session d) = false
}.

End store.

Section plain.
Context `{HashIter} {T : Type} `{KV T} `{Codec}.
Variables (rand : nat → Z) (fuel : nat).
Variables (apr_md5 : bytes → option bytes) (svn_path_dirname : bytes → bytes)
  (svn_md5_digest_to_cstring : bytes → bytes) (svn_property_regular : bytes → bool).
Variable svndiff : bytes → bytes → bytes.
Variable temp_ok : nat → bool.
Variables (uninit_kind : svn_node_kind) (uninit_rev : Z).
Variable used : prop_hash → Prop.
Variable env : de_env.
Variable past : gmap Z tree.

Implicit Types (d : de_state T) (n : de_node) (id : nat).

Abbreviation editor_do := (editor_do rand fuel apr_md5 svn_path_dirname svn_md5_digest_to_cstring
  svn_property_regular svndiff temp_ok uninit_kind uninit_rev env).
Abbreviation editor_run := (editor_run rand fuel apr_md5 svn_path_dirname svn_md5_digest_to_cstring
  svn_property_regular svndiff temp_ok uninit_kind uninit_rev env).
Abbreviation set_props := (set_props svn_property_regular).
Abbreviation props_sent := (props_sent svn_property_regular).
Abbreviation applies := (applies svn_property_regular past).

Abbreviation temp_dir := (do_temp_dir (v_opts env)).
Abbreviation temp_name := (temp_name temp_dir).
Abbreviation names_fresh := (names_fresh temp_dir).
Abbreviation extends := (extends temp_dir).
Abbreviation node_as := (node_as temp_dir).
Abbreviation props_hold := (props_hold apr_md5 used).
Abbreviation holds := (holds temp_dir apr_md5 used).

(** * Callbacks *)

(** A new node [n] below [parent], which was [np]. *)
Definition with_node d (parent : nat) (np n : de_node) : de_state T :=
  mk_de (<[d_next d := n]> (<[parent := set_children np (n_children np ++ [d_next d])]> (d_nodes d)))
    (S (d_next d)) (d_dumped d) (d_root d) (d_repo d) (d_props d) (d_delta_hash d) (d_md5_hash d)
    (d_files d) (d_temp d) (d_session d) (d_out d).

(** The node as it is allocated. *)
Definition fresh_node (path : bytes) (parent : nat) (action : ascii) (kind : svn_node_kind)
    (props : prop_hash) (needed : bool) : de_node :=
  mk_node path None None None action kind props ∅ no_md5 None 0 uninit_rev CPI_NONE false needed
    false (Some parent) [].

(** A copy source, as the log has it. *)
Definition with_copy (copy : option (bytes * Z)) n : de_node :=
  set_copyfrom_revision
    (set_copyfrom_path n (from_option (λ c, Some (c.1)) (n_copyfrom_path n) copy))
    (from_option snd (n_copyfrom_revision n) copy).

Lemma with_copy_none n : with_copy None n = n.
Proof. by destruct n. Qed.

(** A parent of plain nodes. *)
Record plain_parent d (parent : nat) (np : de_node) : Prop := {
  pp_node : d_nodes d !! parent = Some np;
  pp_old : (parent < d_next d)%nat;
  pp_cp : n_cp_info np = CPI_NONE
}.

Lemma obfuscate_done p d d' q :
  obfuscating (d_session d) = false → obfuscate rand fuel p d = Done d' q → d' = d ∧ q = p.
Proof.
  intros Hs. unfold obfuscate, session_obfuscate. rewrite Hs. cbn [negb]. intros [= <- <-].
  by destruct d.
Qed.

Lemma create_done path parent np d d' id :
  plain_parent d parent np → delta_create_node uninit_kind uninit_rev path parent d = Done d' id →
  id = d_next d ∧
  d' = with_node d parent np (fresh_node path parent nul uninit_kind ∅ false).
Proof.
  intros [Hn Hold Hcp]. unfold delta_create_node.
  rewrite (run_bind _ _ _ _ _ (run_node_get _ _ _ Hn)).
  intros (d1 & id1 & [= <- <-] & Hrun)%bind_done.
  assert (d_next d ≠ parent) as Hne by lia.
  erewrite run_bind in Hrun by (apply run_node_upd; simpl; by rewrite lookup_insert_ne).
  injection Hrun as <- <-. split; [done|]. unfold with_node, fresh_node, put_nodes. cbn.
  by rewrite insert_insert_ne, Hcp by done.
Qed.

Lemma upd_with_node d parent np n f :
  node_upd (d_next d) f (with_node d parent np n) = Done (with_node d parent np (f n)) tt.
Proof.
  rewrite (run_node_upd _ _ n) by apply lookup_insert_eq. unfold with_node, put_nodes. simpl.
  by rewrite insert_insert_eq.
Qed.

(** The log says nothing about a path, or that it was added; of a copy it gives the source. *)
Definition log_fits (copy : option (bytes * Z)) (log : option svn_log_changed_path) : Prop :=
  match copy with
  | None => ∀ l, log = Some l → cp_action l = "A"%char ∧ cp_copyfrom_path l = None
  | Some (src, rev) => log = Some (mk_changed "A" (Some src) rev)
  end.

Definition log_agrees (path : bytes) (copy : option (bytes * Z)) : Prop :=
  ∃ cp, lr_changed_paths (v_log_revision env) = Some cp ∧ log_fits copy (cp !! path).

Lemma changed_path_done path copy d d' log :
  log_agrees path copy → changed_path env path d = Done d' log → d' = d ∧ log_fits copy log.
Proof.
  intros (cp & Hcp & Hlog) (d1 & cp' & [-> Hcp']%lift_done & [= <- <-])%bind_done.
  split; [done|]. congruence.
Qed.

(** What the log tells is stored in the new node. *)
Lemma log_stored copy log d d' parent np n k :
  log_fits copy log → n_cp_info n = CPI_NONE →
  match log with
  | None => node_upd (d_next d) (λ n, set_action n "A"%char)
  | Some log =>
      _ ← add_from_log (d_next d) log;
      node_upd (d_next d) (λ n, if Z.land (n_cp_info n) k =? 0 then set_cp_info n CPI_NONE else n)
  end (with_node d parent np n) = Done d' tt →
  d' = with_node d parent np (with_copy copy (set_action n "A"%char)).
Proof.
  intros Hlog Hcp Hupd. destruct copy as [[src rev]|]; cbn [log_fits] in Hlog; [subst log|destruct log as [log|]].
  - unfold add_from_log in Hupd. cbn [cp_action cp_copyfrom_path cp_copyfrom_rev] in Hupd.
    rewrite (run_bind _ _ _ _ _ (upd_with_node _ _ _ _ _)), upd_with_node in Hupd.
    injection Hupd as <-. destruct (_ =? 0); [destruct n; cbn in *; by subst|done].
  - rewrite with_copy_none. destruct (Hlog log eq_refl) as [Ha' Hc]. unfold add_from_log in Hupd. rewrite Ha', Hc in Hupd.
    rewrite (run_bind _ _ _ _ _ (upd_with_node _ _ _ _ _)), upd_with_node in Hupd.
    injection Hupd as <-. destruct (_ =? 0); [destruct n; cbn in *; by subst|done].
  - rewrite with_copy_none. rewrite upd_with_node in Hupd. by injection Hupd as <-.
Qed.

(** What the four callbacks for new and opened entries do. *)
Record entered (added : bool) (copy : option (bytes * Z)) (kind : svn_node_kind) (path : bytes)
    (parent : nat) (np : de_node) (props : prop_hash) d d' : Prop := {
  en_state : ∃ repo ps, d' = put_props (put_repo (with_node d parent np
      (with_copy copy (fresh_node path parent (if added then "A" else "M")%char kind props added)))
      repo) ps;
  en_props : if added then d_props d' = d_props d ∧ props = ∅
             else property_load (d_props d) path ∅ = Some (d_props d', props, 0)
}.

Lemma opt_repo_add_done path d d' :
  when (not_dry_run env) (repo_add path) d = Done d' tt → ∃ repo, d' = put_repo d repo.
Proof.
  destruct (not_dry_run env); [|intros [= <-]; exists (d_repo d); by destruct d].
  cbn [when]. unfold repo_add. destruct (path_repo_add _ _) as [repo ret].
  destruct (negb (ret =? 0)); [done|]. intros [= <-]. by exists repo.
Qed.

Lemma add_directory_done path copy parent np d d' :
  obfuscating (d_session d) = false → plain_parent d parent np → log_agrees path copy →
  editor_do (AddDirectory path parent) d = Done d' tt →
  entered true copy svn_node_dir path parent np ∅ d d'.
Proof.
  intros Hs Hp Hlog (d1 & id & Hrun & [= <-])%bind_done.
  apply bind_done in Hrun as (d2 & q & [-> ->]%obfuscate_done & Hrun); [|done].
  apply bind_done in Hrun as (d2 & id2 & [-> ->]%(create_done _ _ np) & Hrun); [|done].
  rewrite (run_bind _ _ _ _ _ (upd_with_node _ _ _ _ _)) in Hrun.
  apply bind_done in Hrun as (d2 & log & [-> Hl]%(changed_path_done _ copy) & Hrun); [|done].
  apply bind_done in Hrun as (d2 & [] & ->%(log_stored copy) & Hrun); [|done..].
  apply bind_done in Hrun as (d3 & [] & [repo ->]%opt_repo_add_done & [= <- _]).
  split; [|done]. exists repo, (d_props d). done.
Qed.

Lemma add_file_done path copy parent np d d' :
  obfuscating (d_session d) = false → plain_parent d parent np → log_agrees path copy →
  editor_do (AddFile path parent) d = Done d' tt →
  entered true copy svn_node_file path parent np ∅ d d'.
Proof.
  intros Hs Hp Hlog (d1 & id & Hrun & [= <-])%bind_done.
  apply bind_done in Hrun as (d2 & q & [-> ->]%obfuscate_done & Hrun); [|done].
  apply bind_done in Hrun as (d2 & id2 & [-> ->]%(create_done _ _ np) & Hrun); [|done].
  rewrite (run_bind _ _ _ _ _ (upd_with_node _ _ _ _ _)) in Hrun.
  apply bind_done in Hrun as (d2 & log & [-> Hl]%(changed_path_done _ copy) & Hrun); [|done].
  apply bind_done in Hrun as (d2 & [] & ->%(log_stored copy) & Hrun); [|done..].
  rewrite (run_bind _ _ _ _ _ (upd_with_node _ _ _ _ _)) in Hrun.
  apply bind_done in Hrun as (d3 & [] & [repo ->]%opt_repo_add_done & [= <- _]).
  split; [|done]. exists repo, (d_props d). done.
Qed.

(** Opening, for both kinds. *)
Lemma open_done path parent np kind d d' :
  obfuscating (d_session d) = false → plain_parent d parent np →
  (path ← obfuscate rand fuel path;
   id ← delta_create_node uninit_kind uninit_rev path parent;
   _ ← node_upd id (λ n, set_action (set_kind n kind) "M"%char);
   _ ← storage_load id; mret tt) d = Done d' tt →
  ∃ props, entered false None kind path parent np props d d'.
Proof.
  intros Hs Hp Hrun. apply bind_done in Hrun as (d2 & q & [-> ->]%obfuscate_done & Hrun); [|done].
  apply bind_done in Hrun as (d2 & id2 & [-> ->]%(create_done _ _ np) & Hrun); [|done].
  rewrite (run_bind _ _ _ _ _ (upd_with_node _ _ _ _ _)) in Hrun.
  apply bind_done in Hrun as (d2 & [] & Hload & [= <-]).
  unfold storage_load in Hload. cbn [d_nodes with_node] in Hload. rewrite lookup_insert_eq in Hload.
  cbn in Hload. destruct (property_load (d_props d) path ∅) as [[[ps props] ret]|] eqn:Hl; [|done].
  destruct (Z.eqb_spec ret 0) as [->|]; [|done]. injection Hload as <-. exists props. split; [|exact Hl].
  exists (d_repo d), ps. unfold put_props, put_repo, put_nodes, with_node. cbn.
  by rewrite insert_insert_eq.
Qed.

Lemma open_entry_done (dir : bool) path parent np d d' :
  obfuscating (d_session d) = false → plain_parent d parent np →
  editor_do (if dir then OpenDirectory path parent else OpenFile path parent) d = Done d' tt →
  ∃ props, entered false None (if dir then svn_node_dir else svn_node_file) path parent np props d d'.
Proof.
  intros Hs Hp Hrun. apply (open_done _ _ _ _ d d' Hs Hp).
  destruct dir; apply bind_done in Hrun as (d1 & id & Hrun & [= <-]);
    apply bind_done in Hrun as (d2 & q & R1 & Hrun); apply bind_done in Hrun as (d3 & i & R2 & Hrun);
    apply bind_done in Hrun as (d4 & [] & R3 & Hrun); apply bind_done in Hrun as (d5 & [] & R4 & [= <- <-]);
    by rewrite (run_bind _ _ _ _ _ R1), (run_bind _ _ _ _ _ R2), (run_bind _ _ _ _ _ R3),
      (run_bind _ _ _ _ _ R4).
Qed.

(** The node after properties have been sent. *)
Definition sent_node (sent : list (bytes * bytes)) n : de_node :=
  if props_sent sent
  then set_dump_needed (set_props_changed (Delta.set_properties n (set_props sent (n_properties n))) true) true
  else n.

Lemma editor_run_app l1 l2 d d' :
  editor_run (l1 ++ l2) d = Done d' tt →
  ∃ d1, editor_run l1 d = Done d1 tt ∧ editor_run l2 d1 = Done d' tt.
Proof.
  revert d. induction l1 as [|c l1 IH]; intros d Hrun; [by exists d|].
  cbn [app Delta.editor_run] in Hrun |- *. apply bind_done in Hrun as (d1 & [] & Hc & Hrun).
  destruct (IH d1 Hrun) as (d2 & Hd2 & ?). exists d2. by rewrite (run_bind _ _ _ _ _ Hc).
Qed.

Lemma editor_run_cons c l d d' :
  editor_run (c :: l) d = Done d' tt →
  ∃ d1, editor_do c d = Done d1 tt ∧ editor_run l d1 = Done d' tt.
Proof. intros (d1 & [] & ? & ?)%bind_done. by exists d1. Qed.

Lemma sent_node_cons kv sent n :
  sent_node (kv :: sent) n =
  sent_node sent (if svn_property_regular (kv.1)
                  then set_dump_needed (set_props_changed
                         (Delta.set_properties n (<[kv.1 := kv.2]> (n_properties n))) true) true
                  else n).
Proof.
  unfold sent_node, props_sent, Edits.props_sent, set_props, Edits.set_props. cbn [existsb foldl].
  destruct (svn_property_regular (kv.1)); [|done]. cbn [orb].
  destruct (existsb _ sent) eqn:Hs; [done|].
  pose proof (set_props_none svn_property_regular sent (<[kv.1 := kv.2]> (n_properties n)) Hs) as Hn.
  unfold Edits.set_props in Hn. by rewrite Hn.
Qed.

Lemma prop_calls_done id sent n d d' :
  d_nodes d !! id = Some n → editor_run (prop_calls id sent) d = Done d' tt →
  d' = put_nodes d (<[id := sent_node sent n]> (d_nodes d)).
Proof.
  revert d n. induction sent as [|kv sent IH]; intros d n Hn Hrun.
  - injection Hrun as <-. unfold put_nodes. rewrite insert_id by done. by destruct d.
  - apply editor_run_cons in Hrun as (d1 & Hc & Hrun). rewrite sent_node_cons.
    change (editor_do _ d) with (de_change_prop svn_property_regular id (kv.1) (Some (kv.2)) d) in Hc.
    unfold de_change_prop in Hc. destruct (svn_property_regular (kv.1)); cbn [negb] in Hc.
    + rewrite (run_node_upd _ _ _ _ Hn) in Hc. injection Hc as <-.
      eapply IH in Hrun; [|apply lookup_insert_eq]. rewrite Hrun. unfold put_nodes. cbn.
      by rewrite insert_insert_eq.
    + injection Hc as <-. by apply IH.
Qed.

(** ** Texts *)

(** The state after a text was sent for the node [id], which was [n]. *)
Definition with_text d id n (target : bytes) : de_state T :=
  put_nodes
    (put_delta_hash
       (put_temp (put_files d (<[temp_name (d_temp d) := target]> (d_files d))) (S (d_temp d)))
       (<[n_path n := temp_name (d_temp d)]> (d_delta_hash d)))
    (<[id := set_dump_needed (set_applied_delta (set_md5sum
         (set_old_filename (set_filename n (Some (temp_name (d_temp d)))) (d_delta_hash d !! n_path n))
         (default no_md5 (apr_md5 target))) true) true]> (d_nodes d)).

Lemma textdelta_done id n f d d' :
  d_nodes d !! id = Some n → (∀ p g, d_delta_hash d !! p = Some g → g ≠ temp_name (d_temp d)) →
  editor_do (ApplyTextdelta id f) d = Done d' tt →
  ∃ source, file_text d (n_path n) = Some source ∧ d' = with_text d id n (f source).
Proof.
  intros Hn Hfresh. change (editor_do _ d) with (de_apply_textdelta apr_md5 temp_ok env id f d).
  unfold de_apply_textdelta. intros (d1 & dest & Hmk & Hrun)%bind_done.
  unfold mkstemp in Hmk. destruct (temp_ok (d_temp d)); [|by injection Hmk as <- <-].
  injection Hmk as Hd1 <-. fold (temp_name (d_temp d)) in Hd1, Hrun.
  assert (d_nodes d1 !! id = Some n) as Hn1 by by rewrite <-Hd1.
  rewrite (run_bind _ _ _ _ _ (run_node_get _ _ _ Hn1)) in Hrun.
  apply bind_done in Hrun as (d2 & d2' & [= <- <-] & Hrun).
  apply bind_done in Hrun as (d2 & source & Hsrc & Hrun).
  assert (d_delta_hash d1 = d_delta_hash d) as Hh by by rewrite <-Hd1.
  rewrite Hh in Hsrc, Hrun.
  assert (d2 = d1 ∧ file_text d (n_path n) = Some source) as [-> Hsource].
  { unfold file_text. destruct (d_delta_hash d !! n_path n) as [g|] eqn:Hg; [|by injection Hsrc as <- <-].
    apply read_file_done in Hsrc as [-> Hs]. split; [done|]. rewrite <-Hd1 in Hs. cbn in Hs.
    rewrite lookup_insert_ne in Hs; [done|]. apply not_eq_sym. by eapply Hfresh. }
  exists source. split; [done|].
  apply bind_done in Hrun as (d3 & [] & [= <-] & Hrun).
  apply bind_done in Hrun as (d3 & [] & [= <-] & Hrun).
  erewrite run_node_upd in Hrun by exact Hn1. injection Hrun as <-. rewrite <-Hd1.
  unfold with_text. unfold put_nodes, put_delta_hash, put_files, put_temp. cbn.
  by rewrite insert_insert_eq.
Qed.

(** * Entries *)

Hypothesis Huniv : hash_universe apr_md5 used.

(** The state after an entry was opened or added and its properties were sent; [n] is its node. *)
Record opened (open : list bytes) (t : tree) (path : bytes) (parent : nat) (np n : de_node) d d'
    : Prop := {
  op_nodes : d_nodes d' =
    <[d_next d := n]> (<[parent := set_children np (n_children np ++ [d_next d])]> (d_nodes d));
  op_next : d_next d' = S (d_next d);
  op_store : same_store d d';
  op_out : d_out d' = d_out d;
  op_root : d_root d' = d_root d;
  op_dumped : d_dumped d' = d_dumped d;
  op_props : props_hold (path :: open) d' t
}.

Lemma entry_opened added copy kind open t path parent np props d d1 d2 sent :
  holds open d t → entered added copy kind path parent np props d d1 →
  editor_run (prop_calls (d_next d) sent) d1 = Done d2 tt →
  opened open t path parent np
    (sent_node sent (with_copy copy
       (fresh_node path parent (if added then "A" else "M")%char kind props added))) d d2 ∧
  (added = false → ∀ e, t !! path = Some e → path ∉ open → props = entry_props e).
Proof.
  intros [_ _ (A & m & HA & Ht) _] [(repo & ps & ->) Hps] Hsent. cbn [d_props put_props] in Hps.
  set (n := with_copy _ _) in *.
  eapply prop_calls_done in Hsent; [|apply lookup_insert_eq]. subst d2.
  assert (∃ A m, ps_models apr_md5 used ps A m ∧
    (∀ p e, t !! p = Some e → p ∉ path :: open → default ∅ (A !! p) = entry_props e) ∧
    (added = false → ∀ e, t !! path = Some e → path ∉ open → props = entry_props e))
    as (A' & m' & HA' & Ht' & Hprops).
  { destruct added.
    - destruct Hps as [-> ->]. exists A, m. split_and!; [done| |done].
      intros p e Hp [_ Hin]%not_elem_of_cons. by apply Ht.
    - destruct (property_load_models apr_md5 used (hash_universe_fit _ _ Huniv) (hu_inj _ _ Huniv) (d_props d) m path ∅ (pm_wf _ _ _ _ _ HA))
        as (st & out & ret & Hl & _ & Hmodels). rewrite Hps in Hl. injection Hl as <- <- <-.
      destruct (Hmodels A HA) as (_ & -> & HA'). exists (delete path A), m. split_and!; [done| |].
      + intros p e Hp [Hne Hin]%not_elem_of_cons. rewrite lookup_delete_ne by done. by apply Ht.
      + intros _ e Hp Hin. rewrite (right_id_L ∅ (∪)). by apply Ht. }
  split; [|exact Hprops]. split; try done; [|by exists A', m'].
  cbn [d_nodes put_nodes with_node put_props put_repo]. by rewrite insert_insert_eq.
Qed.

Lemma opened_extends open t path parent np n d d' :
  opened open t path parent np n d d' → extends [] d d'.
Proof. intros []. by apply same_store_extends. Qed.

(** An opened entry whose properties were sent. *)
Abbreviation entry_node path parent added copy kind props sent :=
  (with_copy copy
    (mk_node path None None None (if (added : bool) then "A" else "M")%char kind (set_props sent props) ∅
       no_md5 None 0 uninit_rev CPI_NONE false (added || props_sent sent) (props_sent sent)
       (Some parent) [])).

Lemma sent_node_fresh sent path parent (added : bool) copy kind props :
  sent_node sent (with_copy copy
    (fresh_node path parent (if added then "A" else "M")%char kind props added)) =
  entry_node path parent added copy kind props sent.
Proof.
  unfold sent_node, fresh_node. destruct (props_sent sent) eqn:Hs; destruct copy as [[src rev]|]; cbn.
  1,2: by rewrite orb_true_r.
  all: rewrite orb_false_r; by rewrite set_props_none.
Qed.

(** Closing an entry stores its properties. *)
Lemma close_done open t path e id n d d' :
  d_nodes d !! id = Some n → n_path n = path → n_properties n = entry_props e →
  used (entry_props e) → t !! path = Some e → props_hold (path :: open) d t →
  storage_store apr_md5 id d = Done d' tt →
  ∃ ps, d' = put_props d ps ∧ props_hold open d' t.
Proof.
  intros Hn Hpath Hprops Hu He (A & m & HA & Ht). unfold storage_store. rewrite Hn, Hpath, Hprops.
  destruct (property_store_models apr_md5 used (d_props d) m path (entry_props e) Hu (pm_wf _ _ _ _ _ HA))
    as (ps & ret & m' & -> & _ & Hmodels).
  destruct (Z.eqb_spec ret 0) as [->|]; [|done]. intros [= <-]. exists ps. split; [done|].
  exists (props_set A path (entry_props e)), m'. split; [by apply Hmodels|].
  intros p e' He' Hin. unfold props_set. destruct (decide (p = path)) as [->|Hne].
  - replace e' with e by congruence. case_decide as Hsz.
    + rewrite lookup_delete_eq. symmetry. by apply map_size_empty_inv.
    + by rewrite lookup_insert_eq.
  - assert (default ∅ (A !! p) = entry_props e') as <- by (apply Ht; [done|by apply not_elem_of_cons]).
    case_decide; [by rewrite lookup_delete_ne|by rewrite lookup_insert_ne].
Qed.

(** ** Steps *)

(** One entry without entries below it. *)
Record stepped (open : list bytes) (parent : nat) (np : de_node) (c : change) (t' : tree) d d'
    : Prop := {
  st_holds : holds open d' t';
  st_next : d_next d' = S (d_next d);
  st_node : ∃ n, d_nodes d' = <[d_next d := n]>
      (<[parent := set_children np (n_children np ++ [d_next d])]> (d_nodes d)) ∧
    node_as d' n c ∧ n_children n = [];
  st_extends : extends [c_path c] d d'
}.

(** What is known of a list of edits in a directory. *)
Record edited (open : list bytes) (parent : nat) (np : de_node) (e : edits) (l : list change)
    (t' : tree) d d' : Prop := {
  ed_holds : holds open d' t';
  ed_next : d_next d' = (d_next d + edit_size e)%nat;
  ed_parent : d_nodes d' !! parent = Some (set_children np (n_children np ++ kids (d_next d) e));
  ed_older : ∀ id, (id < d_next d)%nat → id ≠ parent → d_nodes d' !! id = d_nodes d !! id;
  ed_extends : extends (c_path <$> l) d d';
  ed_nodes : ∀ i c, l !! i = Some c →
    ∃ n, d_nodes d' !! (d_next d + i)%nat = Some n ∧ node_as d' n c;
  ed_forest : forest d' (d_next d) e
}.

Lemma set_children_id n : set_children n (n_children n) = n.
Proof. by destruct n. Qed.

Lemma edited_end open parent np t d :
  plain_parent d parent np → holds open d t → edited open parent np EditEnd [] t d d.
Proof.
  intros [Hn _ _] Hh. split; try done; simpl; [|apply extends_refl].
  by rewrite app_nil_r, set_children_id.
Qed.

Lemma stepped_parent open parent np c t' d d' :
  plain_parent d parent np → stepped open parent np c t' d d' →
  plain_parent d' parent (set_children np (n_children np ++ [d_next d])).
Proof.
  intros [Hn Hold Hcp] [_ Hnext (n & Hns & _) _]. split; [|lia|done].
  rewrite Hns, lookup_insert_ne by lia. by rewrite lookup_insert_eq.
Qed.

(** A step, and the rest of the directory. *)
Lemma edited_step open parent np e r c l t1 t2 d d1 d2 :
  (edit_size e = S (edit_size r) ∧ kids (d_next d) e = d_next d :: kids (S (d_next d)) r ∧
   (has_children d2 (d_next d) [] → forest d2 (S (d_next d)) r → forest d2 (d_next d) e)) →
  plain_parent d parent np → stepped open parent np c t1 d d1 → c_path c ∉ c_path <$> l →
  edited open parent (set_children np (n_children np ++ [d_next d])) r l t2 d1 d2 →
  edited open parent np e (c :: l) t2 d d2.
Proof.
  intros (Hsize & Hkids & Hforest) [Hn Hold Hcp] [Hh1 Hnext1 (n & Hns & Hc & Hch) He1] Hnin
    [Hh2 Hnext2 Hp2 Hold2 He2 Hn2 Hf2].
  assert (d_nodes d2 !! d_next d = Some n) as Hnd.
  { rewrite Hold2 by lia. by rewrite Hns, lookup_insert_eq. }
  split; [done|lia| | | | |].
  - rewrite Hp2, Hkids, Hnext1. simpl. unfold set_children. simpl. by rewrite <-app_assoc.
  - intros id Hid Hne. rewrite Hold2 by lia. rewrite Hns, !lookup_insert_ne by lia. done.
  - exact (extends_app temp_dir _ _ _ _ _ He1 He2).
  - intros [|i] c' Hc'; simpl in Hc'.
    + injection Hc' as <-. exists n. rewrite Nat.add_0_r. split; [done|].
      by eapply node_as_extends.
    + destruct (Hn2 i c' Hc') as (n' & Hn' & ?). exists n'. split; [|done].
      rewrite <-Hn', Hnext1. f_equal. lia.
  - apply Hforest; [by exists n|]. by rewrite <-Hnext1.
Qed.

Lemma node_as_children d n c l : node_as d n c → node_as d (set_children n l) c.
Proof. intros []. by split. Qed.

Lemma put_props_extends d ps : extends [] d (put_props d ps).
Proof. by apply same_store_extends. Qed.

(** A directory, the entries in it, and the rest. *)
Lemma edited_dir open parent np h name sent inner r path n0 c l1 l2 t t1 t2 ps d d1 d2 d3 :
  plain_parent d parent np → NoDup (c_path <$> c :: l1 ++ l2) → length l1 = edit_size inner →
  opened open t path parent np n0 d d1 → node_as d1 n0 c → n_children n0 = [] →
  edited (path :: open) (d_next d) n0 inner l1 t1 d1 d2 →
  edited open parent (set_children np (n_children np ++ [d_next d])) r l2 t2 (put_props d2 ps) d3 →
  edited open parent np (EditDir h name sent inner r) (c :: l1 ++ l2) t2 d d3.
Proof.
  intros [Hn Hold Hcp] Hnd Hlen Hop Hc Hch [Hh2 Hnext2 Hp2 Hold2 He2 Hn2 Hf2]
    [Hh3 Hnext3 Hp3 Hold3 He3 Hn3 Hf3].
  pose proof (op_nodes _ _ _ _ _ _ _ _ Hop) as Hns. pose proof (op_next _ _ _ _ _ _ _ _ Hop) as Hnext1.
  pose proof (opened_extends _ _ _ _ _ _ _ _ Hop) as He1. rewrite Hch, Hnext1 in Hp2. simpl in Hp2.
  change (d_next (put_props d2 ps)) with (d_next d2) in *.
  change (d_nodes (put_props d2 ps)) with (d_nodes d2) in *.
  rewrite Hnext1 in *.
  cbn [fmap list_fmap] in Hnd. rewrite fmap_app in Hnd. apply NoDup_cons in Hnd as [Hcin Hnd].
  apply NoDup_app in Hnd as (_ & Hdis & _). apply not_elem_of_app in Hcin as [Hcin1 Hcin2].
  pose proof (extends_app temp_dir _ _ _ _ _ (put_props_extends d2 ps) He3) as He23. simpl in He23.
  assert (d_nodes d3 !! d_next d = Some (set_children n0 (kids (S (d_next d)) inner))) as Hd3.
  { by rewrite Hold3 by lia. }
  split; [done|simpl; lia| | | | |].
  - rewrite Hp3, Hnext2. simpl. unfold set_children. simpl. by rewrite <-app_assoc.
  - intros id Hid Hne. rewrite Hold3, Hold2 by lia. by rewrite Hns, !lookup_insert_ne by lia.
  - cbn [fmap list_fmap]. rewrite fmap_app. pose proof (extends_app temp_dir _ _ _ _ _ He1 (extends_app temp_dir _ _ _ _ _ He2 He23)) as E.
    destruct E. split; try done. intros p [_ Hp]%not_elem_of_cons. by apply ex_hash0.
  - intros [|i] c' Hc'; simpl in Hc'.
    + injection Hc' as <-. rewrite Nat.add_0_r. eexists. split; [exact Hd3|].
      apply node_as_children. eapply (node_as_extends temp_dir _ d1 d3); [exact (extends_app temp_dir _ _ _ _ _ He2 He23)| |done].
      by apply not_elem_of_app.
    + apply lookup_app_Some in Hc' as [Hc'|[Hi Hc']].
      * destruct (Hn2 i c' Hc') as (n' & Hn' & Has). exists n'.
        apply lookup_lt_Some in Hc' as Hlt. split.
        -- rewrite <-Hn'. rewrite Hold3 by lia. f_equal. lia.
        -- eapply node_as_extends; [exact He23| |done]. apply Hdis.
           apply list_elem_of_fmap_2. by eapply list_elem_of_lookup_2.
      * destruct (Hn3 _ c' Hc') as (n' & Hn' & Has). exists n'. split; [|done].
        rewrite <-Hn'. f_equal. lia.
  - cbn [forest]. split_and!.
    + eexists. split; [exact Hd3|done].
    + eapply forest_same; [|exact Hf2]. intros id Hid. by rewrite Hold3 by lia.
    + by rewrite <-Hnext2.
Qed.

(** ** Deletions *)

Lemma storage_delete_done open path t d d' :
  props_hold open d t → storage_delete path d = Done d' tt →
  ∃ ps, d' = put_props d ps ∧ props_hold open d' (remove path t).
Proof.
  intros (A & m & HA & Ht). unfold storage_delete.
  destruct (property_delete_models apr_md5 used (d_props d) m path (pm_wf _ _ _ _ _ HA))
    as (ps & -> & _ & Hmodels).
  intros [= <-]. exists ps. split; [done|]. exists (delete path A), m. split; [by apply Hmodels|].
  intros p e [Hne Hp]%lookup_remove_Some Hin. rewrite lookup_delete_ne by done. by apply Ht.
Qed.

Lemma holds_remove open path t d :
  names_fresh d → (∀ p props text, t !! p = Some (File props text) → file_text d p = Some text) →
  props_hold open d (remove path t) → obfuscating (d_session d) = false → holds open d (remove path t).
Proof.
  intros Hn Ht Hp Hs. split; try done. intros p props text [_ Hf]%lookup_remove_Some. by eapply Ht.
Qed.

(** The state after a deletion. *)
Lemma delete_state open path parent np t d d' :
  holds open d t → plain_parent d parent np → editor_do (DeleteEntry path parent) d = Done d' tt →
  (∃ md5 repo ps, d' = put_repo (put_props (put_md5_hash (with_node d parent np
    (set_dump_needed (set_action (set_kind (fresh_node path parent nul uninit_kind ∅ false)
       svn_node_none) "D"%char) true)) md5) ps) repo) ∧ props_hold open d' (remove path t).
Proof.
  intros [Hn Ht Hps Hs] Hp Hrun.
  apply bind_done in Hrun as (d2 & q & [-> ->]%obfuscate_done & Hrun); [|done].
  apply bind_done in Hrun as (d2 & id2 & [-> ->]%(create_done _ _ np) & Hrun); [|done].
  rewrite (run_bind _ _ _ _ _ (upd_with_node _ _ _ _ _)) in Hrun.
  apply bind_done in Hrun as (d2 & d2' & [= <- <-] & Hrun).
  apply bind_done in Hrun as (d2 & [] & Hub & Hrun).
  destruct (existsb _ _); [done|]. injection Hub as <-.
  apply bind_done in Hrun as (d2 & [] & [= <-] & Hrun).
  apply bind_done in Hrun as (d2 & [] & (ps & -> & Hps2)%(storage_delete_done open _ t) & Hrun); [|exact Hps].
  destruct (not_dry_run env); cbn [when] in Hrun.
  - unfold repo_delete in Hrun. destruct (path_repo_delete _ _) as [[repo ret]|]; [|done].
    destruct (negb (ret =? 0)); [done|]. injection Hrun as <-. split; [|exact Hps2]. by do 3 eexists.
  - injection Hrun as Hd. split; [|by rewrite <-Hd].
    exists (d_md5_hash d'), (d_repo d), ps. by rewrite <-Hd.
Qed.

Lemma delete_done open path parent np t d d' :
  holds open d t → plain_parent d parent np → editor_do (DeleteEntry path parent) d = Done d' tt →
  stepped open parent np (mk_change path false None false false None false) (remove path t) d d' ∧
  same_store d d'.
Proof.
  intros Hh Hp Hrun. pose proof Hh as [Hn Ht _ Hs].
  destruct (delete_state _ _ _ _ _ _ _ Hh Hp Hrun) as [(md5 & repo & ps & ->) Hps2]. split; [|done].
  split; [|done| |by apply extends_more, same_store_extends].
  - apply holds_remove; [by apply (same_store_names temp_dir d)|exact Ht|exact Hps2|exact Hs].
  - eexists. split; [reflexivity|]. split; [|done]. by split.
Qed.

(** ** Files *)

Lemma names_fresh_text d id n target :
  names_fresh d → names_fresh (with_text d id n target).
Proof.
  intros [Hname Hinj].
  assert (∀ p f, d_delta_hash d !! p = Some f → f ≠ temp_name (d_temp d)) as Hne.
  { intros p f (i & Hi & ->)%Hname ->%temp_name_inj. lia. }
  split; simpl.
  - intros p f. rewrite lookup_insert_Some. intros [[<- <-]|[_ (i & Hi & ->)%Hname]]; eauto.
  - intros p q f. rewrite !lookup_insert_Some. intros [[<- <-]|[Hp1 Hp]] [[<- Hq]|[Hq1 Hq]]; try done.
    + by apply Hne in Hq.
    + subst f. by apply Hne in Hp.
    + by eapply Hinj.
Qed.

Lemma file_text_other d id n target p :
  names_fresh d → p ≠ n_path n → file_text (with_text d id n target) p = file_text d p.
Proof.
  intros [Hname _] Hp. unfold file_text. simpl. rewrite lookup_insert_ne by done.
  destruct (d_delta_hash d !! p) as [f|] eqn:Hf; [|done]. apply lookup_insert_ne.
  destruct (Hname _ _ Hf) as (i & Hi & ->). intros Heq%temp_name_inj. lia.
Qed.

Lemma file_text_self d id n target : file_text (with_text d id n target) (n_path n) = Some target.
Proof. unfold file_text. simpl. by rewrite lookup_insert_eq, lookup_insert_eq. Qed.

Lemma with_text_extends d id n target :
  names_fresh d → extends [n_path n] d (with_text d id n target).
Proof.
  intros [Hname _]. split; simpl; try done; [lia| | |].
  - intros p Hp. apply lookup_insert_ne. set_solver.
  - intros p f. rewrite lookup_insert_Some. intros [[_ <-]|[_ ?]]; [|by left].
    right. exists (d_temp d). split; [lia|done].
  - intros i Hi. apply lookup_insert_ne. intros Heq%temp_name_inj. lia.
Qed.

(** The node in [d], whose number is [id], before its text is sent. *)
Lemma text_done id path parent added copy below props sent delta text d d' :
  let n := entry_node path parent added copy svn_node_file props sent in
  let c := mk_change path added (Some (File (set_props sent props) text)) (props_sent sent)
             (bool_decide (is_Some delta)) copy below in
  d_nodes d !! id = Some n → names_fresh d → (added = true → delta ≠ None) →
  (∀ source, file_text d path = Some source → from_option (λ f, f source) source delta = text) →
  (delta = None → file_text d path = Some text) →
  editor_run (text_calls id delta) d = Done d' tt →
  ∃ n', d_nodes d' = <[id := n']> (d_nodes d) ∧ d_next d' = d_next d ∧ names_fresh d' ∧
    d_props d' = d_props d ∧ d_session d' = d_session d ∧ extends [path] d d' ∧
    file_text d' path = Some text ∧ (∀ p, p ≠ path → file_text d' p = file_text d p) ∧
    node_as d' n' c ∧ n_children n' = [] ∧ n_path n' = path ∧ n_properties n' = set_props sent props.
Proof.
  intros n c Hn Hnames Hadd Hsome Hnone Hrun.
  assert (∀ p g, d_delta_hash d !! p = Some g → g ≠ temp_name (d_temp d)) as Hfresh.
  { intros p g (i & Hi & ->)%(nf_name _ _ Hnames) Heq%temp_name_inj. lia. }
  destruct delta as [f|]; cbn [text_calls] in Hrun.
  - apply editor_run_cons in Hrun as (d1 & Htext & [= <-]).
    apply (textdelta_done _ n) in Htext as (source & Hsource & ->); [|done..].
    change (n_path n) with path in Hsource. apply Hsome in Hsource as Heq. simpl in Heq. rewrite Heq.
    eexists. split; [reflexivity|]. split; [done|]. split; [by apply names_fresh_text|].
    do 2 (split; [done|]). split; [by apply (with_text_extends d id n)|].
    split; [apply (file_text_self d id n)|]. split; [intros p Hp; by apply (file_text_other d id n)|].
    split; [|done]. split; try done.
    + intros src rev Hcopy. change (copy = Some (src, rev)) in Hcopy. by subst copy.
    + cbn. by rewrite !orb_true_r.
    + intros ps x Hx _. injection Hx as _ <-. exists (d_temp d). split_and!; [done|simpl; lia| |];
        apply lookup_insert_eq.
    + intros g Hg. change (d_delta_hash d !! path = Some g) in Hg. split.
      * destruct (nf_name _ _ Hnames _ _ Hg) as (i & Hi & ->). exists i. split; [simpl; lia|done].
      * intros p. simpl. rewrite lookup_insert_Some. intros [[<- Heq']|[Hne Hp]].
        -- by eapply Hfresh, eq_sym.
        -- apply Hne. by eapply nf_inj.
  - injection Hrun as <-. exists n. rewrite insert_id by done. destruct added; [by destruct Hadd|].
    split_and!; try done; [apply extends_more, extends_refl|by apply Hnone|].
    split; try done; [|cbn; by rewrite orb_false_r].
    intros src rev Hcopy. change (copy = Some (src, rev)) in Hcopy. by subst copy.
Qed.

Lemma same_store_opened open t path parent np n d d' p :
  opened open t path parent np n d d' → file_text d' p = file_text d p.
Proof. intros []. by apply same_store_text. Qed.

(** The first call for a file, and its properties. *)
Lemma file_opened (added : bool) copy open t path parent np sent props d d1 d2 :
  holds open d t → plain_parent d parent np → path ∉ open →
  (if added then log_agrees path copy ∧ props = ∅
   else copy = None ∧ ∃ old, t !! path = Some (File props old)) →
  editor_do (if added then AddFile path parent else OpenFile path parent) d = Done d1 tt →
  editor_run (prop_calls (d_next d) sent) d1 = Done d2 tt →
  opened open t path parent np (entry_node path parent added copy svn_node_file props sent) d d2.
Proof.
  intros Hh Hp Hin Hcase Hcall Hsent. destruct added.
  - destruct Hcase as [Hlog ->]. apply (add_file_done _ copy _ np) in Hcall; [|apply Hh|done|done].
    destruct (entry_opened true copy _ _ _ _ _ _ _ _ _ _ _ Hh Hcall Hsent) as [Hop _].
    by rewrite (sent_node_fresh sent path parent true copy) in Hop.
  - destruct Hcase as [-> [old Hold]]. apply (open_entry_done false _ _ np) in Hcall as [props' Hcall];
      [|apply Hh|done].
    destruct (entry_opened false None _ _ _ _ _ _ _ _ _ _ _ Hh Hcall Hsent) as [Hop Hprops].
    rewrite (sent_node_fresh sent path parent false None), (Hprops eq_refl _ Hold Hin) in Hop. exact Hop.
Qed.

Lemma file_done (added : bool) copy below open t path parent np sent delta props text d d' :
  let new := File (set_props sent props) text in
  let c := mk_change path added (Some new) (props_sent sent) (bool_decide (is_Some delta)) copy
             below in
  holds open d t → plain_parent d parent np → path ∉ open → used (set_props sent props) →
  (if added then log_agrees path copy ∧ props = ∅ ∧ delta = Some (λ _, text)
   else copy = None ∧
     ∃ old, t !! path = Some (File props old) ∧ text = from_option (λ f, f old) old delta) →
  editor_run ((if added then AddFile path parent else OpenFile path parent) ::
    prop_calls (d_next d) sent ++ text_calls (d_next d) delta ++ [CloseFile (d_next d)]) d = Done d' tt →
  stepped open parent np c (<[path := new]> t) d d'.
Proof.
  intros new c Hh Hp Hin Hu Hcase (d1 & Hcall & Hrun)%editor_run_cons.
  apply editor_run_app in Hrun as (d2 & Hsent & Hrun).
  apply editor_run_app in Hrun as (d3 & Htext & (d4 & Hclose & [= <-])%editor_run_cons).
  assert (opened open t path parent np (entry_node path parent added copy svn_node_file props sent) d d2) as Hop.
  { apply (file_opened added copy _ _ _ _ _ _ _ _ d1); try done. destruct added; naive_solver. }
  pose proof (same_store_opened _ _ _ _ _ _ _ _ path Hop) as Hsrc.
  destruct Hop as [Hns Hnext Hstore Hout Hroot Hdumped Hprops].
  pose proof (same_store_names temp_dir _ _ Hstore (ho_names _ _ _ _ _ _ Hh)) as Hnames.
  apply (text_done (d_next d) path parent added copy below props sent delta text d2 d3) in Htext as
    (n & Hns3 & Hnext3 & Hnames3 & Hps3 & Hs3 & He3 & Ht3 & Hto3 & Hn3 & Hch3 & Hpath3 & Hprops3).
  2:{ by rewrite Hns, lookup_insert_eq. }
  2:{ done. }
  2:{ intros ->. naive_solver. }
  2:{ rewrite Hsrc. intros source Hsource. destruct added; [by destruct Hcase as (_ & _ & ->)|].
      destruct Hcase as (_ & old & Hold & ->). rewrite (ho_text _ _ _ _ _ _ Hh _ _ _ Hold) in Hsource.
      by injection Hsource as <-. }
  2:{ rewrite Hsrc. intros ->. destruct added; [naive_solver|]. destruct Hcase as (_ & old & Hold & ->).
      by apply (ho_text _ _ _ _ _ _ Hh _ _ _ Hold). }
  assert (d_nodes d3 !! d_next d = Some n) as Hn by by rewrite Hns3, lookup_insert_eq.
  apply (close_done open (<[path := new]> t) path new _ n) in Hclose as (ps & -> & Hps); try done.
  2:{ by rewrite lookup_insert_eq. }
  2:{ destruct Hprops as (A & m & HA & Ht). exists A, m. rewrite Hps3. split; [done|].
      intros p e He Hnin. apply Ht; [|done]. rewrite lookup_insert_ne in He; [done|].
      intros <-. apply Hnin. by left. }
  split.
  - split; [by apply (same_store_names temp_dir d3)| |exact Hps|].
    + intros p ps' x. rewrite lookup_insert_Some. intros [[<- Hx]|[Hne Hx]].
      * injection Hx as _ <-. exact Ht3.
      * change (file_text d3 p = Some x). rewrite Hto3 by done.
        rewrite (same_store_text _ _ _ Hstore). by apply (ho_text _ _ _ _ _ _ Hh _ ps').
    + change (obfuscating (d_session d3) = false). rewrite Hs3. destruct Hstore as (_ & _ & _ & ->).
      apply Hh.
  - change (d_next d3 = S (d_next d)). by rewrite Hnext3.
  - exists n. split; [|split; [|done]].
    + change (d_nodes d3 = <[d_next d := n]> (<[parent := set_children np (n_children np ++ [d_next d])]> (d_nodes d))).
      by rewrite Hns3, Hns, insert_insert_eq.
    + by apply (node_as_extends temp_dir [] d3); [apply put_props_extends|apply not_elem_of_nil|].
  - change ([c_path c]) with ([] ++ [path] ++ []). apply (extends_app temp_dir _ _ d d2).
    + by apply same_store_extends.
    + apply (extends_app temp_dir _ _ d2 d3); [done|apply put_props_extends].
Qed.

(** ** Directories *)

(** What a driver may change: what is added has no other history in the log, and the properties
    can be stored and are C strings. *)
Record change_ok (c : change) : Prop := {
  ck_log : c_add c = true → log_agrees (c_path c) (c_copy c);
  ck_used : ∀ e, c_entry c = Some e → used (entry_props e);
  ck_values : ∀ e k v, c_entry c = Some e → entry_props e !! k = Some v → cstr v
}.

Lemma dir_opened (h : how) below open t path parent np sent props d d1 d2 :
  let new := Dir (set_props sent props) in
  let added := is_added h in
  let copy := copy_of h in
  holds open d t → plain_parent d parent np → path ∉ open →
  (added = true → log_agrees path copy) → dir_props below h (t !! path) = Some props →
  editor_do (if added then AddDirectory path parent else OpenDirectory path parent) d = Done d1 tt →
  editor_run (prop_calls (d_next d) sent) d1 = Done d2 tt →
  opened open t path parent np (entry_node path parent added copy svn_node_dir props sent) d d2 ∧
  node_as d2 (entry_node path parent added copy svn_node_dir props sent)
    (mk_change path added (Some new) (props_sent sent) false copy below) ∧
  holds (path :: open) d2 (<[path := new]> t).
Proof.
  intros new added copy Hh Hp Hin Hlog Hcase Hcall Hsent.
  assert (opened open t path parent np (entry_node path parent added copy svn_node_dir props sent) d d2) as Hop.
  { destruct added eqn:Hadd.
    - assert (props = ∅) as ->
        by (destruct h; [discriminate Hadd|..]; cbn in Hcase; destruct (t !! path) as [[]|]; destruct below; congruence).
      apply (add_directory_done _ copy _ np) in Hcall; [|apply Hh|done|auto].
      destruct (entry_opened true copy _ _ _ _ _ _ _ _ _ _ _ Hh Hcall Hsent) as [Hop _].
      by rewrite (sent_node_fresh sent path parent true copy) in Hop.
    - destruct h; [|discriminate Hadd..]. assert (t !! path = Some (Dir props)) as Hold
        by (cbn in Hcase; destruct (t !! path) as [[]|]; destruct below; congruence).
      apply (open_entry_done true _ _ np) in Hcall as [props' Hcall]; [|apply Hh|done].
      destruct (entry_opened false None _ _ _ _ _ _ _ _ _ _ _ Hh Hcall Hsent) as [Hop Hprops].
      rewrite (sent_node_fresh sent path parent false None), (Hprops eq_refl _ Hold Hin) in Hop. exact Hop. }
  split; [done|]. split.
  { split; try done; try (by destruct added). intros src rev Hcopy.
    change (copy = Some (src, rev)) in Hcopy. cbn. by rewrite Hcopy. }
  destruct Hop as [_ _ Hstore _ _ _ (A & m & HA & Ht)]. destruct Hh as [Hnames Htext _ Hs]. split.
  - by eapply same_store_names.
  - intros p ps x. rewrite lookup_insert_Some. intros [[_ ?]|[_ Hx]]; [done|].
    rewrite (same_store_text _ _ _ Hstore). by eapply Htext.
  - exists A, m. split; [done|]. intros p e He Hnin. apply Ht; [|done].
    rewrite lookup_insert_ne in He; [done|]. intros <-. apply Hnin. by left.
  - by destruct Hstore as (_ & _ & _ & ->).
Qed.

(** Closing it, after the entries below. *)
Lemma dir_closed open path id np props inner l t' d d' d'' :
  edited (path :: open) id np inner l t' d d' → n_path np = path → n_properties np = props →
  used props → t' !! path = Some (Dir props) →
  editor_do (CloseDirectory id) d' = Done d'' tt →
  ∃ ps, d'' = put_props d' ps ∧ holds open d'' t'.
Proof.
  intros [[Hnames Htext Hps Hs] _ Hn _ _ _ _] Hpath Hprops Hu Ht Hclose.
  apply (close_done open t' path (Dir props) id (set_children np (n_children np ++ kids (d_next d) inner)))
    in Hclose as (ps & -> & Hps');
    [|exact Hn|done..]. exists ps. split; [done|]. split; [|exact Htext|exact Hps'|exact Hs].
  by apply (same_store_names temp_dir d').
Qed.

Lemma file_calls call (id : nat) sent delta rest :
  call :: prop_calls id sent ++ text_calls id delta ++ CloseFile id :: rest =
  (call :: prop_calls id sent ++ text_calls id delta ++ [CloseFile id]) ++ rest.
Proof. simpl. by rewrite <-!app_assoc. Qed.

Definition shallow (open : list bytes) (dir : bytes) : Prop :=
  ∀ p, p ∈ open → p = [slash] ∨ (length p <= length dir)%nat.

Lemma shallow_child open dir name : shallow open dir → good_name name → child dir name ∉ open.
Proof.
  intros Hs Hn Hin. destruct (Hs _ Hin) as [Heq|Hl]; [by apply child_ne in Heq|].
  pose proof (child_longer dir name Hn). lia.
Qed.

Lemma shallow_cons open dir name : shallow open dir → good_name name →
  shallow (child dir name :: open) (child dir name).
Proof.
  intros Hs Hn p [->|Hin]%elem_of_cons; [by right|]. destruct (Hs p Hin) as [->|Hl]; [by left|].
  pose proof (child_longer dir name Hn). right. lia.
Qed.

(** The calls for the entries of a directory. *)
Lemma edits_done below dir e t l t' :
  applies below dir e t l t' → ∀ open parent np d d',
  NoDup (c_path <$> l) → Forall change_ok l → shallow open dir →
  plain_parent d parent np → holds open d t →
  editor_run (edit_calls dir parent (d_next d) e) d = Done d' tt →
  edited open parent np e l t' d d'.
Proof.
  induction 1 as [|dir name r t e l t' Hn Hp _ IH|below dir h name sent inner r t props l1 t1 l2 t2 p
    new Hn Hp Hi IHi _ _ IHr|below dir copy name sent text r t l t' p new Hn Hp _ _ _ IH|
    dir name sent delta r t props old l t' p new Hn Hp _ IH];
    intros open parent np d d' Hnd Hok Hsh Hpar Hh Hrun; cbn [edit_calls] in Hrun;
    [injection Hrun as <-; by apply edited_end|..];
    pose proof (shallow_child _ _ _ Hsh Hn) as Hin;
    apply Forall_cons in Hok as [[Hlog Hu _] Hok].
  - apply editor_run_cons in Hrun as (d1 & Hc & Hrun).
    destruct (delete_done _ _ _ _ _ _ _ Hh Hpar Hc) as [Hst _].
    apply NoDup_cons in Hnd as [Hnin Hnd]. eapply edited_step; [by split_and!|done..|].
    apply IH; try done; [by eapply stepped_parent|apply Hst|]. by rewrite (st_next _ _ _ _ _ _ _ Hst).
  - apply editor_run_cons in Hrun as (d1 & Hc & Hrun). fold p in Hc, Hrun, Hin.
    apply editor_run_app in Hrun as (d2 & Hsent & Hrun).
    apply editor_run_app in Hrun as (d3 & Hinner & Hrun).
    apply editor_run_cons in Hrun as (d4 & Hclose & Hrest).
    destruct (dir_opened h below open t p parent np sent props d d1 d2) as (Hop & Has & Hh2); try done.
    pose proof (op_next _ _ _ _ _ _ _ _ Hop) as Hnext2. rewrite <-Hnext2 in Hinner.
    pose proof Hnd as [_ Hnd']%NoDup_cons. change (NoDup (c_path <$> l1 ++ l2)) in Hnd'.
    rewrite fmap_app in Hnd'.
    apply NoDup_app in Hnd' as (Hnd1 & _ & Hnd2). apply Forall_app in Hok as [Hok1 Hok2].
    set (n0 := entry_node p parent (is_added h) (copy_of h) svn_node_dir props sent) in *.
    assert (plain_parent d2 (d_next d) n0) as Hpar2.
    { split; [by rewrite (op_nodes _ _ _ _ _ _ _ _ Hop), lookup_insert_eq|lia|done]. }
    pose proof (IHi (p :: open) _ _ _ _ Hnd1 Hok1 (shallow_cons _ _ _ Hsh Hn) Hpar2 Hh2 Hinner) as Hed.
    assert (t1 !! p = Some new) as Ht1.
    { rewrite (applies_short _ _ _ _ _ _ _ _ _ Hi) by done. by rewrite lookup_insert_eq. }
    destruct (dir_closed _ _ _ _ _ _ _ _ _ _ _ Hed eq_refl eq_refl (Hu new eq_refl) Ht1 Hclose)
      as (ps & -> & Hh4).
    eapply edited_dir; try done; [by eapply applies_size|]. apply IHr; try done.
    + split; [|simpl; rewrite (ed_next _ _ _ _ _ _ _ _ Hed); destruct Hpar; lia|by destruct Hpar].
      simpl. rewrite (ed_older _ _ _ _ _ _ _ _ Hed) by (destruct Hpar; lia).
      rewrite (op_nodes _ _ _ _ _ _ _ _ Hop), lookup_insert_ne by (destruct Hpar; lia).
      by rewrite lookup_insert_eq.
    + change (d_next (put_props d3 ps)) with (d_next d3).
      rewrite (ed_next _ _ _ _ _ _ _ _ Hed), Hnext2. exact Hrest.
  - rewrite file_calls in Hrun. apply editor_run_app in Hrun as (d1 & Hc & Hrun).
    assert (stepped open parent np (mk_change p true (Some new) (props_sent sent) true copy below)
      (<[p := new]> t) d d1) as Hst.
    { apply (file_done true copy below open t p parent np sent (Some (λ _, text)) ∅ text); try done;
        [exact (Hu new eq_refl)|]. split_and!; [by apply Hlog|done..]. }
    apply NoDup_cons in Hnd as [Hnin Hnd]. eapply edited_step; [by split_and!|done..|].
    apply IH; try done; [by eapply stepped_parent|apply Hst|]. by rewrite (st_next _ _ _ _ _ _ _ Hst).
  - rewrite file_calls in Hrun. apply editor_run_app in Hrun as (d1 & Hc & Hrun).
    assert (stepped open parent np (mk_change p false (Some new) (props_sent sent)
      (bool_decide (is_Some delta)) None false) (<[p := new]> t) d d1) as Hst.
    { apply (file_done false None false open t p parent np sent delta props _); try done;
        [exact (Hu new eq_refl)|]. split; [done|]. by exists old. }
    apply NoDup_cons in Hnd as [Hnin Hnd]. eapply edited_step; [by split_and!|done..|].
    apply IH; try done; [by eapply stepped_parent|apply Hst|]. by rewrite (st_next _ _ _ _ _ _ _ Hst).
Qed.

End plain.
