(* ===== verification/DeltaRepo.v ===== *)
(** The path repository during a drive: the calls of an edit (Edits.v) add and delete in the working
    set of the path repository what the edit adds to its tree and removes from it. *)
From S2P Require Import Prelude CritBit Interfaces Mukv Utils Types Copyfrom Property PropStore PathRepo.
From S2P Require Import Session DumpFormat Stream Loader Delta Edits DeltaFacts DeltaDump DeltaCopy.
From S2P Require Import DeltaTree DeltaOutput DeltaPlain.

Open Scope Z_scope.

(** * Changes of the working set *)

(** What a change of an edit does to the specification of the path repository. *)
Definition spec_change (s : pr_spec) (c : change) : pr_spec :=
  match c_entry c with
  | None => spec_delete s (c_path c)
  | Some _ => if c_add c then spec_add_all s [c_path c] else s
  end.

Lemma spec_changes_hist (s : pr_spec) (l : list change) :
  sp_hist (foldl spec_change s l) = sp_hist s ∧ sp_last (foldl spec_change s l) = sp_last s.
Proof.
  revert s. induction l as [|c l IH]; intros s; [done|]. cbn [foldl].
  destruct (IH (spec_change s c)) as [-> ->]. unfold spec_change.
  destruct (c_entry c); [by destruct (c_add c)|done].
Qed.

(** The size of the pending changes and the working set do not depend on the history. *)
Lemma spec_changes_size (s1 s2 : pr_spec) (l : list change) :
  sp_work s1 = sp_work s2 → sp_pend s1 = sp_pend s2 →
  sp_work (foldl spec_change s1 l) = sp_work (foldl spec_change s2 l) ∧
  sp_pend (foldl spec_change s1 l) = sp_pend (foldl spec_change s2 l).
Proof.
  revert s1 s2. induction l as [|c l IH]; intros s1 s2 Hw Hp; [done|]. cbn [foldl].
  apply IH; unfold spec_change, spec_delete, spec_add_all;
    (destruct (c_entry c); [destruct (c_add c)|]); cbn; by rewrite ?Hw, ?Hp.
Qed.

Lemma remove_dom (t : tree) p : work_remove (dom t) p = dom (remove p t).
Proof.
  apply set_eq. intros x. unfold work_remove, remove. rewrite elem_of_filter, !elem_of_dom. split.
  - intros [Hu [e He]]. exists e. apply map_lookup_filter_Some. split; [done|]. cbn. split.
    + intros ->. apply Hu. by left.
    + apply bool_decide_eq_false. intros Hp. apply Hu. by right.
  - intros [e (He & Hne & Hi)%map_lookup_filter_Some]. cbn in *. split; [|by exists e].
    apply bool_decide_eq_false in Hi. by intros [?|?].
Qed.

(** ** Earlier revisions *)

(** The path repository knows the paths of the trees of earlier revisions. *)
Record recorded (past : gmap Z tree) (s : pr_spec) : Prop := {
  rc_hist : ∀ rev t, past !! rev = Some t → sp_hist s rev = dom t ∧ rev <= sp_last s;
  rc_closed : ∀ rev t, past !! rev = Some t → closed t
}.

Lemma recorded_none s : recorded ∅ s.
Proof. split; intros rev t Ht; by rewrite lookup_empty in Ht. Qed.

Lemma recorded_changes past s l : recorded past s → recorded past (foldl spec_change s l).
Proof. destruct (spec_changes_hist s l) as [Hh Hl]. intros [? ?]. split; rewrite ?Hh, ?Hl; auto. Qed.

Definition spec_commit (s : pr_spec) (n : Z) : pr_spec :=
  mk_spec (λ r, if r <? n then sp_hist s r else sp_work s) n (sp_work s) 0.

Lemma recorded_commit past s n t :
  recorded past s → sp_work s = dom t → closed t → sp_last s < n →
  recorded (<[n := t]> past) (spec_commit s n).
Proof.
  intros [Hh Hc] Hw Ht Hn. split; intros rev t' [[<- <-]|[Hne Ht']]%lookup_insert_Some; cbn; [| |done|by eapply Hc].
  - by rewrite Z.ltb_irrefl.
  - destruct (Hh _ _ Ht') as [? ?]. rewrite (proj2 (Z.ltb_lt _ _)) by lia. split; [done|lia].
Qed.

Lemma commit_done `{KV T} `{Codec} (repo repo' : path_repo T) s n :
  pr_inv repo s → pr_op_ok s (PCommit n) → path_repo_commit repo n = Some (repo', 0) →
  pr_inv repo' (spec_commit s n).
Proof.
  intros Hinv Hop Hrun. destruct (path_repo_commit_inv repo s n Hinv Hop) as (repo0 & ret & s' & Hc & Hst & Hinv').
  rewrite Hrun in Hc. injection Hc as <- <-. by inversion Hst; subst.
Qed.

(** * Calls *)

Section repo.
Context `{HashIter} {T : Type} `{KV T} `{Codec}.
Variables (rand : nat → Z) (fuel : nat).
Variables (apr_md5 : bytes → option bytes) (svn_path_dirname : bytes → bytes)
  (svn_md5_digest_to_cstring : bytes → bytes) (svn_property_regular : bytes → bool).
Variable svndiff : bytes → bytes → bytes.
Variable temp_ok : nat → bool.
Variables (uninit_kind : svn_node_kind) (uninit_rev : Z).
Variable env : de_env.
Variable past : gmap Z tree.

Hypothesis Hdry : not_dry_run env = true.

Implicit Types (d : de_state T) (s : pr_spec).

Abbreviation editor_do := (editor_do rand fuel apr_md5 svn_path_dirname svn_md5_digest_to_cstring
  svn_property_regular svndiff temp_ok uninit_kind uninit_rev env).
Abbreviation editor_run := (editor_run rand fuel apr_md5 svn_path_dirname svn_md5_digest_to_cstring
  svn_property_regular svndiff temp_ok uninit_kind uninit_rev env).

(** The repository and the session stay as they are. *)
Definition unmoved d d' : Prop := d_repo d' = d_repo d ∧ d_session d' = d_session d.

#[local] Instance still_preorder : PreOrder unmoved.
Proof. split; [by intros d|]. intros x y z [? ?] [? ?]. split; congruence. Qed.

Lemma modify_unmoved f : (∀ d, unmoved d (f d)) → keeps unmoved (modify f).
Proof. apply keeps_modify. Qed.
#[local] Hint Extern 1 (keeps unmoved (modify _)) => apply modify_unmoved; by intros : keeps.

Lemma node_get_unmoved id : keeps unmoved (node_get id).
Proof. unfold node_get. keeps_tac. Qed.

Lemma node_upd_unmoved id f : keeps unmoved (node_upd id f).
Proof. intros d. unfold node_upd, node_get, lift, mbind, M_bind. cbn. by destruct (d_nodes d !! id). Qed.

Lemma storage_store_unmoved id : keeps unmoved (storage_store apr_md5 id).
Proof.
  intros d. unfold storage_store. destruct (d_nodes d !! id) as [n|]; [|done].
  destruct (property_store _ _ _ _) as [[ps ret]|]; [|done]. by destruct (negb (ret =? 0)).
Qed.

Lemma storage_load_unmoved id : keeps unmoved (storage_load id).
Proof.
  intros d. unfold storage_load. destruct (d_nodes d !! id) as [n|]; [|done].
  destruct (property_load _ _ _) as [[[ps props] ret]|]; [|done]. by destruct (negb (ret =? 0)).
Qed.

Lemma storage_delete_unmoved p : keeps unmoved (storage_delete p).
Proof. intros d. unfold storage_delete. by destruct (property_delete _ _) as [[ps ret]|]. Qed.

Lemma node_alloc_unmoved n : keeps unmoved (node_alloc n).
Proof. by intros d. Qed.

Lemma mkstemp_unmoved sub : keeps unmoved (mkstemp temp_ok env sub).
Proof. intros d. unfold mkstemp. by destruct (temp_ok (d_temp d)). Qed.

Lemma read_file_unmoved f : keeps unmoved (read_file f).
Proof. unfold read_file. keeps_tac. Qed.
#[local] Hint Resolve node_get_unmoved node_upd_unmoved storage_store_unmoved storage_load_unmoved
  storage_delete_unmoved node_alloc_unmoved mkstemp_unmoved read_file_unmoved : keeps.

Lemma create_unmoved p parent : keeps unmoved (delta_create_node uninit_kind uninit_rev p parent).
Proof. unfold delta_create_node. keeps_tac. Qed.

Lemma changed_path_unmoved p : keeps unmoved (changed_path env p).
Proof. unfold changed_path. keeps_tac. Qed.

Lemma add_from_log_unmoved id log : keeps unmoved (add_from_log id log).
Proof. unfold add_from_log. keeps_tac. Qed.
#[local] Hint Resolve create_unmoved changed_path_unmoved add_from_log_unmoved : keeps.

(** The calls that do not change the set of paths. *)
Definition is_quiet (c : editor_call) : bool :=
  match c with
  | OpenDirectory _ _ | OpenFile _ _ | ChangeProp _ _ _ | CloseDirectory _ | ApplyTextdelta _ _
  | CloseFile _ => true
  | _ => false
  end.

Lemma quiet_call c d d' :
  is_quiet c = true → obfuscating (d_session d) = false → editor_do c d = Done d' tt → unmoved d d'.
Proof.
  intros Hc Hs Hrun.
  assert (∀ q m, (∀ x, keeps unmoved (m x)) → (x ← obfuscate rand fuel q; m x) d = Done d' tt → unmoved d d') as Hobf.
  { intros q m Hm (d1 & x & [-> _]%obfuscate_done & Hx)%bind_done; [|done].
    exact (keeps_done _ _ _ _ _ (Hm x) Hx). }
  destruct c; try done; cbn [Delta.editor_do] in Hrun.
  - apply bind_done in Hrun as (d1 & id & Hrun & [= <-]). unfold de_open_directory in Hrun.
    apply bind_done in Hrun as (d2 & q & [-> _]%obfuscate_done & Hrun); [|done].
    refine (keeps_done unmoved _ _ _ _ _ Hrun). keeps_tac.
  - refine (keeps_done unmoved _ _ _ _ _ Hrun). unfold de_change_prop. keeps_tac.
  - refine (keeps_done unmoved _ _ _ _ _ Hrun). unfold de_close_directory. keeps_tac.
  - apply bind_done in Hrun as (d1 & id & Hrun & [= <-]). unfold de_open_file in Hrun.
    apply bind_done in Hrun as (d2 & q & [-> _]%obfuscate_done & Hrun); [|done].
    refine (keeps_done unmoved _ _ _ _ _ Hrun). keeps_tac.
  - refine (keeps_done unmoved _ _ _ _ _ Hrun). unfold de_apply_textdelta. keeps_tac.
  - refine (keeps_done unmoved _ _ _ _ _ Hrun). unfold de_close_file. keeps_tac.
Qed.

Lemma quiet_calls l d d' :
  Forall (λ c, is_quiet c = true) l → obfuscating (d_session d) = false →
  editor_run l d = Done d' tt → unmoved d d'.
Proof.
  intros Hl. revert d. induction Hl as [|c l Hc _ IH]; intros d Hs Hrun; [by injection Hrun as <-|].
  apply bind_done in Hrun as (d1 & [] & Hd1%quiet_call & Hrun); [|done..].
  etrans; [exact Hd1|]. apply IH; [by rewrite (proj2 Hd1)|done].
Qed.

(** A computation that ends with an operation on the repository. *)
Definition ends_with (op : M (de_state T) unit) {A} (m : M (de_state T) A) : Prop :=
  ∀ d d' x, m d = Done d' x → ∃ d1, unmoved d d1 ∧ op d1 = Done d' tt.

Lemma ends_with_bind {A B} op (m : M (de_state T) A) (k : A → M (de_state T) B) :
  keeps unmoved m → (∀ x, ends_with op (k x)) → ends_with op (m ≫= k).
Proof.
  intros Hm Hk d d' y (d1 & x & Hx & Hy)%bind_done. apply (keeps_done _ _ _ _ _ Hm) in Hx.
  destruct (Hk x d1 d' y Hy) as (d2 & ? & ?). exists d2. split; [by etrans|done].
Qed.

Lemma ends_with_ret {A} op (x : A) : ends_with op (_ ← op; mret x).
Proof. intros d d' y (d1 & [] & Hop & [= <- _])%bind_done. by exists d. Qed.

Lemma ends_with_self op : ends_with op op.
Proof. intros d d' [] Hop. by exists d. Qed.

Ltac ends_with_tac :=
  repeat first [apply ends_with_ret|apply ends_with_self|apply ends_with_bind; [keeps_tac|intros ?]].

(** What the repository makes of the three other calls. *)
Lemma add_call (file : bool) p parent d d' s :
  obfuscating (d_session d) = false → pr_inv (d_repo d) s → cstr p →
  editor_do (if file then AddFile p parent else AddDirectory p parent) d = Done d' tt →
  pr_inv (d_repo d') (spec_add_all s [p]) ∧ d_session d' = d_session d.
Proof.
  intros Hs Hinv Hp Hrun.
  assert (∃ d1, unmoved d d1 ∧ repo_add p d1 = Done d' tt) as (d1 & [Hr1 Hs1] & Hadd).
  { destruct file; cbn [Delta.editor_do] in Hrun; apply bind_done in Hrun as (d2 & id & Hrun & [= <-]);
      apply bind_done in Hrun as (d3 & q & [-> ->]%obfuscate_done & Hrun); try done;
      rewrite Hdry in Hrun; cbn [when] in Hrun; (refine ((_ : ends_with (repo_add p) _) _ _ _ Hrun));
      ends_with_tac. }
  rewrite <-Hr1 in Hinv. unfold repo_add in Hadd.
  destruct (path_repo_add_inv _ _ p Hinv Hp) as (repo' & Heq & Hinv'). rewrite Heq in Hadd.
  clear Heq. case_decide; [done|]. injection Hadd as <-. split; [|done]. cbn [d_repo put_repo].
  unfold spec_add_all. cbn [list_to_set fmap list_fmap sum_list]. cbn.
  rewrite (right_id_L ∅ (∪)), Nat.add_0_r. exact Hinv'.
Qed.

Lemma delete_call p parent d d' s :
  obfuscating (d_session d) = false → pr_inv (d_repo d) s → cstr p → p ≠ [] → p ∈ sp_work s →
  editor_do (DeleteEntry p parent) d = Done d' tt →
  pr_inv (d_repo d') (spec_delete s p) ∧ d_session d' = d_session d.
Proof.
  intros Hs Hinv Hp Hne Hin Hrun.
  assert (∃ d1, unmoved d d1 ∧ repo_delete p d1 = Done d' tt) as (d1 & [Hr1 Hs1] & Hdel).
  { cbn [Delta.editor_do] in Hrun. apply bind_done in Hrun as (d3 & q & [-> ->]%obfuscate_done & Hrun);
      [|done]. rewrite Hdry in Hrun. cbn [when] in Hrun.
    refine ((_ : ends_with (repo_delete p) _) _ _ _ Hrun). ends_with_tac. }
  rewrite <-Hr1 in Hinv. unfold repo_delete in Hdel.
  destruct (path_repo_delete_inv _ _ p Hinv Hp Hne Hin) as (repo' & Heq & Hinv'). rewrite Heq in Hdel.
  injection Hdel as <-. by split.
Qed.

(** * Edits *)

(** The repository knows the paths of the tree. *)
Record repo_has d s (t : tree) : Prop := {
  rh_inv : pr_inv (d_repo d) s;
  rh_work : sp_work s = dom t;
  rh_plain : obfuscating (d_session d) = false
}.

Lemma repo_has_unmoved d d' s t : unmoved d d' → repo_has d s t → repo_has d' s t.
Proof. intros [Hr Hs] []. split; [by rewrite Hr|done|by rewrite Hs]. Qed.

Lemma repo_has_added (file : bool) p parent d d' s t e :
  repo_has d s t → cstr p →
  editor_do (if file then AddFile p parent else AddDirectory p parent) d = Done d' tt →
  repo_has d' (spec_add_all s [p]) (<[p := e]> t).
Proof.
  intros [Hi Hw Ho] Hp Hrun. destruct (add_call file p parent d d' s Ho Hi Hp Hrun) as [? Hs].
  split; [done| |by rewrite Hs]. cbn. rewrite dom_insert_L, Hw. by rewrite (right_id_L ∅ (∪)).
Qed.

Lemma quiet_props id sent : Forall (λ c, is_quiet c = true) (prop_calls id sent).
Proof. apply Forall_fmap, Forall_true. done. Qed.

Lemma quiet_texts id delta : Forall (λ c, is_quiet c = true) (text_calls id delta).
Proof. by destruct delta; repeat constructor. Qed.

Lemma child_not_nil dir name : good_name name → child dir name ≠ [].
Proof. intros Hn Hc. pose proof (child_longer dir name Hn) as Hl. rewrite Hc in Hl. simpl in Hl. lia. Qed.

(** The calls after the one that opens or adds a file. *)
Lemma file_rest id sent delta rest s t d d' :
  repo_has d s t →
  editor_run (prop_calls id sent ++ text_calls id delta ++ CloseFile id :: rest) d = Done d' tt →
  ∃ d1, repo_has d1 s t ∧ editor_run rest d1 = Done d' tt.
Proof.
  intros Hh Hrun. rewrite (app_assoc _ (text_calls id delta)), cons_middle, app_assoc in Hrun.
  apply editor_run_app in Hrun as (d1 & Hq & Hrun). exists d1. split; [|done].
  eapply repo_has_unmoved; [|done]. eapply quiet_calls; [|apply Hh|exact Hq].
  repeat apply Forall_app_2; auto using quiet_props, quiet_texts.
Qed.

(** The call that opens or adds a directory, and its properties. *)
Lemma repo_has_dir below h p props e parent id sent s t d d1 d2 :
  repo_has d s t → cstr p → dir_props below h (t !! p) = Some props →
  editor_do (if is_added h then AddDirectory p parent else OpenDirectory p parent) d = Done d1 tt →
  editor_run (prop_calls id sent) d1 = Done d2 tt →
  repo_has d2 (if is_added h then spec_add_all s [p] else s) (<[p := e]> t).
Proof.
  intros Hh Hc Hp Hcall Hsent.
  assert (repo_has d1 (if is_added h then spec_add_all s [p] else s) (<[p := e]> t)) as Hh1.
  { destruct (is_added h) eqn:Ha; [by apply (repo_has_added false p parent d)|].
    destruct h; try done. apply quiet_call in Hcall; [|done|apply Hh].
    eapply repo_has_unmoved; [exact Hcall|]. destruct Hh as [? Hw ?]. split; [done| |done].
    assert (is_Some (t !! p)) as Hs by (cbn in Hp; destruct (t !! p); [by eexists|done]).
    rewrite dom_insert_lookup_L; done. }
  eapply repo_has_unmoved; [|exact Hh1]. eapply quiet_calls; [apply quiet_props|apply Hh1|exact Hsent].
Qed.

Lemma edits_repo below dir e t l t' :
  applies svn_property_regular past below dir e t l t' → ∀ parent next s d d',
  cstr dir → repo_has d s t → editor_run (edit_calls dir parent next e) d = Done d' tt →
  repo_has d' (foldl spec_change s l) t'.
Proof.
  induction 1 as [|dir name r t e l t' Hn Hp _ IH|below dir h name sent inner r t props l1 t1 l2 t2 p
    new Hn Hp Hi IHi _ _ IHr|below dir copy name sent text r t l t' p new Hn Hp _ _ _ IH|
    dir name sent delta r t props old l t' p new Hn Hp _ IH];
    intros parent next s d d' Hdir Hh Hrun; cbn [edit_calls] in Hrun; [by injection Hrun as <-|..];
    pose proof (child_cstr dir name Hn Hdir) as Hc;
    apply editor_run_cons in Hrun as (d1 & Hcall & Hrun); cbn [foldl]; unfold spec_change at 2;
    cbn [c_entry c_add c_path].
  - eapply IH; [done| |exact Hrun]. destruct Hh as [Hinv Hw Ho].
    assert (child dir name ∈ sp_work s) as Hin by (rewrite Hw; by apply elem_of_dom_2 in Hp).
    destruct (delete_call _ _ _ _ s Ho Hinv Hc (child_not_nil _ _ Hn) Hin Hcall) as [? Hs].
    split; [done| |by rewrite Hs]. cbn. by rewrite Hw, remove_dom.
  - rewrite foldl_app.
    apply editor_run_app in Hrun as (d2 & Hsent & Hrun). apply editor_run_app in Hrun as (d3 & Hin & Hrun).
    apply editor_run_cons in Hrun as (d4 & Hclose & Hrun).
    pose proof (repo_has_dir _ _ _ _ new _ _ _ _ _ _ _ _ Hh Hc Hp Hcall Hsent) as Hh2.
    pose proof (IHi _ _ _ _ _ Hc Hh2 Hin) as Hh3. eapply IHr; [done| |exact Hrun].
    eapply repo_has_unmoved; [|exact Hh3]. by eapply quiet_call; [|apply Hh3|exact Hclose].
  - eapply (repo_has_added true _ _ _ _ _ _ new) in Hcall; [|done..].
    eapply file_rest in Hrun as (d2 & Hh2 & Hrun); [|exact Hcall]. by eapply IH.
  - apply quiet_call in Hcall; [|done|apply Hh].
    eapply file_rest in Hrun as (d2 & Hh2 & Hrun); [|by eapply repo_has_unmoved].
    eapply IH; [done| |exact Hrun]. destruct Hh2 as [? Hw ?]. split; [done| |done].
    by rewrite Hw, dom_insert_lookup_L.
Qed.

End repo.
