(* ===== verification/DeltaWrite.v ===== *)
(** What the end of an edit writes: when the whole history is dumped, closing the edit always succeeds,
    and its records are those of the changes of the edit.  What was copied is written as a copy, and
    nothing below it is written. *)
From S2P Require Import Prelude CritBit Interfaces Mukv Utils Types Copyfrom Property PropStore PathRepo.
From S2P Require Import Session DumpFormat Stream Loader Delta Edits DeltaFacts DeltaDump DeltaCopy.
From S2P Require Import DeltaTree DeltaOutput DeltaPlain DeltaRepo.

Open Scope Z_scope.

Section load.
Context `{HashIter} {T : Type} `{KV T} `{Codec}.
Variables (svn_path_dirname svn_md5_digest_to_cstring : bytes → bytes).
Variable svndiff : bytes → bytes → bytes.
Variable temp_ok : nat → bool.
Variable used : prop_hash → Prop.
Variable env : de_env.
Variable past : gmap Z tree.
Variable s : pr_spec.

Implicit Types (d : de_state T) (n : de_node) (id : nat).

Abbreviation temp_dir := (do_temp_dir (v_opts env)).

Abbreviation dump_finish := (dump_finish (T := T)).
Abbreviation dump_checked := (dump_checked svn_md5_digest_to_cstring svndiff temp_ok env).
Abbreviation dump_node :=
  (delta_dump_node svn_path_dirname svn_md5_digest_to_cstring svndiff temp_ok env).
Abbreviation dump_tree :=
  (delta_dump_node_recursive svn_path_dirname svn_md5_digest_to_cstring svndiff temp_ok env).

(** The whole history is dumped, with full texts and properties, and without a prefix. *)
Record plain_env : Prop := {
  pe_whole : whole_history env = true;
  pe_deltas : has_flag (v_opts env) DF_USE_DELTAS = false;
  pe_dry : has_flag (v_opts env) DF_INITIAL_DRY_RUN = false;
  pe_format : do_dump_format (v_opts env) ≠ 3;
  pe_prefix : do_prefix (v_opts env) = None
}.

Hypothesis Henv : plain_env.
Hypothesis Hfit : props_fit used.
Hypothesis Hdigest : ∀ b, nl ∉ svn_md5_digest_to_cstring b.

(** The path repository knows the paths of the earlier revisions, whose numbers are those of the
    dump. *)
Record past_known : Prop := {
  pk_recorded : recorded past s;
  pk_local : ∀ rev t, past !! rev = Some t →
    delta_get_local_copyfrom_rev rev (v_opts env) (v_logs env) (v_local_revnum env) = rev
}.

Hypothesis Hpast : past_known.

Abbreviation repo_ok := (pr_inv (T := T)).

(** * What a dump leaves alone *)

(** The fields of nodes that no dump changes here. *)
Definition kept n : bytes * ascii * option bytes * option bytes * Z * option nat * list nat :=
  (n_path n, n_action n, n_old_filename n, n_copyfrom_path n, n_copyfrom_revision n, n_parent n,
   n_children n).

(** And the copy information, which is known before a node is written. *)
Definition core n := (kept n, n_cp_info n).

Definition steady_state d d' : Prop :=
  core <$> d_nodes d' = core <$> d_nodes d ∧ d_delta_hash d' = d_delta_hash d ∧
  d_temp d' = d_temp d ∧ d_props d' = d_props d ∧ d_session d' = d_session d ∧
  d_root d' = d_root d ∧ d_files d' = d_files d ∧ d_repo d' = d_repo d ∧ d_next d' = d_next d.

#[local] Instance steady_state_preorder : PreOrder steady_state.
Proof.
  split; [by intros d|]. intros x y z (?&?&?&?&?&?&?&?&?) (?&?&?&?&?&?&?&?&?).
  unfold steady_state. split_and!; congruence.
Qed.

Abbreviation constant := (keeps steady_state).

Lemma modify_constant f : (∀ d, steady_state d (f d)) → constant (modify f).
Proof. apply keeps_modify. Qed.
#[local] Hint Extern 1 (keeps steady_state (modify _)) => apply modify_constant; by intros : keeps.

Lemma emit_constant b : constant (emit b).
Proof. unfold emit. keeps_tac. Qed.

Lemma node_get_constant id : constant (node_get id).
Proof. unfold node_get. keeps_tac. Qed.

Lemma read_file_constant f : constant (read_file f).
Proof. unfold read_file. keeps_tac. Qed.
#[local] Hint Resolve emit_constant node_get_constant read_file_constant : keeps.

Lemma node_upd_constant id f : (∀ n, core (f n) = core n) → constant (node_upd id f).
Proof.
  intros Hf d. unfold node_upd, node_get, lift, mbind, M_bind. cbn.
  destruct (d_nodes d !! id) as [n|] eqn:Hn; [|done]. cbn. split_and!; try done. simpl.
  rewrite fmap_insert, Hf. apply insert_id. by rewrite lookup_fmap, Hn.
Qed.
#[local] Hint Extern 1 (keeps steady_state (node_upd _ _)) =>
  apply node_upd_constant; by intros : keeps.

(** A dump ends with the removal of the text that was replaced. *)
Definition ends (id : nat) (m : M (de_state T) unit) : Prop :=
  ∀ d d', m d = Done d' tt → ∃ d1 n, steady_state d d1 ∧ d_nodes d1 !! id = Some n ∧
    d' = match n_old_filename n with
         | Some f => put_files d1 (delete f (d_files d1)) | None => d1
         end.

Lemma ends_bind {A} id (m : M (de_state T) A) k :
  constant m → (∀ x, ends id (k x)) → ends id (m ≫= k).
Proof.
  intros Hm Hk d d' (d1 & x & Hx & Hrun)%bind_done. apply (keeps_done _ _ _ _ _ Hm) in Hx.
  destruct (Hk x d1 d' Hrun) as (d2 & n & Hs & ? & ?). exists d2, n. split; [by etrans|done].
Qed.

Lemma dump_finish_ends id : ends id (dump_finish id).
Proof.
  unfold Delta.dump_finish. apply ends_bind; [keeps_tac|]. intros _. apply ends_bind.
  { unfold delta_mark_node. keeps_tac. }
  intros _ d d' (d1 & n & [-> Hn]%node_get_done & Hrun)%bind_done. exists d, n.
  split; [reflexivity|]. split; [done|]. destruct (n_old_filename n); by injection Hrun as <-.
Qed.

Lemma dump_text_constant n : constant (dump_text (T := T) env n).
Proof. unfold dump_text, delta_cat_file. rewrite (pe_deltas Henv). keeps_tac. Qed.

Lemma dump_text_headers_constant n b :
  constant (dump_text_headers (T := T) svn_md5_digest_to_cstring env n b).
Proof. unfold dump_text_headers. keeps_tac. Qed.
#[local] Hint Resolve dump_text_constant dump_text_headers_constant : keeps.

Lemma dump_body_ends id b c :
  ends id (dump_body svn_md5_digest_to_cstring svndiff temp_ok env id b c).
Proof.
  unfold dump_body. rewrite (pe_deltas Henv), andb_false_r.
  repeat first [apply dump_finish_ends|apply ends_bind; [keeps_tac|intros ?]].
Qed.

Lemma dump_checked_ends id : ends id (dump_checked id).
Proof.
  unfold Delta.dump_checked. do 4 (apply ends_bind; [keeps_tac|intros ?]).
  case_bool_decide; [apply dump_finish_ends|].
  case_match; [|apply dump_body_ends]. apply ends_bind; [unfold dump_copy; keeps_tac|]. intros ?.
  case_match; [apply dump_finish_ends|apply dump_body_ends].
Qed.

(** * Records *)

(** What a change must be for its record to be right. *)
Definition change_text (c : change) : Prop := change_ok used env c ∧ well_formed c.

(** The node of a change as it is written: a copy knows the source revision. *)
Definition ready n (c : change) : de_node :=
  set_cp_info (set_copyfrom_rev_local n (from_option snd (n_copyfrom_rev_local n) (c_copy c)))
    (from_option (λ _, CPI_COPY) (n_cp_info n) (c_copy c)).

Lemma check_copy_ready d n c : node_as temp_dir d n c → check_copy env n = ready n c.
Proof.
  intros Hn. unfold check_copy, ready. rewrite (na_cp _ _ _ _ Hn), (na_copy _ _ _ _ Hn).
  pose proof (na_copyrev _ _ _ _ Hn) as Hrev. destruct (c_copy c) as [[src rev]|]; cbn.
  - rewrite (pe_whole Henv). by rewrite (Hrev src rev).
  - pose proof (na_cp _ _ _ _ Hn) as Hcp. destruct n. cbn in Hcp. by subst.
Qed.

Lemma plain_deletions n : dumped_deletions env n = [].
Proof. unfold dumped_deletions. by rewrite (proj2 (Z.eqb_neq _ _) (pe_format Henv)). Qed.

Lemma plain_props d n c : node_as temp_dir d n c → dumped_props n = hash_iter (n_properties n).
Proof.
  intros Hn. unfold dumped_props. rewrite (na_dels _ _ _ _ Hn).
  induction (hash_iter (n_properties n)) as [|kv l IH]; [done|].
  rewrite filter_cons_True by apply not_elem_of_empty. by rewrite IH.
Qed.

Lemma plain_lines d n c :
  node_as temp_dir d n c → change_text c →
  node_lines env n = (λ kv, PropSet (kv.1) (kv.2)) <$> hash_iter (n_properties n).
Proof.
  intros Hn Hc. unfold node_lines. rewrite plain_deletions, (plain_props _ _ _ Hn), app_nil_r.
  apply list_fmap_ext. intros i [k v] Hkv%list_elem_of_lookup_2%hash_iter_elem. simpl. f_equal.
  rewrite (na_props _ _ _ _ Hn) in Hkv. destruct (c_entry c) as [e|] eqn:He; [|done].
  apply c_str_id. by eapply (ck_values _ _ _ (proj1 Hc)).
Qed.

(** The lines of a node give its properties. *)
Lemma plain_lines_props d n c :
  node_as temp_dir d n c → change_text c → lines_props (node_lines env n) = n_properties n.
Proof.
  intros Hn Hc. rewrite (plain_lines _ _ _ Hn Hc). unfold lines_props.
  rewrite apply_sets by apply hash_iter_nodup. by rewrite hash_iter_to_map, (right_id_L ∅ (∪)).
Qed.

Lemma plain_lines_ok d n c :
  node_as temp_dir d n c → change_text c → Forall line_ok (node_lines env n).
Proof.
  intros Hn Hc. rewrite (plain_lines _ _ _ Hn Hc). apply Forall_fmap, Forall_forall.
  intros [k v] Hkv%hash_iter_elem. rewrite (na_props _ _ _ _ Hn) in Hkv.
  destruct (c_entry c) as [e|] eqn:He; [|done]. split; [|by eapply (ck_values _ _ _ (proj1 Hc))].
  by apply (pf_ok _ Hfit _ (ck_used _ _ _ (proj1 Hc) _ He) _ _ Hkv).
Qed.

Lemma ready_as_copy d n c : node_as temp_dir d n c → as_copy (ready n c) = bool_decide (c_copy c ≠ None).
Proof.
  intros Hn. unfold as_copy, ready. cbn. rewrite (na_copy _ _ _ _ Hn), (na_cp _ _ _ _ Hn).
  by destruct (c_copy c) as [[src rev]|].
Qed.

Lemma copy_source c src rev :
  change_text c → c_copy c = Some (src, rev) →
  source_ok src rev ∧ delta_get_local_copyfrom_path (v_prefix env) src = Some src.
Proof.
  intros [_ (_ & _ & Hc)] Hcopy. destruct (Hc src rev Hcopy) as (Hs & _). split; [done|].
  destruct Hs as (_ & Hh & _). pose proof (pe_whole Henv) as Hw. unfold whole_history in Hw.
  apply andb_true_iff in Hw as [Hp%Nat.eqb_eq%nil_length_inv _].
  unfold delta_get_local_copyfrom_path. rewrite Hp. cbn. unfold strncmp_eq. by rewrite skip_slashes_id.
Qed.

(** Contents are written for the texts that were sent; a copy may do without. *)
Lemma ready_content d n c :
  node_as temp_dir d n c → change_text c →
  (with_content env d (ready n c) = c_text c ∨ c_copy c ≠ None ∧ with_content env d (ready n c) = false) ∧
  ∀ props text, c_entry c = Some (File props text) → c_text c = true →
    node_content svndiff env d (ready n c) = Some text.
Proof.
  intros Hn Hc. split.
  - unfold with_content. rewrite (ready_as_copy _ _ _ Hn).
    change (n_action (ready n c)) with (n_action n). change (n_kind (ready n c)) with (n_kind n).
    change (n_applied_delta (ready n c)) with (n_applied_delta n).
    rewrite (na_applied _ _ _ _ Hn), (na_kind _ _ _ _ Hn), (na_action _ _ _ _ Hn).
    assert (c_text c = true → kind_of (c_entry c) = svn_node_file) as Hk
      by (intros Ht; by destruct (proj1 (proj2 (proj2 Hc)) Ht) as (props & text & ->)).
    assert (bool_decide (kind_of (c_entry c) = svn_node_file) && c_text c = c_text c) as Hb.
    { destruct (c_text c); [by rewrite bool_decide_eq_true_2 by auto|apply andb_false_r]. }
    destruct (c_copy c) as [[src rev]|] eqn:Hcopy; [|left; exact Hb].
    destruct (bool_decide (Some (src, rev) ≠ None) && _) eqn:Hfile; [|left; exact Hb].
    destruct (negb _); [left|by right]. symmetry.
    apply andb_true_iff in Hfile as [_ [_ Hfile]%bool_decide_eq_true].
    destruct (proj2 (proj2 (proj2 Hc)) src rev Hcopy) as (_ & _ & _ & _ & Htext).
    destruct (c_entry c) as [[|props text]|]; [done| |done]. by eapply Htext.
  - intros props text He Ht. unfold node_content. rewrite (pe_deltas Henv).
    change (n_filename (ready n c)) with (n_filename n).
    destruct (na_text _ _ _ _ Hn _ _ He Ht) as (i & -> & _ & _ & Hf).
    cbn [mbind option_bind]. by rewrite Hf.
Qed.

Lemma plain_path path : prefixed env path = path.
Proof. unfold prefixed. by rewrite (pe_prefix Henv). Qed.

Lemma ready_dumpable d n c :
  node_as temp_dir d n c → change_text c →
  dumpable svn_md5_digest_to_cstring svndiff temp_ok env d (ready n c).
Proof.
  intros Hn Hc. pose proof (ready_content _ _ _ Hn Hc) as [Hw Ht]. split.
  - unfold plain_action. change (n_action (ready n c)) with (n_action n). rewrite (na_action _ _ _ _ Hn).
    destruct (c_entry c); [destruct (c_add c)|]; auto.
  - change (n_path (ready n c)) with (n_path n). rewrite plain_path, (na_path _ _ _ _ Hn). apply Hc.
  - exact (plain_lines_ok _ _ _ Hn Hc).
  - intros _. rewrite (ready_as_copy _ _ _ Hn). intros Hcp%bool_decide_eq_true.
    destruct (c_copy c) as [[src rev]|] eqn:Hcopy; [|done].
    destruct (copy_source c src rev Hc Hcopy) as [(_ & _ & Hnl & Hrev) Hloc]. split.
    + unfold ready. cbn. by rewrite Hcopy.
    + exists src. rewrite plain_path. split; [|done]. unfold local_copyfrom.
      change (n_copyfrom_path (ready n c)) with (n_copyfrom_path n).
      by rewrite (na_copy _ _ _ _ Hn), Hcopy.
  - intros [_ Hx]%andb_true_iff. destruct Hw as [Hw|[_ Hw]]; [|congruence]. rewrite Hw in Hx.
    destruct (proj1 (proj2 (proj2 Hc)) Hx) as (props & text & He). rewrite (Ht _ _ He Hx). by eexists.
  - by rewrite (pe_deltas Henv).
  - apply Hdigest.
Qed.

(** The record of a node says what its change is. *)
Lemma ready_says d n c :
  node_as temp_dir d n c → change_text c → says (node_expected svndiff env d (ready n c)) c.
Proof.
  intros Hn Hc. pose proof (ready_content _ _ _ Hn Hc) as [Hw Ht].
  pose proof (ready_as_copy _ _ _ Hn) as Hcp.
  pose proof (na_action _ _ _ _ Hn : n_action (ready n c) = _) as Ha.
  pose proof (na_kind _ _ _ _ Hn : n_kind (ready n c) = _) as Hk.
  pose proof (na_changed _ _ _ _ Hn : n_props_changed (ready n c) = _) as Hch.
  assert (∀ e, c_entry c = Some e → n_action (ready n c) ≠ "D"%char) as Hnd
    by (intros e He; rewrite Ha, He; by destruct (c_add c)).
  assert (∀ e, c_entry c = Some e → with_body env d (ready n c) = false →
    c_copy c ≠ None ∧ with_content env d (ready n c) = false ∧ c_props c = false) as Hbody.
  { intros e He. unfold with_body. rewrite bool_decide_eq_true_2 by by eapply Hnd.
    rewrite Hcp, Hch. cbn [andb]. intros Hb%negb_false_iff.
    apply andb_true_iff in Hb as [[Hb1%bool_decide_eq_true Hb2%negb_true_iff]%andb_true_iff Hb3%negb_true_iff].
    done. }
  unfold node_expected. split; cbn [ni_path ni_copyfrom ni_action ni_kind ni_props ni_text].
  - change (n_path (ready n c)) with (n_path n). by rewrite plain_path, (na_path _ _ _ _ Hn).
  - rewrite Hcp. destruct (c_copy c) as [[src rev]|] eqn:Hcopy; [|by rewrite andb_false_r].
    destruct (copy_source c src rev Hc Hcopy) as [_ Hloc].
    destruct (proj2 (proj2 (proj2 Hc)) src rev Hcopy) as (_ & Hadd & He & _).
    destruct (c_entry c) as [e|] eqn:Hent; [|done].
    rewrite bool_decide_eq_false_2 by by eapply Hnd. cbn [negb andb].
    rewrite bool_decide_eq_true_2 by done. unfold local_copyfrom.
    change (n_copyfrom_path (ready n c)) with (n_copyfrom_path n).
    rewrite (na_copy _ _ _ _ Hn), Hcopy. cbn [fmap option_fmap option_map mbind option_bind fst].
    rewrite Hloc. cbn [default]. rewrite plain_path. unfold ready. cbn. by rewrite Hcopy.
  - rewrite Ha. destruct (c_entry c); [by destruct (c_add c)|done].
  - rewrite Ha, Hk. destruct (c_entry c) as [[|]|]; [destruct (c_add c)..|]; done.
  - intros e He. destruct (with_body env d (ready n c)) eqn:Hb; cbn [andb].
    2:{ destruct (Hbody e He eq_refl) as (? & _ & ?). auto. }
    destruct (with_props env (ready n c)) eqn:Hp.
    + change (node_lines env (ready n c)) with (node_lines env n).
      rewrite (plain_lines_props _ _ _ Hn Hc), (na_props _ _ _ _ Hn). by rewrite He.
    + unfold with_props in Hp. apply orb_false_iff in Hp as [[Hp Hadd]%orb_false_iff _].
      rewrite Hch in Hp. split; [done|left]. rewrite Ha, He in Hadd. by destruct (c_add c).
  - intros props text He. destruct Hw as [Hw|[Hcopy Hw]]; rewrite Hw.
    2:{ right. by rewrite andb_false_r. }
    destruct (with_body env d (ready n c)) eqn:Hb; cbn [andb].
    + left. destruct (c_text c) eqn:Htx; [|done]. by apply (Ht props).
    + right. destruct (Hbody _ He eq_refl) as (? & _ & _). done.
Qed.

(** * Dumping nodes *)

(** From [d] to [d'], only the nodes from [lo] to [hi] may have been dumped: no text that is in use
    is gone. *)
Record dumped_range (lo hi : nat) d d' : Prop := {
  dr_hash : d_delta_hash d' = d_delta_hash d;
  dr_temp : d_temp d' = d_temp d;
  dr_props : d_props d' = d_props d;
  dr_session : d_session d' = d_session d;
  dr_root : d_root d' = d_root d;
  dr_next : d_next d' = d_next d;
  dr_files : ∀ p f, d_delta_hash d !! p = Some f → d_files d' !! f = d_files d !! f;
  dr_nodes : ∀ id, ¬ (lo <= id < hi)%nat → d_nodes d' !! id = d_nodes d !! id;
  dr_kept : kept <$> d_nodes d' = kept <$> d_nodes d;
  dr_repo : repo_ok (d_repo d) s → repo_ok (d_repo d') s;
  dr_dumped : ∀ p, is_Some (d_dumped d !! p) → is_Some (d_dumped d' !! p)
}.

#[local] Instance dumped_range_preorder lo hi : PreOrder (dumped_range lo hi).
Proof.
  split; [by intros d|]. intros x y z [] []. split; try congruence; auto.
  - intros p f Hf. rewrite (dr_files1 p f) by congruence. by eapply dr_files0.
  - intros id Hid. by rewrite dr_nodes1, dr_nodes0.
Qed.

Lemma dumped_range_wider lo hi lo' hi' d d' :
  dumped_range lo hi d d' → (lo' <= lo)%nat → (hi <= hi')%nat → dumped_range lo' hi' d d'.
Proof. intros [] ? ?. split; try done. intros id Hid. apply dr_nodes0. lia. Qed.

Lemma dumped_shape lo hi d d' : dumped_range lo hi d d' → same_shape d d'.
Proof.
  intros []. split_and!; [done..|].
  apply (f_equal (fmap (λ k : bytes * ascii * option bytes * option bytes * Z * option nat * list nat,
    (k.1.2, k.2)))) in dr_kept0.
  by rewrite <-!map_fmap_compose in dr_kept0.
Qed.

Lemma node_as_dumped lo hi d d' n c : dumped_range lo hi d d' → node_as temp_dir d n c → node_as temp_dir d' n c.
Proof.
  intros [] []. split; try done.
  - intros props text He Ht. destruct (na_text props text He Ht) as (i & ? & ? & Hh & ?).
    exists i. rewrite dr_hash0, dr_temp0. split_and!; try done. by rewrite (dr_files0 _ _ Hh).
  - intros f Hf. destruct (na_old f Hf) as [? ?]. split; [by rewrite dr_temp0|by rewrite dr_hash0].
Qed.

Lemma fmap_lookup_same {A} (f : de_node → A) (m m' : gmap nat de_node) id n :
  f <$> m' = f <$> m → m !! id = Some n → ∃ n', m' !! id = Some n' ∧ f n' = f n.
Proof.
  intros Hc Hn. assert ((f <$> m') !! id = Some (f n)) as Hn' by (rewrite Hc, lookup_fmap, Hn; done).
  rewrite lookup_fmap in Hn'. apply fmap_Some in Hn' as (n' & ? & ?). eauto.
Qed.

(** The records of some changes have been written. *)
Definition reported (l : list change) d d' : Prop :=
  ∃ nodes out, d_out d' = d_out d ++ out ∧ stream (NodeItem <$> nodes) out ∧ report nodes l.

Lemma reported_none l d d' : d_out d' = d_out d → report [] l → reported l d d'.
Proof. intros Ho Hl. exists [], []. rewrite app_nil_r. split_and!; [done|apply stream_nil|done]. Qed.

Lemma reported_app l1 l2 d d1 d2 : reported l1 d d1 → reported l2 d1 d2 → reported (l1 ++ l2) d d2.
Proof.
  intros (n1 & o1 & E1 & S1 & R1) (n2 & o2 & E2 & S2 & R2). exists (n1 ++ n2), (o1 ++ o2).
  split_and!; [by rewrite E2, E1, app_assoc|rewrite fmap_app; by apply stream_app|by apply report_app].
Qed.

(** A node whose copy source has been settled is written. *)
Lemma checked_done id d n c :
  d_nodes d !! id = Some (ready n c) → node_as temp_dir d n c → change_text c → printed c = true →
  ∃ d', dump_checked id d = Done d' tt ∧
    dumped_range id (S id) d d' ∧ reported [c] d d' ∧ is_Some (d_dumped d' !! c_path c) ∧
    core <$> d_nodes d' = core <$> d_nodes d.
Proof.
  intros Hn Has Hc Hprint. pose proof (ready_dumpable _ _ _ Has Hc) as Hd.
  destruct (run_dump_checked _ _ _ _ d id _ Hn Hd) as (d' & Hrun & Hout & Hdumped & _ & n0 & Hns & _).
  exists d'. split; [exact Hrun|].
  destruct (dump_checked_ends id d d' Hrun)
    as (d1 & n1 & (Hcore & Hh & Ht & Hp & Hs & Hr & Hf & Hre & Hnx) & Hn1 & Hd').
  assert (d_nodes d' = d_nodes d1 ∧ d_delta_hash d' = d_delta_hash d1 ∧ d_temp d' = d_temp d1 ∧
    d_props d' = d_props d1 ∧ d_session d' = d_session d1 ∧ d_root d' = d_root d1 ∧
    d_repo d' = d_repo d1 ∧ d_next d' = d_next d1) as (E1&E2&E3&E4&E5&E6&E7&E8)
    by (subst d'; by destruct (n_old_filename n1)).
  assert (core <$> d_nodes d' = core <$> d_nodes d) as Hcore' by congruence.
  split_and!; [| | |done].
  - split; try congruence.
    + intros p f Hpf. subst d'. destruct (n_old_filename n1) as [g|] eqn:Hg; simpl; [|by rewrite Hf].
      rewrite Hf. apply lookup_delete_ne. intros ->.
      destruct (fmap_lookup_same core _ _ _ _ Hcore Hn) as (n1' & Hn1' & Hc1). rewrite Hn1 in Hn1'.
      injection Hn1' as <-. apply (f_equal (λ k, k.1.1.1.1.1.2)) in Hc1. cbn in Hc1. rewrite Hg in Hc1.
      by eapply (na_old _ _ _ _ Has _ (eq_sym Hc1)).
    + intros j Hj. rewrite Hns. apply lookup_insert_ne. lia.
    + apply (f_equal (fmap fst)) in Hcore'. by rewrite <-!map_fmap_compose in Hcore'.
    + intros p Hpd. rewrite Hdumped. apply lookup_insert_is_Some'. by right.
  - exists [node_expected svndiff env d (ready n c)]. eexists. split; [exact Hout|]. split.
    + exact (stream_chunk _ _ (record_chunk svn_path_dirname _ _ _ _ _ _ Hd)).
    + apply report_cons; [done|by apply ready_says|constructor].
  - rewrite Hdumped. change (n_path (ready n c)) with (n_path n).
    rewrite (na_path _ _ _ _ Has), lookup_insert_eq. by eexists.
Qed.

Lemma not_skipped d n c :
  node_as temp_dir d n c → touched c = true → dump_skipped env n = false.
Proof.
  intros Has Hprint. unfold dump_skipped. rewrite (pe_dry Henv), (na_cp _ _ _ _ Has), orb_false_r.
  cbn [orb]. apply andb_false_iff. destruct (bool_decide _) eqn:Hm; [right|by left].
  apply bool_decide_eq_true in Hm as [Ha Hk]. apply negb_false_iff.
  rewrite (na_changed _ _ _ _ Has). rewrite (na_action _ _ _ _ Has) in Ha.
  rewrite (na_kind _ _ _ _ Has) in Hk. unfold touched in Hprint.
  destruct (c_entry c) as [[|]|]; [|done..]. by destruct (c_add c).
Qed.

Lemma put_ready id d n c :
  d_nodes d !! id = Some n →
  dumped_range id (S id) d (put_nodes d (<[id := ready n c]> (d_nodes d))).
Proof.
  intros Hn. split; try done.
  - intros j Hj. simpl. apply lookup_insert_ne. lia.
  - simpl. rewrite fmap_insert. apply insert_id. by rewrite lookup_fmap, Hn.
Qed.

(** A node, written or not, after which it knows whether it is a copy. *)
Lemma node_done id d n c :
  d_nodes d !! id = Some n → node_as temp_dir d n c → change_text c → c_below c = false →
  ∃ d' n', dump_node 2 id d = Done d' tt ∧ dumped_range id (S id) d d' ∧ reported [c] d d' ∧
    (c_entry c = None → is_Some (d_dumped d' !! c_path c)) ∧
    d_nodes d' !! id = Some n' ∧ kept n' = kept n ∧ n_cp_info n' = n_cp_info (ready n c).
Proof.
  intros Hn Has Hc Hb. destruct (printed c) eqn:Hprint; unfold printed in Hprint;
    rewrite Hb, andb_true_r in Hprint.
  - pose proof (settles_pure svn_path_dirname env d id n Hn (or_introl (pe_whole Henv))) as Hset.
    rewrite (check_copy_ready _ _ _ Has) in Hset.
    set (d1 := put_nodes d (<[id := ready n c]> (d_nodes d))) in *.
    pose proof (put_ready id d n c Hn) as Hr1. fold d1 in Hr1.
    assert (d_nodes d1 !! id = Some (ready n c)) as Hn1 by apply lookup_insert_eq.
    assert (printed c = true) as Hpr by (unfold printed; by rewrite Hprint, Hb).
    destruct (checked_done id d1 n c Hn1 (node_as_dumped _ _ _ _ _ _ Hr1 Has) Hc Hpr)
      as (d' & Hrun & Hr & Ho & Hd & Hcore).
    destruct (fmap_lookup_same core _ _ _ _ Hcore Hn1) as (n' & Hn' & Heq). exists d', n'. split.
    { rewrite (run_checks _ _ _ _ _ d id n d1 (ready n c) 1 Hn);
        [|by rewrite (na_needed _ _ _ _ Has)|by eapply not_skipped|exact Hset].
      rewrite bool_decide_eq_false_2; [exact Hrun|]. change (n_action (ready n c)) with (n_action n).
      rewrite (na_action _ _ _ _ Has). by destruct (c_entry c), (c_add c). }
    split; [by etrans|]. split; [exact Ho|]. split; [done|]. split; [done|].
    unfold core in Heq. injection Heq as E1 E2 E3 E4 E5 E6 E7 E8. split; [|done].
    unfold kept. by rewrite E1, E2, E3, E4, E5, E6, E7.
  - exists d, n. split.
    { cbn [delta_dump_node]. rewrite (run_bind _ _ _ _ _ (run_node_get _ _ _ Hn)).
      by rewrite (na_needed _ _ _ _ Has), Hprint. }
    split; [reflexivity|]. split.
    { apply reported_none; [done|]. apply report_skip; [|constructor]. unfold printed. by rewrite Hprint. }
    split; [intros Hd; unfold touched in Hprint; by rewrite Hd in Hprint|].
    split_and!; [done..|]. unfold ready. cbn.
    destruct (c_copy c) as [[src rev]|] eqn:Hcopy; [|done]. exfalso.
    destruct (proj2 (proj2 (proj2 Hc)) src rev Hcopy) as (_ & Hadd & He & _).
    unfold touched in Hprint. destruct (c_entry c) as [[|]|]; [..|done]; by rewrite Hadd in Hprint.
Qed.

(** * Dumping trees *)

(** The nodes from [next] on are those of some changes. *)
Definition placed d (next : nat) (l : list change) : Prop :=
  ∀ i c, l !! i = Some c → ∃ n, d_nodes d !! (next + i)%nat = Some n ∧ node_as temp_dir d n c.

Lemma placed_cons d next c l :
  placed d next (c :: l) → (∃ n, d_nodes d !! next = Some n ∧ node_as temp_dir d n c) ∧ placed d (S next) l.
Proof.
  intros Hp. split.
  - destruct (Hp 0%nat c eq_refl) as (n & Hn & ?). rewrite Nat.add_0_r in Hn. eauto.
  - intros i c' Hc'. destruct (Hp (S i) c' Hc') as (n & Hn & ?). exists n. split; [|done].
    rewrite <-Hn. f_equal. lia.
Qed.

Lemma placed_app d next l1 l2 :
  placed d next (l1 ++ l2) → placed d next l1 ∧ placed d (next + length l1) l2.
Proof.
  intros Hp. split.
  - intros i c Hc. apply Hp. by apply lookup_app_l_Some.
  - intros i c Hc. destruct (Hp (length l1 + i)%nat c) as (n & Hn & ?).
    { rewrite lookup_app_r by lia. by replace (length l1 + i - length l1)%nat with i by lia. }
    exists n. split; [|done]. rewrite <-Hn. f_equal. lia.
Qed.

Lemma placed_dumped lo hi d d' next l :
  dumped_range lo hi d d' → (hi <= next)%nat → placed d next l → placed d' next l.
Proof.
  intros Hd Hle Hp i c Hc. destruct (Hp i c Hc) as (n & Hn & Has). exists n.
  split; [|by eapply node_as_dumped]. rewrite <-Hn. apply (dr_nodes _ _ _ _ Hd). lia.
Qed.

Lemma forest_dumped lo hi d d' next e :
  dumped_range lo hi d d' → (hi <= next)%nat → forest d next e → forest d' next e.
Proof.
  intros Hd Hle Hf. eapply forest_same; [|exact Hf]. intros id Hid. f_equal.
  apply (dr_nodes _ _ _ _ Hd). lia.
Qed.

Abbreviation dump_child k id := (λ child, _ ← delta_propagate_copy env id child; dump_tree k child).

(** A node that is not deleted is dumped before its children. *)
Lemma tree_walk k id d d1 d2 n n1 :
  d_nodes d !! id = Some n → n_action n ≠ "D"%char → dump_node 2 id d = Done d1 tt →
  d_nodes d1 !! id = Some n1 → n_action n1 ≠ "D"%char →
  for_each (n_children n1) (dump_child k id) d1 = Done d2 tt → d_nodes d2 !! id = Some n1 →
  dump_tree (S k) id d = Done d2 tt.
Proof.
  intros Hn Ha Hdump Hn1 Ha1 Hfor Hn2. cbn [delta_dump_node_recursive].
  rewrite (run_bind _ _ _ _ _ (run_node_get _ _ _ Hn)), bool_decide_eq_true_2 by done. cbn [when].
  rewrite (run_bind _ _ _ _ _ Hdump), (run_bind _ _ _ _ _ (run_node_get _ _ _ Hn1)).
  rewrite (run_bind _ _ _ _ _ Hfor), (run_bind _ _ _ _ _ (run_node_get _ _ _ Hn2)).
  by rewrite bool_decide_eq_false_2.
Qed.

(** ** What is below a copy *)

Lemma copied_from_kept d d' o r :
  kept <$> d_nodes d' = kept <$> d_nodes d → copied_from d o r →
  ∃ r', copied_from d' o r' ∧ kept <$> r' = kept <$> r.
Proof.
  intros Hk. induction 1 as [|id n Hn Hc|id n r Hn Hc _ (r' & Hr' & Heq)].
  - exists None. split; [constructor|done].
  - destruct (fmap_lookup_same kept _ _ _ _ Hk Hn) as (n' & Hn' & Hkn). exists (Some n').
    split; [|cbn; by rewrite Hkn]. apply copied_here; [done|].
    apply (f_equal (λ k, k.1.1.1.2)) in Hkn. cbn in Hkn. by rewrite Hkn.
  - destruct (fmap_lookup_same kept _ _ _ _ Hk Hn) as (n' & Hn' & Hkn). exists r'. split; [|done].
    pose proof (f_equal (λ k, k.1.1.1.2) Hkn) as Hkc. pose proof (f_equal (λ k, k.1.2) Hkn) as Hkp.
    cbn in Hkc, Hkp. eapply copied_up; [exact Hn'|by rewrite Hkc|by rewrite Hkp].
Qed.

Lemma copied_from_unique d o r1 r2 : copied_from d o r1 → copied_from d o r2 → r1 = r2.
Proof.
  intros Hr1. revert r2. induction Hr1 as [|id n Hn Hc|id n r Hn Hc _ IH]; intros r2 Hr2;
    inversion Hr2; simplify_eq; first [done|by apply IH].
Qed.

(** The copy above the node [id] is that of the path [p], with the source [src] in the revision
    [rev]. *)
Definition from_source d id (p src : bytes) (rev : Z) : Prop :=
  ∃ cp, copied_from d (Some id) (Some cp) ∧ n_path cp = p ∧ n_copyfrom_path cp = Some src ∧
    n_copyfrom_revision cp = rev.

Lemma from_source_kept d d' id p src rev :
  kept <$> d_nodes d' = kept <$> d_nodes d → from_source d id p src rev → from_source d' id p src rev.
Proof.
  intros Hk (cp & Hcp & Hp & Hs & Hr). destruct (copied_from_kept _ _ _ _ Hk Hcp) as (r & Hr' & Heq).
  destruct r as [cp'|]; [|done]. cbn in Heq. injection Heq as E1 _ _ E2 E3 _ _. exists cp'.
  split; [done|]. by rewrite E1, E2, E3.
Qed.

(** Propagation changes the copy information of one node. *)
Definition aside d d' : Prop :=
  d_delta_hash d' = d_delta_hash d ∧ d_temp d' = d_temp d ∧ d_props d' = d_props d ∧
  d_session d' = d_session d ∧ d_files d' = d_files d ∧ d_dumped d' = d_dumped d.

#[local] Instance aside_preorder : PreOrder aside.
Proof.
  split; [by intros d|]. intros x y z (?&?&?&?&?&?) (?&?&?&?&?&?). unfold aside. split_and!; congruence.
Qed.

Lemma node_get_aside id : keeps aside (node_get id).
Proof. unfold node_get. keeps_tac. Qed.

Lemma node_upd_aside id f : keeps aside (node_upd id f).
Proof. intros d. unfold node_upd, node_get, lift, mbind, M_bind. cbn. by destruct (d_nodes d !! id). Qed.

Lemma check_parent_aside p c r : keeps aside (repo_check_parent p c r).
Proof. intros d. unfold repo_check_parent. destruct path_repo_check_parent as [[]|]; [by split_and!|done]. Qed.
#[local] Hint Resolve node_get_aside node_upd_aside check_parent_aside : keeps.

Lemma check_levels_aside k p b r : keeps aside (check_levels k p b r).
Proof. revert b. induction k as [|k IH]; intros b; simpl; keeps_tac. Qed.

Lemma copied_parent_aside k o : keeps aside (copied_parent k o).
Proof. revert o. induction k as [|k IH]; intros o; simpl; keeps_tac. Qed.
#[local] Hint Resolve check_levels_aside copied_parent_aside : keeps.

Lemma propagate_aside p c : keeps aside (delta_propagate_copy env p c).
Proof. unfold delta_propagate_copy. keeps_tac. Qed.

Lemma put_cp_range id d d' n cp :
  d_nodes d !! id = Some n → aside d d' → same_shape d d' →
  d_nodes d' = <[id := set_cp_info n cp]> (d_nodes d) → (repo_ok (d_repo d) s → repo_ok (d_repo d') s) →
  dumped_range id (S id) d d'.
Proof.
  intros Hn (?&?&?&?&Hf&Hd) (? & ? & _) Hns Hrepo. split; try done.
  - intros p f _. by rewrite Hf.
  - intros j Hj. rewrite Hns. apply lookup_insert_ne. lia.
  - rewrite Hns, fmap_insert. apply insert_id. by rewrite lookup_fmap, Hn.
  - intros p Hp. by rewrite Hd.
Qed.

Section below.
Variables (p src : bytes) (rev : Z) (source : tree).

Hypothesis Hsource : past !! rev = Some source.
Hypothesis Hlocal : delta_get_local_copyfrom_path (v_prefix env) src = Some src.

(** The counterpart of a change is in the source. *)
Definition in_source (c : change) : Prop :=
  ∃ r, c_path c = p ++ slash :: r ∧ head r ≠ Some slash ∧ is_Some (source !! (src ++ slash :: r)).

Lemma levels_known r :
  is_Some (source !! (src ++ slash :: r)) → Forall (λ q, q ∈ sp_hist s rev) (levels (src ++ slash :: r)).
Proof.
  intros Hr. rewrite (proj1 (rc_hist _ _ (pk_recorded Hpast) _ _ Hsource)). unfold levels.
  apply Forall_fmap, Forall_forall. intros i [[_ Hi] _]%list_elem_of_filter. cbn.
  apply elem_of_dom. destruct Hi as [->|Hi]; [by rewrite firstn_all|].
  eapply (rc_closed _ _ (pk_recorded Hpast) _ _ Hsource); [exact Hr|]. exists (drop (S i) (src ++ slash :: r)).
  rewrite <-app_assoc. cbn [app]. symmetry. by apply take_drop_middle.
Qed.

(** Below the copy everything is a part of it. *)
Lemma propagated_below np n c cp :
  n_cp_info np = CPI_COPY → cstr (n_path np) → n_path np `prefix_of` n_path n → n_path n = c_path c →
  in_source c → n_path cp = p → n_copyfrom_path cp = Some src → n_copyfrom_revision cp = rev →
  propagated env s np n (Some cp) = CPI_COPY.
Proof.
  intros Hnp Hcstr Hpre Hpath (r & Hc & Hhead & Hr) Hcp Hcf Hcr. unfold propagated.
  rewrite Hnp, (proj2 (strncmp_eq_prefix _ _ Hcstr) Hpre). cbn [negb Z.eqb Pos.eqb CPI_COPY].
  change (negb (CPI_COPY =? CPI_COPY)) with false. cbv iota.
  unfold source_path. rewrite Hcf. cbn [mbind option_bind]. rewrite Hlocal. cbn [mbind option_bind].
  rewrite Hpath, Hc, Hcp, drop_app_length. change (skip_slashes (slash :: r)) with (skip_slashes r).
  rewrite skip_slashes_id by done. unfold source_rev. rewrite Hcr, (pk_local Hpast _ _ Hsource).
  rewrite decide_True; [done|]. by apply levels_known.
Qed.

Lemma propagate_below d parent np id n c :
  tree_ok d → repo_ok (d_repo d) s → d_nodes d !! parent = Some np → n_cp_info np = CPI_COPY →
  cstr (n_path np) → n_path np `prefix_of` c_path c → from_source d parent p src rev →
  d_nodes d !! id = Some n → n_path n = c_path c → in_source c →
  ∃ d', delta_propagate_copy env parent id d = Done d' tt ∧
    dumped_range id (S id) d d' ∧ d_out d' = d_out d ∧
    d_nodes d' = <[id := set_cp_info n CPI_COPY]> (d_nodes d).
Proof.
  intros Hok Hrepo Hp Hcp Hcstr Hpre (cp & Hfrom & Hcpp & Hcps & Hcpr) Hn Hpath Hin.
  destruct (run_propagate env d s parent np id n (tree_nodes _ Hok) Hrepo Hp Hn)
    as (r & d' & Hr & Hrun & Hns & Hinv & Hout).
  { intros cp' Hcp'. assert (Some cp' = Some cp) as [= ->] by by eapply copied_from_unique.
    unfold source_rev. rewrite Hcpr, (pk_local Hpast _ _ Hsource).
    apply (rc_hist _ _ (pk_recorded Hpast) _ _ Hsource). }
  assert (r = Some cp) as -> by by eapply copied_from_unique.
  rewrite (propagated_below np n c cp) in Hns by (done || by rewrite Hpath).
  exists d'. split; [done|]. split; [|done]. eapply put_cp_range; [exact Hn| | |exact Hns|done].
  - apply (keeps_done _ _ _ _ _ (propagate_aside _ _) Hrun).
  - apply (keeps_done _ _ _ _ _ (propagate_shaped _ _ _) Hrun).
Qed.

(** Nothing is written of a node below a copy; it takes part in the copy as well. *)
Lemma hidden_node id d n :
  d_nodes d !! id = Some n → n_cp_info n = CPI_COPY → n_action n = "A"%char →
  n_copyfrom_path n = None → n_dump_needed n = true →
  ∃ d', dump_node 2 id d = Done d' tt ∧ dumped_range id (S id) d d' ∧ d_out d' = d_out d ∧
    d_nodes d' !! id = Some (set_dump_needed n false).
Proof.
  intros Hn Hcp Ha Hcf Hneed. cbn [delta_dump_node].
  rewrite (run_bind _ _ _ _ _ (run_node_get _ _ _ Hn)), Hneed. cbn [negb].
  assert (dump_skipped env n = true) as Hskip.
  { unfold dump_skipped. rewrite Hcp, (bool_decide_eq_true_2 (_ ∧ n_copyfrom_path n = None)) by done.
    by rewrite orb_true_r. }
  rewrite Hskip, (run_node_upd _ _ _ _ Hn). eexists. split; [done|].
  split; [|split; [done|apply lookup_insert_eq]]. split; try done.
  - intros j Hj. simpl. apply lookup_insert_ne. lia.
  - simpl. rewrite fmap_insert. apply insert_id. by rewrite lookup_fmap, Hn.
Qed.

(** What is known of a directory below the copy, and of the copied one. *)
Record below_copy d (parent : nat) np : Prop := {
  bc_tree : tree_ok d;
  bc_repo : repo_ok (d_repo d) s;
  bc_node : d_nodes d !! parent = Some np;
  bc_cp : n_cp_info np = CPI_COPY;
  bc_cstr : cstr (n_path np);
  bc_from : from_source d parent p src rev
}.

Lemma below_copy_dumped lo hi d d' parent np :
  dumped_range lo hi d d' → ¬ (lo <= parent < hi)%nat → below_copy d parent np → below_copy d' parent np.
Proof.
  intros Hr Hlt []. split; try done.
  - by eapply shape_tree; [eapply dumped_shape|].
  - by apply (dr_repo _ _ _ _ Hr).
  - by rewrite (dr_nodes _ _ _ _ Hr).
  - by eapply from_source_kept; [apply (dr_kept _ _ _ _ Hr)|].
Qed.

(** The first of the nodes below: what is left to be done are its children and the other nodes. *)
Lemma hidden_first parent np id n c d :
  hidden c → in_source c → below_copy d parent np → id ∈ n_children np →
  n_path np `prefix_of` c_path c → cstr (c_path c) →
  d_nodes d !! id = Some n → node_as temp_dir d n c →
  ∃ n1 d1, dumped_range id (S id) d d1 ∧ d_out d1 = d_out d ∧
    below_copy d1 id n1 ∧ kept n1 = kept n ∧
    ∀ k d2 ids, for_each (n_children n1) (dump_child k id) d1 = Done d2 tt → d_nodes d2 !! id = Some n1 →
      for_each (id :: ids) (dump_child (S k) parent) d = for_each ids (dump_child (S k) parent) d2.
Proof.
  intros (_ & Hadd & Hcopy & Hent) Hin Hb Hchild Hpre Hcstr Hn Has.
  pose proof (na_action _ _ _ _ Has) as Ha. rewrite Hadd in Ha.
  assert (n_action n = "A"%char) as HA by by destruct (c_entry c). clear Ha.
  destruct (propagate_below d parent np id n c) as (d0 & Hprop & Hr0 & Ho0 & Hns0); try apply Hb; try done;
    [apply Has|]. set (n0 := set_cp_info n CPI_COPY) in *.
  assert (d_nodes d0 !! id = Some n0) as Hn0 by (rewrite Hns0; apply lookup_insert_eq).
  destruct (hidden_node id d0 n0) as (d1 & Hdump & Hr1 & Ho1 & Hn1); try done.
  1:{ change (n_copyfrom_path n = None). by rewrite (na_copy _ _ _ _ Has), Hcopy. }
  1:{ change (n_dump_needed n = true). rewrite (na_needed _ _ _ _ Has). unfold touched.
      destruct (c_entry c) as [[|]|]; [by rewrite Hadd..|done]. }
  set (n1 := set_dump_needed n0 false) in *.
  assert (dumped_range id (S id) d d1) as Hr by by etrans.
  exists n1, d1. split_and!; try done; [by rewrite Ho1| |].
  - destruct Hb as [Hok Hrepo Hp Hcp _ Hfrom]. split; try done.
    + by eapply shape_tree; [eapply dumped_shape|].
    + by apply (dr_repo _ _ _ _ Hr).
    + change (cstr (n_path n)). by rewrite (na_path _ _ _ _ Has).
    + destruct (tree_child _ Hok _ _ _ Hp Hchild) as (cn & Hcn & Hpar). assert (cn = n) as -> by congruence.
      destruct (from_source_kept _ d1 _ _ _ _ (dr_kept _ _ _ _ Hr) Hfrom) as (cp & Hcp' & ?).
      exists cp. split; [|done]. eapply copied_up; [exact Hn1| |].
      * change (n_copyfrom_path n = None). by rewrite (na_copy _ _ _ _ Has), Hcopy.
      * change (copied_from d1 (n_parent n) (Some cp)). by rewrite Hpar.
  - intros k d2 ids Hfor Hn2.
    assert (n_action n0 ≠ "D"%char) as Hnd by (change (n_action n ≠ "D"%char); by rewrite HA).
    pose proof (tree_walk k id d0 d1 d2 n0 n1 Hn0 Hnd Hdump Hn1 Hnd Hfor Hn2) as Htree.
    cbn [for_each]. erewrite run_bind; [reflexivity|]. by rewrite (run_bind _ _ _ _ _ Hprop).
Qed.

Lemma dumps_hidden svn_property_regular dir e t l t' :
  applies svn_property_regular past true dir e t l t' →
  ∀ k parent np next d,
    below_copy d parent np → n_path np = dir → (∀ id, id ∈ kids next e → id ∈ n_children np) →
    (parent < next)%nat → placed d next l → Forall in_source l → forest d next e →
    (edit_size e <= k)%nat →
    ∃ d', for_each (kids next e) (dump_child k parent) d = Done d' tt ∧
      dumped_range next (next + edit_size e) d d' ∧ d_out d' = d_out d.
Proof.
  intros He. pose proof (applies_hidden _ _ _ _ _ _ _ He) as Hhid. revert Hhid.
  remember true as below eqn:Hbelow. revert Hbelow.
  induction He as [| dir name r t e l t' Hn Hp _ IH|below dir h name sent inner r t props l1 t1 l2 t2 q
    new Hn Hp Hi IHi _ _ IHr|below dir copy name sent text r t l t' q new Hn Hp Hb' _ _ IH|
    dir name sent delta r t props old l t' q new Hn Hp _ IH];
    intros Hbelow Hhid k parent np next d Hbc Hpath Hch Hlt Hpl Hsrc Hf Hk; try done; subst below;
    [by exists d|..];
    apply Forall_cons in Hhid as [Hc Hhid]; apply Forall_cons in Hsrc as [Hin Hsrc];
    assert (n_path np `prefix_of` child dir name) as Hpre
      by (rewrite Hpath; destruct dir as [|a dir]; [apply prefix_nil|rewrite child_cons by done; by apply prefix_app_r]);
    assert (cstr (child dir name)) as Hcstr by (apply child_cstr; [done|rewrite <-Hpath; apply Hbc]).
  - cbn [kids forest edit_size] in *. destruct Hf as ((n & Hnode & Hkids) & Hfi & Hfr).
    apply placed_cons in Hpl as [(n' & Hn' & Has) [Hpi Hpr]%placed_app].
    assert (n' = n) as -> by congruence. rewrite (applies_size _ _ _ _ _ _ _ _ Hi) in Hpr.
    apply Forall_app in Hhid as [Hhid1 Hhid2]. apply Forall_app in Hsrc as [Hsrc1 Hsrc2].
    destruct k as [|k]; [lia|].
    destruct (hidden_first parent np next n _ d Hc Hin Hbc (Hch next ltac:(by left)) Hpre Hcstr Hnode Has)
      as (n1 & d1 & Hr1 & Ho1 & Hbc1 & Hk1 & Hrest).
    assert (n_children n1 = n_children n ∧ n_path n1 = n_path n) as [Hch1 Hpath1]
      by (injection Hk1; auto).
    assert (h = Added) as -> by (destruct h; cbn in Hp; destruct (t !! q) as [[]|]; done).
    destruct (IHi eq_refl Hhid1 k next n1 (S next) d1) as (d2 & Hfor & Hr2 & Ho2); try done; try lia.
    { by rewrite Hpath1, (na_path _ _ _ _ Has). }
    { by rewrite Hch1, Hkids. }
    { by eapply placed_dumped. }
    { by eapply forest_dumped. }
    assert (dumped_range next (S next + edit_size inner) d d2) as Hr12.
    { etrans; [eapply dumped_range_wider; [exact Hr1|lia..]|].
      eapply dumped_range_wider; [exact Hr2|lia..]. }
    destruct (IHr eq_refl Hhid2 (S k) parent np (S next + edit_size inner)%nat d2)
      as (d' & Hfor' & Hr3 & Ho3); try done; try lia.
    { eapply below_copy_dumped; [exact Hr12|lia|done]. }
    { intros id Hid. apply Hch. by right. }
    { by eapply placed_dumped. }
    { by eapply forest_dumped. }
    exists d'. split; [|split; [|by rewrite Ho3, Ho2]].
    + rewrite (Hrest k d2); [exact Hfor'|by rewrite Hch1, Hkids|].
      rewrite (dr_nodes _ _ _ _ Hr2) by lia. apply Hbc1.
    + etrans; [eapply dumped_range_wider; [exact Hr12|lia..]|].
      eapply dumped_range_wider; [exact Hr3|lia..].
  - cbn [kids forest edit_size] in *. destruct Hf as ((n & Hnode & Hkids) & Hfr).
    apply placed_cons in Hpl as [(n' & Hn' & Has) Hpr]. assert (n' = n) as -> by congruence.
    destruct k as [|k]; [lia|].
    destruct (hidden_first parent np next n _ d Hc Hin Hbc (Hch next ltac:(by left)) Hpre Hcstr Hnode Has)
      as (n1 & d1 & Hr1 & Ho1 & Hbc1 & Hk1 & Hrest).
    assert (n_children n1 = []) as Hch1 by (rewrite <-Hkids; by injection Hk1).
    destruct (IH eq_refl Hhid (S k) parent np (S next) d1) as (d' & Hfor & Hr3 & Ho3); try done; try lia.
    { eapply below_copy_dumped; [exact Hr1|lia|done]. }
    { intros id Hid. apply Hch. by right. }
    { by eapply placed_dumped. }
    { by eapply forest_dumped. }
    exists d'. split; [|split; [|by rewrite Ho3]].
    + rewrite (Hrest k d1); [exact Hfor|by rewrite Hch1|apply Hbc1].
    + etrans; [eapply dumped_range_wider; [exact Hr1|lia..]|].
      eapply dumped_range_wider; [exact Hr3|lia..].
Qed.

End below.

(** ** What is written *)

(** A node that has been written, with its children still to come. *)
Record written d (id : nat) n (c : change) : Prop := {
  wr_tree : tree_ok d;
  wr_repo : repo_ok (d_repo d) s;
  wr_node : d_nodes d !! id = Some n;
  wr_path : n_path n = c_path c;
  wr_copy : n_copyfrom_path n = fst <$> c_copy c;
  wr_rev : ∀ src rev, c_copy c = Some (src, rev) → n_copyfrom_revision n = rev;
  wr_cp : n_cp_info n = from_option (λ _, CPI_COPY) CPI_NONE (c_copy c)
}.

Lemma written_done id d d' n n' c :
  tree_ok d → repo_ok (d_repo d) s → dumped_range id (S id) d d' → node_as temp_dir d n c →
  d_nodes d' !! id = Some n' → kept n' = kept n → n_cp_info n' = n_cp_info (ready n c) →
  written d' id n' c.
Proof.
  intros Hok Hrepo Hr Has Hn' Hk Hcp. injection Hk as E1 _ _ E2 E3 _ _. split; try done.
  - by eapply shape_tree; [eapply dumped_shape|].
  - by apply (dr_repo _ _ _ _ Hr).
  - by rewrite E1, (na_path _ _ _ _ Has).
  - by rewrite E2, (na_copy _ _ _ _ Has).
  - intros src rev Hc. rewrite E3. by eapply (na_copyrev _ _ _ _ Has).
  - rewrite Hcp. unfold ready. cbn. by rewrite (na_cp _ _ _ _ Has).
Qed.

(** A node and what is left to be done for its children. *)
Lemma tree_done id d n c :
  tree_ok d → repo_ok (d_repo d) s → d_nodes d !! id = Some n → node_as temp_dir d n c →
  change_text c → c_below c = false → (c_entry c = None → n_children n = []) →
  ∃ d1 n1, dumped_range id (S id) d d1 ∧ reported [c] d d1 ∧
    (c_entry c = None → is_Some (d_dumped d1 !! c_path c)) ∧
    written d1 id n1 c ∧ n_children n1 = n_children n ∧
    ∀ k d2, for_each (n_children n) (dump_child k id) d1 = Done d2 tt → d_nodes d2 !! id = Some n1 →
      dump_tree (S k) id d = Done d2 tt.
Proof.
  intros Hok Hrepo Hn Has Hc Hb Hch.
  destruct (node_done _ _ _ _ Hn Has Hc Hb) as (d1 & n1 & Hdump & Hr1 & Ho1 & Hd1 & Hn1 & Hk1 & Hcp1).
  pose proof (written_done _ _ _ _ _ _ Hok Hrepo Hr1 Has Hn1 Hk1 Hcp1) as Hw.
  injection Hk1 as _ Ha1 _ _ _ _ Hch1. exists d1, n1. do 5 (split; [done|]). intros k d2 Hfor Hn2.
  pose proof (na_action _ _ _ _ Has) as Ha. destruct (c_entry c) as [e|] eqn:He.
  - assert (n_action n ≠ "D"%char) as Hnd by (rewrite Ha; by destruct (c_add c)).
    apply (tree_walk k id d d1 d2 n n1); [done..|by rewrite Ha1|by rewrite Hch1|done].
  - rewrite Hch in Hfor by done. injection Hfor as <-. cbn [delta_dump_node_recursive].
    rewrite (run_bind _ _ _ _ _ (run_node_get _ _ _ Hn)).
    rewrite bool_decide_eq_false_2 by (intros Hnd; by apply Hnd). cbn [when].
    rewrite (run_bind _ _ d d tt), (run_bind _ _ _ _ _ (run_node_get _ _ _ Hn)), Hch by done.
    rewrite (run_bind _ _ d d tt), (run_bind _ _ _ _ _ (run_node_get _ _ _ Hn)) by done.
    by rewrite bool_decide_eq_true_2.
Qed.

(** A directory that was neither copied nor is below a copy. *)
Record plain_dir d (parent : nat) np : Prop := {
  pd_tree : tree_ok d;
  pd_repo : repo_ok (d_repo d) s;
  pd_node : d_nodes d !! parent = Some np;
  pd_cp : n_cp_info np = CPI_NONE
}.

Lemma plain_dir_dumped lo hi d d' parent np :
  dumped_range lo hi d d' → ¬ (lo <= parent < hi)%nat → plain_dir d parent np → plain_dir d' parent np.
Proof.
  intros Hr Hlt []. split; try done.
  - by eapply shape_tree; [eapply dumped_shape|].
  - by apply (dr_repo _ _ _ _ Hr).
  - by rewrite (dr_nodes _ _ _ _ Hr).
Qed.

Lemma propagate_plain parent id np n c d :
  plain_dir d parent np → d_nodes d !! id = Some n →
  node_as temp_dir d n c → delta_propagate_copy env parent id d = Done d tt.
Proof.
  intros [_ _ Hp Hcp] Hn Has. unfold delta_propagate_copy.
  rewrite (run_bind _ _ _ _ _ (run_node_get _ _ _ Hp)), (run_bind _ _ _ _ _ (run_node_get _ _ _ Hn)).
  rewrite Hcp. change (negb (CPI_NONE =? CPI_COPY)) with true. cbv iota. rewrite (run_node_upd _ _ _ _ Hn).
  assert (set_cp_info n CPI_NONE = n) as Heq by (rewrite <-(na_cp _ _ _ _ Has); by destruct n).
  cbv beta. rewrite Heq, insert_id by done. by destruct d.
Qed.

(** The first child of a directory. *)
Lemma for_each_first k parent np id ids n c d d1 :
  plain_dir d parent np → d_nodes d !! id = Some n → node_as temp_dir d n c →
  dump_tree k id d = Done d1 tt →
  for_each (id :: ids) (dump_child k parent) d = for_each ids (dump_child k parent) d1.
Proof.
  intros Hp Hn Has Hd1. cbn [for_each]. erewrite run_bind; [reflexivity|].
  by rewrite (run_bind _ _ _ _ _ (propagate_plain _ _ _ _ _ _ Hp Hn Has)).
Qed.

(** The nodes from [lo] to [hi] have been dumped, and the changes [l] are reported. *)
Definition dumped_changes (lo hi : nat) (l : list change) d d' : Prop :=
  dumped_range lo hi d d' ∧ reported l d d' ∧
  ∀ c, c ∈ l → c_entry c = None → is_Some (d_dumped d' !! c_path c).

Lemma dumped_changes_app lo mid hi l1 l2 d d1 d2 :
  dumped_changes lo mid l1 d d1 → dumped_changes mid hi l2 d1 d2 → (lo <= mid <= hi)%nat →
  dumped_changes lo hi (l1 ++ l2) d d2.
Proof.
  intros (Hr1 & Ho1 & Hd1) (Hr2 & Ho2 & Hd2) ?. split; [|split; [by eapply reported_app|]].
  - etrans; [eapply dumped_range_wider; [exact Hr1|lia..]|].
    eapply dumped_range_wider; [exact Hr2|lia..].
  - intros c [Hc|Hc]%elem_of_app He; [|by apply Hd2]. by apply (dr_dumped _ _ _ _ Hr2), Hd1.
Qed.

Lemma dumped_changes_one id c d d' :
  dumped_range id (S id) d d' → reported [c] d d' →
  (c_entry c = None → is_Some (d_dumped d' !! c_path c)) → dumped_changes id (S id) [c] d d'.
Proof. intros ? ? Hd. split_and!; [done..|]. by intros c' ->%list_elem_of_singleton. Qed.

(** Everything that was changed below a directory is reported, in the order of the drive; the depth
    of the nodes is bounded by their number. *)
Definition dumps_edits (e : edits) (l : list change) : Prop :=
  ∀ k parent np next d,
    plain_dir d parent np → (parent < next)%nat →
    placed d next l → Forall change_text l → forest d next e → (edit_size e <= k)%nat →
    ∃ d', for_each (kids next e) (dump_child k parent) d = Done d' tt ∧
      dumped_changes next (next + edit_size e) l d d'.

(** An entry without entries below it, and the rest. *)
Lemma dumps_leaf e r c l :
  edit_size e = S (edit_size r) → (∀ next, kids next e = next :: kids (S next) r) →
  (∀ d next, forest d next e → has_children d next [] ∧ forest d (S next) r) → c_below c = false →
  dumps_edits r l → dumps_edits e (c :: l).
Proof.
  intros Hsize Hkids Hforest Hb IH k parent np next d Hp Hlt Hpl Hok Hf Hk.
  apply Hforest in Hf as [(n & Hn & Hch) Hf].
  apply placed_cons in Hpl as [(n' & Hn' & Has) Hpl]. assert (n' = n) as -> by congruence.
  apply Forall_cons in Hok as [Hc Hok]. destruct k as [|k]; [lia|].
  destruct (tree_done _ _ _ _ (pd_tree _ _ _ Hp) (pd_repo _ _ _ Hp) Hn Has Hc Hb ltac:(done))
    as (d1 & n1 & Hr1 & Ho1 & Hd1 & Hw & _ & Hwalk).
  specialize (Hwalk k d1). rewrite Hch in Hwalk. specialize (Hwalk eq_refl (wr_node _ _ _ _ Hw)).
  destruct (IH (S k) parent np (S next) d1) as (d' & Hfor & Hd'); try done; try lia;
    [eapply plain_dir_dumped; [done|lia|done]|by eapply placed_dumped|by eapply forest_dumped|].
  exists d'. rewrite Hkids, (for_each_first _ _ _ _ _ _ _ _ _ Hp Hn Has Hwalk). split; [done|].
  rewrite Hsize. apply (dumped_changes_app _ (S next) _ [c] l _ d1); [by apply dumped_changes_one| |lia].
  by replace (next + S (edit_size r))%nat with (S next + edit_size r)%nat by lia.
Qed.

(** What is below a directory that has been written. *)
Definition dumps_inner (c : change) (e : edits) (l : list change) : Prop :=
  ∀ k id n d,
    written d id n c → n_children n = kids (S id) e →
    placed d (S id) l → Forall change_text l → forest d (S id) e → (edit_size e <= k)%nat →
    ∃ d', for_each (kids (S id) e) (dump_child k id) d = Done d' tt ∧
      dumped_changes (S id) (S id + edit_size e) l d d'.

Lemma dumps_dir h name sent inner r c l1 l2 :
  c_entry c ≠ None → c_below c = false → length l1 = edit_size inner → dumps_inner c inner l1 →
  dumps_edits r l2 → dumps_edits (EditDir h name sent inner r) (c :: l1 ++ l2).
Proof.
  intros Hent Hb Hlen IHi IHr k parent np next d Hp Hlt Hpl Hok (Hch & Hfi & Hfr) Hk.
  destruct Hch as (n & Hn & Hch). cbn [edit_size] in Hk.
  apply placed_cons in Hpl as [(n' & Hn' & Has) [Hpi Hpr]%placed_app].
  assert (n' = n) as -> by congruence. rewrite Hlen in Hpr.
  apply Forall_cons in Hok as [Hc [Hoki Hokr]%Forall_app]. destruct k as [|k]; [lia|].
  destruct (tree_done _ _ _ _ (pd_tree _ _ _ Hp) (pd_repo _ _ _ Hp) Hn Has Hc Hb ltac:(done))
    as (d1 & n1 & Hr1 & Ho1 & _ & Hw & Hch1 & Hwalk).
  destruct (IHi k next n1 d1) as (d2 & Hfor & H2); try done; try lia;
    [by rewrite Hch1, Hch|by eapply placed_dumped|by eapply forest_dumped|].
  specialize (Hwalk k d2). rewrite Hch in Hwalk.
  assert (d_nodes d2 !! next = Some n1) as Hn2.
  { rewrite (dr_nodes _ _ _ _ (proj1 H2)) by lia. apply Hw. }
  specialize (Hwalk Hfor Hn2).
  assert (dumped_changes next (S next + edit_size inner) ([c] ++ l1) d d2) as H12.
  { apply (dumped_changes_app _ (S next) _ _ _ _ d1); [by apply dumped_changes_one|exact H2|lia]. }
  destruct (IHr (S k) parent np (S next + edit_size inner)%nat d2) as (d' & Hfor' & H3);
    try done; try lia; [|eapply placed_dumped; [apply H12|lia|done]|
      eapply forest_dumped; [apply H12|lia|done]|].
  { eapply plain_dir_dumped; [apply H12|lia|done]. }
  exists d'. cbn [kids edit_size]. rewrite (for_each_first _ _ _ _ _ _ _ _ _ Hp Hn Has Hwalk).
  split; [done|]. replace (next + S (edit_size inner + edit_size r))%nat
    with (S next + edit_size inner + edit_size r)%nat by lia.
  apply (dumped_changes_app next (S next + edit_size inner) _ ([c] ++ l1) l2 _ d2); [exact H12|exact H3|lia].
Qed.

Lemma dumps_plain c e l : c_copy c = None → dumps_edits e l → dumps_inner c e l.
Proof.
  intros Hcopy He k id n d Hw Hch Hpl Hok Hf Hk. apply (He k id n); try done; [|lia].
  split; try apply Hw. by rewrite (wr_cp _ _ _ _ Hw), Hcopy.
Qed.

(** Below a copied directory nothing is written. *)
Lemma dumps_copied svn_property_regular c src rev dir e t l t' source :
  applies svn_property_regular past true dir e t l t' → c_copy c = Some (src, rev) → change_text c →
  c_path c = dir → cstr dir → dir ≠ [] → past !! rev = Some source → t' = graft src source dir t' →
  dumps_inner c e l.
Proof.
  intros He Hcopy Hc Hpath Hcstr Hdir Hsource Ht' k id n d Hw Hch Hpl Hok Hf Hk.
  pose proof (applies_hidden _ _ _ _ _ _ _ He) as Hhid.
  destruct (copy_source _ _ _ Hc Hcopy) as [_ Hlocal].
  destruct (dumps_hidden dir src rev source Hsource Hlocal _ _ _ _ _ _ He k id n (S id) d)
    as (d' & Hfor & Hr & Ho); try done; [| |by rewrite Hch|lia| |].
  - split; try apply Hw; [by rewrite (wr_cp _ _ _ _ Hw), Hcopy|by rewrite (wr_path _ _ _ _ Hw), Hpath|].
    pose proof (wr_copy _ _ _ _ Hw) as Hcf. rewrite Hcopy in Hcf. exists n. split.
    + apply copied_here; [apply Hw|by rewrite Hcf].
    + split_and!; [by rewrite (wr_path _ _ _ _ Hw)|done|by eapply (wr_rev _ _ _ _ Hw)].
  - by rewrite (wr_path _ _ _ _ Hw).
  - apply Forall_forall. intros c' Hc'.
    destruct (applies_inside _ _ _ _ _ _ _ _ _ He Hdir Hc') as (r & Hr & Hhead). exists r.
    split_and!; [done..|]. pose proof (applies_present _ _ _ _ _ _ _ _ He Hc') as Hin.
    rewrite Ht', Hr, lookup_graft, suffix_of_app in Hin by by right. exact Hin.
  - exists d'. split; [done|]. split; [done|]. split; [apply reported_none; [done|by apply report_hidden]|].
    intros c' Hc' Hent. rewrite Forall_forall in Hhid. by destruct (Hhid c' Hc') as (_ & _ & _ & ?).
Qed.

Lemma graft_again src source dst t : graft src source dst (graft src source dst t) = graft src source dst t.
Proof. apply map_eq. intros q. rewrite !lookup_graft. by destruct (suffix_of dst q). Qed.

Lemma applies_dumps svn_property_regular dir e t l t' :
  applies svn_property_regular past false dir e t l t' → cstr dir → Forall change_text l → dumps_edits e l.
Proof.
  intros He. remember false as below eqn:Hb. revert Hb.
  induction He as [| dir name r t e l t' Hn Hp _ IH|below dir h name sent inner r t props l1 t1 l2 t2 q
    new Hn Hp Hi IHi Hcp _ IHr|below dir copy name sent text r t l t' q new Hn Hp Hb' _ _ IH|
    dir name sent delta r t props old l t' q new Hn Hp _ IH]; intros Hb Hcstr Hok; subst;
    [|apply Forall_cons in Hok as [Hc Hok]..].
  - intros k parent np next d _ _ _ _ _ _. exists d. split; [done|].
    split; [reflexivity|]. split; [by apply reported_none; [|constructor]|].
    intros c Hc. by apply elem_of_nil in Hc.
  - by apply (dumps_leaf _ r); auto.
  - pose proof Hok as [Hok1 Hok2]%Forall_app.
    apply dumps_dir; [done..|by eapply applies_size| |by apply IHr].
    pose proof (child_cstr dir name Hn Hcstr) as Hcq. fold q in Hcq.
    destruct (copy_of h) as [[src rev]|] eqn:Hcopy.
    + destruct (copied_as_ok _ _ _ _ _ _ _ Hcp eq_refl) as (_ & source & Hsource & Ht1).
      eapply (dumps_copied _ _ src rev q inner); [exact Hi|done..| |exact Hsource|].
      * intros Hq. unfold q in Hq. destruct Hn as [Hne _ _ _]. destruct dir; [done|]. by rewrite child_cons in Hq.
      * by rewrite Ht1, graft_again.
    + apply dumps_plain; [done|]. by apply IHi.
  - by eapply dumps_leaf; [..|apply IH].
  - by eapply dumps_leaf; [..|apply IH].
Qed.

(** * The end of the edit *)

Variable apr_md5 : bytes → option bytes.
Abbreviation holds := (holds temp_dir apr_md5 used).

Lemma holds_dumped open lo hi d d' t : dumped_range lo hi d d' → holds open d t → holds open d' t.
Proof.
  intros Hd [[Hname Hinj] Htext Hprops Hs]. destruct Hd. split.
  - split; [by rewrite dr_hash0, dr_temp0|by rewrite dr_hash0].
  - intros p props text Hp. rewrite <-(Htext _ _ _ Hp). unfold file_text. rewrite dr_hash0.
    destruct (d_delta_hash d !! p) as [f|] eqn:Hf; [|done]. by eapply dr_files0.
  - unfold props_hold. by rewrite dr_props0.
  - by rewrite dr_session0.
Qed.

(** The text of a path that is gone is removed. *)
Lemma holds_forget open path f d t :
  d_delta_hash d !! path = Some f → t !! path = None → holds open d t →
  holds open (put_delta_hash (put_files d (delete f (d_files d))) (delete path (d_delta_hash d))) t.
Proof.
  intros Hf Hp [[Hname Hinj] Htext Hprops Hs]. split; [|  |exact Hprops|exact Hs].
  - split; simpl.
    + intros p g [_ Hg]%lookup_delete_Some. by eapply Hname.
    + intros p q g [_ ?]%lookup_delete_Some [_ ?]%lookup_delete_Some. by eapply Hinj.
  - intros p props text Hx. rewrite <-(Htext _ _ _ Hx). unfold file_text. simpl.
    assert (p ≠ path) as Hne by congruence. rewrite lookup_delete_ne by done.
    destruct (d_delta_hash d !! p) as [g|] eqn:Hg; [|done]. apply lookup_delete_ne.
    intros ->. by eapply Hne, Hinj.
Qed.

Variables (uninit_kind : svn_node_kind) (uninit_rev : Z).

(** The paths that have texts, less those that the log says are deleted. *)
Definition forgotten (paths : list (bytes * svn_log_changed_path)) d d' : Prop :=
  ∀ p f, d_delta_hash d' !! p = Some f →
    d_delta_hash d !! p = Some f ∧ ∀ log, (p, log) ∈ paths → cp_action log ≠ "D"%char.

(** Deletions of the log that were part of the drive are not written again. *)
Lemma close_all_done open (paths : list (bytes * svn_log_changed_path)) d t :
  (∀ path log, (path, log) ∈ paths → cp_action log = "D"%char →
     is_Some (d_dumped d !! path) ∧ t !! path = None) →
  holds open d t →
  ∃ d', close_all svn_path_dirname svn_md5_digest_to_cstring svndiff temp_ok uninit_kind uninit_rev env
      paths d = Done d' tt ∧
    holds open d' t ∧ d_out d' = d_out d ∧ d_session d' = d_session d ∧ d_repo d' = d_repo d ∧
    forgotten paths d d'.
Proof.
  revert d. induction paths as [|[path log] paths IH]; intros d Hpaths Hh.
  { exists d. split_and!; try done. intros p f Hf. split; [done|]. intros log Hin.
    by apply elem_of_nil in Hin. }
  set (close := close_deleted svn_path_dirname svn_md5_digest_to_cstring svndiff temp_ok uninit_kind
    uninit_rev env path log).
  assert (∃ d1, when (bool_decide (cp_action log = "D"%char)) close d = Done d1 tt ∧ holds open d1 t ∧
    d_out d1 = d_out d ∧ d_dumped d1 = d_dumped d ∧ d_session d1 = d_session d ∧ d_repo d1 = d_repo d ∧
    forgotten [(path, log)] d d1) as (d1 & Hrun & Hh1 & Ho1 & Hdu1 & Hs1 & Hr1 & Hf1).
  { case_bool_decide as Ha; cbn [when].
    2:{ exists d. split_and!; try done. intros p f Hf. split; [done|].
        by intros ? [= -> ->]%list_elem_of_singleton. }
    destruct (Hpaths path log) as [[id Hid] Hnone]; [by left|done|]. unfold close, close_deleted.
    rewrite (run_bind _ _ d d d) by done. destruct (d_delta_hash d !! path) as [f|] eqn:Hf.
    - eexists. split.
      { erewrite run_bind by reflexivity. erewrite run_bind by reflexivity. cbn. by rewrite Hid. }
      split; [by apply (holds_forget open path f)|]. do 4 (split; [done|]).
      intros p g. cbn. intros [Hne Hg]%lookup_delete_Some. split; [done|].
      by intros ? [= -> ->]%list_elem_of_singleton.
    - exists d. split.
      { rewrite (run_bind _ _ d d tt), (run_bind _ _ d d d) by done. by rewrite Hid. }
      split_and!; try done. intros p g Hg. split; [done|]. intros ? [= -> ->]%list_elem_of_singleton. congruence. }
  destruct (IH d1) as (d' & Hrun' & Hh' & Ho' & Hs' & Hr' & Hf'); [|done|].
  { intros p lg Hin Ha. rewrite Hdu1. apply (Hpaths p lg); [by right|done]. }
  exists d'. cbn [close_all]. rewrite (run_bind _ _ _ _ _ Hrun). split; [exact Hrun'|].
  split_and!; [done|congruence..|]. intros p f [Hg Hd1]%Hf'. apply Hf1 in Hg as [Hg Hd2].
  split; [done|]. intros lg [Hin|Hin]%elem_of_cons; [|by apply Hd1]. apply Hd2. rewrite Hin. by left.
Qed.

(** * A whole drive *)

Variables (rand : nat → Z) (fuel : nat) (svn_property_regular : bytes → bool).

Abbreviation editor_run := (editor_run rand fuel apr_md5 svn_path_dirname svn_md5_digest_to_cstring
  svn_property_regular svndiff temp_ok uninit_kind uninit_rev env).

Definition root_node : de_node :=
  mk_node [slash] None None None "M" uninit_kind ∅ ∅ no_md5 None uninit_rev uninit_rev CPI_NONE
    false false false None [].

(** The state when the root has been opened. *)
Definition started d : de_state T :=
  mk_de {[0%nat := root_node]} 1 ∅ (Some 0%nat) (d_repo d) (d_props d) (d_delta_hash d)
    (d_md5_hash d) (d_files d) (d_temp d) (d_session d) (d_out d).

Lemma drive_started calls d :
  editor_run (SetTargetRevision :: OpenRoot :: calls) (delta_setup_editor d) = editor_run calls (started d).
Proof.
  cbn [Delta.editor_run Delta.editor_do]. rewrite (run_bind _ _ _ (delta_setup_editor d) tt) by done.
  erewrite run_bind; [reflexivity|]. erewrite run_bind; [reflexivity|].
  unfold de_open_root. erewrite run_bind by reflexivity.
  erewrite run_bind by (apply run_node_upd; apply lookup_insert_eq).
  unfold started, put_root, put_nodes. cbn. by rewrite insert_insert_eq.
Qed.

(** Closing the root forgets its properties. *)
Lemma root_closed d d' n t :
  used ∅ → d_nodes d !! 0%nat = Some n → n_path n = [slash] → n_properties n = ∅ →
  holds [[slash]] d t → storage_store apr_md5 0 d = Done d' tt →
  ∃ ps, d' = put_props d ps ∧ holds [[slash]] d' t.
Proof.
  intros Hu Hn Hpath Hprops [Hnames Htext (A & m & HA & Ht) Hs]. unfold storage_store.
  rewrite Hn, Hpath, Hprops.
  destruct (property_store_models apr_md5 used (d_props d) m [slash] ∅ Hu (pm_wf _ _ _ _ _ HA))
    as (ps & ret & m' & -> & _ & Hmodels).
  destruct (Z.eqb_spec ret 0) as [->|]; [|done]. intros [= <-]. exists ps. split; [done|].
  split; [by apply (same_store_names _ d)|exact Htext| |exact Hs].
  exists (props_set A [slash] ∅), m'. split; [by apply Hmodels|]. intros p e He Hin.
  unfold props_set. rewrite decide_True, lookup_delete_ne by (done || set_solver). by apply Ht.
Qed.

Lemma root_dumped k e l d n :
  plain_dir d 0 n → n_action n = "M"%char →
  n_dump_needed n = false → n_children n = kids 1 e → dumps_edits e l → placed d 1 l →
  Forall change_text l → forest d 1 e → (edit_size e <= k)%nat →
  ∃ d', dump_tree (S k) 0 d = Done d' tt ∧ dumped_changes 1 (1 + edit_size e) l d d'.
Proof.
  intros Hp Ha Hneed Hch Hdumps Hpl Hok Hf Hk. pose proof (pd_node _ _ _ Hp) as Hn.
  destruct (Hdumps k 0%nat n 1%nat d Hp ltac:(lia) Hpl Hok Hf Hk) as (d' & Hfor & Hd).
  exists d'. split; [|exact Hd]. rewrite <-Hch in Hfor.
  assert (n_action n ≠ "D"%char) as Hnd by by rewrite Ha.
  apply (tree_walk k 0 d d d' n n); try done.
  - cbn [delta_dump_node]. by rewrite (run_bind _ _ _ _ _ (run_node_get _ _ _ Hn)), Hneed.
  - by rewrite (dr_nodes _ _ _ _ (proj1 Hd)) by lia.
Qed.

(** The end of the edit, when the root is closed. *)
Lemma edit_closed (e : edits) (l : list change) (cp : gmap bytes svn_log_changed_path) (t' : tree) d n :
  d_root d = Some 0%nat → d_next d = S (edit_size e) → plain_dir d 0 n → n_action n = "M"%char →
  n_dump_needed n = false → n_children n = kids 1 e → dumps_edits e l → placed d 1 l →
  Forall change_text l → forest d 1 e → lr_changed_paths (v_log_revision env) = Some cp →
  (∀ path log, cp !! path = Some log → cp_action log = "D"%char →
     ∃ c, c ∈ l ∧ c_path c = path ∧ c_entry c = None ∧ t' !! path = None) →
  holds [[slash]] d t' →
  ∃ d', editor_run [CloseEdit] d = Done d' tt ∧ holds [[slash]] d' t' ∧ reported l d d' ∧
    d_session d' = d_session d ∧ repo_ok (d_repo d') s ∧ forgotten (hash_iter cp) d d'.
Proof.
  intros Hroot Hnext Hp Ha Hneed Hch Hdumps Hpl Hok Hf Hcp Hdel Hh.
  destruct (root_dumped (size (d_nodes d)) e l d n)
    as (d1 & Hdump & Hrange & (nodes & out & Ho & Hst & Hrep) & Hd); try done.
  { rewrite (nodes_ok_size d (tree_nodes _ (pd_tree _ _ _ Hp))). lia. }
  destruct (close_all_done [[slash]] (hash_iter cp) d1 t')
    as (d' & Hclose & Hh' & Ho' & Hs' & Hr' & Hfo); [|by eapply holds_dumped|].
  { intros path log Hin%hash_iter_elem Hact. destruct (Hdel _ _ Hin Hact) as (c & Hc & <- & He & Ht).
    split; [by apply Hd|done]. }
  exists d'. split.
  { cbn [Delta.editor_run Delta.editor_do]. erewrite run_bind; [reflexivity|]. unfold de_close_edit.
    rewrite (run_bind _ _ d d d) by done. rewrite Hroot, (run_bind _ _ _ _ _ (run_lift _ _)).
    rewrite (run_bind _ _ _ _ _ Hdump), Hcp, (run_bind _ _ _ _ _ (run_lift _ _)). exact Hclose. }
  split; [done|]. split; [by exists nodes, out; rewrite Ho', Ho|].
  split; [by rewrite Hs', (dr_session _ _ _ _ Hrange)|].
  split; [rewrite Hr'; apply (dr_repo _ _ _ _ Hrange), Hp|].
  intros p f Hg. rewrite <-(dr_hash _ _ _ _ Hrange). by apply Hfo.
Qed.

End load.

