(* ===== verification/DeltaSafe.v ===== *)
(** The calls of an edit (Edits.v) are defined: up to the end of the edit, nothing that the driver
    sends leads the editor into undefined behaviour, and only a temporary file that cannot be
    created or a record that cannot be stored makes a call fail. *)
From S2P Require Import Prelude CritBit Interfaces Mukv Utils Types Copyfrom Property PropStore PathRepo.
From S2P Require Import Session DumpFormat Stream Loader Delta Edits DeltaFacts DeltaDump DeltaCopy.
From S2P Require Import DeltaTree DeltaOutput DeltaPlain DeltaRepo.

Open Scope Z_scope.

(** Nothing that the editor depends on fails: temporary files can be created, digests can be
    computed, and records can be compressed and stored. *)
Record reliable (T : Type) `{KV T} `{Codec} (temp_ok : nat → bool) (apr_md5 : bytes → option bytes)
    : Prop := {
  rl_temp : ∀ i, temp_ok i = true;
  rl_md5 : ∀ b, is_Some (apr_md5 b);
  rl_compress : ∀ b, is_Some (compress b);
  rl_store : ∀ (kv : T) m k v, kv_models kv m → ∃ kv', kv_store kv k v = Some (kv', 0)
}.

(** That is possible: a store may be the map itself. *)
Lemma map_reliable `{Codec} temp_ok apr_md5 :
  (∀ i, temp_ok i = true) → (∀ b, is_Some (apr_md5 b)) → (∀ b, is_Some (compress b)) →
  reliable (gmap bytes bytes) temp_ok apr_md5.
Proof. intros ? ? ?. split; try done. intros kv m k v _. by eexists. Qed.

Section safe.
Context `{HashIter} {T : Type} `{KV T} `{Codec}.
Variables (rand : nat → Z) (fuel : nat).
Variables (apr_md5 : bytes → option bytes) (svn_path_dirname : bytes → bytes)
  (svn_md5_digest_to_cstring : bytes → bytes) (svn_property_regular : bytes → bool).
Variable svndiff : bytes → bytes → bytes.
Variable temp_ok : nat → bool.
Variables (uninit_kind : svn_node_kind) (uninit_rev : Z).
Variable used : prop_hash → Prop.
Variable env : de_env.
Variable past : gmap Z tree.

Hypothesis Hdry : not_dry_run env = true.
Hypothesis Huniv : hash_universe apr_md5 used.

Implicit Types (d : de_state T) (n : de_node) (id : nat).

Abbreviation editor_do := (editor_do rand fuel apr_md5 svn_path_dirname svn_md5_digest_to_cstring
  svn_property_regular svndiff temp_ok uninit_kind uninit_rev env).
Abbreviation editor_run := (editor_run rand fuel apr_md5 svn_path_dirname svn_md5_digest_to_cstring
  svn_property_regular svndiff temp_ok uninit_kind uninit_rev env).
Abbreviation set_props := (set_props svn_property_regular).
Abbreviation props_sent := (props_sent svn_property_regular).
Abbreviation applies := (applies svn_property_regular past).
Abbreviation temp_dir := (do_temp_dir (v_opts env)).
Abbreviation holds := (holds temp_dir apr_md5 used).
Abbreviation props_hold := (props_hold apr_md5 used).
Abbreviation ok := (reliable T temp_ok apr_md5).
Abbreviation safe m d := (wp True ok m d (λ _ _, True)).

(** * Steps *)

Lemma wp_app defined l1 l2 d Q :
  wp defined ok (editor_run l1) d (λ d1 _, wp defined ok (editor_run l2) d1 Q) → wp defined ok (editor_run (l1 ++ l2)) d Q.
Proof.
  revert d. induction l1 as [|c l1 IH]; intros d Hw; [done|]. cbn [app Delta.editor_run] in *.
  apply wp_bind. unfold wp, mbind, M_bind in Hw |- *. destruct (editor_do c d) as [| |d1 []]; [done..|].
  by apply IH.
Qed.

Lemma wp_cons defined c l d Q :
  wp defined ok (editor_do c) d (λ d1 _, wp defined ok (editor_run l) d1 Q) → wp defined ok (editor_run (c :: l)) d Q.
Proof. intros Hw. by apply wp_bind. Qed.

Lemma run_obfuscate p d : obfuscating (d_session d) = false → obfuscate rand fuel p d = Done d p.
Proof. intros Hs. unfold obfuscate, session_obfuscate. rewrite Hs. by destruct d. Qed.

Lemma run_create path parent np d :
  plain_parent d parent np →
  delta_create_node uninit_kind uninit_rev path parent d =
    Done (with_node d parent np (fresh_node uninit_rev path parent nul uninit_kind ∅ false)) (d_next d).
Proof.
  intros [Hn Hold Hcp]. unfold delta_create_node.
  rewrite (run_bind _ _ _ _ _ (run_node_get _ _ _ Hn)). erewrite run_bind by reflexivity.
  assert (d_next d ≠ parent) as Hne by lia.
  erewrite run_bind by (apply run_node_upd; simpl; by rewrite lookup_insert_ne).
  unfold with_node, fresh_node, put_nodes. cbn. by rewrite insert_insert_ne, Hcp.
Qed.

Lemma run_changed_path path copy d :
  log_agrees env path copy → ∃ log, changed_path env path d = Done d log.
Proof. intros (cp & Hcp & _). unfold changed_path. rewrite Hcp. by eexists. Qed.

(** What the log tells is stored in the new node. *)
Lemma run_log_stored log d parent np n k :
  ∃ n', match log with
    | None => node_upd (d_next d) (λ n, set_action n "A"%char)
    | Some log =>
        _ ← add_from_log (d_next d) log;
        node_upd (d_next d) (λ n, if Z.land (n_cp_info n) k =? 0 then set_cp_info n CPI_NONE else n)
    end (with_node d parent np n) = Done (with_node d parent np n') tt.
Proof.
  destruct log as [log|]; [|rewrite upd_with_node; by eexists].
  unfold add_from_log. rewrite (run_bind _ _ _ _ _ (upd_with_node _ _ _ _ _)), upd_with_node. by eexists.
Qed.

Lemma safe_repo_add p s t d :
  repo_has d s t → t !! p = None → cstr p → safe (when (not_dry_run env) (repo_add p)) d.
Proof.
  intros [Hinv Hw _] Hnone Hp. rewrite Hdry. cbn [when]. unfold wp, repo_add.
  destruct (path_repo_add_inv _ _ p Hinv Hp) as (repo' & -> & _).
  rewrite decide_False; [done|]. rewrite Hw. by apply not_elem_of_dom.
Qed.

(** * Calls *)

Lemma add_safe (file : bool) path copy parent np s t d :
  repo_has d s t → plain_parent d parent np → log_agrees env path copy → t !! path = None → cstr path →
  safe (editor_do (if file then AddFile path parent else AddDirectory path parent)) d.
Proof.
  intros Hr Hp Hlog Hnone Hpath. pose proof (rh_plain _ _ _ Hr) as Hs.
  destruct file; cbn [Delta.editor_do]; apply wp_bind; unfold de_add_file, de_add_directory;
    (eapply wp_step; [by apply run_obfuscate|]); (eapply wp_step; [by apply run_create|]);
    (eapply wp_step; [apply upd_with_node|]);
    (edestruct (run_changed_path path copy) as [log Hlog']; [done|eapply wp_step; [exact Hlog'|]]);
    (edestruct run_log_stored as [n' Hn']; eapply wp_step; [exact Hn'|]);
    try (eapply wp_step; [apply upd_with_node|]);
    apply wp_bind; (eapply wp_post; [apply (safe_repo_add path s t); [by destruct Hr|done..]|done]).
Qed.

Lemma open_safe (dir : bool) path parent np open t d :
  obfuscating (d_session d) = false → plain_parent d parent np → props_hold open d t →
  safe (editor_do (if dir then OpenDirectory path parent else OpenFile path parent)) d.
Proof.
  intros Hs Hp (A & m & HA & _).
  assert (∀ n, n_path n = path → n_properties n = ∅ →
    safe (storage_load (d_next d)) (with_node d parent np n)) as Hload.
  { intros n Hn Hnp. unfold wp, storage_load. cbn [d_nodes with_node]. rewrite lookup_insert_eq, Hn, Hnp.
    destruct (property_load_models apr_md5 used (hash_universe_fit _ _ Huniv) (hu_inj _ _ Huniv)
      (d_props d) m path ∅ (pm_wf _ _ _ _ _ HA)) as (st & out & ret & Hl & _ & Hmodels).
    change (d_props (with_node d parent np n)) with (d_props d). rewrite Hl.
    by destruct (Hmodels A HA) as (-> & _). }
  destruct dir; cbn [Delta.editor_do]; apply wp_bind; unfold de_open_directory, de_open_file;
    (eapply wp_step; [by apply run_obfuscate|]); (eapply wp_step; [by apply run_create|]);
    (eapply wp_step; [apply upd_with_node|]);
    apply wp_bind; (eapply wp_post; [by apply Hload|done]).
Qed.

Lemma delete_safe path parent np s t open d :
  repo_has d s t → plain_parent d parent np → props_hold open d t → cstr path → path ≠ [] →
  is_Some (t !! path) → (∀ p, is_Some (d_delta_hash d !! p) → below path p = false) →
  safe (editor_do (DeleteEntry path parent)) d.
Proof.
  intros [Hinv Hw Hs] Hp (A & m & HA & _) Hpath Hne Hin Hbelow.
  cbn [Delta.editor_do]. unfold de_delete_entry.
  eapply wp_step; [by apply run_obfuscate|]. eapply wp_step; [by apply run_create|].
  eapply wp_step; [apply upd_with_node|]. eapply wp_step; [reflexivity|].
  rewrite (proj1 (not_true_iff_false (existsb _ _))).
  2:{ intros ([p f] & Hf%list_elem_of_In%hash_iter_elem & Hb)%existsb_exists. cbn in Hb.
      rewrite Hbelow in Hb; [done|by eexists]. }
  eapply wp_step; [reflexivity|]. eapply wp_step; [reflexivity|].
  apply wp_bind. unfold wp at 1, storage_delete. cbn [d_props put_md5_hash with_node].
  destruct (property_delete_models apr_md5 used (d_props d) m path (pm_wf _ _ _ _ _ HA)) as (ps & -> & _).
  rewrite Hdry. cbn [when]. unfold wp, repo_delete. cbn [d_repo put_props put_md5_hash with_node].
  destruct (path_repo_delete_inv _ _ path Hinv Hpath Hne) as (repo' & -> & _); [|done].
  rewrite Hw. by apply elem_of_dom.
Qed.

Lemma props_safe id n sent d : d_nodes d !! id = Some n → safe (editor_run (prop_calls id sent)) d.
Proof.
  revert d n. induction sent as [|kv sent IH]; intros d n Hn; [done|]. apply wp_cons.
  change (editor_do _) with (de_change_prop (T := T) svn_property_regular id (kv.1) (Some (kv.2))).
  unfold de_change_prop. destruct (negb _); [by apply (IH d n)|].
  eapply wp_done; [by apply run_node_upd|]. eapply IH, lookup_insert_eq.
Qed.

(** The texts that the editor knows of are there. *)
Lemma text_safe id n f d :
  d_nodes d !! id = Some n → (∀ g, d_delta_hash d !! n_path n = Some g → is_Some (d_files d !! g)) →
  safe (editor_do (ApplyTextdelta id f)) d.
Proof.
  intros Hn Hfile. change (editor_do _) with (de_apply_textdelta (T := T) apr_md5 temp_ok env id f).
  unfold de_apply_textdelta. apply wp_bind. unfold wp at 1, mkstemp.
  destruct (temp_ok (d_temp d)) eqn:Ht.
  2:{ unfold wp. cbn. intros _ Hok. by rewrite (rl_temp _ _ _ Hok) in Ht. }
  eapply wp_step; [by apply run_node_get|]. eapply wp_step; [reflexivity|].
  cbn [d_delta_hash put_files put_temp]. set (d1 := put_files _ _).
  assert (∃ b, match d_delta_hash d !! n_path n with
    | Some f => read_file f | None => mret [] end d1 = Done d1 b) as [source Hsource].
  { destruct (d_delta_hash d !! n_path n) as [g|] eqn:Hg; [|by eexists].
    destruct (Hfile g eq_refl) as [b Hb]. unfold read_file.
    rewrite (run_bind _ _ d1 d1 d1) by done.
    destruct (decide (temp_name temp_dir (d_temp d) = g)) as [<-|Hne].
    - exists []. unfold d1. cbn [d_files put_files]. by rewrite lookup_insert_eq.
    - exists b. unfold d1. cbn [d_files put_files]. rewrite lookup_insert_ne by done. cbn [d_files put_temp].
      by rewrite Hb. }
  eapply wp_step; [exact Hsource|]. eapply wp_step; [reflexivity|]. eapply wp_step; [reflexivity|].
  eapply wp_done; [|done]. by apply run_node_upd.
Qed.

(** Storing properties fails only if the store does. *)
Lemma property_store_safe st m path props :
  used props → ps_wf apr_md5 used st m →
  ∃ st' ret, property_store apr_md5 st path props = Some (st', ret) ∧ (ok → ret = 0).
Proof.
  intros Hu Hwf. destruct (property_store_models apr_md5 used st m path props Hu Hwf)
    as (st' & ret & m' & Hst & _). exists st', ret. split; [done|]. intros [_ Hmd5 Hcomp Hstore].
  unfold property_store in Hst. case_decide; [by injection Hst|].
  destruct (Hmd5 (prop_hash_serialize props)) as [id Hid]. rewrite Hid in Hst.
  destruct (ps_refs st !! id) as [ref|]; [by apply bind_Some in Hst as (? & _ & [= _ <-])|].
  destruct (Hcomp (prop_hash_serialize props)) as [v Hv]. rewrite Hv in Hst.
  destruct (Hstore (ps_db st) m id v) as [db Hdb]; [apply Hwf|]. rewrite Hdb in Hst. cbn in Hst.
  by apply bind_Some in Hst as (? & _ & [= _ <-]).
Qed.

(** So does a commit. *)
Lemma path_repo_commit_safe (repo : path_repo T) s (revision : Z) :
  pr_inv repo s → pr_op_ok s (PCommit revision) →
  ∃ repo' ret, path_repo_commit repo revision = Some (repo', ret) ∧ (ok → ret = 0).
Proof.
  intros Hinv Hop. destruct (path_repo_commit_inv repo s revision Hinv Hop) as (repo' & ret & s' & Hc & _).
  exists repo', ret. split; [done|]. intros [_ _ Hcomp Hstore]. unfold path_repo_commit in Hc.
  destruct (_ && _); [by injection Hc|]. apply bind_Some in Hc as (data & _ & Hc).
  destruct (Hcomp data) as [v Hv]. rewrite Hv in Hc. destruct (pi_db _ _ Hinv) as (m & Hdb & _).
  destruct (Hstore (pr_db repo) m (pr_key revision) v Hdb) as [db Hs]. rewrite Hs in Hc. by injection Hc.
Qed.

Lemma storage_store_state id d d' : storage_store apr_md5 id d = Done d' tt → ∃ ps, d' = put_props d ps.
Proof.
  unfold storage_store. destruct (d_nodes d !! id) as [n|]; [|done].
  destruct (property_store _ _ _ _) as [[ps ret]|]; [|done]. destruct (negb _); [done|].
  intros [= <-]. by exists ps.
Qed.

Lemma close_safe id n open t d :
  d_nodes d !! id = Some n → used (n_properties n) → props_hold open d t →
  safe (storage_store apr_md5 id) d.
Proof.
  intros Hn Hu (A & m & HA & _). unfold wp, storage_store. rewrite Hn.
  destruct (property_store_safe (d_props d) m (n_path n) (n_properties n) Hu (pm_wf _ _ _ _ _ HA))
    as (ps & ret & -> & Hret). destruct (Z.eqb_spec ret 0) as [->|Hne]; [done|]. cbn.
  intros _ Hok. by apply Hne, Hret.
Qed.

(** * Entries *)

Lemma entry_safe (file added : bool) path copy parent np sent open s t d :
  repo_has d s t → holds open d t → plain_parent d parent np → cstr path →
  (added = true → log_agrees env path copy ∧ t !! path = None) →
  safe (editor_run
    ((if added then if file then AddFile path parent else AddDirectory path parent
      else if file then OpenFile path parent else OpenDirectory path parent) ::
     prop_calls (d_next d) sent)) d.
Proof.
  intros Hr Hh Hp Hpath Hadd. pose proof (ho_plain _ _ _ _ _ _ Hh) as Hs. apply wp_cons. destruct added.
  - destruct (Hadd eq_refl) as [Hlog Hnone].
    eapply wp_post; [by eapply (add_safe file path copy)|]. cbv beta. intros d1 [] Hcall _.
    assert (∃ kind props, entered uninit_rev true copy kind path parent np props d d1)
      as (kind & props & [(repo & ps & ->) _]).
    { destruct file; [eapply add_file_done in Hcall|eapply add_directory_done in Hcall]; eauto. }
    eapply props_safe, lookup_insert_eq.
  - eapply wp_post.
    { instantiate (1 := λ _ _, True). destruct file;
        [by eapply (open_safe false), Hh|by eapply (open_safe true), Hh]. }
    cbv beta. intros d1 [] Hcall _.
    assert (∃ kind props, entered uninit_rev false None kind path parent np props d d1)
      as (kind & props & [(repo & ps & ->) _]).
    { destruct file; [eapply (open_entry_done _ _ _ _ _ _ _ _ _ _ _ false) in Hcall as [? ?]
        |eapply (open_entry_done _ _ _ _ _ _ _ _ _ _ _ true) in Hcall as [? ?]]; eauto. }
    eapply props_safe, lookup_insert_eq.
Qed.

Lemma file_safe (added : bool) copy open path parent np sent delta props s t d :
  repo_has d s t → holds open d t → plain_parent d parent np → cstr path → path ∉ open →
  used (set_props sent props) → (∀ g, d_delta_hash d !! path = Some g → is_Some (d_files d !! g)) →
  (if added then log_agrees env path copy ∧ props = ∅ ∧ t !! path = None
   else copy = None ∧ ∃ old, t !! path = Some (File props old)) →
  safe (editor_run ((if added then AddFile path parent else OpenFile path parent) ::
    prop_calls (d_next d) sent ++ text_calls (d_next d) delta ++ [CloseFile (d_next d)])) d.
Proof.
  intros Hr Hh Hp Hpath Hin Hu Hfile Hcase. rewrite app_comm_cons. apply wp_app.
  eapply wp_post.
  { apply (entry_safe true added path copy parent np sent open s t d); try done. intros ->. naive_solver. }
  cbv beta. intros d2 [] (d1 & Hcall & Hsent)%editor_run_cons _.
  assert (∃ n, opened apr_md5 used open t path parent np n d d2 ∧ n_path n = path ∧
    n_properties n = set_props sent props) as (n & [Hns _ Hst _ _ _ Hprops] & Hnp & Hnps).
  { eexists. split; [eapply (file_opened _ _ _ _ _ _ _ _ _ _ _ env)|]; try done.
    destruct added; naive_solver. }
  assert (d_nodes d2 !! d_next d = Some n) as Hn by by rewrite Hns, lookup_insert_eq.
  pose proof (same_store_names temp_dir _ _ Hst (ho_names _ _ _ _ _ _ Hh)) as Hnames.
  destruct Hst as (Hhash & Hfiles & _ & _). apply wp_app. eapply wp_post.
  { instantiate (1 := λ d3 _, ∃ n, d_nodes d3 !! d_next d = Some n ∧
      n_properties n = set_props sent props ∧ props_hold (path :: open) d3 t).
    destruct delta as [f|]; [|by eapply wp_done; [done|exists n]]. apply wp_cons. eapply wp_post.
    - apply (text_safe _ _ f d2 Hn). rewrite Hnp. by rewrite Hhash, Hfiles.
    - cbv beta. intros d3 [] Ht _. eapply wp_done; [done|].
      apply (textdelta_done _ _ _ _ _ _ _ _ _ _ _ _ n) in Ht as (source & _ & ->); [|done|].
      + eexists. split; [apply lookup_insert_eq|]. split; [exact Hnps|exact Hprops].
      + intros p g (i & Hi & ->)%(nf_name _ _ Hnames) Heq%temp_name_inj. lia. }
  cbv beta. intros d3 [] _ (n' & Hn' & Hp' & Hprops'). apply wp_cons. eapply wp_post; [|done].
  eapply close_safe; [exact Hn'|by rewrite Hp'|exact Hprops'].
Qed.

(** The editor knows texts of some paths only, which are those in [K], and has them all. *)
Definition keyed (K : bytes → Prop) d : Prop :=
  ∀ p f, d_delta_hash d !! p = Some f → K p ∧ is_Some (d_files d !! f).

Lemma keyed_extends K q d d' :
  names_fresh temp_dir d → extends temp_dir [q] d d' →
  (∀ f, d_delta_hash d' !! q = Some f → K q ∧ is_Some (d_files d' !! f)) → keyed K d → keyed K d'.
Proof.
  intros Hn E Hq Hk p f Hf. destruct (decide (p = q)) as [->|Hne]; [by apply Hq|].
  rewrite (ex_hash _ _ _ _ E) in Hf by set_solver. destruct (Hk p f Hf) as [? Hfile]. split; [done|].
  destruct (nf_name _ _ Hn _ _ Hf) as (i & Hi & ->). by rewrite (ex_files _ _ _ _ E).
Qed.

Lemma keyed_same K d d' : same_store d d' → keyed K d → keyed K d'.
Proof. intros (Hh & Hf & _) Hk p f. rewrite Hh, Hf. apply Hk. Qed.

Lemma keyed_text K open q props text t d d' :
  holds open d t → extends temp_dir [q] d d' → holds open d' (<[q := File props text]> t) → K q →
  keyed K d → keyed K d'.
Proof.
  intros Hh E Hh' Hq. apply (keyed_extends K q); [apply Hh|done|]. intros f Hf. split; [done|].
  pose proof (ho_text _ _ _ _ _ _ Hh' q props text (lookup_insert_eq _ _ _)) as Ht.
  unfold file_text in Ht. rewrite Hf in Ht. by eexists.
Qed.

(** * Edits *)

(** What is known when some entries of a directory have been sent. *)
Lemma edits_next below dir e t l t' open parent np s d d' :
  applies below dir e t l t' → NoDup (c_path <$> l) → Forall (change_ok used env) l →
  shallow open dir → cstr dir → plain_parent d parent np → holds open d t → repo_has d s t →
  editor_run (edit_calls dir parent (d_next d) e) d = Done d' tt →
  extends temp_dir (c_path <$> l) d d' ∧ d_next d' = (d_next d + edit_size e)%nat ∧
  plain_parent d' parent (set_children np (n_children np ++ kids (d_next d) e)) ∧
  holds open d' t' ∧ repo_has d' (foldl spec_change s l) t'.
Proof.
  intros He Hnd Hok Hsh Hdir Hp Hh Hr Hrun.
  pose proof (edits_done _ _ _ _ _ _ _ _ _ _ _ _ _ Huniv _ _ _ _ _ _ He _ _ _ _ _ Hnd Hok Hsh Hp Hh Hrun)
    as [Hh' Hnext Hpar _ Hext _ _].
  pose proof (edits_repo _ _ _ _ _ _ _ _ _ _ _ _ Hdry _ _ _ _ _ _ He _ _ _ _ _ Hdir Hr Hrun) as Hr'.
  split_and!; try done. destruct Hp. split; [done|lia|done].
Qed.

Section keys.
Variable K : bytes → Prop.

(** The paths in [K] are not below a deleted one, and the new files are among them. *)
Definition keys_fit (l : list change) : Prop :=
  (∀ c ps x, c ∈ l → c_entry c = Some (File ps x) → K (c_path c)) ∧
  (∀ c p, c ∈ l → c_entry c = None → K p → Delta.below (c_path c) p = false).

Lemma keys_fit_app l1 l2 : keys_fit (l1 ++ l2) → keys_fit l1 ∧ keys_fit l2.
Proof.
  intros [Hnew Hdel].
  split; split; intros; (eapply Hnew || eapply Hdel); eauto; apply elem_of_app; auto.
Qed.

(** What an edit needs to be sent. *)
Definition edit_safe (dir : bytes) (e : edits) (t : tree) (l : list change) : Prop :=
  ∀ open parent np s d,
    NoDup (c_path <$> l) → Forall (change_ok used env) l → shallow open dir → cstr dir →
    plain_parent d parent np → holds open d t → repo_has d s t → keyed K d → keys_fit l →
    wp True ok (editor_run (edit_calls dir parent (d_next d) e)) d (λ d' _, keyed K d').

(** One entry, and the rest of the directory. *)
Lemma edit_safe_step below dir e1 e2 e t1 t2 l1 l2 :
  (∀ parent next, edit_calls dir parent next e =
     edit_calls dir parent next e1 ++ edit_calls dir parent (next + edit_size e1) e2) →
  applies below dir e1 t1 l1 t2 → edit_safe dir e1 t1 l1 → edit_safe dir e2 t2 l2 →
  edit_safe dir e t1 (l1 ++ l2).
Proof.
  intros Hcalls He1 Hs1 Hs2 open parent np s d Hnd Hok Hsh Hdir Hp Hh Hr Hk Hfit.
  rewrite fmap_app in Hnd. apply NoDup_app in Hnd as (Hnd1 & _ & Hnd2).
  apply Forall_app in Hok as [Hok1 Hok2]. apply keys_fit_app in Hfit as [Hf1 Hf2].
  rewrite Hcalls. apply wp_app. eapply wp_post; [by eapply Hs1|]. cbv beta. intros d1 [] Hrun Hk1.
  destruct (edits_next _ _ _ _ _ _ _ _ _ _ _ _ He1 Hnd1 Hok1 Hsh Hdir Hp Hh Hr Hrun)
    as (_ & Hnext & Hp1 & Hh1 & Hr1).
  rewrite <-Hnext. by eapply Hs2.
Qed.

Lemma edit_safe_end dir t : edit_safe dir EditEnd t [].
Proof. intros open parent np s d _ _ _ _ _ _ _ Hk _. by eapply wp_done. Qed.

Lemma edit_safe_delete (dir name : bytes) (t : tree) (e : entry) :
  good_name name → t !! child dir name = Some e →
  edit_safe dir (EditDelete name EditEnd) t [mk_change (child dir name) false None false false None false].
Proof.
  intros Hn He open parent np s d _ _ _ Hdir Hp Hh Hr Hk [_ Hfit]. apply wp_cons. eapply wp_post.
  - eapply delete_safe; [done..|apply Hh|by apply child_cstr|by apply child_not_nil|by eexists|].
    intros p [f Hf]. eapply (Hfit _ p (list_elem_of_here _ _)); [done|]. by eapply Hk.
  - cbv beta. intros d1 [] Hrun _. eapply wp_done; [done|].
    eapply keyed_same; [|exact Hk]. by eapply delete_done.
Qed.

Lemma edit_safe_file (added below : bool) (copy : option (bytes * Z)) (dir name : bytes)
    (sent : list (bytes * bytes)) (delta : option (bytes → bytes)) (text : bytes) (t : tree)
    (props : prop_hash) (e1 : edits) :
  let p := child dir name in
  let new := File (set_props sent props) text in
  let c := mk_change p added (Some new) (props_sent sent) (bool_decide (is_Some delta)) copy below in
  (∀ parent next, edit_calls dir parent next e1 =
     (if added then AddFile p parent else OpenFile p parent) ::
     prop_calls next sent ++ text_calls next delta ++ [CloseFile next]) →
  applies below dir e1 t [c] (<[p := new]> t) → good_name name →
  (if added then t !! p = None ∧ props = ∅ else copy = None ∧ ∃ old, t !! p = Some (File props old)) →
  edit_safe dir e1 t [c].
Proof.
  intros p new c Hcalls He Hn Hcase open parent np s d Hnd Hok Hsh Hdir Hp Hh Hr Hk Hfit.
  pose proof (λ d', edits_next _ _ _ _ _ _ open parent np s d d' He Hnd Hok Hsh Hdir Hp Hh Hr) as Hnext.
  rewrite Hcalls in *. eapply wp_post.
  - apply Forall_singleton in Hok as [Hlog Hu _].
    apply (file_safe added copy open p parent np sent delta props s t); try done;
      [by apply child_cstr|by eapply shallow_child|exact (Hu new eq_refl)|intros g Hg; by eapply Hk|].
    destruct added; [|done]. destruct Hcase as [Hnone ->]. split_and!; try done. by apply Hlog.
  - cbv beta. intros d1 [] Hrun _.
    apply Hnext in Hrun as (Hext & _ & _ & Hh1 & _).
    eapply (keyed_text K open p (set_props sent props) text t d d1); try done.
    apply (proj1 Hfit c (set_props sent props) text); [by left|done].
Qed.

Lemma edit_safe_dir (below : bool) (dir : bytes) (h : how) (name : bytes) (sent : list (bytes * bytes))
    (inner : edits) (t : tree) (props : prop_hash) (l1 : list change) (t1 : tree) :
  let p := child dir name in
  let new := Dir (set_props sent props) in
  let c := mk_change p (is_added h) (Some new) (props_sent sent) false (copy_of h) below in
  let below' := below || bool_decide (copy_of h ≠ None) in
  good_name name → dir_props below h (t !! p) = Some props →
  applies below' p inner (<[p := new]> t) l1 t1 → edit_safe p inner (<[p := new]> t) l1 →
  edit_safe dir (EditDir h name sent inner EditEnd) t (c :: l1).
Proof.
  intros p new c below' Hn Hprops Hi Hsafe open parent np s d Hnd Hok Hsh Hdir Hp Hh Hr Hk Hfit.
  assert (cstr p) as Hpc by by apply child_cstr.
  assert (p ∉ open) as Hin by by eapply shallow_child.
  apply Forall_cons in Hok as [[Hlog Hu _] Hok]. apply NoDup_cons in Hnd as [_ Hnd].
  apply (keys_fit_app [c] l1) in Hfit as [_ Hfit]. cbn [edit_calls]. fold p.
  rewrite app_comm_cons. apply wp_app. eapply wp_post.
  { apply (entry_safe false (is_added h) p (copy_of h) parent np sent open s t d); try done.
    intros Ha. split; [by apply Hlog|]. destruct h; try done; cbn in Hprops; by destruct (t !! p). }
  cbv beta. intros d2 [] (d1 & Hcall & Hsent)%editor_run_cons _.
  assert (repo_has d2 (if is_added h then spec_add_all s [p] else s) (<[p := new]> t)) as Hr2
    by (by eapply (repo_has_dir _ _ _ _ _ _ _ _ _ _ _ Hdry below)).
  assert (∃ n0, opened apr_md5 used open t p parent np n0 d d2 ∧ n_cp_info n0 = CPI_NONE ∧
    n_path n0 = p ∧ n_properties n0 = set_props sent props ∧ holds (p :: open) d2 (<[p := new]> t))
    as (n0 & [Hns Hnext2 Hst _ _ _ _] & Hcp0 & Hpath0 & Hprops0 & Hh2).
  { edestruct (dir_opened rand fuel apr_md5 svn_path_dirname svn_md5_digest_to_cstring
      svn_property_regular svndiff temp_ok uninit_kind uninit_rev used env Huniv h below open t p parent np
      sent props d d1 d2) as (Hop & _ & ?); try done. by eexists. }
  assert (d_nodes d2 !! d_next d = Some n0) as Hn0 by by rewrite Hns, lookup_insert_eq.
  rewrite <-Hnext2. apply wp_app. eapply wp_post.
  { eapply (Hsafe (p :: open) (d_next d) n0); try done; [by eapply shallow_cons|split; [done|lia|done]|].
    by eapply keyed_same. }
  cbv beta. intros d3 [] Hinner Hk3.
  assert (plain_parent d2 (d_next d) n0) as Hp2 by (split; [done|lia|done]).
  destruct (edits_next _ _ _ _ _ _ (p :: open) (d_next d) n0 _ d2 d3 Hi Hnd Hok
    ltac:(by eapply shallow_cons) Hpc Hp2 Hh2 Hr2 Hinner) as (_ & _ & Hp3 & Hh3 & _).
  apply wp_cons. eapply wp_post.
  { eapply close_safe; [apply Hp3| |apply Hh3]. cbn. rewrite Hprops0. exact (Hu new eq_refl). }
  cbv beta. intros d4 [] Hclose _. eapply wp_done; [done|].
  apply storage_store_state in Hclose as [ps ->]. by eapply keyed_same.
Qed.

Lemma applies_safe below dir e t l t' : applies below dir e t l t' → edit_safe dir e t l.
Proof.
  induction 1 as [below dir t|dir name r t e l t' Hn Hp _ IH|
    below dir h name sent inner r t props l1 t1 l2 t2 p new Hn Hp Hi IHi Hcp _ IHr|
    below dir copy name sent text r t l t' p new Hn Hp Hb Hcp _ IH|
    dir name sent delta r t props old l t' p new Hn Hp _ IH].
  - apply edit_safe_end.
  - eapply (edit_safe_step false dir (EditDelete name EditEnd) r _ t _ [_]); [| |by eapply edit_safe_delete|done].
    + intros parent next. cbn. by rewrite Nat.add_1_r.
    + by econstructor; [..|constructor].
  - rewrite app_comm_cons.
    eapply (edit_safe_step below dir (EditDir h name sent inner EditEnd) r); [| |by eapply edit_safe_dir|done].
    + intros parent next. cbn. rewrite <-app_assoc. cbn. rewrite <-app_assoc. cbn.
      do 5 f_equal. lia.
    + pose proof (applies_dir svn_property_regular past below dir h name sent inner EditEnd t props l1 t1 []
        t1 Hn Hp Hi Hcp (applies_end _ _ _ _ _)) as Ha. by rewrite app_nil_r in Ha.
  - set (e1 := EditAddFile copy name sent text EditEnd).
    assert (applies below dir e1 t [_] (<[p := new]> t)) as He1 by (by econstructor; [..|constructor]).
    eapply (edit_safe_step below dir e1 r _ t _ [_]); [|exact He1| |done].
    + intros parent next. cbn. rewrite <-!app_assoc. cbn. by rewrite Nat.add_1_r.
    + eapply (edit_safe_file true below copy dir name sent (Some (λ _, text)) text t ∅ e1); try done.
  - set (e1 := EditOpenFile name sent delta EditEnd).
    assert (applies false dir e1 t [_] (<[p := new]> t)) as He1 by (by econstructor; [..|constructor]).
    eapply (edit_safe_step false dir e1 r _ t _ [_]); [|exact He1| |done].
    + intros parent next. cbn. rewrite <-!app_assoc. cbn. by rewrite Nat.add_1_r.
    + eapply (edit_safe_file false false None dir name sent delta _ t props e1); try done. eauto.
Qed.

End keys.

End safe.
