(* ===== verification/DeltaLoad.v ===== *)
(** What loading the records of a drive does: when the whole history is dumped, a consumer that loads
    what a drive has written gets the tree that the driver wanted, with its properties and texts,
    copies included; the drive is defined, and succeeds if nothing fails. *)
From S2P Require Import Prelude CritBit Interfaces Mukv Utils Types Copyfrom Property PropStore PathRepo.
From S2P Require Import Session DumpFormat Stream Loader Delta Edits DeltaFacts DeltaDump DeltaCopy.
From S2P Require Import DeltaTree DeltaOutput DeltaPlain DeltaRepo DeltaWrite DeltaSafe.

Open Scope Z_scope.

(** * Drives and revisions *)

(** What the drive of an edit with the changes [l] has to respect: nothing is changed twice, and the
    log of its revision gives the sources of copies ([change_ok]) and tells no other deletions. *)
Record drive_ok (used : prop_hash → Prop) (env : de_env) (l : list change) : Prop := {
  do_once : NoDup (c_path <$> l);
  do_changes : Forall (change_ok used env) l;
  do_log : ∃ cp, lr_changed_paths (v_log_revision env) = Some cp ∧
    ∀ path log, cp !! path = Some log → cp_action log = "D"%char →
      ∃ c, c ∈ l ∧ c_path c = path ∧ c_entry c = None
}.

(** The log, which gives [log p] for a path [p], tells the deletions. *)
Definition reported (log : bytes → option svn_log_changed_path) (l : list change) : Prop :=
  Forall (λ c, c_entry c = None → cp_action <$> log (c_path c) = Some "D"%char) l.

#[export] Instance reported_dec log l : Decision (reported log l).
Proof. unfold reported. apply _. Defined.

Definition env_log (env : de_env) (path : bytes) : option svn_log_changed_path :=
  default ∅ (lr_changed_paths (v_log_revision env)) !! path.

(** The editor knows the texts of files of [t] only. *)
Definition knows_only {T} (d : de_state T) (t : tree) : Prop :=
  ∀ p, is_Some (d_delta_hash d !! p) → is_file t p.

Section drive.
Context `{HashIter} {T : Type} `{KV T} `{Codec}.
Variables (rand : nat → Z) (fuel : nat).
Variables (apr_md5 : bytes → option bytes) (svn_path_dirname : bytes → bytes)
  (svn_md5_digest_to_cstring : bytes → bytes) (svn_property_regular : bytes → bool).
Variable svndiff : bytes → bytes → bytes.
Variable temp_ok : nat → bool.
Variables (uninit_kind : svn_node_kind) (uninit_rev : Z).
Variable used : prop_hash → Prop.

Hypothesis Huniv : hash_universe apr_md5 used.
Hypothesis Hempty : used ∅.
Hypothesis Hdigest : ∀ b, nl ∉ svn_md5_digest_to_cstring b.

(** Between two drives the editor keeps the texts and properties of a tree, and the path repository its
    paths. *)
Record ready_for (temp_dir : option bytes) (d : de_state T) (s : pr_spec) (t : tree) : Prop := {
  rf_holds : holds temp_dir apr_md5 used [[slash]] d t;
  rf_repo : pr_inv (d_repo d) s;
  rf_work : sp_work s = dom t
}.

(** ** One drive *)

Section one.
Variables (env : de_env) (past : gmap Z tree) (s : pr_spec) (e : edits) (t t' : tree) (l : list change).

Hypothesis Henv : plain_env env.
Hypothesis Hpast : past_known env past s.
Hypothesis He : applies svn_property_regular past false [] e t l t'.
Hypothesis Hok : drive_ok used env l.

Abbreviation temp_dir := (do_temp_dir (v_opts env)).
Abbreviation editor_run := (editor_run rand fuel apr_md5 svn_path_dirname svn_md5_digest_to_cstring
  svn_property_regular svndiff temp_ok uninit_kind uninit_rev env).
Abbreviation ok := (reliable T temp_ok apr_md5).
Abbreviation root := (root_node uninit_kind uninit_rev).

(** The paths of which the editor may know texts: the files of the old tree and the new ones. *)
Definition drive_keys (p : bytes) : Prop :=
  is_file t p ∨ ∃ c props text, c ∈ l ∧ c_path c = p ∧ c_entry c = Some (File props text).

Lemma drive_keys_fit : tidy t l → keys_fit drive_keys l.
Proof.
  intros Htidy. destruct Hok as [Hnd _ _]. split.
  - intros c props text Hc Hent. right. by exists c, props, text.
  - intros c p Hc Hdel Hp. apply not_true_iff_false. intros Hb.
    assert (inside (c_path c) p = true) as Hi.
    { apply bool_decide_eq_true. unfold Delta.below in Hb. apply andb_true_iff in Hb as [Hs Hsl%bool_decide_eq_true].
      apply strncmp_eq_prefix in Hs as [k ->]; [|by eapply applies_cstr; [..|apply cstr_nil|]].
      rewrite lookup_app_r, Nat.sub_diag in Hsl by lia. destruct k as [|x k]; [done|]. injection Hsl as ->.
      exists k. by rewrite <-app_assoc. }
    destruct Hp as [Hp|(c' & _ & _ & Hc' & <- & _)].
    + by rewrite (tidy_file _ _ _ _ Htidy Hc Hdel Hp) in Hi.
    + by rewrite (applies_not_inside _ _ _ _ _ _ _ _ _ He Hnd Hc Hdel Hc') in Hi.
Qed.

(** The first two calls. *)
Lemma drive_begun (d : de_state T) (d0 := started uninit_kind uninit_rev d) :
  ready_for temp_dir d s t →
  plain_parent d0 0 root ∧ holds temp_dir apr_md5 used [[slash]] d0 t ∧ repo_has d0 s t ∧
  (knows_only d t → keyed drive_keys d0) ∧ tree_ok d0.
Proof.
  intros [Hh Hinv Hw].
  assert (holds temp_dir apr_md5 used [[slash]] d0 t) as Hh0.
  { destruct Hh as [Hnames Htx Hprops Hs]. split; [by apply (same_store_names _ d)|done..]. }
  split_and!; [split; [done|simpl; lia|done]|done|split; [done..|apply Hh]| |].
  - intros Htexts p f Hf. destruct (Htexts p ltac:(by eexists)) as (ps & x & Hp). split; [left; by exists ps, x|].
    pose proof (ho_text _ _ _ _ _ _ Hh0 _ _ _ Hp) as Ht. unfold file_text in Ht. rewrite Hf in Ht. by eexists.
  - assert (editor_run [SetTargetRevision; OpenRoot] (delta_setup_editor d) = Done d0 tt) as Hrun
      by (rewrite drive_started; reflexivity).
    refine (keeps_done _ _ _ _ _ (editor_run_sound _ _ _ _ _ _ _ _ _ _ _ _) Hrun _). apply setup_tree_ok.
Qed.

(** What is known when all entries have been sent. *)
Record sent (d d1 : de_state T) : Prop := {
  se_edited : edited apr_md5 used env [[slash]] 0 root e l t' (started uninit_kind uninit_rev d) d1;
  se_repo : repo_has d1 (foldl spec_change s l) t';
  se_keys : tidy t l → knows_only d t → keyed drive_keys d1;
  se_tree : tree_ok d1
}.

Lemma drive_sent (d : de_state T) :
  ready_for temp_dir d s t →
  wp (tidy t l ∧ knows_only d t) ok (editor_run (edit_calls [] 0 1 e)) (started uninit_kind uninit_rev d)
    (λ d1 _, sent d d1).
Proof.
  intros (Hpar & Hh0 & Hr0 & Hk0 & Ht0)%drive_begun. set (d0 := started _ _ d) in *.
  assert (not_dry_run env = true) as Hdry by (unfold not_dry_run; by rewrite (pe_dry _ Henv)).
  assert (shallow [[slash]] []) as Hsh by (intros p ->%list_elem_of_singleton; by left).
  change 1%nat with (d_next d0). eapply wp_cases.
  { intros [Htidy Htexts]. eapply (applies_safe _ _ _ _ _ _ _ _ _ _ _ _ _ Hdry Huniv drive_keys _ _ _ _ _ _ He);
      eauto using drive_keys_fit, cstr_nil, do_once, do_changes. }
  cbv beta. intros d1 [] Hrun Hk1. split; [| |by auto|].
  - eapply edits_done; eauto using do_once, do_changes.
  - eapply edits_repo; eauto using cstr_nil.
  - exact (keeps_done _ _ _ _ _ (editor_run_sound _ _ _ _ _ _ _ _ _ _ _ _) Hrun Ht0).
Qed.

Lemma drive_text : Forall (change_text used env) l.
Proof.
  change (Forall (λ c, change_ok used env c ∧ well_formed c) l). apply Forall_and. split; [apply Hok|].
  eapply applies_well_formed; [done|apply not_elem_of_nil].
Qed.

(** The texts that are left belong to files of the new tree. *)
Lemma drive_files cp (d1 d' : de_state T) :
  lr_changed_paths (v_log_revision env) = Some cp → tidy t l → reported (env_log env) l →
  keyed drive_keys d1 → forgotten (hash_iter cp) d1 d' → knows_only d' t'.
Proof.
  intros Hcp Htidy Hlogged Hk Hf p [f Hp]. apply Hf in Hp as [Hp Hlog]. destruct (Hk p f Hp) as [Hkey _].
  eapply applies_files; [done|apply Hok|done|exact Hkey|]. intros c Hc <- Hdel.
  unfold reported, env_log in Hlogged. rewrite Hcp, Forall_forall in Hlogged.
  specialize (Hlogged c Hc Hdel) as (log & Hl & Ha)%fmap_Some.
  eapply Hlog; [by apply hash_iter_elem|by symmetry].
Qed.

(** The last two calls. *)
Lemma drive_ended (d d1 : de_state T) :
  sent d d1 →
  wp True ok (editor_run [CloseDirectory 0; CloseEdit]) d1 (λ d' _,
    ready_for temp_dir d' (foldl spec_change s l) t' ∧ d_session d' = d_session d ∧
    (tidy t l → reported (env_log env) l → knows_only d t → knows_only d' t') ∧
    ∃ out nodes, d_out d' = d_out d ++ out ∧ stream (NodeItem <$> nodes) out ∧
      load_nodes past t nodes = Some t').
Proof.
  intros [[Hh1 Hnext Hroot _ Hext Hnodes Hforest] [Hinv1 Hw1 _] Hk1 Ht1].
  pose proof (hash_universe_fit _ _ Huniv) as Hfit. apply wp_cons. eapply wp_post.
  { eapply close_safe; [exact Hroot|exact Hempty|apply Hh1]. }
  cbv beta. intros d2 [] Hclose _.
  eapply root_closed in Hclose as (ps & -> & Hh2); [|done..]. set (d2 := put_props d1 ps) in *.
  set (n := set_children _ _) in Hroot.
  assert (placed env d2 1 l) as Hpl.
  { intros i c (m & Hm & Has)%Hnodes. exists m. split; [exact Hm|].
    by apply (node_as_extends temp_dir [] d1); [apply put_props_extends|apply not_elem_of_nil|]. }
  assert (past_known env past (foldl spec_change s l)) as Hpast'.
  { destruct Hpast as [Hrec Hlocal]. split; [by apply recorded_changes|done]. }
  assert (plain_dir (foldl spec_change s l) d2 0 n) as Hpd by (split; [by apply (shape_tree d1)|done..]).
  destruct Hok as [_ _ (cp & Hcp & Hdel)].
  destruct (edit_closed svn_path_dirname svn_md5_digest_to_cstring svndiff temp_ok used env
    (foldl spec_change s l) apr_md5 uninit_kind uninit_rev rand fuel svn_property_regular
    e l cp t' d2 n) as (d' & Hrun & Hh' & (nodes & out & Ho & Hst & Hrep) & Hs' & Hinv' & Hfo);
    try done.
  - exact (ex_root _ _ _ _ Hext).
  - eapply applies_dumps; [done..|apply cstr_nil|apply drive_text].
  - apply drive_text.
  - by eapply forest_same; [|exact Hforest].
  - intros path log Hp Ha. destruct (Hdel path log Hp Ha) as (c & Hc & <- & Hec).
    exists c. split_and!; try done. by eapply applies_deleted; eauto using do_once.
  - eapply wp_done; [exact Hrun|]. split_and!; [done..| | |].
    + rewrite Hs'. exact (ex_session _ _ _ _ Hext).
    + intros Htidy Hlogged Htexts. eapply drive_files; [done..| |done]. by apply Hk1.
    + exists out, nodes. rewrite Ho. split; [exact (f_equal (λ o, o ++ out) (ex_out _ _ _ _ Hext))|].
      split; [done|]. by eapply applies_load.
Qed.

(** The records of a drive, and the state it leaves. *)
Lemma drive_loaded (d : de_state T) :
  ready_for temp_dir d s t →
  wp (tidy t l ∧ knows_only d t) ok (editor_run (edit_drive e)) (delta_setup_editor d) (λ d' _,
    ready_for temp_dir d' (foldl spec_change s l) t' ∧ d_session d' = d_session d ∧
    (tidy t l → reported (env_log env) l → knows_only d t → knows_only d' t') ∧
    ∃ out nodes, d_out d' = d_out d ++ out ∧ stream (NodeItem <$> nodes) out ∧
      load_nodes past t nodes = Some t').
Proof.
  intros Hd. change (edit_drive e) with (SetTargetRevision :: OpenRoot :: edit_calls [] 0 1 e ++
    [CloseDirectory 0; CloseEdit]).
  unfold wp. rewrite drive_started. apply wp_app. eapply wp_post; [by apply drive_sent|].
  intros d1 [] _ Hsent. eapply wp_weaken; [by apply drive_ended|done].
Qed.

End one.

End drive.

(** * Properties *)

(** C3. Loading what a drive has written gives the tree that the driver wanted, copies included.  The
    drive sends an edit [e] of the tree [t], entry by entry in depth-first order, that makes it
    [t'] and consists of the changes [l]; a copy of a path of an earlier revision, one of [past],
    is sent as if everything in it were new, and only the log of the revision names the source.
    Nothing is changed twice, and what the log says is deleted is deleted by the drive
    ([drive_ok]).  Before the drive, the editor keeps the texts and properties of [t], and the path
    repository its paths and those of the trees in [past]; a new editor and an empty repository do
    for the empty tree.  The whole history is dumped with full texts and without a prefix or
    obfuscation.  If the drive ends without an error, then its output is a sequence of node
    records, a consumer with the tree [t] and the trees [past] accepts each of them in turn, its
    tree is [t'] afterwards, with all texts and properties, and the editor and the path repository
    keep those of [t'], ready for the next revision.  It does so, with a defined behaviour, if no
    directory is deleted with files in it, the editor knows the texts of existing files only, and
    no temporary file, digest or store fails; the texts that it knows afterwards are again those
    of existing files, if the log tells all deletions. *)
Theorem delta_drive_loads `{HashIter} {T : Type} `{KV T} `{Codec} (rand : nat → Z) (fuel : nat)
    (apr_md5 : bytes → option bytes) (svn_path_dirname svn_md5_digest_to_cstring : bytes → bytes)
    (svn_property_regular : bytes → bool) (svndiff : bytes → bytes → bytes) (temp_ok : nat → bool)
    (uninit_kind : svn_node_kind) (uninit_rev : Z) (used : prop_hash → Prop) (env : de_env)
    (past : gmap Z tree) (s : pr_spec) (e : edits) (t t' : tree) (l : list change)
    (d : de_state T) :
  hash_universe apr_md5 used → used ∅ → plain_env env → (∀ b, nl ∉ svn_md5_digest_to_cstring b) →
  past_known env past s →
  edit_changes svn_property_regular past false [] e t = Some (l, t') → drive_ok used env l →
  ready_for apr_md5 used (do_temp_dir (v_opts env)) d s t →
  match editor_run rand fuel apr_md5 svn_path_dirname svn_md5_digest_to_cstring svn_property_regular
          svndiff temp_ok uninit_kind uninit_rev env (edit_drive e) (delta_setup_editor d) with
  | UB => ¬ (tidy t l ∧ knows_only d t)
  | Fail _ _ => tidy t l ∧ knows_only d t → ¬ reliable T temp_ok apr_md5
  | Done d' _ => (tidy t l → reported (env_log env) l → knows_only d t → knows_only d' t') ∧ ∃ out nodes, d_out d' = d_out d ++ out ∧ read_dump out = Some (NodeItem <$> nodes) ∧
      load_nodes past t nodes = Some t' ∧
      ready_for apr_md5 used (do_temp_dir (v_opts env)) d' (foldl spec_change s l) t'
  end.
Proof.
  intros Huniv Hempty Henv Hdigest Hpast He%edit_changes_applies Hok Hd.
  pose proof (drive_loaded rand fuel apr_md5 svn_path_dirname svn_md5_digest_to_cstring
    svn_property_regular svndiff temp_ok uninit_kind uninit_rev used Huniv Hempty Hdigest env past s
    e t t' l Henv Hpast He Hok d Hd) as Hw.
  unfold wp in Hw. destruct (editor_run _ _ _ _ _ _ _ _ _ _ _ _ _) as [| |d' []]; [done..|].
  destruct Hw as (Hd' & _ & Hknows & out & nodes & Ho & Hst & Hl).
  split; [exact Hknows|]. exists out, nodes. split_and!; try done.
  by apply read_dump_stream.
Qed.

(** Two revisions: a directory with two files; then the directory is copied, one of the files is
    changed, the other deleted. *)
Definition sample_edit1 : edits :=
  EditDir Added (str "trunk") []
    (EditAddFile None (str "f") [(str "svn:eol-style", str "native")] (str "hello")
       (EditAddFile None (str "g") [] (str "bye") EditEnd)) EditEnd.

Definition sample_edit2 : edits :=
  EditDir (Copied (str "trunk") 1) (str "branch") []
    (EditAddFile None (str "f") [(str "svn:eol-style", str "native")] (str "hello")
       (EditAddFile None (str "g") [] (str "bye") EditEnd))
    (EditDir Opened (str "trunk") []
       (EditOpenFile (str "f") [] (Some (λ old, old ++ str " world"))
          (EditDelete (str "g") EditEnd)) EditEnd).

Definition sample_native : prop_hash := {[str "svn:eol-style" := str "native"]}.

Definition sample_tree1 : tree :=
  {[str "trunk" := Dir ∅; str "trunk/f" := File sample_native (str "hello");
    str "trunk/g" := File ∅ (str "bye")]}.

Definition sample_tree2 : tree :=
  {[str "branch" := Dir ∅; str "branch/f" := File sample_native (str "hello");
    str "branch/g" := File ∅ (str "bye");
    str "trunk" := Dir ∅; str "trunk/f" := File sample_native (str "hello world")]}.

Definition sample_past : gmap Z tree := {[1 := sample_tree1]}.

Definition sample_log2 : gmap bytes svn_log_changed_path :=
  {[str "branch" := mk_changed "A" (Some (str "trunk")) 1; str "trunk/g" := mk_changed "D" None 0]}.

Definition sample_env_of (changed : gmap bytes svn_log_changed_path) : de_env :=
  sample_env (sample_opts DF_KEEP_REVNUMS 2) changed.

Abbreviation sample_drive_of e changed d :=
  (editor_run (λ _, 0) 10 sample_md5 sample_dirname (λ _, str "0a1b") (λ _, true)
    (λ _ target, target) (λ _, true) svn_node_unknown 0 (sample_env_of changed)
    (edit_drive e) (delta_setup_editor d)).

Definition sample_changes (past : gmap Z tree) (e : edits) (t : tree) : list change :=
  from_option fst [] (edit_changes (λ _, true) past false [] e t).

Lemma sample_universe : hash_universe sample_md5 sample_used.
Proof.
  split.
  - apply sample_used_closed.
  - apply sample_used_closed.
  - intros p1 p2 id Hp1 Hp2 E1 E2. rewrite <-E1 in E2.
    destruct Hp1 as [->| ->], Hp2 as [->| ->]; [done| | |done]; vm_compute in E2; discriminate E2.
Qed.

Lemma sample_state_ready dir : ready_for sample_md5 sample_used dir sample_state pr_spec_init ∅.
Proof.
  split; [split|..].
  - split; [intros p f Hf|intros p q f Hf]; discriminate Hf.
  - intros p props text Hp. discriminate Hp.
  - exists ∅, ∅. split; [|intros p e Hp; by rewrite lookup_empty in Hp].
    apply ps_create_models, large_steady.
  - reflexivity.
  - apply path_repo_create_inv, large_steady.
  - reflexivity.
Qed.

(** A change that is fine if its properties are. *)
Lemma sample_change_ok env c cp :
  lr_changed_paths (v_log_revision env) = Some cp →
  (c_add c = true → cp !! c_path c = (λ s : bytes * Z, mk_changed "A" (Some (s.1)) (s.2)) <$> c_copy c) →
  (∀ e, c_entry c = Some e → sample_used (entry_props e)) → change_ok sample_used env c.
Proof.
  intros Hcp Hc Hu. split; [|done|].
  - intros Ha. exists cp. split; [done|]. rewrite (Hc Ha). by destruct (c_copy c) as [[src rev]|].
  - intros e k v He Hk. destruct (Hu e He) as [Hp|Hp]; rewrite Hp in Hk; [done|].
    apply lookup_singleton_Some in Hk as [<- <-]. eval_decide.
Qed.

Ltac sample_changes_ok cp :=
  repeat apply Forall_cons_2; try apply Forall_nil_2; apply (sample_change_ok _ _ cp); try done;
    intros e [= <-]; first [by left|by right].

Lemma sample_changes1_ok : Forall (change_ok sample_used (sample_env_of ∅)) (sample_changes ∅ sample_edit1 ∅).
Proof. sample_changes_ok (∅ : gmap bytes svn_log_changed_path). Qed.

Lemma sample_changes2_ok :
  Forall (change_ok sample_used (sample_env_of sample_log2)) (sample_changes sample_past sample_edit2 sample_tree1).
Proof. sample_changes_ok sample_log2. Qed.

Lemma sample_drive1_ok : drive_ok sample_used (sample_env_of ∅) (sample_changes ∅ sample_edit1 ∅).
Proof.
  split; [eval_decide|exact sample_changes1_ok|]. exists ∅. split; [done|].
  intros path log Hp. discriminate Hp.
Qed.

Lemma sample_drive2_ok :
  drive_ok sample_used (sample_env_of sample_log2)
    (sample_changes sample_past sample_edit2 sample_tree1).
Proof.
  split; [eval_decide|exact sample_changes2_ok|]. exists sample_log2. split; [done|].
  intros path log Hp Ha. unfold sample_log2 in Hp. apply lookup_insert_Some in Hp as [[_ <-]|[_ Hp]]; [done|].
  apply lookup_singleton_Some in Hp as [<- _].
  exists (mk_change (str "trunk/g") false None false false None false). split; [|split; reflexivity].
  do 5 right. left.
Qed.

Lemma sample_plain_env changed : plain_env (sample_env_of changed).
Proof. by split. Qed.

(** The state after the first drive and its commit. *)
Definition sample_committed (d : de_state mukv) : de_state mukv :=
  from_option (λ r, put_repo d (r.1)) d (path_repo_commit (d_repo d) 1).

Lemma sample_committed_out d : d_out (sample_committed d) = d_out d.
Proof. unfold sample_committed. by destruct (path_repo_commit (d_repo d) 1) as [[]|]. Qed.

Lemma sample_committed_ready dir d s t :
  option_map snd (path_repo_commit (d_repo d) 1) = Some 0 → pr_op_ok s (PCommit 1) →
  ready_for sample_md5 sample_used dir d s t →
  ready_for sample_md5 sample_used dir (sample_committed d) (spec_commit s 1) t.
Proof.
  intros Hret Hop [[Hn Ht Hp Hs] Hinv Hw]. unfold sample_committed.
  destruct (path_repo_commit (d_repo d) 1) as [[repo ret]|] eqn:Hc; [|done]. injection Hret as ->.
  split; [split; [by apply (same_store_names _ d)|done..]| |done]. by eapply commit_done.
Qed.

Lemma sample_past_known changed s :
  recorded sample_past s → past_known (sample_env_of changed) sample_past s.
Proof. intros Hr. by split. Qed.

(** The same with a store that does not fail. *)
Definition map_state : de_state (gmap bytes bytes) :=
  mk_de ∅ 0 ∅ None (path_repo_create ∅) (property_storage_create ∅) ∅ ∅ ∅ 0 (d_session sample_state) [].

Lemma map_state_ready dir : ready_for sample_md5 sample_used dir map_state pr_spec_init ∅.
Proof.
  split; [split| |].
  - split; [intros p f Hf|intros p q f Hf]; discriminate Hf.
  - intros p props text Hp. discriminate Hp.
  - exists ∅, ∅. split; [by apply ps_create_models|intros p e Hp; by rewrite lookup_empty in Hp].
  - reflexivity.
  - by apply path_repo_create_inv.
  - reflexivity.
Qed.

Lemma sample_reliable : reliable (gmap bytes bytes) (λ _, true) sample_md5.
Proof. apply map_reliable; intros; [done|by eexists..]. Qed.

Lemma delta_drive_loads_witness :
  let d1 := final (sample_drive_of sample_edit1 ∅ sample_state) in
  let d2 := final (sample_drive_of sample_edit2 sample_log2 (sample_committed d1)) in
  (∃ d', sample_drive_of sample_edit1 ∅ map_state = Done d' tt) ∧
  ∃ nodes1 out2 nodes2, read_dump (d_out d1) = Some (NodeItem <$> nodes1) ∧
    load_nodes ∅ ∅ nodes1 = Some sample_tree1 ∧
    d_out d2 = d_out d1 ++ out2 ∧ read_dump out2 = Some (NodeItem <$> nodes2) ∧
    load_nodes sample_past sample_tree1 nodes2 = Some sample_tree2 ∧
    (λ i, (ni_path i, ni_copyfrom i)) <$> nodes2 =
      [(str "branch", Some (1, str "trunk")); (str "trunk/f", None); (str "trunk/g", None)].
Proof.
  intros d1 d2.
  assert (sample_drive_of sample_edit1 ∅ sample_state = Done d1 tt) as Hrun1 by (vm_compute; reflexivity).
  assert (sample_drive_of sample_edit2 sample_log2 (sample_committed d1) = Done d2 tt) as Hrun2
    by (vm_compute; reflexivity).
  assert (∀ b : bytes, nl ∉ str "0a1b") as Hdigest by (intros _; eval_decide).
  assert (edit_changes (λ _, true) ∅ false [] sample_edit1 ∅
    = Some (sample_changes ∅ sample_edit1 ∅, sample_tree1)) as He1 by eval_decide.
  assert (edit_changes (λ _, true) sample_past false [] sample_edit2 sample_tree1
    = Some (sample_changes sample_past sample_edit2 sample_tree1, sample_tree2)) as He2 by eval_decide.
  assert (past_known (sample_env_of ∅) ∅ pr_spec_init) as Hpast1.
  { split; [apply recorded_none|]. intros rev t Ht. discriminate Ht. }
  split.
  { pose proof (delta_drive_loads (λ _, 0) 10 sample_md5 sample_dirname (λ _, str "0a1b") (λ _, true)
      (λ _ target, target) (λ _, true) svn_node_unknown 0 sample_used (sample_env_of ∅) ∅ pr_spec_init
      sample_edit1 ∅ sample_tree1 (sample_changes ∅ sample_edit1 ∅) map_state sample_universe
      (or_introl eq_refl) (sample_plain_env ∅) Hdigest Hpast1 He1 sample_drive1_ok (map_state_ready _)) as Hw.
    assert (tidy ∅ (sample_changes ∅ sample_edit1 ∅) ∧ knows_only map_state ∅) as Hsafe.
    { split; [eval_decide|]. intros p [f Hf]. discriminate Hf. }
    destruct (sample_drive_of sample_edit1 ∅ map_state) as [|d' msg|d' []];
      [destruct (Hw Hsafe)|destruct (Hw Hsafe sample_reliable)|exists d'; reflexivity]. }
  pose proof (delta_drive_loads (λ _, 0) 10 sample_md5 sample_dirname (λ _, str "0a1b") (λ _, true)
    (λ _ target, target) (λ _, true) svn_node_unknown 0 sample_used (sample_env_of ∅) ∅ pr_spec_init
    sample_edit1 ∅ sample_tree1 (sample_changes ∅ sample_edit1 ∅) sample_state sample_universe
    (or_introl eq_refl) (sample_plain_env ∅) Hdigest Hpast1 He1 sample_drive1_ok (sample_state_ready _)) as Hw1.
  rewrite Hrun1 in Hw1. destruct Hw1 as (_ & out1 & nodes1 & Ho1 & Hr1 & Hl1 & Hd1).
  set (s1 := foldl spec_change pr_spec_init (sample_changes ∅ sample_edit1 ∅)) in *.
  assert (pr_op_ok s1 (PCommit 1)) as Hop.
  { split; [vm_compute; split; reflexivity|]. split.
    { intros r Hr. change (-1 < r < 1) in Hr. by assert (r = 0) as -> by lia. }
    split; vm_compute; reflexivity. }
  pose proof (sample_committed_ready _ d1 _ _ ltac:(vm_compute; reflexivity) Hop Hd1) as Hd1'.
  assert (past_known (sample_env_of sample_log2) sample_past (spec_commit s1 1)) as Hpast2.
  { apply sample_past_known, (recorded_commit ∅); [|exact (rf_work _ _ _ _ _ _ Hd1)| |vm_compute; reflexivity].
    - apply recorded_changes, recorded_none.
    - by apply edit_changes_applies, applies_closed in He1; [|reflexivity|apply closed_empty]. }
  pose proof (delta_drive_loads (λ _, 0) 10 sample_md5 sample_dirname (λ _, str "0a1b") (λ _, true)
    (λ _ target, target) (λ _, true) svn_node_unknown 0 sample_used (sample_env_of sample_log2)
    sample_past (spec_commit s1 1) sample_edit2 sample_tree1 sample_tree2
    (sample_changes sample_past sample_edit2 sample_tree1) (sample_committed d1) sample_universe
    (or_introl eq_refl) (sample_plain_env sample_log2) Hdigest Hpast2 He2 sample_drive2_ok Hd1') as Hw2.
  rewrite Hrun2 in Hw2. destruct Hw2 as (_ & out2 & nodes2 & Ho2 & Hr2 & Hl2 & _).
  rewrite sample_committed_out in Ho2. exists nodes1, out2, nodes2. split; [rewrite Ho1; exact Hr1|].
  do 4 (split; [done|]).
  assert (read_dump (drop (length (d_out d1)) (d_out d2)) = Some (NodeItem <$> nodes2)) as Hr
    by (rewrite Ho2, drop_app_length; exact Hr2).
  vm_compute in Hr. injection Hr as Hr. destruct nodes2 as [|n1 [|n2 [|n3 [|]]]]; try discriminate Hr.
  injection Hr as <- <- <-. reflexivity.
Defined.
