(* ===== verification/DeltaRuns.v ===== *)
(** Runs of the delta editor (Delta.v) over several revisions: places where its tables do not
    keep up with the repository, and where a reader of the dump (Loader.v) gets something else
    than the driver sent. *)
From S2P Require Import Prelude Interfaces Mukv Types Property PropStore PathRepo Session.
From S2P Require Import DumpFormat Loader Delta DeltaFacts.

Open Scope Z_scope.

(** A revision: what its log says of the changed paths, and the calls of the driver. *)
Definition logged_calls : Type := gmap bytes svn_log_changed_path * list editor_call.

Definition unlogged (calls : list editor_call) : logged_calls := (∅, calls).

(** Runs one drive per revision, each with a new editor, and returns the output of the last one. *)
Fixpoint run_revisions (revisions : list logged_calls) (d : de_state mukv)
    : outcome (de_state mukv) bytes :=
  match revisions with
  | [] => Done d []
  | (changed, calls) :: rest =>
      let d := delta_setup_editor d in
      match sample_run (sample_env (sample_opts 0 2) changed) calls d with
      | UB => UB
      | Fail d msg => Fail d msg
      | Done d' _ =>
          match rest with
          | [] => Done d' (drop (length (d_out d)) (d_out d'))
          | _ => run_revisions rest d'
          end
      end
  end.

(** The node records of an output. *)
Fixpoint read_nodes (fuel : nat) (b : bytes) : option (list node_info) :=
  match fuel with
  | O => None
  | S fuel =>
      if decide (skip_newlines b = []) then Some []
      else '(i, b) ← read_node b; l ← read_nodes fuel b; Some (i :: l)
  end.

(** What the last of several revisions writes. *)
Definition last_records (revisions : list logged_calls) : option (list node_info) :=
  match run_revisions revisions sample_state with
  | Done _ out => read_nodes (S (length out)) out
  | _ => None
  end.

Definition add_file (path : bytes) (prop text : bytes) : logged_calls :=
  unlogged [OpenRoot; AddFile path 0; ChangeProp 1 prop (Some (str "v"));
   ApplyTextdelta 1 (λ _, text); CloseFile 1; CloseDirectory 0; CloseEdit].

Definition delete_prop (path : bytes) (prop : bytes) : logged_calls :=
  unlogged [OpenRoot; OpenFile path 0; ChangeProp 1 prop None; CloseFile 1; CloseDirectory 0; CloseEdit].

Definition change_text (path : bytes) (text : bytes) : logged_calls :=
  unlogged [OpenRoot; OpenFile path 0; ApplyTextdelta 1 (λ _, text); CloseFile 1; CloseDirectory 0;
   CloseEdit].

(** Deleted properties come back: the deletion of a property is recorded for the revision in
    which it happens, but the property stays in the table that is stored for the next revision.
    After a file was added with the property [p] and [p] was deleted (which is dumped as an empty
    property block), a later change of its text dumps [p] again with its old value. *)
Theorem delta_deleted_property_returns :
  last_records [add_file (str "f") (str "p") (str "one"); delete_prop (str "f") (str "p")]
    = Some [mk_info (str "f") (str "change") (Some (str "file")) None (Some []) None] ∧
  last_records [add_file (str "f") (str "p") (str "one"); delete_prop (str "f") (str "p");
                change_text (str "f") (str "two")]
    = Some [mk_info (str "f") (str "change") (Some (str "file")) None
              (Some [PropSet (str "p") (str "v")]) (Some (str "two"))].
Proof. split; vm_compute; reflexivity. Qed.

(** Deleting a directory uses an uninitialised pointer: when the editor keeps the text of a
    file below the deleted path, the loop in [de_delete_entry] removes the file whose name
    [rhash_this] should have stored but did not.  The deletion of the file itself is fine. *)
Theorem delta_delete_entry_below :
  let add := unlogged [OpenRoot; AddDirectory (str "trunk") 0; AddFile (str "trunk/f") 1;
              ApplyTextdelta 2 (λ _, str "text"); CloseFile 2; CloseDirectory 1; CloseDirectory 0;
              CloseEdit] in
  run_revisions [add; unlogged [OpenRoot; DeleteEntry (str "trunk") 0; CloseEdit]] sample_state = UB ∧
  last_records [add; unlogged [OpenRoot; OpenDirectory (str "trunk") 0; DeleteEntry (str "trunk/f") 1;
                               CloseDirectory 1; CloseDirectory 0; CloseEdit]]
    = Some [mk_info (str "trunk/f") (str "delete") None None None None].
Proof. split; vm_compute; reflexivity. Qed.

Definition set_root_prop (prop : bytes) : logged_calls :=
  unlogged [OpenRoot; ChangeProp 0 prop (Some (str "v")); CloseDirectory 0; CloseEdit].

Definition set_dir_prop (open : bytes → nat → editor_call) (prop : bytes) : logged_calls :=
  unlogged [OpenRoot; open (str "d") 0%nat; ChangeProp 1 prop (Some (str "v")); CloseDirectory 1;
            CloseDirectory 0; CloseEdit].

(** Properties of the root get lost: [de_open_root] does not load what was stored for the root, as
    [de_open_directory] does for other directories, so that the record of a change holds the
    properties of that revision only, where a reader takes it for all of them. *)
Theorem delta_root_properties_lost :
  last_records [set_root_prop (str "p"); set_root_prop (str "q")]
    = Some [mk_info (str "/") (str "change") (Some (str "dir")) None
              (Some [PropSet (str "q") (str "v")]) None] ∧
  last_records [set_dir_prop AddDirectory (str "p"); set_dir_prop OpenDirectory (str "q")]
    = Some [mk_info (str "d") (str "change") (Some (str "dir")) None
              (Some [PropSet (str "q") (str "v"); PropSet (str "p") (str "v")]) None].
Proof. split; vm_compute; reflexivity. Qed.

(** Replacing is deleting twice: when a path is deleted and added again in one drive (a file becomes
    a directory), its log entry says that it was replaced; the deletion is written for the call
    of the driver and once more by [delta_dump_replace].  A reader cannot delete what is gone. *)
Theorem delta_replace_deletes_twice :
  let replace := ({[str "f" := mk_changed "R" None (-1)]},
    [OpenRoot; DeleteEntry (str "f") 0; AddDirectory (str "f") 0; CloseDirectory 2; CloseDirectory 0;
     CloseEdit]) in
  let deletion := mk_info (str "f") (str "delete") None None None None in
  last_records [add_file (str "f") (str "p") (str "one"); replace]
    = Some [deletion; deletion; mk_info (str "f") (str "add") (Some (str "dir")) None (Some []) None] ∧
  load_nodes ∅ {[str "f" := File ∅ (str "one")]} [deletion; deletion] = None.
Proof. split; vm_compute; reflexivity. Qed.

(** The driver sends a copy of a file, with its text and the properties [sent]. *)
Definition copy_file (src dst : bytes) (rev : Z) (sent : list bytes) (text : bytes) : logged_calls :=
  ({[dst := mk_changed "A" (Some src) rev]},
   [OpenRoot; AddFile dst 0] ++ ((λ p, ChangeProp 1 p (Some (str "v"))) <$> sent) ++
   [ApplyTextdelta 1 (λ _, text); CloseFile 1; CloseDirectory 0; CloseEdit]).

(** The text of a changed copy gets lost: [md5_hash] knows the digest of the latest text of every
    path, not of the text in the source revision.  When a copy of [f] as it was in revision 1 is
    changed to what [f] is now, the digests agree and no text is written: a reader gets the text
    of revision 1. *)
Theorem delta_copy_old_text_lost :
  let record := mk_info (str "g") (str "add") (Some (str "file")) (Some (1, str "f")) None None in
  last_records [unlogged [OpenRoot; AddFile (str "f") 0; ApplyTextdelta 1 (λ _, str "one"); CloseFile 1;
                          CloseDirectory 0; CloseEdit];
                change_text (str "f") (str "two"); copy_file (str "f") (str "g") 1 [] (str "two")]
    = Some [record] ∧
  load_nodes {[1 := {[str "f" := File ∅ (str "one")]}]} {[str "f" := File ∅ (str "two")]} [record]
    = Some {[str "f" := File ∅ (str "two"); str "g" := File ∅ (str "one")]}.
Proof. split; vm_compute; reflexivity. Qed.

(** A copy keeps the properties of its source: when all of them were deleted from the copy, the
    driver sends none, no block of properties is written, and a reader takes those of the source. *)
Theorem delta_copy_keeps_properties :
  let record := mk_info (str "g") (str "add") (Some (str "file")) (Some (1, str "f")) None None in
  let f := File {[str "p" := str "v"]} (str "one") in
  last_records [add_file (str "f") (str "p") (str "one"); copy_file (str "f") (str "g") 1 [] (str "one")]
    = Some [record] ∧
  load_nodes {[1 := {[str "f" := f]}]} {[str "f" := f]} [record] = Some {[str "f" := f; str "g" := f]}.
Proof. split; vm_compute; reflexivity. Qed.
