(* ===== verification/Dump.v ===== *)
(** The dumping process: src/dump.c.

    Revision headers, padding revisions, the user prefix, and the loop that fetches one log entry
    after the other, runs the delta editor over the difference to the revision before and commits
    the result to the path repository. *)
From S2P Require Import Prelude CritBit Interfaces Utils Types Copyfrom Property PropStore PathRepo.
From S2P Require Import Session Log DumpFormat Delta.

Open Scope Z_scope.

(** * Revision headers *)

(** [props_length += property_strlen(...)], in an [int]. *)
Definition add_prop_length (len : Z) (key : string) (value : option bytes) : Z :=
  match value with
  | Some v => i32 (len + property_strlen (Some (str key)) (Some v))
  | None => len
  end.

Definition dump_prop (key : string) (value : option bytes) : bytes :=
  match value with
  | Some v => property_dump (Some (str key)) (Some v)
  | None => []
  end.

(** What the call adds to the standard output. *)
Definition dump_revision_header (revision : log_revision) (local_revnum : Z) : bytes :=
  let props_length := add_prop_length 0 "svn:log" (lr_message revision) in
  let props_length := add_prop_length props_length "svn:author" (lr_author revision) in
  let props_length := add_prop_length props_length "svn:date" (lr_date revision) in
  let props_length := if 0 <? props_length then i32 (props_length + PROPS_END_LEN)
                      else props_length in
  header_line REVISION_NUMBER (dec local_revnum) ++
  header_line PROP_CONTENT_LENGTH (dec props_length) ++
  header_line CONTENT_LENGTH (dec props_length) ++ [nl] ++
  (if 0 <? props_length then
     dump_prop "svn:log" (lr_message revision) ++
     dump_prop "svn:author" (lr_author revision) ++
     dump_prop "svn:date" (lr_date revision) ++ PROPS_END ++ [nl]
   else []).

Definition padding_message : bytes := str "This is an empty revision for padding.".

Definition dump_padding_revision (rev : Z) : bytes :=
  let props_length := add_prop_length 0 "svn:log" (Some padding_message) in
  let props_length := i32 (props_length + PROPS_END_LEN) in
  header_line REVISION_NUMBER (dec rev) ++
  header_line PROP_CONTENT_LENGTH (dec props_length) ++
  header_line CONTENT_LENGTH (dec props_length) ++ [nl] ++
  dump_prop "svn:log" (Some padding_message) ++ PROPS_END ++ [nl].

(** * The user prefix *)

(** The loop over [s], with the output so far; the result is the output and [new_prefix]. *)
Fixpoint prefix_loop (fuel : nat) (out new_prefix s : bytes) : option (bytes * bytes) :=
  match fuel with
  | O => None
  | S fuel =>
      match strchr_from 0 s slash with
      | None => Some (out, new_prefix ++ s)
      | Some O => prefix_loop fuel out new_prefix (drop 1 s)
      | Some k =>
          let new_prefix := new_prefix ++ take k s in
          let out := out ++ header_line NODE_PATH new_prefix ++ header_line NODE_KIND (str "dir")
                     ++ header_line NODE_ACTION (str "add") ++ [nl] in
          prefix_loop fuel out (new_prefix ++ [slash]) (drop (S k) s)
      end
  end.

(** The output and the new value of [opts->prefix]. *)
Definition dump_create_user_prefix (prefix : option bytes) : option (bytes * option bytes) :=
  match prefix with
  | None => Some ([], None)
  | Some s => '(out, p) ← prefix_loop (S (length s)) [] [] s; Some (out, Some p)
  end.

Definition set_prefix (o : dump_options) (v : option bytes) : dump_options :=
  mk_opts (do_temp_dir o) v (do_start o) (do_end o) (do_flags o) (do_dump_format o).
Definition set_range (o : dump_options) (s e : Z) : dump_options :=
  mk_opts (do_temp_dir o) (do_prefix o) s e (do_flags o) (do_dump_format o).
Definition set_flags (o : dump_options) (v : Z) : dump_options :=
  mk_opts (do_temp_dir o) (do_prefix o) (do_start o) (do_end o) v (do_dump_format o).
Definition set_format (o : dump_options) (v : Z) : dump_options :=
  mk_opts (do_temp_dir o) (do_prefix o) (do_start o) (do_end o) (do_flags o) v.

(** * The process *)

(** More of the remote-access layer: [svn_ra_stat] on the session root ([created_rev] of the
    entry; the inner [None] is a missing one), [svn_ra_check_path], [svn_ra_get_uuid] and
    [svn_ra_do_diff2] with its reporter: the calls made to the editor, and whether the driver
    succeeds if they do. *)
Class RADump := {
  svn_ra_stat_created_rev : Z → option (option Z);
  svn_ra_check_path : bytes → Z → option svn_node_kind;
  svn_ra_get_uuid : option bytes;
  svn_ra_do_diff2 : Z → Z → bool → bool → list editor_call * bool
}.

(** The local variables of [dump] that its loop changes, and the options. *)
Record dump_vars := mk_vars {
  dv_opts : dump_options;
  dv_logs : list log_revision;
  dv_logs_fetched : bool;
  dv_global : Z;
  dv_local : Z;
  dv_idx : Z
}.

Section dump.
Context `{HashIter} {T : Type} `{KV T} `{Codec} `{!RA} `{!RALog} `{!RADump}.

(** As in Delta.v; [ra_fuel] bounds the depth of directories. *)
Variables (rand : nat → Z) (fuel ra_fuel : nat).
Variables (apr_md5 : bytes → option bytes) (svn_path_dirname : bytes → bytes)
  (svn_md5_digest_to_cstring : bytes → bytes) (svn_property_regular : bytes → bool).
Variable svndiff : bytes → bytes → bytes.
Variable temp_ok : nat → bool.
Variables (uninit_kind : svn_node_kind) (uninit_rev : Z) (uninit_log : log_revision).

(** The empty databases behind [property_storage_create] and [path_repo_create]; [None] when they
    cannot be created. *)
Variables (props_db repo_db : option T).

Abbreviation D := (M (de_state T)).

Definition run_editor (env : de_env) (calls : list editor_call) : D unit :=
  editor_run rand fuel apr_md5 svn_path_dirname svn_md5_digest_to_cstring svn_property_regular
    svndiff temp_ok uninit_kind uninit_rev env calls.

(** An error of a callback is an error of the driver. *)
Definition dump_do_diff (env : de_env) (src dest : Z) (start_empty : bool) : D Z := λ d,
  let '(calls, ok) := svn_ra_do_diff2 src dest start_empty
                        (negb (has_flag (v_opts env) DF_DRY_RUN)) in
  match run_editor env calls d with
  | UB => UB
  | Fail d _ => Done d 1
  | Done d _ => Done d (if ok then 0 else 1)
  end.

Definition dump_determine_end (rev : Z) : Z * Z :=
  match svn_ra_stat_created_rev rev with
  | None => (1, rev)
  | Some None => (1, rev)
  | Some (Some created) => (0, created)
  end.

Definition dump_check_path (path : bytes) (rev : Z) : svn_node_kind :=
  default svn_node_none (svn_ra_check_path path rev).

Definition dump_fetch_uuid : option bytes := svn_ra_get_uuid.

(** Non-zero on errors and for files (without [USE_SINGLEFILE_DUMP]). *)
Definition session_check_reparent (rev : Z) : Z :=
  match svn_ra_check_path [] rev with
  | None => 1
  | Some svn_node_file => 1
  | Some _ => 0
  end.

(** Operations of the components in the state. *)
Definition repo_commit (revision : Z) : D Z := λ d,
  match path_repo_commit (d_repo d) revision with
  | None => UB
  | Some (repo, ret) => Done (put_repo d repo) ret
  end.

Definition repo_discard : D Z := λ d,
  match path_repo_discard (d_repo d) with
  | None => UB
  | Some (repo, ret) => Done (put_repo d repo) ret
  end.

Definition repo_commit_log (prefix : bytes) (opts : dump_options) (log : log_revision)
    (revision : Z) (logs : list log_revision) : D Z := λ d,
  match path_repo_commit_log ra_fuel prefix opts (d_repo d) log revision logs with
  | None => UB
  | Some (repo, ret) => Done (put_repo d repo) ret
  end.

Definition storage_cleanup : D Z := λ d,
  match property_storage_cleanup (d_props d) with
  | None => UB
  | Some (ps, ret) => Done (put_props d ps) ret
  end.

Definition fetch_single (rev end_ : Z) : D (log_revision * Z) := λ d,
  match log_fetch_single rand fuel (d_session d) rev end_ uninit_log with
  | None => UB
  | Some (se, log, ret) => Done (put_session d se) (log, ret)
  end.

Definition fetch_all (start end_ : Z) (logs : list log_revision) : D (list log_revision * Z) := λ d,
  match log_fetch_all rand fuel (d_session d) start end_ logs with
  | None => UB
  | Some (se, logs, ret) => Done (put_session d se) (logs, ret)
  end.

(** The log entry at an index that may be out of range. *)
Definition log_at (logs : list log_revision) (i : Z) : D log_revision :=
  lift (if i <? 0 then None else logs !! Z.to_nat i).

Definition create_user_prefix (opts : dump_options) : D dump_options :=
  '(out, p) ← lift (dump_create_user_prefix (do_prefix opts));
  _ ← emit out;
  mret (set_prefix opts p).

(** Pads with empty revisions up to [target]; the options, the local revision and a return value. *)
Fixpoint dump_padding (k : nat) (opts : dump_options) (local target : Z)
    : D (dump_options * Z * Z) :=
  match k with
  | O => ub
  | S k =>
      if negb (local <? target) then mret (opts, local, 0)
      else
        _ ← emit (dump_padding_revision local);
        ret ← repo_commit local;
        if negb (ret =? 0) then mret (opts, local, 1)
        else
          opts ← (if local =? 1 then create_user_prefix opts else mret opts);
          dump_padding k opts (local + 1) target
  end.

(** Fetches or selects the log entry of an iteration. *)
Definition dump_fetch (v : dump_vars) : D (dump_vars * Z) :=
  if dv_logs_fetched v then
    mret (mk_vars (dv_opts v) (dv_logs v) true (dv_global v) (dv_local v) (dv_idx v + 1), 0)
  else
    '(log, ret) ← fetch_single (dv_global v) (do_end (dv_opts v));
    if negb (ret =? 0) then mret (v, 1)
    else
      let logs := dv_logs v ++ [log] in
      mret (mk_vars (dv_opts v) logs false (dv_global v) (dv_local v)
              (Z.of_nat (length logs) - 1), 0).

Definition initial_dry_run (opts : dump_options) : bool := has_flag opts DF_INITIAL_DRY_RUN.

(** The revision that the difference is based on. *)
Definition diff_base (global start : Z) : Z :=
  let diff_rev := if global - 1 <? 0 then 0 else global - 1 in
  if diff_rev <? start then start else diff_rev.

(** The padding revisions and the header in front of the nodes of a revision. *)
Definition dump_front (opts : dump_options) (local : Z) (log : log_revision)
    : D (dump_options * Z * Z) :=
  '(opts, local, ret) ←
    (if has_flag opts DF_KEEP_REVNUMS && negb (initial_dry_run opts)
     then dump_padding (S (Z.to_nat (lr_revision log - local))) opts local (lr_revision log)
     else mret (opts, local, 0));
  if negb (ret =? 0) then mret (opts, local, 1)
  else if initial_dry_run opts then mret (opts, local, 0)
  else
    _ ← emit (dump_revision_header log local);
    opts ← (if local =? 1 then create_user_prefix opts else mret opts);
    mret (opts, local, 0).

(** The difference itself and the commit of what the editor has scheduled. *)
Definition dump_nodes (prefix : bytes) (opts : dump_options) (logs : list log_revision)
    (log : log_revision) (global local : Z) : D Z :=
  _ ← modify delta_setup_editor;
  ret ← dump_do_diff (mk_env prefix opts logs log local) (diff_base global (do_start opts))
          (lr_revision log) (global =? do_start opts);
  if negb (ret =? 0) then mret 1
  else
    ret ← (if initial_dry_run opts then repo_discard else repo_commit local);
    if negb (ret =? 0) then mret 1
    else
      ret ← storage_cleanup;
      mret (if negb (ret =? 0) then 1 else 0).

(** One iteration of the loop: the new variables and [ret]. *)
Definition dump_step (prefix : bytes) (v : dump_vars) : D (dump_vars * Z) :=
  '(v, ret) ← dump_fetch v;
  if negb (ret =? 0) then mret (v, 1)
  else
    log ← log_at (dv_logs v) (dv_idx v);
    '(opts, local, ret) ← dump_front (dv_opts v) (dv_local v) log;
    if negb (ret =? 0) then mret (v, 1)
    else
      ret ← dump_nodes prefix opts (dv_logs v) log (dv_global v) local;
      if negb (ret =? 0) then mret (v, 1)
      else
        mret (mk_vars (set_flags opts (Z.land (do_flags opts) (Z.lnot DF_INITIAL_DRY_RUN)))
                (dv_logs v) (dv_logs_fetched v) (lr_revision log + 1) (local + 1) (dv_idx v), 0).

(** [do ... while (global_rev <= opts->end)] *)
Fixpoint dump_loop (k : nat) (prefix : bytes) (v : dump_vars) : D Z :=
  match k with
  | O => ub
  | S k =>
      '(v, ret) ← dump_step prefix v;
      if negb (ret =? 0) then mret ret
      else if dv_global v <=? do_end (dv_opts v) then dump_loop k prefix v
      else mret 0
  end.

(** Fills the path repository up to the start revision; the local revision and a return value. *)
Fixpoint dump_history (prefix : bytes) (opts : dump_options) (logs rest : list log_revision)
    (local : Z) : D (Z * Z) :=
  match rest with
  | [] => mret (local, 0)
  | log :: rest =>
      if lr_revision log <? do_start opts then
        let phrev := if has_flag opts DF_KEEP_REVNUMS then lr_revision log else local in
        ret ← repo_commit_log prefix opts log phrev logs;
        if negb (ret =? 0) then mret (local, 1) else dump_history prefix opts logs rest (local + 1)
      else mret (local, 0)
  end.

(** The range of revisions; the options and a return value. *)
Definition dump_range (prefix : bytes) (opts : dump_options) : D (dump_options * Z) :=
  let '(ret, end_) := dump_determine_end (do_end opts) in
  let opts := set_range opts (do_start opts) end_ in
  if negb (ret =? 0) then mret (opts, 1)
  else if (do_start opts =? 0) && (0 <? length prefix)%nat then
    '(ret, start, end_) ← lift (log_get_range (do_start opts) (do_end opts));
    mret (set_range opts start end_, ret)
  else mret (opts, if decide (dump_check_path [] (do_start opts) = svn_node_none) then 1 else 0).

(** What happens before the header is written: the options, the logs and the local revision. *)
Definition dump_prepare (prefix : bytes) (start_mid : bool) (opts : dump_options)
    (logs : list log_revision) : D (dump_options * list log_revision * Z * Z) :=
  if start_mid then
    '(logs, ret) ← fetch_all 0 (do_end opts) logs;
    if negb (ret =? 0) then mret (opts, logs, -1, 1)
    else
      '(local, ret) ← dump_history prefix opts logs logs 0;
      if negb (ret =? 0) then mret (opts, logs, local, 1)
      else
        let opts := set_flags opts (Z.lor (do_flags opts) DF_INITIAL_DRY_RUN) in
        let local := if (1 <? local) || (length prefix =? 0)%nat then local - 1 else local in
        log ← log_at logs local;
        mret (set_range opts (lr_revision log) (do_end opts), logs, local, 0)
  else
    mret (if (0 <? length prefix)%nat && (do_start opts =? 0)
          then set_range opts 1 (do_end opts) else opts, logs, -1, 0).

(** The header of the dump file; the return value. *)
Definition dump_file_header (prefix : bytes) (start_mid : bool) (opts : dump_options) : D Z :=
  if negb (has_flag opts DF_NO_INCREMENTAL_HEADER) || negb start_mid then
    _ ← emit (header_line MAGIC_HEADER (dec (do_dump_format opts)) ++ [nl]);
    if bool_decide (do_prefix opts = None) && (length prefix =? 0)%nat then
      match dump_fetch_uuid with
      | None => mret 1
      | Some uuid => _ ← emit (str "UUID: " ++ uuid ++ [nl; nl]); mret 0
      end
    else mret 0
  else mret 0.

(** The variables with which the loop is entered. *)
Definition dump_init (start_mid : bool) (opts : dump_options) (logs : list log_revision) (local : Z)
    : dump_vars :=
  let global := do_start opts in
  if start_mid then
    mk_vars opts logs true global (if has_flag opts DF_KEEP_REVNUMS then do_start opts else local)
      (local - 1)
  else mk_vars opts logs false global (if global =? 0 then 0 else 1) 0.

(** The dummy entry for revision 0. *)
Definition dummy_log : log_revision := mk_log 0 None None None None.

(** [dump], on a state whose property storage and path repository are replaced by new ones; [k]
    bounds the number of iterations. *)
Definition dump (k : nat) (opts : dump_options) : D Z :=
  d ← get;
  prefix ← lift (se_prefix (d_session d));
  let opts := if has_flag opts DF_USE_DELTAS then set_format opts 3 else opts in
  let start_mid := has_flag opts DF_INCREMENTAL && negb (do_start opts =? 0) in
  '(opts, ret) ← dump_range prefix opts;
  if negb (ret =? 0) then mret 1
  else if negb (session_check_reparent (do_start opts) =? 0) then mret 1
  else
    let logs := if (0 <? length prefix)%nat then [dummy_log] else [] in
    match props_db, repo_db with
    | Some props_db, Some repo_db =>
        _ ← modify (λ d, put_repo (put_props d (property_storage_create props_db))
                           (path_repo_create repo_db));
        '(opts, logs, local, ret) ← dump_prepare prefix start_mid opts logs;
        if negb (ret =? 0) then mret 1
        else
          ret ← dump_file_header prefix start_mid opts;
          if negb (ret =? 0) then mret 1
          else
            opts ← (if start_mid then
                      log ← log_at logs (Z.of_nat (length logs) - 1);
                      mret (set_range opts (do_start opts) (lr_revision log))
                    else mret opts);
            ret ← dump_loop k prefix (dump_init start_mid opts logs local);
            _ ← modify delta_cleanup;
            mret ret
    | _, _ => mret 1
    end.

End dump.
