(* ===== verification/DumpFacts.v ===== *)
(** Theorems about the dumping process (Dump.v): revision headers and the user prefix are read
    back, the loop ends, and where incremental dumps lose a revision. *)
From S2P Require Import Prelude CritBit Interfaces Mukv Utils Types Copyfrom Property PropStore.
From S2P Require Import PathRepo Session Log DumpFormat Stream Delta DeltaFacts DeltaDump Dump.

Open Scope Z_scope.

(** * Revision headers *)

Definition rev_line (key : string) (value : option bytes) : list prop_line :=
  match value with Some v => [PropSet (str key) v] | None => [] end.

Definition rev_lines (log : log_revision) : list prop_line :=
  rev_line "svn:log" (lr_message log) ++ rev_line "svn:author" (lr_author log) ++
  rev_line "svn:date" (lr_date log).

Definition lines_len (ls : list prop_line) : Z := foldr (λ l n, line_strlen l + n) 0 ls.

Lemma lines_len_nonneg ls : 0 <= lines_len ls.
Proof.
  induction ls as [|l ls IH]; [done|]. apply Z.add_nonneg_nonneg; [|done].
  destruct l; cbn [line_strlen]; [rewrite property_strlen_dump|rewrite property_del_strlen_dump]; lia.
Qed.

Lemma lines_len_app ls1 ls2 : lines_len (ls1 ++ ls2) = lines_len ls1 + lines_len ls2.
Proof.
  unfold lines_len. induction ls1 as [|l ls1 IH]; [done|]. cbn [app foldr]. rewrite IH. ring.
Qed.

Lemma lines_len_block ls : lines_len ls + PROPS_END_LEN = Z.of_nat (length (prop_block ls)).
Proof.
  rewrite prop_block_length. unfold lines_len. induction ls as [|l ls IH]; [done|].
  cbn [foldr]. rewrite <-IH. ring.
Qed.

Lemma lines_len_pos l ls : 0 < lines_len (l :: ls).
Proof.
  pose proof (lines_len_nonneg ls). unfold lines_len in *. cbn [foldr].
  assert (0 < line_strlen l); [|lia].
  destruct l; cbn [line_strlen]; [rewrite property_strlen_dump|rewrite property_del_strlen_dump];
    cbn [property_dump property_del_dump]; rewrite !length_app; cbn [length]; lia.
Qed.

Lemma add_prop_length_line len key v :
  0 <= len → len + lines_len (rev_line key v) < 2 ^ 31 →
  add_prop_length len key v = len + lines_len (rev_line key v).
Proof.
  intros Hl Hs. pose proof (lines_len_nonneg (rev_line key v)). destruct v as [v|]; simpl in *; [|lia].
  unfold lines_len in *. cbn [foldr] in *. rewrite Z.add_0_r in *. apply wrap_s_small; lia.
Qed.

Lemma dump_prop_line key v : dump_prop key v = concat (dump_line <$> rev_line key v).
Proof. destruct v; [|done]. cbn. by rewrite app_nil_r. Qed.

Lemma dump_props_lines log rest :
  dump_prop "svn:log" (lr_message log) ++ dump_prop "svn:author" (lr_author log) ++
  dump_prop "svn:date" (lr_date log) ++ rest = concat (dump_line <$> rev_lines log) ++ rest.
Proof. unfold rev_lines. by rewrite !fmap_app, !concat_app, !dump_prop_line, <-!app_assoc. Qed.

(** The number announced for some lines. *)
Lemma announced_length ls :
  lines_len ls + PROPS_END_LEN < 2 ^ 31 →
  (if 0 <? lines_len ls then i32 (lines_len ls + PROPS_END_LEN) else lines_len ls)
  = Z.of_nat (length (rev_body ls)).
Proof.
  intros Hlen. unfold PROPS_END_LEN in *. destruct ls as [|l ls]; [done|].
  pose proof (lines_len_pos l ls). rewrite (proj2 (Z.ltb_lt _ _)), wrap_s_small by lia.
  apply lines_len_block.
Qed.

(** The text of a revision header. *)
Lemma dump_revision_header_text log local :
  lines_len (rev_lines log) + PROPS_END_LEN < 2 ^ 31 →
  dump_revision_header log local =
    print_headers (rev_headers local (Z.of_nat (length (rev_body (rev_lines log))))) ++ [nl] ++
    rev_body (rev_lines log) ++ (match rev_lines log with [] => [] | _ => [nl] end).
Proof.
  intros Hlen. pose proof Hlen as Hsum. unfold rev_lines in Hsum. rewrite !lines_len_app in Hsum.
  pose proof (lines_len_nonneg (rev_line "svn:log" (lr_message log))).
  pose proof (lines_len_nonneg (rev_line "svn:author" (lr_author log))).
  pose proof (lines_len_nonneg (rev_line "svn:date" (lr_date log))).
  unfold dump_revision_header. unfold PROPS_END_LEN in Hsum.
  rewrite (add_prop_length_line 0), !add_prop_length_line by (rewrite ?add_prop_length_line; lia).
  rewrite Z.add_0_l, <-!lines_len_app, <-app_assoc. fold (rev_lines log).
  rewrite announced_length, dump_props_lines by done.
  unfold rev_headers. rewrite !print_headers_cons, print_headers_nil, app_nil_r, <-!app_assoc.
  do 4 f_equal. destruct (rev_lines log) as [|l ls]; [done|].
  pose proof (lines_len_block (l :: ls)) as Hb. pose proof (lines_len_pos l ls).
  cbn [rev_body]. rewrite <-Hb. unfold PROPS_END_LEN.
  rewrite (proj2 (Z.ltb_lt _ _)) by lia. unfold prop_block. by rewrite <-!app_assoc.
Qed.

Lemma dump_revision_header_reads log local rest :
  0 <= local → Forall line_ok (rev_lines log) → lines_len (rev_lines log) + PROPS_END_LEN < 2 ^ 31 →
  ∃ rest', read_revision (dump_revision_header log local ++ rest)
             = Some (local, rev_lines log, rest') ∧ skip_newlines rest' = skip_newlines rest.
Proof.
  intros Hl Hok Hlen. rewrite dump_revision_header_text, <-!app_assoc by done.
  eexists. split; [by apply (read_revision_print 0)|]. by destruct (rev_lines log).
Qed.

(** A padding revision is an empty revision with a log message. *)
Definition padding_log : log_revision := mk_log 0 None None (Some padding_message) None.

Lemma dump_padding_header rev : dump_padding_revision rev = dump_revision_header padding_log rev.
Proof. reflexivity. Qed.

(** * The user prefix *)

Fixpoint split_slash (s : bytes) : list bytes :=
  match s with
  | [] => [[]]
  | c :: s =>
      if decide (c = slash) then [] :: split_slash s
      else match split_slash s with [] => [[c]] | w :: l => (c :: w) :: l end
  end.

(** The directories of a prefix: the non-empty components in front of the last slash. *)
Definition prefix_dirs (s : bytes) : list bytes := filter (λ w, w ≠ []) (removelast (split_slash s)).

(** What follows the last slash. *)
Definition prefix_tail (s : bytes) : bytes := default [] (last (split_slash s)).

Definition join_dirs (l : list bytes) : bytes := concat ((λ w, w ++ [slash]) <$> l).

(** The nodes that are added for the directories [l] below [base]. *)
Fixpoint dir_nodes (base : bytes) (l : list bytes) : list node_info :=
  match l with
  | [] => []
  | w :: l => mk_info (base ++ w) (str "add") (Some (str "dir")) None None None ::
              dir_nodes (base ++ w ++ [slash]) l
  end.

Definition dir_record (path : bytes) : bytes :=
  header_line NODE_PATH path ++ header_line NODE_KIND (str "dir") ++
  header_line NODE_ACTION (str "add") ++ [nl].

Lemma dir_record_read path rest :
  nl ∉ path →
  read_node (dir_record path ++ rest)
    = Some (mk_info path (str "add") (Some (str "dir")) None None None, rest).
Proof.
  intros Hp. set (i := mk_info _ _ _ _ _ _).
  pose proof (read_node_print 0 [(NODE_PATH, path); (NODE_KIND, str "dir");
    (NODE_ACTION, str "add")] i rest) as Hr.
  rewrite !print_headers_cons, print_headers_nil, app_nil_r, <-!app_assoc in Hr.
  unfold dir_record. rewrite <-!app_assoc. apply Hr; try done.
  repeat constructor; try done; eval_decide.
Qed.

Lemma dir_record_chunk path :
  nl ∉ path →
  chunk (NodeItem (mk_info path (str "add") (Some (str "dir")) None None None)) (dir_record path).
Proof.
  intros Hp. set (i := mk_info _ _ _ _ _ _).
  set (hs := [(NODE_PATH, path); (NODE_KIND, str "dir"); (NODE_ACTION, str "add")]).
  assert (dir_record path = print_headers hs ++ [nl] ++ info_body i ++ replicate 0 nl) as ->.
  { unfold hs, dir_record. rewrite !print_headers_cons, print_headers_nil, app_nil_r.
    by rewrite <-!app_assoc. }
  assert (Forall header_ok hs) as Hhs by (repeat constructor; try done; eval_decide).
  apply chunk_node; try done. intros k rest. by apply read_node_print.
Qed.

Lemma split_slash_app w s :
  slash ∉ w → split_slash (w ++ slash :: s) = w :: split_slash s.
Proof.
  induction w as [|c w IH]; intros Hw; cbn [app split_slash]; [by rewrite decide_True|].
  rewrite decide_False by set_solver. by rewrite IH by set_solver.
Qed.

Lemma split_slash_none s : slash ∉ s → split_slash s = [s].
Proof.
  induction s as [|c s IH]; intros Hs; cbn [split_slash]; [done|].
  rewrite decide_False by set_solver. by rewrite IH by set_solver.
Qed.

Lemma split_slash_ne s : split_slash s ≠ [].
Proof. destruct s as [|c s]; simpl; [done|]. case_decide; [done|]. by destruct (split_slash s). Qed.

Lemma prefix_dirs_cons w s :
  slash ∉ w →
  prefix_dirs (w ++ slash :: s) = (if decide (w = []) then [] else [w]) ++ prefix_dirs s ∧
  prefix_tail (w ++ slash :: s) = prefix_tail s.
Proof.
  intros Hw. unfold prefix_dirs, prefix_tail. rewrite split_slash_app by done.
  pose proof (split_slash_ne s). destruct (split_slash s) as [|x l] eqn:Hs; [done|].
  change (removelast (w :: x :: l)) with (w :: removelast (x :: l)).
  rewrite filter_cons. split; [by repeat case_decide|done].
Qed.

Lemma join_dirs_app l1 l2 : join_dirs (l1 ++ l2) = join_dirs l1 ++ join_dirs l2.
Proof. unfold join_dirs. by rewrite fmap_app, concat_app. Qed.

Lemma strchr_split s :
  match strchr_from 0 s slash with
  | Some k => s = take k s ++ slash :: drop (S k) s ∧ slash ∉ take k s
  | None => slash ∉ s
  end.
Proof.
  pose proof (strchr_from_spec 0 s slash) as Hs. destruct (strchr_from 0 s slash) as [k|].
  - destruct Hs as (_ & Hk & Hno). split; [by rewrite take_drop_middle|].
    intros [i Hi]%list_elem_of_lookup. apply lookup_take_Some in Hi as [Hi Hlt].
    apply (Hno i); [lia|done].
  - intros [i Hi]%list_elem_of_lookup. apply (Hs i); [lia|done].
Qed.

(** What the loop returns: the new prefix is the old one without superfluous slashes, and the
    output adds one directory per component that is followed by a slash. *)
Lemma prefix_loop_spec fuel out np s :
  (length s < fuel)%nat → nl ∉ np → nl ∉ s →
  ∃ recs, prefix_loop fuel out np s
            = Some (out ++ recs, np ++ join_dirs (prefix_dirs s) ++ prefix_tail s) ∧
    (∀ rest, reads (dir_nodes np (prefix_dirs s)) (recs ++ rest) rest) ∧
    (length (join_dirs (prefix_dirs s) ++ prefix_tail s) <= length s)%nat ∧
    stream (NodeItem <$> dir_nodes np (prefix_dirs s)) recs ∧
    nl ∉ join_dirs (prefix_dirs s) ++ prefix_tail s.
Proof.
  revert out np s. induction fuel as [|fuel IH]; intros out np s Hf Hnp Hs; [lia|].
  cbn [prefix_loop]. pose proof (strchr_split s) as Hsplit.
  destruct (strchr_from 0 s slash) as [k|].
  2:{ unfold prefix_dirs, prefix_tail. rewrite split_slash_none by done. cbn.
      exists []. rewrite app_nil_r. split_and!; [done..|apply stream_nil|done]. }
  destruct Hsplit as [Heq Hno]. set (w := take k s) in *. set (s' := drop (S k) s) in *.
  destruct (prefix_dirs_cons w s' Hno) as [Hd Ht]. rewrite <-Heq in Hd, Ht.
  assert (length s = S (length w + length s')) as Hlen.
  { rewrite Heq, length_app. simpl. lia. }
  assert (nl ∉ w ∧ nl ∉ s') as [Hw Hs'] by (rewrite Heq in Hs; set_solver).
  rewrite Hd, Ht. destruct k as [|k].
  - change (take 0 s) with (@nil ascii) in w. subst w. rewrite decide_True by done. cbn [app].
    change (drop 1 s) with s'. destruct (IH out np s') as (recs & -> & Hr & Hl & Hst & Hj);
      [lia|done|done|].
    exists recs. split_and!; [done|done|lia|done|done].
  - assert (w ≠ []) as Hne. { subst w. destruct s; [|done]. done. }
    rewrite decide_False by done. cbv zeta. fold w. fold s'.
    destruct (IH (out ++ header_line NODE_PATH (np ++ w) ++ header_line NODE_KIND (str "dir") ++
      header_line NODE_ACTION (str "add") ++ [nl]) ((np ++ w) ++ [slash]) s') as (recs & Hl & Hr & Hb & Hst & Hj);
      [lia|rewrite not_elem_of_app; split; [set_solver|eval_decide]|done|].
    exists (dir_record (np ++ w) ++ recs). rewrite Hl. split_and!.
    + f_equal. f_equal; [unfold dir_record; by rewrite <-!app_assoc|]. rewrite join_dirs_app. cbn.
      by rewrite <-!app_assoc.
    + intros rest. cbn [app dir_nodes reads]. eexists.
      rewrite <-!app_assoc. split; [apply dir_record_read; set_solver|].
      rewrite <-app_assoc in Hr. apply Hr.
    + rewrite join_dirs_app. cbn. rewrite app_nil_r, !length_app in *. simpl. lia.
    + cbn [app dir_nodes fmap list_fmap]. apply (stream_app [_]).
      * apply stream_chunk, dir_record_chunk. set_solver.
      * by rewrite <-app_assoc in Hst.
    + rewrite join_dirs_app. cbn. rewrite app_nil_r, <-!app_assoc, !not_elem_of_app in *.
      split_and!; [done|eval_decide|apply Hj..].
Qed.

(** * Padding *)

(** The stream [b] holds revision records in front of [rest]. *)
Fixpoint reads_revisions (l : list (Z * list prop_line)) (b rest : bytes) : Prop :=
  match l with
  | [] => skip_newlines b = skip_newlines rest
  | (rev, ls) :: l =>
      ∃ b', read_revision (skip_newlines b) = Some (rev, ls, b') ∧ reads_revisions l b' rest
  end.

Lemma reads_revisions_newline l b rest :
  reads_revisions l (nl :: b) rest ↔ reads_revisions l b rest.
Proof. by destruct l as [|[] l]. Qed.

Lemma skip_revision_header log rev b :
  skip_newlines (dump_revision_header log rev ++ b) = dump_revision_header log rev ++ b.
Proof. done. Qed.

Definition padding_lines : list prop_line := [PropSet (str "svn:log") padding_message].

Lemma reads_header log rev l b rest :
  0 <= rev → Forall line_ok (rev_lines log) → lines_len (rev_lines log) + PROPS_END_LEN < 2 ^ 31 →
  reads_revisions l b rest →
  reads_revisions ((rev, rev_lines log) :: l) (dump_revision_header log rev ++ b) rest.
Proof.
  intros Hrev Hok Hlen Hl. cbn [reads_revisions]. rewrite skip_revision_header.
  rewrite dump_revision_header_text, <-!app_assoc by done.
  eexists. split; [by apply (read_revision_print 0)|].
  destruct (rev_lines log); [done|]. by apply reads_revisions_newline.
Qed.

Lemma reads_padding rev l b rest :
  0 <= rev → reads_revisions l b rest →
  reads_revisions ((rev, padding_lines) :: l) (dump_padding_revision rev ++ b) rest.
Proof.
  intros Hrev Hl. rewrite dump_padding_header.
  apply (reads_header padding_log); [done|eval_decide|vm_compute; reflexivity|done].
Qed.

Section padding.
Context `{HashIter} {T : Type} `{KV T} `{Codec}.

Implicit Types (d : de_state T).

(** A commit between two states of the history. *)
Lemma run_repo_commit d s revision :
  pr_inv (d_repo d) s → pr_op_ok s (PCommit revision) →
  ∃ d' ret s', repo_commit revision d = Done d' ret ∧ pr_spec_step s (PCommit revision) ret s' ∧
    pr_inv (d_repo d') s' ∧ d_out d' = d_out d.
Proof.
  intros Hinv Hok. destruct (path_repo_commit_inv (d_repo d) s revision Hinv Hok) as
    (repo & ret & s' & Hc & Hs & Hinv'). unfold repo_commit. rewrite Hc. by do 3 eexists.
Qed.

(** The revisions that padding adds, and the history behind them. *)
Definition padded (local target : Z) : list (Z * list prop_line) :=
  (λ r, (r, padding_lines)) <$> seqZ local (target - local).

(** [s'] is [s] after commits of its working set at all revisions from [local] to [target]. *)
Record padded_spec (s s' : pr_spec) (local target : Z) : Prop := {
  pd_hist : ∀ r, sp_hist s' r = if (r <? local) || (target <=? local) then sp_hist s r else sp_work s;
  pd_last : sp_last s' = if local <? target then target - 1 else sp_last s;
  pd_work : sp_work s' = sp_work s
}.

Lemma padded_cons local target :
  local < target → padded local target = (local, padding_lines) :: padded (local + 1) target.
Proof.
  intros Hlt. unfold padded. rewrite seqZ_cons by lia.
  replace (Z.pred (target - local)) with (target - (local + 1)) by lia. done.
Qed.

Lemma padded_nil local target : target <= local → padded local target = [].
Proof. intros Hle. unfold padded. by rewrite seqZ_nil by lia. Qed.

Lemma padded_spec_cons s s' local target :
  local < target →
  padded_spec (mk_spec (λ r, if r <? local then sp_hist s r else sp_work s) local (sp_work s) 0) s'
    (local + 1) target →
  padded_spec s s' local target.
Proof.
  intros Hlt [Hh Hl Hw]. cbn [sp_hist sp_last sp_work] in *. split; [|rewrite Hl|done].
  - intros r. rewrite Hh.
    repeat (match goal with |- context [?a <? ?b] => destruct (Z.ltb_spec a b)
            | |- context [?a <=? ?b] => destruct (Z.leb_spec a b) end; cbn [orb]; try lia; try done).
  - repeat (match goal with |- context [?a <? ?b] => destruct (Z.ltb_spec a b) end); lia.
Qed.

(** When [dump_padding] can commit. *)
Definition pads_ok (s : pr_spec) (local target : Z) : Prop :=
  0 <= local ∧ target <= 2 ^ 31 ∧ sp_last s < local ∧
  (∀ r, sp_last s < r < local → pr_snapshot r = false) ∧
  Z.of_nat (sp_pend s) < 2 ^ 31 ∧ Z.of_nat (set_size (sp_work s)) < 2 ^ 31.

Lemma run_no_prefix d opts :
  do_prefix opts = None → create_user_prefix opts d = Done d opts.
Proof.
  intros Hp. unfold create_user_prefix. rewrite Hp. cbn [dump_create_user_prefix].
  rewrite (run_bind _ _ _ _ _ (run_lift _ _)), (run_bind _ _ _ _ _ (run_emit _ _)), app_nil_r.
  destruct d, opts. cbn in *. by subst.
Qed.

Lemma run_padding d s k opts local target :
  do_prefix opts = None → pr_inv (d_repo d) s → pads_ok s local target →
  (Z.to_nat (target - local) < k)%nat →
  ∃ d' local' ret, dump_padding k opts local target d = Done d' (opts, local', ret) ∧
    (ret = 1 ∨
     (ret = 0 ∧ local' = Z.max local target ∧
      (∃ s', pr_inv (d_repo d') s' ∧ padded_spec s s' local target) ∧
      ∃ text, d_out d' = d_out d ++ text ∧
        ∀ l b rest, reads_revisions l b rest →
          reads_revisions (padded local target ++ l) (text ++ b) rest)).
Proof.
  intros Hpre. revert d s local. induction k as [|k IH]; intros d s local Hinv Hok Hk; [lia|].
  cbn [dump_padding]. destruct (Z.ltb_spec local target) as [Hlt|Hge]; cbn [negb].
  2:{ exists d, local, 0. split; [done|]. right. split; [done|]. split; [lia|].
      rewrite padded_nil by done. split.
      - exists s. split; [done|]. split; [|by rewrite (proj2 (Z.ltb_ge _ _))|done].
        intros r. by rewrite (proj2 (Z.leb_le _ _)), orb_true_r.
      - exists []. by rewrite app_nil_r. }
  destruct Hok as (Hlo & Ht & Hlast & Hsn & Hpend & Hsize).
  rewrite (run_bind _ _ _ _ _ (run_emit _ _)).
  destruct (run_repo_commit (put_out d (d_out d ++ dump_padding_revision local)) s local) as
    (d1 & ret & s1 & Hrun & Hstep & Hinv1 & Ho1); [done|by split_and!; try lia|].
  rewrite (run_bind _ _ _ _ _ Hrun).
  inversion Hstep; subst; cbn [negb Z.eqb]; [|exists d1, local, 1; split; [done|by left]].
  assert ((if local =? 1 then create_user_prefix opts else mret opts) d1 = Done d1 opts) as Hpref
    by (destruct (local =? 1); [by apply run_no_prefix|done]).
  rewrite (run_bind _ _ _ _ _ Hpref).
  destruct (IH d1 _ (local + 1) Hinv1) as (d' & local' & ret & Hrun' & Hres).
  { split_and!; cbn [sp_last sp_pend sp_work]; try lia; try done. }
  { lia. }
  exists d', local', ret. split; [done|]. destruct Hres as [?|(-> & -> & (s' & Hinv' & Hs') & text & Ho & Hr)];
    [by left|right]. split; [done|]. split; [lia|]. split.
  { exists s'. split; [done|]. by apply padded_spec_cons. }
  exists (dump_padding_revision local ++ text). split.
  { rewrite Ho, Ho1. cbn. by rewrite <-app_assoc. }
  intros l b rest Hl. rewrite padded_cons, <-app_assoc by done. apply reads_padding; [done|]. by apply Hr.
Qed.

End padding.

(** * Termination *)

(** Every result of [m] satisfies [P]. *)
Definition yields {St A} (m : M St A) (P : A → Prop) : Prop := ∀ d d' x, m d = Done d' x → P x.

Lemma yields_bind {St A B} (m : M St A) (k : A → M St B) P Q :
  yields m P → (∀ x, P x → yields (k x) Q) → yields (m ≫= k) Q.
Proof.
  intros Hm Hk d d' y. unfold mbind, M_bind. destruct (m d) as [| |d1 x] eqn:Hd; [done|done|].
  intros Hy. by eapply Hk; [eapply Hm|].
Qed.

Lemma yields_seq {St A B} (m : M St A) (k : A → M St B) Q :
  (∀ x, yields (k x) Q) → yields (m ≫= k) Q.
Proof. intros Hk. by apply (yields_bind m k (λ _, True)). Qed.

Lemma yields_ret {St A} (x : A) (P : A → Prop) : P x → yields (St := St) (mret x) P.
Proof. intros HP d d' y [= _ <-]. done. Qed.

Lemma yields_if {St A} (b : bool) (m1 m2 : M St A) P :
  (b = true → yields m1 P) → (b = false → yields m2 P) → yields (if b then m1 else m2) P.
Proof. destruct b; auto. Qed.

Section termination.
Context `{HashIter} {T : Type} `{KV T} `{Codec} `{!RA} `{!RALog} `{!RADump}.

Abbreviation D := (M (de_state T)).

Lemma create_user_prefix_end opts :
  yields (create_user_prefix opts : D _) (λ o, do_end o = do_end opts).
Proof. unfold create_user_prefix. apply yields_seq. intros [out p]. apply yields_seq. by intros _; apply yields_ret. Qed.

Lemma prefix_if_end (b : bool) opts :
  yields (if b then create_user_prefix opts else mret opts : D _) (λ o, do_end o = do_end opts).
Proof. apply yields_if; intros _; [apply create_user_prefix_end|by apply yields_ret]. Qed.

Lemma dump_padding_end k opts local target :
  yields (dump_padding k opts local target : D _) (λ r, do_end (r.1.1) = do_end opts).
Proof.
  revert opts local. induction k as [|k IH]; intros opts local; [done|]. cbn [dump_padding].
  apply yields_if; intros _; [by apply yields_ret|].
  apply yields_seq. intros _. apply yields_seq. intros ret.
  apply yields_if; intros _; [by apply yields_ret|].
  eapply yields_bind; [apply prefix_if_end|]. intros o <-. apply IH.
Qed.

Lemma dump_front_end opts local log :
  yields (dump_front opts local log : D _) (λ r, do_end (r.1.1) = do_end opts).
Proof.
  unfold dump_front.
  apply (yields_bind _ _ (λ r : dump_options * Z * Z, do_end (r.1.1) = do_end opts)).
  - apply yields_if; intros _; [apply dump_padding_end|by apply yields_ret].
  - intros [[o l] ret] Ho. simpl in Ho. apply yields_if; intros _; [by apply yields_ret|].
    apply yields_if; intros _; [by apply yields_ret|]. apply yields_seq. intros _.
    eapply yields_bind; [apply prefix_if_end|]. intros o' Ho'. apply yields_ret. simpl. congruence.
Qed.

Variables (rand : nat → Z) (fuel : nat).
Variables (apr_md5 : bytes → option bytes) (svn_path_dirname : bytes → bytes)
  (svn_md5_digest_to_cstring : bytes → bytes) (svn_property_regular : bytes → bool).
Variable svndiff : bytes → bytes → bytes.
Variable temp_ok : nat → bool.
Variables (uninit_kind : svn_node_kind) (uninit_rev : Z) (uninit_log : log_revision).

(** Asked for the log from a revision to the last one, the server delivers an entry that is not
    older than that revision. *)
Variable last_rev : Z.
Hypothesis Hserver : ∀ rev es, rev <= last_rev → svn_ra_get_log rev last_rev 1 = (es, true) →
  ∃ es' e, es = es' ++ [e] ∧ rev <= le_revision e.

(** Entries are fetched one by one, and some are left. *)
Definition in_range (v : dump_vars) : Prop :=
  dv_logs_fetched v = false → do_end (dv_opts v) = last_rev ∧ dv_global v <= last_rev.

Lemma log_receiver_revision se e se' log :
  log_receiver rand fuel se e = Some (se', log) → lr_revision log = le_revision e.
Proof. unfold log_receiver. intros Hr. repeat (simplify_option_eq || case_match); done. Qed.

Lemma fetch_single_newer rev :
  rev <= last_rev →
  yields (fetch_single rand fuel uninit_log rev last_rev : D _)
    (λ r, r.2 = 0 → rev <= lr_revision (r.1)).
Proof.
  intros Hle d d' [log ret]. unfold fetch_single, log_fetch_single.
  destruct (svn_ra_get_log rev last_rev 1) as [es ok] eqn:Hlog.
  destruct ok.
  - destruct (Hserver _ _ Hle Hlog) as (es' & e & -> & He). rewrite foldl_app. cbn [foldl].
    destruct (foldl _ _ es') as [[se1 log1]|]; [|done]. cbn [mbind option_bind].
    destruct (log_receiver rand fuel se1 e) as [[se2 log2]|] eqn:Hr; [|done]. cbn.
    intros [= _ <- _] _. simpl. by rewrite (log_receiver_revision _ _ _ _ Hr).
  - destruct (foldl _ _ es) as [[se1 log1]|]; [|done]. cbn. intros [= _ _ <-]. simpl. lia.
Qed.

Lemma dump_fetch_spec v :
  in_range v →
  yields (dump_fetch rand fuel uninit_log v : D _) (λ r, r.2 = 0 →
    if dv_logs_fetched v
    then r.1 = mk_vars (dv_opts v) (dv_logs v) true (dv_global v) (dv_local v) (dv_idx v + 1)
    else ∃ log, dv_global v <= lr_revision log ∧
      r.1 = mk_vars (dv_opts v) (dv_logs v ++ [log]) false (dv_global v) (dv_local v)
              (Z.of_nat (length (dv_logs v)))).
Proof.
  unfold in_range, dump_fetch. intros Hle. destruct (dv_logs_fetched v); [by apply yields_ret|].
  destruct (Hle eq_refl) as [-> Hglobal].
  eapply yields_bind; [by apply fetch_single_newer|]. intros [log ret] Hlog. simpl in Hlog.
  apply yields_if; intros Hret; apply yields_ret; [done|]. intros _. exists log.
  apply negb_false_iff, Z.eqb_eq in Hret. split; [by apply Hlog|].
  cbn [fst]. f_equal. rewrite length_app. simpl. lia.
Qed.

Lemma log_at_spec logs i :
  yields (log_at logs i : D _) (λ log, 0 <= i ∧ logs !! Z.to_nat i = Some log).
Proof.
  intros d d' log. unfold log_at, lift. destruct (Z.ltb_spec i 0); [done|].
  destruct (logs !! Z.to_nat i) eqn:Hl; [|done]. intros [= _ <-]. done.
Qed.

Abbreviation dump_step := (dump_step rand fuel apr_md5 svn_path_dirname svn_md5_digest_to_cstring
  svn_property_regular svndiff temp_ok uninit_kind uninit_rev uninit_log).
Abbreviation dump_loop := (dump_loop rand fuel apr_md5 svn_path_dirname svn_md5_digest_to_cstring
  svn_property_regular svndiff temp_ok uninit_kind uninit_rev uninit_log).

(** How many iterations can follow. *)
Definition steps_left (v : dump_vars) : nat :=
  if dv_logs_fetched v then Z.to_nat (Z.of_nat (length (dv_logs v)) - 1 - Z.max (-1) (dv_idx v))
  else Z.to_nat (do_end (dv_opts v) + 1 - dv_global v).

Lemma dump_step_spec prefix v :
  in_range v →
  yields (dump_step prefix v : D _) (λ r, r.2 = 0 → (steps_left (r.1) < steps_left v)%nat ∧
    dv_logs_fetched (r.1) = dv_logs_fetched v ∧ do_end (dv_opts (r.1)) = do_end (dv_opts v)).
Proof.
  intros Hle. unfold Dump.dump_step.
  eapply yields_bind; [by apply dump_fetch_spec|]. intros [v1 ret1] Hv1. simpl in Hv1.
  apply yields_if; intros Hret1; [by apply yields_ret|].
  apply negb_false_iff, Z.eqb_eq in Hret1. specialize (Hv1 Hret1).
  eapply yields_bind; [apply log_at_spec|]. intros log [Hidx Hlog].
  eapply yields_bind; [apply dump_front_end|]. intros [[opts local] ret2] Hend. simpl in Hend.
  apply yields_if; intros _; [by apply yields_ret|]. apply yields_seq. intros ret3.
  apply yields_if; intros _; [by apply yields_ret|]. apply yields_ret. intros _.
  unfold steps_left. cbn [fst dv_opts dv_logs dv_logs_fetched dv_global dv_idx set_flags do_end].
  pose proof (lookup_lt_Some _ _ _ Hlog) as Hlt.
  destruct (dv_logs_fetched v) eqn:Hf.
  - subst v1. simpl in *. split; [lia|done].
  - destruct Hv1 as (log' & Hnew & ->). destruct (Hle Hf) as [Hlast Hglobal]. simpl in *.
    rewrite Nat2Z.id, list_lookup_middle in Hlog by done. injection Hlog as <-.
    rewrite Hend. split; [lia|done].
Qed.

Lemma dump_loop_fuel prefix n k1 k2 v (d : de_state T) :
  in_range v → (steps_left v < n)%nat → (n <= k1)%nat → (n <= k2)%nat →
  dump_loop k1 prefix v d = dump_loop k2 prefix v d.
Proof.
  revert k1 k2 v d. induction n as [|n IH]; intros k1 k2 v d Hle Hn H1' H2'; [lia|].
  destruct k1 as [|k1], k2 as [|k2]; [lia..|]. cbn [Dump.dump_loop].
  unfold mbind at 1 2, M_bind. destruct (dump_step prefix v d) as [| |d1 [v1 ret]] eqn:Hstep; try done.
  pose proof (dump_step_spec prefix v Hle d d1 _ Hstep) as Hlt. simpl in Hlt.
  destruct (negb (ret =? 0)) eqn:Hret; [done|]. apply negb_false_iff, Z.eqb_eq in Hret.
  destruct (Hlt Hret) as (Hless & Hf & Hend).
  destruct (Z.leb_spec (dv_global v1) (do_end (dv_opts v1))); [|done].
  apply IH; [|lia..]. intros Hv1. rewrite Hf in Hv1. destruct (Hle Hv1) as [Hlast _].
  split; congruence || lia.
Qed.

End termination.

(** * Properties *)

(** C24. Revision headers read back: for a log entry whose message, author and date are C strings
    that fit an [int] together, the record has the local revision number, announces the length of
    its property block correctly in both length headers (zero, and no block at all, when there is
    nothing to say), and holds exactly the properties that are present; a padding revision is the
    record of an empty revision with a fixed message. *)
Theorem dump_revision_header_roundtrip (log : log_revision) (local : Z) (rest : bytes) :
  0 <= local → Forall line_ok (rev_lines log) →
  lines_len (rev_lines log) + PROPS_END_LEN < 2 ^ 31 →
  (∃ rest', read_revision (dump_revision_header log local ++ rest)
              = Some (local, rev_lines log, rest') ∧ skip_newlines rest' = skip_newlines rest) ∧
  (∃ rest', read_revision (dump_padding_revision local ++ rest)
              = Some (local, [PropSet (str "svn:log") padding_message], rest') ∧
     skip_newlines rest' = skip_newlines rest).
Proof.
  intros Hl Hok Hlen. split; [by apply dump_revision_header_reads|].
  rewrite dump_padding_header. apply (dump_revision_header_reads padding_log); [done|eval_decide|].
  vm_compute. reflexivity.
Qed.

Lemma dump_revision_header_roundtrip_witness :
  let log := mk_log 12 (Some (str "me")) (Some (str "2011-01-01")) None None in
  ∃ rest', read_revision (dump_revision_header log 3 ++ [nl]) =
    Some (3, [PropSet (str "svn:author") (str "me"); PropSet (str "svn:date") (str "2011-01-01")],
          rest') ∧ skip_newlines rest' = [].
Proof.
  intros log. assert (0 <= 3) as Hl by lia. assert (Forall line_ok (rev_lines log)) as Hok by eval_decide.
  assert (lines_len (rev_lines log) + PROPS_END_LEN < 2 ^ 31) as Hlen by (vm_compute; reflexivity).
  destruct (proj1 (dump_revision_header_roundtrip log 3 [nl] Hl Hok Hlen)) as (rest' & Hr & Hs).
  exists rest'. split; [exact Hr|exact Hs].
Defined.

(** C25. The user prefix is set up completely: [dump_create_user_prefix] always ends, the new prefix
    consists of the non-empty components of the old one with single slashes (and whatever follows
    its last slash), it fits the buffer allocated for it, and the records written are, for a
    prefix without newlines, the additions of exactly the directories on the way, parents
    first. *)
Theorem dump_create_user_prefix_correct (prefix : bytes) :
  nl ∉ prefix →
  let p := join_dirs (prefix_dirs prefix) ++ prefix_tail prefix in
  ∃ out, dump_create_user_prefix (Some prefix) = Some (out, Some p) ∧
    (length p <= length prefix)%nat ∧
    ∀ rest, reads (dir_nodes [] (prefix_dirs prefix)) (out ++ rest) rest.
Proof.
  intros Hp p. destruct (prefix_loop_spec (S (length prefix)) [] [] prefix) as (out & Hl & Hr & Hb & _);
    [lia|set_solver|done|].
  exists out. unfold dump_create_user_prefix. by rewrite Hl.
Qed.

Lemma dump_create_user_prefix_correct_witness :
  ∃ out, dump_create_user_prefix (Some (str "/a//b/c")) = Some (out, Some (str "a/b/c")) ∧
    reads [mk_info (str "a") (str "add") (Some (str "dir")) None None None;
           mk_info (str "a/b") (str "add") (Some (str "dir")) None None None] out [].
Proof.
  assert (nl ∉ str "/a//b/c") as Hp by eval_decide.
  destruct (dump_create_user_prefix_correct (str "/a//b/c") Hp) as (out & Ho & _ & Hr).
  exists out. split; [exact Ho|]. specialize (Hr []). rewrite app_nil_r in Hr. exact Hr.
Defined.

(** ** A sample repository

    The directory [trunk] was created in revision 5 with the file [a]; revision 7 added [b]. *)
Definition sample_entries : list svn_log_entry :=
  [mk_entry (Some {[str "/trunk" := mk_changed "A"%char None (-1);
                    str "/trunk/a" := mk_changed "A"%char None (-1)]}) 5 None None None;
   mk_entry (Some {[str "/trunk/b" := mk_changed "A"%char None (-1)]}) 7 None None None].

Definition sample_ralog : RALog :=
  {| svn_ra_get_log start end_ limit :=
       let es := if start <=? end_
                 then filter (λ e, start <= le_revision e <= end_) sample_entries
                 else reverse (filter (λ e, end_ <= le_revision e <= start) sample_entries) in
       (if limit =? 0 then es else take (Z.to_nat limit) es, true) |}.

Definition sample_ra : RADump :=
  {| svn_ra_stat_created_rev rev := Some (Some 7);
     svn_ra_check_path path rev := Some (if rev <? 5 then svn_node_none else svn_node_dir);
     svn_ra_get_uuid := Some (str "uuid");
     svn_ra_do_diff2 src dest start_empty text_deltas :=
       (OpenRoot ::
          (if (dest <? 5) || (negb start_empty && (5 <=? src)) then []
           else [AddFile (str "a") 0; CloseFile 1]) ++
          (if (dest <? 7) || (negb start_empty && (7 <=? src)) then []
           else [AddFile (str "b") 0; CloseFile 1]) ++
          [CloseDirectory 0; CloseEdit], true) |}.

Definition sample_session : session :=
  mk_session None None None (Some (str "trunk")) None None None 0 ∅ ∅ 0.

Definition sample_dump (opts : dump_options) : outcome (de_state mukv) Z :=
  dump (H2 := ra_empty) (H3 := sample_ralog) (H4 := sample_ra) (λ _, 0) 10 10 sample_md5
    sample_dirname id (λ _, true) (λ _ target, target) (λ _, true) svn_node_unknown 0 dummy_log
    (Some (mukv_new large_device)) (Some (mukv_new large_device)) 10 opts (put_session sample_state sample_session).

(** The revision numbers in a stream. *)
Fixpoint revision_numbers (fuel : nat) (b : bytes) : option (list Z) :=
  match fuel with
  | O => None
  | S fuel =>
      if decide (skip_newlines b = []) then Some []
      else
        '(hs, _, b) ← read_record (S (length b)) b;
        l ← revision_numbers fuel b;
        Some (match header_get REVISION_NUMBER hs with Some r => undec r :: l | None => l end)
  end.

(** The return value and the revisions of a dump from [start] on. *)
Definition sample_revisions (start flags : Z) : option (Z * list Z) :=
  match sample_dump (mk_opts (Some (str "/tmp")) None start (-1) flags 2) with
  | Done d ret => l ← revision_numbers (S (length (d_out d))) (d_out d); Some (ret, l)
  | _ => None
  end.

(** An incremental dump of a subdirectory that starts with its first revision loses that
    revision: the log list begins with a dummy entry, the start revision is its second element,
    and since the local revision is not decremented in this case the dry run is made for the
    start revision itself.  The dump of revisions 5 to 7 consists of the local revision 2 alone,
    as if it had been asked for from revision 7 on; without [DF_INCREMENTAL] both revisions are
    dumped. *)
Theorem dump_incremental_loses_first :
  sample_revisions 5 DF_INCREMENTAL = Some (0, [2]) ∧
  sample_revisions 7 DF_INCREMENTAL = Some (0, [2]) ∧
  sample_revisions 5 0 = Some (0, [1; 2]) ∧
  sample_revisions 0 0 = Some (0, [1; 2]) ∧
  sample_revisions 0 DF_KEEP_REVNUMS = Some (0, [1; 2; 3; 4; 5; 6; 7]).
Proof. split_and!; vm_compute; reflexivity. Qed.

(** C12. Original revision numbers are kept: with [DF_KEEP_REVNUMS] (outside the dry run, without a
    user prefix) and a path repository that holds the history [s], the part of an iteration in
    front of the nodes returns, and unless a commit fails it has written an empty revision for
    every number from the next local one up to the one before the original revision, then the
    header of the revision under its original number; the path repository holds the same paths
    in every padded revision. *)
Theorem dump_keep_revnums_correct `{HashIter} {T : Type} `{KV T} `{Codec} (d : de_state T)
    (s : pr_spec) (opts : dump_options) (local : Z) (log : log_revision) :
  has_flag opts DF_KEEP_REVNUMS = true → initial_dry_run opts = false → do_prefix opts = None →
  pr_inv (d_repo d) s → pads_ok s local (lr_revision log) → local <= lr_revision log →
  Forall line_ok (rev_lines log) → lines_len (rev_lines log) + PROPS_END_LEN < 2 ^ 31 →
  ∃ d' local' ret, dump_front opts local log d = Done d' (opts, local', ret) ∧
    (ret = 1 ∨
     (ret = 0 ∧ local' = lr_revision log ∧
      (∃ s', pr_inv (d_repo d') s' ∧ padded_spec s s' local (lr_revision log)) ∧
      ∃ text, d_out d' = d_out d ++ text ∧
        ∀ rest, reads_revisions (padded local (lr_revision log) ++ [(lr_revision log, rev_lines log)])
                  (text ++ rest) rest)).
Proof.
  intros Hkeep Hdry Hpre Hinv Hok Hle Hlines Hlen. unfold dump_front. rewrite Hkeep, Hdry.
  cbn [negb andb]. assert (0 <= lr_revision log) as Hpos by (destruct Hok; lia).
  destruct (run_padding d s (S (Z.to_nat (lr_revision log - local))) opts local (lr_revision log)) as
    (d1 & local' & ret & Hrun & Hres); [done..|lia|].
  rewrite (run_bind _ _ _ _ _ Hrun).
  destruct Hres as [->|(-> & -> & Hs & text & Ho & Hr)]; [by exists d1, local', 1; auto|].
  rewrite Z.max_r by done. cbn [negb Z.eqb]. cbn match. rewrite Hdry.
  rewrite (run_bind _ _ _ _ _ (run_emit _ _)). set (d2 := put_out _ _).
  assert ((if lr_revision log =? 1 then create_user_prefix opts else mret opts) d2 = Done d2 opts)
    as Hpref by (destruct (lr_revision log =? 1); [by apply run_no_prefix|done]).
  rewrite (run_bind _ _ _ _ _ Hpref).
  exists d2, (lr_revision log), 0. split; [done|]. right. split; [done|]. split; [done|].
  split; [done|]. exists (text ++ dump_revision_header log (lr_revision log)). split.
  { cbn [d2 d_out put_out]. by rewrite Ho, <-app_assoc. }
  intros rest. rewrite <-app_assoc. apply Hr. by apply reads_header.
Qed.

Lemma dump_keep_revnums_correct_witness :
  let opts := mk_opts None None 1 9 DF_KEEP_REVNUMS 2 in
  let log := mk_log 3 (Some (str "me")) None None None in
  ∃ d', dump_front opts 1 log sample_state = Done d' (opts, 3, 0) ∧
    reads_revisions [(1, padding_lines); (2, padding_lines);
                     (3, [PropSet (str "svn:author") (str "me")])] (d_out d') [].
Proof.
  intros opts log.
  assert (pr_inv (d_repo sample_state) pr_spec_init) as Hinv
    by (apply path_repo_create_inv, large_steady).
  destruct (dump_keep_revnums_correct sample_state pr_spec_init opts 1 log) as
    (d' & local' & ret & Hrun & Hres).
  - reflexivity.
  - reflexivity.
  - reflexivity.
  - exact Hinv.
  - split_and!; [lia|vm_compute; discriminate|vm_compute; reflexivity| |
      vm_compute; reflexivity|vm_compute; reflexivity].
    intros r Hr. cbn in Hr. replace r with 0 by lia. reflexivity.
  - cbn. lia.
  - eval_decide.
  - vm_compute. reflexivity.
  - exists d'. destruct Hres as [->|(-> & -> & _ & text & Ho & Hr)].
    + exfalso. vm_compute in Hrun. discriminate Hrun.
    + split; [exact Hrun|]. rewrite Ho. specialize (Hr []). rewrite app_nil_r in Hr. exact Hr.
Defined.

(** C11. The dump loop ends: if the log server answers a request for the revisions up to the end of
    the range with an entry that is not older than the first revision asked for, the loop needs at
    most as many iterations as there are revisions left in the range (or entries left in the list
    of log entries, when that was fetched before), so that its result does not depend on the
    bound given to it. *)
Theorem dump_loop_terminates `{HashIter} {T : Type} `{KV T} `{Codec} `{!RALog} `{!RADump} rand fuel
    apr_md5 svn_path_dirname svn_md5_digest_to_cstring svn_property_regular svndiff temp_ok
    uninit_kind uninit_rev uninit_log (prefix : bytes) (v : dump_vars) (d : de_state T) (k : nat) :
  let last_rev := do_end (dv_opts v) in
  (∀ rev es, rev <= last_rev → svn_ra_get_log rev last_rev 1 = (es, true) →
     ∃ es' e, es = es' ++ [e] ∧ rev <= le_revision e) →
  (dv_logs_fetched v = false → dv_global v <= last_rev) →
  let loop k := dump_loop rand fuel apr_md5 svn_path_dirname svn_md5_digest_to_cstring
    svn_property_regular svndiff temp_ok uninit_kind uninit_rev uninit_log k prefix v d in
  (steps_left v < k)%nat → loop k = loop (S (steps_left v)).
Proof.
  intros last_rev Hserver Hle loop Hk. apply (dump_loop_fuel _ _ _ _ _ _ _ _ _ _ _ last_rev Hserver
    prefix (S (steps_left v))); [|lia..]. intros Hf. split; [done|by apply Hle].
Qed.

(** The variables of the sample dump, and a run of the loop. *)
Definition sample_vars : dump_vars :=
  dump_init false (mk_opts (Some (str "/tmp")) None 5 7 0 2) [dummy_log] (-1).

Definition sample_loop (k : nat) : outcome (de_state mukv) Z :=
  dump_loop (H3 := sample_ralog) (H4 := sample_ra) (λ _, 0) 10 sample_md5 sample_dirname id
    (λ _, true) (λ _ target, target) (λ _, true) svn_node_unknown 0 dummy_log k (str "trunk")
    sample_vars (put_session sample_state sample_session).

Lemma dump_loop_terminates_witness :
  sample_loop 1000 = sample_loop 4 ∧ ∃ d, sample_loop 1000 = Done d 0.
Proof.
  assert (sample_loop 1000 = sample_loop 4) as Heq.
  { apply (dump_loop_terminates (H2 := sample_ralog) (H3 := sample_ra)); [|vm_compute; discriminate|].
    - intros rev es Hrev Hlog. cbn in Hrev. unfold svn_ra_get_log, sample_ralog in Hlog.
      change (do_end (dv_opts sample_vars)) with 7 in Hlog.
      rewrite (proj2 (Z.leb_le rev 7)) in Hlog by lia. injection Hlog as <-.
      unfold sample_entries. rewrite !filter_cons. cbn [le_revision filter].
      destruct (decide (rev <= 5 <= 7)) as [Hd|Hd]; [exists []; eexists; split; [reflexivity|cbn; lia]|].
      rewrite decide_True by lia. exists []; eexists; split; [reflexivity|cbn; lia].
    - vm_compute. lia. }
  split; [exact Heq|]. rewrite Heq. eexists. vm_compute. reflexivity.
Defined.
