(* ===== verification/DumpOutput.v ===== *)
(** The output of the dumping process (Dump.v): when a dump succeeds, what it has written is a dump
    file that can be read from beginning to end, with consecutive revision numbers. *)
From S2P Require Import Prelude CritBit Interfaces Mukv Utils Types Copyfrom Property PropStore.
From S2P Require Import PathRepo Session Log DumpFormat Stream Delta DeltaFacts DeltaDump DeltaOutput.
From S2P Require Import Dump DumpFacts.

Open Scope Z_scope.

(** * Sizes *)

Lemma dec_digits_length fuel n k :
  0 <= n < 10 ^ Z.of_nat (S k) → (length (dec_digits fuel n []) <= S k)%nat.
Proof.
  revert n k. induction fuel as [|fuel IH]; intros n k Hn; cbn [dec_digits length]; [lia|].
  destruct (Z.ltb_spec n 10); [simpl; lia|]. rewrite dec_digits_app, length_app. simpl.
  destruct k as [|k]; [change (10 ^ Z.of_nat 1) with 10 in Hn; lia|].
  assert (length (dec_digits fuel (n / 10) []) <= S k)%nat; [|lia].
  apply IH. split; [apply Z.div_pos; lia|]. apply Z.div_lt_upper_bound; [lia|].
  rewrite Nat2Z.inj_succ, Z.pow_succ_r in Hn by lia. lia.
Qed.

Lemma dec_length n : 0 <= n < 10 ^ 10 → (length (dec n) <= 10)%nat.
Proof.
  intros Hn. unfold dec, dec_nonneg. rewrite (proj2 (Z.ltb_ge n 0)) by lia.
  apply (dec_digits_length _ _ 9). done.
Qed.

Definition opt_len (o : option bytes) : Z := Z.of_nat (length (default [] o)).

Lemma c_str_length b : (length (c_str b) <= length b)%nat.
Proof. induction b as [|c b IH]; simpl; [done|]. case_decide; simpl; lia. Qed.

Lemma strlen_bound b : 0 <= strlen b <= Z.of_nat (length b).
Proof. unfold strlen. pose proof (c_str_length b). lia. Qed.

(** A line takes little more than its value. *)
Lemma rev_line_len key v :
  (length (str key) <= 10)%nat → opt_len v < 2 ^ 31 →
  lines_len (rev_line key v) <= opt_len v + 38.
Proof.
  intros Hk Hlen. unfold opt_len in *. destruct v as [v|]; [|simpl; lia].
  change (default [] (Some v)) with v in *. unfold lines_len. cbn [rev_line foldr line_strlen]. rewrite property_strlen_dump, Z.add_0_r.
  cbn [property_dump]. rewrite !length_app. cbn [length].
  pose proof (strlen_bound (str key)). pose proof (strlen_bound v).
  pose proof (c_str_length (str key)). pose proof (c_str_length v).
  pose proof (dec_length (strlen (str key))). pose proof (dec_length (strlen v)). 
  change (length (str "K ")) with 2%nat. change (length (str "V ")) with 2%nat. lia.
Qed.

(** * What the server sends *)

(** A log entry: absolute paths without newlines, known actions, and texts that are C strings and
    fit an [int] together. *)
Record entry_ok (e : svn_log_entry) : Prop := {
  en_rev : 0 <= le_revision e;
  en_author : cstr (default [] (le_author e));
  en_date : cstr (default [] (le_date e));
  en_message : cstr (default [] (le_message e));
  en_size : opt_len (le_author e) + opt_len (le_date e) + opt_len (le_message e) + 200 <= 2 ^ 31;
  en_paths : ∀ cp path info, le_changed_paths e = Some cp → cp !! path = Some info →
    nl ∉ path ∧ log_ok info
}.

(** The server: its log entries, the calls it makes to the editor, its identifier.  A successful
    request for one log entry delivers one. *)
Record server_ok `{HashIter} `{!RALog} `{!RADump} (svn_property_regular : bytes → bool)
    (used : prop_hash → Prop) : Prop := {
  so_entries : ∀ start end_ limit, Forall entry_ok (svn_ra_get_log start end_ limit).1;
  so_one : ∀ start end_ es, svn_ra_get_log start end_ 1 = (es, true) → es ≠ [];
  so_calls : ∀ src dest start_empty deltas,
    Forall (call_ok svn_property_regular used) (svn_ra_do_diff2 src dest start_empty deltas).1;
  so_uuid : ∀ uuid, svn_ra_get_uuid = Some uuid → nl ∉ uuid
}.

(** * Received log entries *)

Record log_good (log : log_revision) : Prop := {
  lg_rev : 0 <= lr_revision log;
  lg_lines : Forall line_ok (rev_lines log);
  lg_size : lines_len (rev_lines log) + PROPS_END_LEN < 2 ^ 31;
  lg_paths : ∀ cp path info, lr_changed_paths log = Some cp → cp !! path = Some info →
    nl ∉ path ∧ log_ok info
}.

(** A loop over a list that may fail. *)
Lemma foldl_option {A B} (f : option A → B → option A) (P : A → Prop) l a r :
  (∀ b, f None b = None) →
  (∀ b x x', b ∈ l → P x → f (Some x) b = Some x' → P x') →
  P a → foldl f (Some a) l = Some r → P r.
Proof.
  intros Hnone. revert a. induction l as [|b l IH]; intros a Hf Ha; [by intros [= <-]|].
  cbn [foldl]. destruct (f (Some a) b) as [a'|] eqn:Hb.
  - apply IH; [|apply (Hf b a); [left|done|done]]. intros c x x' Hc. apply Hf. by right.
  - assert (foldl f None l = None) as ->; [|done]. clear -Hnone.
    induction l as [|c l IH]; [done|]. cbn [foldl]. by rewrite Hnone.
Qed.

Lemma rev_line_ok key v : cstr (str key) → cstr (default [] v) → Forall line_ok (rev_line key v).
Proof. intros Hk Hv. destruct v; repeat constructor; done. Qed.

Lemma made_log_good rev author date message changed :
  0 <= rev → cstr (default [] author) → cstr (default [] date) → cstr (default [] message) →
  opt_len author + opt_len date + opt_len message + 180 <= 2 ^ 31 →
  (∀ path info, changed !! path = Some info → nl ∉ path ∧ log_ok info) →
  log_good (mk_log rev author date message (Some changed)).
Proof.
  intros Hr Ha Hd Hm Hsize Hc.
  assert (0 <= opt_len author ∧ 0 <= opt_len date ∧ 0 <= opt_len message) as (? & ? & ?)
    by (unfold opt_len; lia).
  split; [done| | |intros cp path info [= <-]; apply Hc].
  - unfold rev_lines. rewrite !Forall_app. split_and!; apply rev_line_ok; done || eval_decide.
  - unfold rev_lines. rewrite !lines_len_app. cbn [lr_message lr_author lr_date].
    pose proof (rev_line_len "svn:log" message ltac:(simpl; lia) ltac:(lia)).
    pose proof (rev_line_len "svn:author" author ltac:(simpl; lia) ltac:(lia)).
    pose proof (rev_line_len "svn:date" date ltac:(simpl; lia) ltac:(lia)).
    unfold PROPS_END_LEN. lia.
Qed.

Section received.
Context `{HashIter}.
Variables (rand : nat → Z) (fuel : nat).

Lemma once_ok se s se' s' :
  names_ok (se_obf se) → cstr (default [] s) →
  session_obfuscate_once rand fuel se s = Some (se', s') →
  names_ok (se_obf se') ∧ cstr (default [] s') ∧ opt_len s' <= opt_len s + 10.
Proof.
  intros Hn Hs. unfold session_obfuscate_once. destruct s as [s|].
  2:{ intros [= <- <-]. split_and!; [done..|]. lia. }
  destruct (negb (obfuscating se)); [intros [= <- <-]; split_and!; [done..|lia]|].
  unfold session_make_obfuscated. destruct fuel as [|fuel']; [done|]. cbn [obfuscate_loop].
  pose proof (candidate_letters rand 8 (se_rand se)) as Hl.
  assert (length (candidate rand 8 (se_rand se)).1 <= 10)%nat as Hlen.
  { unfold candidate. rewrite (proj1 (random_chars_spec rand _ _)).
    pose proof (Z.mod_pos_bound (rand (se_rand se)) 8 ltac:(lia)). lia. }
  destruct (candidate rand 8 (se_rand se)) as [obf pos]. cbn [mbind option_bind].
  intros [= <- <-]. split_and!; [done| |unfold opt_len; simpl in *; lia].
  simpl in *. eapply Forall_impl; [exact Hl|]. intros c Hc ->. revert Hc. unfold letter.
  apply (bool_decide_unpack _). vm_compute. exact I.
Qed.

Lemma obfuscate_opt_ok se p se' p' :
  names_ok (se_obf se) → (∀ q, p = Some q → nl ∉ q) →
  session_obfuscate rand fuel se p = Some (se', p') →
  names_ok (se_obf se') ∧ ∀ q, p' = Some q → nl ∉ q.
Proof.
  intros Hn Hp Hob. destruct p as [p|]; [|by injection Hob as <- <-].
  destruct p' as [p'|].
  - apply session_obfuscate_no_nl in Hob as [? ?]; [|done|by apply Hp].
    split; [done|]. by intros q [= <-].
  - exfalso. unfold session_obfuscate in Hob. destruct (negb _); [done|].
    by destruct (session_obfuscate_rec _ _ _ _) as [[]|].
Qed.

Lemma log_strip_no_nl prefix key : nl ∉ key → nl ∉ log_strip prefix key.
Proof.
  intros Hk. unfold log_strip. set (key' := match prefix with [] => key | _ => _ end).
  assert (nl ∉ key') as Hk'.
  { unfold key'. destruct prefix; [done|]. intros Hin. apply Hk. by eapply subseteq_drop. }
  destruct key' as [|c rest]; [set_solver|]. case_decide; set_solver.
Qed.

Lemma log_copyfrom_ok p : (∀ q, p = Some q → nl ∉ q) → ∀ q, log_copyfrom p = Some q → nl ∉ q.
Proof.
  intros Hp q. destruct p as [p|]; [|done]. specialize (Hp p eq_refl). intros [= <-].
  destruct p as [|c p]; [set_solver|]. case_decide; set_solver.
Qed.

(** The session and the changed paths collected so far. *)
Definition received (x : session * gmap bytes svn_log_changed_path) : Prop :=
  names_ok (se_obf x.1) ∧ ∀ path info, x.2 !! path = Some info → nl ∉ path ∧ log_ok info.

Lemma log_receive_path_ok prefix x x' kv :
  nl ∉ kv.1 → log_ok (kv.2) → received x →
  log_receive_path rand fuel prefix (Some x) kv = Some x' → received x'.
Proof.
  intros Hk [Ha Hcf] [Hn Hc]. destruct x as [se changed], kv as [key info]. cbn [fst snd] in *.
  unfold log_receive_path. cbn [mbind option_bind fst snd].
  destruct (session_obfuscate rand fuel se (Some key)) as [[se1 key1]|] eqn:Hob; [|done].
  apply obfuscate_opt_ok in Hob as [Hn1 Hk1]; [|done|by intros q [= <-]].
  cbn [mbind option_bind]. destruct key1 as [key1|]; [|done]. cbn [mbind option_bind].
  specialize (Hk1 key1 eq_refl). destruct (log_skip prefix key1); [by intros [= <-]|].
  destruct (session_obfuscate rand fuel se1 _) as [[se2 copyfrom]|] eqn:Hob; [|done].
  pose proof Hob as Hnone. apply obfuscate_opt_ok in Hob as [Hn2 Hcp]; [|done|].
  2:{ apply log_copyfrom_ok. intros q Hq. by apply Hcf. }
  cbn [mbind option_bind]. intros [= <-]. split; [done|]. cbn [snd]. intros path info'.
  rewrite lookup_insert_Some. intros [[<- <-]|[_ Hi]]; [|by apply Hc].
  split; [by apply log_strip_no_nl|]. split; [done|]. cbn. intros p Hp. split; [by apply Hcp|].
  destruct (cp_copyfrom_path info) as [q|] eqn:Hq; [by apply (Hcf q)|].
  subst copyfrom. by injection Hnone.
Qed.

Lemma log_receiver_good se e se' log :
  names_ok (se_obf se) → entry_ok e → log_receiver rand fuel se e = Some (se', log) →
  names_ok (se_obf se') ∧ log_good log.
Proof.
  intros Hn [Hrev Ha Hd Hm Hsize Hp]. unfold log_receiver.
  destruct (se_prefix se) as [prefix|]; [|done]. cbn [mbind option_bind].
  destruct (session_obfuscate_once rand fuel se _) as [[se1 author]|] eqn:Ho1; [|done].
  apply once_ok in Ho1 as (Hn1 & Ha' & Hla); [|done..]. cbn [mbind option_bind].
  destruct (session_obfuscate_once rand fuel se1 _) as [[se2 message]|] eqn:Ho2; [|done].
  apply once_ok in Ho2 as (Hn2 & Hm' & Hlm); [|done..]. cbn [mbind option_bind].
  set (fold := match le_changed_paths e with None => _ | Some _ => _ end).
  assert (∀ x, fold = Some x → received x) as Hfold.
  { intros x. unfold fold. destruct (le_changed_paths e) as [cp|] eqn:Hcp.
    - apply foldl_option; [done| |by split].
      intros [key info] x0 x1 Hin%hash_iter_elem. destruct (Hp cp key info) as [? ?]; [done..|].
      by apply log_receive_path_ok.
    - intros [= <-]. by split. }
  destruct fold as [[se3 changed]|]; [|done]. cbn [mbind option_bind].
  destruct (Hfold _ eq_refl) as [Hn3 Hc]. intros [= <- <-]. split; [exact Hn3|].
  apply made_log_good; try done. lia.
Qed.

(** Receiving several entries. *)
Lemma fetch_single_good `{!RALog} se rev end_ log se' log' ret :
  (∀ limit, Forall entry_ok (svn_ra_get_log rev end_ limit).1) →
  (∀ es, svn_ra_get_log rev end_ 1 = (es, true) → es ≠ []) →
  names_ok (se_obf se) → log_fetch_single rand fuel se rev end_ log = Some (se', log', ret) →
  names_ok (se_obf se') ∧ (ret = 0 → log_good log').
Proof.
  intros Hes Hone Hn. unfold log_fetch_single. specialize (Hes 1).
  destruct (svn_ra_get_log rev end_ 1) as [es ok] eqn:Hlog. cbn [fst] in Hes.
  destruct (foldl _ _ es) as [[se1 log1]|] eqn:Hf; [|done]. cbn [mbind option_bind].
  intros [= <- <- <-]. destruct es as [|e es].
  { injection Hf as <- <-. split; [done|]. destruct ok; [by destruct (Hone [])|]. simpl. lia. }
  cut (names_ok (se_obf se1) ∧ log_good log1); [tauto|].
  cbn [foldl mbind option_bind] in Hf. apply Forall_cons in Hes as [He Hes].
  destruct (log_receiver rand fuel se e) as [[se2 log2]|] eqn:Hr.
  2:{ exfalso. clear -Hf. induction es as [|e' es IH]; [done|]. by apply IH. }
  refine (foldl_option _ (λ x : session * log_revision, names_ok (se_obf x.1) ∧ log_good x.2)
    es _ _ _ _ _ Hf); [done| |by eapply log_receiver_good].
  intros e' [sx lx] [sy ly] Hin [Hx _] Hrun. cbn in Hrun.
  eapply log_receiver_good; [exact Hx| |exact Hrun]. by eapply Forall_forall in Hes.
Qed.

Lemma fetch_all_good `{!RALog} se start end_ logs se' logs' ret :
  (∀ limit, Forall entry_ok (svn_ra_get_log start end_ limit).1) → Forall log_good logs →
  names_ok (se_obf se) → log_fetch_all rand fuel se start end_ logs = Some (se', logs', ret) →
  names_ok (se_obf se') ∧ Forall log_good logs'.
Proof.
  intros Hes Hlogs Hn. unfold log_fetch_all. specialize (Hes 0).
  destruct (svn_ra_get_log start end_ 0) as [es ok]. cbn [fst] in Hes.
  destruct (foldl _ _ es) as [[se1 l]|] eqn:Hf; [|done]. cbn [mbind option_bind].
  intros [= <- <- <-].
  refine (foldl_option _ (λ x : session * list log_revision, names_ok (se_obf x.1) ∧ Forall log_good x.2)
    es _ _ _ _ _ Hf); [done| |by split].
  intros e [sx lx] [sy ly] Hin [Hx Hlx] Hrun. cbn in Hrun.
  destruct (log_receiver rand fuel sx e) as [[s2 log]|] eqn:Hr; [|done]. injection Hrun as <- <-.
  apply log_receiver_good in Hr as [? ?]; [|done|by eapply Forall_forall in Hes].
  split; [done|]. apply Forall_app. split; [done|by apply Forall_singleton].
Qed.

End received.

Lemma header_chunk log local :
  0 <= local → log_good log → chunk (RevisionItem local (rev_lines log)) (dump_revision_header log local).
Proof.
  intros Hl [_ Hok Hs _]. rewrite dump_revision_header_text by done.
  replace (match rev_lines log with [] => [] | _ => [nl] end)
    with (replicate (match rev_lines log with [] => 0 | _ => 1 end) nl)
    by (by destruct (rev_lines log)).
  by apply chunk_revision.
Qed.

(** * The process *)

Section dump.
Context `{HashIter} {T : Type} `{KV T} `{Codec} `{!RA} `{!RALog} `{!RADump}.
Variables (rand : nat → Z) (fuel ra_fuel : nat).
Variables (apr_md5 : bytes → option bytes) (svn_path_dirname : bytes → bytes)
  (svn_md5_digest_to_cstring : bytes → bytes) (svn_property_regular : bytes → bool).
Variable svndiff : bytes → bytes → bytes.
Variable temp_ok : nat → bool.
Variables (uninit_kind : svn_node_kind) (uninit_rev : Z) (uninit_log : log_revision).
Variable used : prop_hash → Prop.

Hypothesis Hused : props_closed used.
Hypothesis Hserver : server_ok svn_property_regular used.
Hypothesis Hdigest : ∀ b, nl ∉ svn_md5_digest_to_cstring b.

Implicit Types (d : de_state T) (opts : dump_options).

(** Between two drives of the editor: what survives a drive is fine, and the output satisfies
    [O]. *)
Record between (O : bytes → Prop) d : Prop := {
  bt_props : ∃ m, ps_wf apr_md5 used (d_props d) m;
  bt_names : names_ok (se_obf (d_session d));
  bt_out : O (d_out d)
}.

Variable out0 : bytes.

(** Records with the revisions [rs] have been written behind [out0]. *)
Abbreviation noted rs := (between (written out0 rs)).

(** The revisions written so far are consecutive and end in front of [local]. *)
Definition numbered (local : Z) d : Prop :=
  ∃ first, 0 <= first <= local ∧ noted (seqZ first (local - first)) d.

Lemma between_same O d d' :
  d_props d' = d_props d → d_session d' = d_session d → d_out d' = d_out d →
  between O d → between O d'.
Proof. intros E1 E2 E3 [? ? ?]. split; by rewrite ?E1, ?E2, ?E3. Qed.

Lemma numbered_between local d : 0 <= local → noted [] d → numbered local d.
Proof. intros Hl Hb. exists local. split; [lia|]. by rewrite Z.sub_diag. Qed.

(** A revision record carries the next number. *)
Lemma numbered_revision local d ls c :
  numbered local d → chunk (RevisionItem local ls) c →
  numbered (local + 1) (put_out d (d_out d ++ c)).
Proof.
  intros (first & Hf & [Hp Hn Hw]) Hc. exists first. split; [lia|]. split; [done|done|].
  replace (seqZ first (local + 1 - first)) with (seqZ first (local - first) ++ revisions [RevisionItem local ls]).
  - by eapply wrote_chunk; [|done|simpl; lia|].
  - replace (local + 1 - first) with ((local - first) + 1) by lia.
    rewrite (seqZ_app first (local - first) 1) by lia. f_equal. cbn.
    by replace (first + (local - first)) with local by lia.
Qed.

Lemma numbered_nodes local d l out :
  numbered local d → stream (NodeItem <$> l) out → Forall (λ i, ni_action i = str "add") l →
  numbered local (put_out d (d_out d ++ out)).
Proof.
  intros (first & Hf & [Hp Hn (l0 & o & Ho & Hl0 & Hi & Hr)]) Hl Ha. exists first. split; [done|].
  split; [done|done|]. exists (l0 ++ (NodeItem <$> l)), (o ++ out). split_and!.
  - cbn [d_out put_out]. by rewrite Ho, app_assoc.
  - by apply stream_app.
  - apply Forall_app. split; [done|]. apply Forall_fmap. eapply Forall_impl; [exact Ha|].
    intros i Hadd. by left.
  - unfold revisions in *. rewrite omap_app, Hr. rewrite <-(app_nil_r (seqZ _ _)) at 2. f_equal.
    clear. induction l; done.
Qed.

Lemma padding_good : log_good padding_log.
Proof. split; [done|eval_decide|vm_compute; reflexivity|done]. Qed.

(** Options that can be used: no newline in the user prefix. *)
Definition prefix_ok opts : Prop := ∀ p, do_prefix opts = Some p → nl ∉ p.

(** What [create_user_prefix] changes. *)
Lemma dir_nodes_add base l : Forall (λ i, ni_action i = str "add") (dir_nodes base l).
Proof. revert base. induction l as [|w l IH]; intros base; constructor; [done|apply IH]. Qed.

Lemma create_user_prefix_triple local opts :
  prefix_ok opts →
  triple (numbered local) (create_user_prefix opts)
    (λ opts' d, numbered local d ∧ ∃ p, prefix_ok (set_prefix opts p) ∧ opts' = set_prefix opts p).
Proof.
  intros Hp d d' opts' Hd Hrun. unfold create_user_prefix in Hrun.
  apply bind_done in Hrun as (d1 & [out p] & [-> Hx]%lift_done & Hrun).
  rewrite (run_bind _ _ _ _ _ (run_emit _ _)) in Hrun. injection Hrun as <- <-.
  unfold dump_create_user_prefix in Hx. destruct (do_prefix opts) as [s|] eqn:Hs.
  - destruct (prefix_loop_spec (S (length s)) [] [] s) as (recs & Hl & _ & _ & Hst & Hnl);
      [lia|set_solver|by apply Hp|]. rewrite Hl in Hx. injection Hx as <- <-. split.
    + eapply numbered_nodes; [done|exact Hst|apply dir_nodes_add].
    + eexists. split; [|done]. by intros q [= <-].
  - injection Hx as <- <-. split; [|exists None; by split].
    apply (numbered_nodes local d [] []); [done|apply stream_nil|done].
Qed.

(** When [local] is the next revision: in the initial dry run nothing has been written yet. *)
Definition ready opts (local : Z) d : Prop :=
  if initial_dry_run opts then 0 <= local ∧ noted [] d else numbered local d.

Lemma ready_numbered opts local d : ready opts local d → numbered local d.
Proof. unfold ready. destruct (initial_dry_run opts); [|done]. intros []. by apply numbered_between. Qed.

(** Steps that keep every [between] keep the rest. *)
Definition harmless {A} (m : M (de_state T) A) : Prop :=
  ∀ O, triple (between O) m (λ _, between O).

Lemma harmless_numbered {A} local (m : M (de_state T) A) :
  harmless m → triple (numbered local) m (λ _, numbered local).
Proof. intros Hm d d' x (first & Hf & Hb) Hrun. exists first. split; [done|]. by eapply Hm. Qed.

Lemma harmless_ready {A} opts local (m : M (de_state T) A) :
  harmless m → triple (ready opts local) m (λ _, ready opts local).
Proof.
  intros Hm d d' x. unfold ready. destruct (initial_dry_run opts).
  - intros [? Hb] Hrun. split; [done|]. by eapply Hm.
  - by apply harmless_numbered.
Qed.

Lemma harmless_ret {A} (x : A) : harmless (mret x).
Proof. intros O. by apply triple_ret. Qed.

Lemma harmless_bind {A B} (m : M (de_state T) A) (k : A → M (de_state T) B) :
  harmless m → (∀ x, harmless (k x)) → harmless (m ≫= k).
Proof. intros Hm Hk rs. apply triple_seq; [apply Hm|]. intros x. apply Hk. Qed.

Lemma harmless_repo {A} (f : path_repo T → option (path_repo T * A)) :
  harmless (λ d, match f (d_repo d) with None => UB | Some (r, x) => Done (put_repo d r) x end).
Proof.
  intros O d d' x Hb. destruct (f (d_repo d)) as [[r y]|]; [|done]. intros [= <- <-].
  by eapply between_same; [..|exact Hb].
Qed.

Lemma repo_commit_harmless revision : harmless (repo_commit revision).
Proof. apply (harmless_repo (λ r, path_repo_commit r revision)). Qed.

Lemma repo_discard_harmless : harmless repo_discard.
Proof. apply (harmless_repo (λ r, path_repo_discard r)). Qed.

Lemma repo_commit_log_harmless prefix opts log revision logs :
  harmless (repo_commit_log ra_fuel prefix opts log revision logs).
Proof. apply (harmless_repo (λ r, path_repo_commit_log ra_fuel prefix opts r log revision logs)). Qed.

Lemma storage_cleanup_harmless : harmless storage_cleanup.
Proof.
  intros O d d' x [[m Hm] Hn Hw]. unfold storage_cleanup.
  destruct (property_storage_cleanup_models apr_md5 used _ m Hm) as (st & m' & -> & Hm' & _).
  intros [= <- <-]. split; [by exists m'|done..].
Qed.

Lemma log_at_good logs i :
  Forall log_good logs → yields (log_at logs i : M (de_state T) _) log_good.
Proof.
  intros Hl d d' log (_ & Hlog)%log_at_spec. by eapply Forall_lookup_1.
Qed.

Lemma log_at_harmless logs i : harmless (log_at logs i).
Proof. intros O d d' x Hb [-> _]%lift_done. done. Qed.

(** ** Fetching logs *)

Lemma fetch_single_triple O rev end_ :
  triple (between O) (fetch_single rand fuel uninit_log rev end_)
    (λ r d, between O d ∧ (r.2 = 0 → log_good (r.1))).
Proof.
  intros d d' [log ret] [Hp Hn Hw]. unfold fetch_single.
  destruct (log_fetch_single _ _ _ _ _ _) as [[[se l] r]|] eqn:Hf; [|done]. intros [= <- <- <-].
  apply fetch_single_good in Hf as [Hn' Hl];
    [|intros limit; apply Hserver|intros es; apply Hserver|done].
  split; [|exact Hl]. split; done.
Qed.

Lemma fetch_all_triple O start end_ logs :
  Forall log_good logs →
  triple (between O) (fetch_all rand fuel start end_ logs)
    (λ r d, Forall log_good (r.1) ∧ between O d).
Proof.
  intros Hlogs d d' [l' ret] [Hp Hn Hw]. unfold fetch_all.
  destruct (log_fetch_all _ _ _ _ _ _) as [[[se l] r]|] eqn:Hf; [|done]. intros [= <- <- <-].
  apply fetch_all_good in Hf as [Hn' Hl]; [|intros limit; apply Hserver|done..].
  split; [exact Hl|]. split; done.
Qed.

Definition vars_ok (v : dump_vars) : Prop := prefix_ok (dv_opts v) ∧ Forall log_good (dv_logs v).

Lemma dump_fetch_triple O v :
  vars_ok v →
  triple (between O) (dump_fetch rand fuel uninit_log v)
    (λ r d, between O d ∧
       (r.2 = 0 → vars_ok (r.1) ∧ dv_opts (r.1) = dv_opts v ∧ dv_local (r.1) = dv_local v)).
Proof.
  intros [Hp Hl]. unfold dump_fetch. destruct (dv_logs_fetched v); [by apply triple_ret|].
  eapply triple_bind; [apply fetch_single_triple|]. intros [log ret]. cbn [fst snd].
  apply triple_if; intros Hret; apply triple_ret; intros d [Hb Hlog]; (split; [done|]).
  - intros ?. done.
  - intros _. apply negb_false_iff, Z.eqb_eq in Hret. split; [|done]. split; [done|]. cbn.
    apply Forall_app. split; [done|]. by apply Forall_singleton, Hlog.
Qed.

(** ** One iteration *)

Lemma emit_revision_triple log local :
  log_good log →
  triple (numbered local) (emit (dump_revision_header log local)) (λ _, numbered (local + 1)).
Proof.
  intros Hlog d d' [] Hd [= <-]. pose proof Hd as (first & Hf & _).
  eapply numbered_revision; [done|]. apply header_chunk; [lia|done].
Qed.

Lemma prefix_if_triple (b : bool) local opts :
  prefix_ok opts →
  triple (numbered local) (if b then create_user_prefix opts else mret opts)
    (λ opts' d, (prefix_ok opts' ∧ do_flags opts' = do_flags opts) ∧ numbered local d).
Proof.
  intros Hp. apply triple_if; intros _; [|by apply triple_ret].
  eapply triple_weaken; [by apply create_user_prefix_triple|done|].
  intros o d (Hd & p & Ho & ->). done.
Qed.

Lemma dump_padding_triple k opts local target :
  prefix_ok opts →
  triple (numbered local) (dump_padding k opts local target)
    (λ r d, r.2 = 0 → (prefix_ok (r.1.1) ∧ do_flags (r.1.1) = do_flags opts) ∧ numbered (r.1.2) d).
Proof.
  revert opts local. induction k as [|k IH]; intros opts local Hp; [by intros d d' x _|].
  cbn [dump_padding]. apply triple_if; intros Hlt; [by apply triple_ret|].
  rewrite dump_padding_header. eapply triple_bind; [apply emit_revision_triple, padding_good|].
  intros []. apply triple_seq; [apply harmless_numbered, repo_commit_harmless|]. intros ret.
  apply triple_if; intros _; [by apply triple_ret|].
  eapply triple_bind; [by apply prefix_if_triple|]. intros opts'. apply triple_pure.
  intros [Hp' Hf']. eapply triple_weaken; [by apply IH|done|]. simpl. by setoid_rewrite Hf'.
Qed.

Lemma dry_flags opts opts' : do_flags opts' = do_flags opts → initial_dry_run opts' = initial_dry_run opts.
Proof. unfold initial_dry_run, has_flag. by intros ->. Qed.

(** In front of the nodes of a revision: [local] is the last number written. *)
Definition opened opts (local : Z) d : Prop :=
  if initial_dry_run opts then 0 <= local ∧ noted [] d else numbered (local + 1) d.

Lemma dump_front_triple opts local log :
  prefix_ok opts → log_good log →
  triple (ready opts local) (dump_front opts local log)
    (λ r d, r.2 = 0 → (prefix_ok (r.1.1) ∧ do_flags (r.1.1) = do_flags opts) ∧ opened opts (r.1.2) d).
Proof.
  intros Hp Hlog. unfold dump_front, ready, opened. destruct (initial_dry_run opts) eqn:Hdry.
  { rewrite andb_false_r. intros d d' r Hd Hrun. unfold mbind, M_bind, mret, M_ret in Hrun.
    cbn [negb Z.eqb] in Hrun. rewrite Hdry in Hrun. by injection Hrun as <- <-. }
  eapply (triple_bind _ _ _ (λ r d, r.2 = 0 →
    (prefix_ok (r.1.1) ∧ do_flags (r.1.1) = do_flags opts) ∧ numbered (r.1.2) d)).
  { apply triple_if; intros _; [by apply dump_padding_triple|by apply triple_ret]. }
  intros [[o l] ret]. cbn [fst snd]. apply triple_if; intros Hret; [by apply triple_ret|].
  apply negb_false_iff, Z.eqb_eq in Hret as ->.
  intros d d' r Hd. destruct (Hd eq_refl) as [[Hpo Hfo] Hd']. rewrite (dry_flags opts o Hfo), Hdry.
  revert Hd'. clear Hd. revert d d' r.
  change (triple (numbered l) (_ ← emit (dump_revision_header log l);
    opts ← (if l =? 1 then create_user_prefix o else mret o); mret (opts, l, 0))
    (λ r d, r.2 = 0 → (prefix_ok (r.1.1) ∧ do_flags (r.1.1) = do_flags opts) ∧
       numbered (r.1.2 + 1) d)).
  eapply triple_bind; [by apply emit_revision_triple|]. intros [].
  eapply triple_bind; [by apply prefix_if_triple|]. intros o'. apply triple_pure.
  intros [? Hf']. apply triple_ret. intros d Hd _. cbn. by rewrite Hf'.
Qed.

(** The flag of the dry run is used once. *)
Lemma dry_run_cleared opts :
  initial_dry_run (set_flags opts (Z.land (do_flags opts) (Z.lnot DF_INITIAL_DRY_RUN))) = false.
Proof.
  unfold initial_dry_run, has_flag. cbn [do_flags set_flags].
  rewrite <-Z.land_assoc, (Z.land_comm (Z.lnot _)), Z.land_lnot_diag, Z.land_0_r. done.
Qed.

Abbreviation dump_nodes := (dump_nodes rand fuel apr_md5 svn_path_dirname svn_md5_digest_to_cstring
  svn_property_regular svndiff temp_ok uninit_kind uninit_rev).
Abbreviation dump_do_diff := (dump_do_diff rand fuel apr_md5 svn_path_dirname
  svn_md5_digest_to_cstring svn_property_regular svndiff temp_ok uninit_kind uninit_rev).

Lemma dump_do_diff_triple rs env src dest start_empty :
  env_ok env →
  triple (λ d, noted rs d ∧ d_nodes d = ∅) (dump_do_diff env src dest start_empty)
    (λ ret d, ret = 0 → noted rs d).
Proof.
  intros Henv d d' ret [[[m Hm] Hn Hw] Hnodes]. unfold Dump.dump_do_diff.
  pose proof (so_calls _ _ Hserver src dest start_empty (negb (has_flag (v_opts env) DF_DRY_RUN)))
    as Hcalls. destruct (svn_ra_do_diff2 _ _ _ _) as [calls ok]. cbn [fst] in Hcalls.
  destruct (run_editor _ _ _ _ _ _ _ _ _ _ _ _ _) as [|d1 msg|d1 []] eqn:Hrun; [done|by intros [= _ <-]|].
  intros [= <- _] _.
  destruct (editor_run_steady rand fuel apr_md5 svn_path_dirname svn_md5_digest_to_cstring
    svn_property_regular svndiff temp_ok uninit_kind uninit_rev used env Hused Henv Hdigest
    out0 rs calls Hcalls d d1 tt) as [[_ Hp' Hn'] Hw']; [|exact Hrun|by split].
  split; [|done]. split; [|by exists m|done]. intros id n. by rewrite Hnodes, lookup_empty.
Qed.

Lemma setup_editor_triple rs :
  triple (noted rs) (modify delta_setup_editor) (λ _ d, noted rs d ∧ d_nodes d = ∅).
Proof. intros d d' [] Hd [= <-]. split; [|done]. by eapply between_same; [..|exact Hd]. Qed.

Lemma dump_nodes_triple rs prefix opts logs log global local :
  prefix_ok opts → log_good log →
  triple (noted rs) (dump_nodes prefix opts logs log global local)
    (λ ret d, ret = 0 → noted rs d).
Proof.
  intros Hp Hlog. unfold Dump.dump_nodes. eapply triple_bind; [apply setup_editor_triple|].
  intros []. eapply triple_bind; [apply dump_do_diff_triple|].
  { split; [exact Hp|]. intros cp path info. cbn. by apply Hlog. }
  intros ret. apply triple_if; intros Hret; [by apply triple_ret|].
  apply negb_false_iff, Z.eqb_eq in Hret as ->.
  apply (triple_weaken (noted rs) _ _ (λ ret d, ret = 0 → noted rs d));
    [|by auto|done].
  apply triple_seq; [case_match; [apply repo_discard_harmless|apply repo_commit_harmless]|].
  intros ret. apply triple_if; intros _; [by apply triple_ret|].
  apply triple_seq; [apply storage_cleanup_harmless|]. intros ret'. by apply triple_ret.
Qed.


(** Both are about the revisions written so far. *)
Lemma ready_rs opts local d :
  ready opts local d → ∃ rs, noted rs d ∧ ∀ d', noted rs d' → ready opts local d'.
Proof.
  unfold ready. destruct (initial_dry_run opts).
  - intros [Hl Hb]. exists []. split; [done|]. intros d' Hb'. done.
  - intros (first & Hf & Hb). eexists. split; [exact Hb|]. intros d' Hb'. by exists first.
Qed.

Lemma opened_rs opts local d :
  opened opts local d → ∃ rs, noted rs d ∧ ∀ d', noted rs d' → opened opts local d'.
Proof.
  unfold opened. destruct (initial_dry_run opts).
  - intros [Hl Hb]. exists []. split; [done|]. intros d' Hb'. done.
  - intros (first & Hf & Hb). eexists. split; [exact Hb|]. intros d' Hb'. by exists first.
Qed.

Lemma opened_numbered opts local d : opened opts local d → numbered (local + 1) d.
Proof.
  unfold opened. destruct (initial_dry_run opts); [|done]. intros []. apply numbered_between; [lia|done].
Qed.

Lemma ready_start opts local d : 0 <= local → noted [] d → ready opts local d.
Proof. intros Hl Hb. unfold ready. destruct (initial_dry_run opts); [done|]. by apply numbered_between. Qed.

Abbreviation dump_step := (dump_step rand fuel apr_md5 svn_path_dirname svn_md5_digest_to_cstring
  svn_property_regular svndiff temp_ok uninit_kind uninit_rev uninit_log).
Abbreviation dump_loop := (dump_loop rand fuel apr_md5 svn_path_dirname svn_md5_digest_to_cstring
  svn_property_regular svndiff temp_ok uninit_kind uninit_rev uninit_log).

Lemma dump_step_triple prefix v :
  vars_ok v →
  triple (ready (dv_opts v) (dv_local v)) (dump_step prefix v)
    (λ r d, r.2 = 0 → vars_ok (r.1) ∧ ready (dv_opts (r.1)) (dv_local (r.1)) d).
Proof.
  intros Hv d d' r (rs & Hb & Hback)%ready_rs Hrun.
  apply bind_done in Hrun as (d1 & [v1 ret] & Hfe & Hrun).
  destruct (dump_fetch_triple _ v Hv d d1 _ Hb Hfe) as [Hb1 Hv1]. cbn [fst snd] in Hv1.
  destruct (negb (ret =? 0)) eqn:Hret; [by injection Hrun as _ <-|].
  apply negb_false_iff, Z.eqb_eq in Hret. destruct (Hv1 Hret) as ([Hp Hl] & Ho & Hlo).
  apply bind_done in Hrun as (d2 & log & Hlog & Hrun).
  pose proof (log_at_harmless _ _ _ d1 d2 log Hb1 Hlog) as Hb2.
  apply (log_at_good _ _ Hl) in Hlog.
  apply bind_done in Hrun as (d3 & [[opts local] ret'] & Hfr & Hrun).
  rewrite <-Ho, <-Hlo in Hback.
  pose proof (dump_front_triple _ _ _ Hp Hlog d2 d3 _ (Hback _ Hb2) Hfr) as Hop. cbn [fst snd] in Hop.
  destruct (negb (ret' =? 0)) eqn:Hret'; [by injection Hrun as _ <-|].
  apply negb_false_iff, Z.eqb_eq in Hret'. destruct (Hop Hret') as [[Hp' _] Hop'].
  destruct (opened_rs _ _ _ Hop') as (rs' & Hb3 & Hback').
  apply bind_done in Hrun as (d4 & ret2 & Hno & Hrun).
  pose proof (dump_nodes_triple rs' _ _ _ _ _ _ Hp' Hlog d3 d4 ret2 Hb3 Hno) as Hb4.
  destruct (negb (ret2 =? 0)) eqn:Hret2; [by injection Hrun as _ <-|].
  apply negb_false_iff, Z.eqb_eq in Hret2. injection Hrun as <- <-. intros _. cbn [fst dv_opts dv_local].
  split; [by split|]. unfold ready. rewrite dry_run_cleared.
  eapply opened_numbered, Hback', Hb4, Hret2.
Qed.

Lemma dump_loop_triple k prefix v :
  vars_ok v →
  triple (ready (dv_opts v) (dv_local v)) (dump_loop k prefix v)
    (λ ret d, ret = 0 → ∃ local, numbered local d).
Proof.
  revert v. induction k as [|k IH]; intros v Hv; [by intros d d' x _|]. cbn [Dump.dump_loop].
  eapply triple_bind; [by apply dump_step_triple|]. intros [v1 ret]. cbn [fst snd].
  apply triple_if; intros Hret.
  { apply triple_ret. intros d _ ->. done. }
  apply negb_false_iff, Z.eqb_eq in Hret as ->.
  intros d d' x Hd Hrun. destruct (Hd eq_refl) as [Hv1 Hr].
  destruct (dv_global v1 <=? do_end (dv_opts v1)); [by eapply IH|].
  injection Hrun as <- <-. intros _. eexists. by eapply ready_numbered.
Qed.

(** ** Around the loop *)

Lemma dump_history_harmless prefix opts logs rest local :
  harmless (dump_history ra_fuel prefix opts logs rest local).
Proof.
  revert local. induction rest as [|log rest IH]; intros local; cbn [dump_history];
    [apply harmless_ret|].
  case_match; [|apply harmless_ret]. apply harmless_bind; [apply repo_commit_log_harmless|].
  intros ret. case_match; [apply harmless_ret|apply IH].
Qed.

(** What the preparation leaves for the loop: log entries, and a range that starts in the log. *)
Definition prepared_ok (start_mid : bool) opts (r : dump_options * list log_revision * Z * Z) : Prop :=
  let '(opts', logs, local, ret) := r in
  ret = 0 → (∃ start, opts' = set_range (set_flags opts (do_flags opts')) start (do_end opts) ∧
      (start_mid = true → 0 <= start ∧ 0 <= local)) ∧
    has_flag opts' DF_NO_INCREMENTAL_HEADER = has_flag opts DF_NO_INCREMENTAL_HEADER ∧
    Forall log_good logs.

Lemma no_header_flag opts :
  has_flag (set_flags opts (Z.lor (do_flags opts) DF_INITIAL_DRY_RUN)) DF_NO_INCREMENTAL_HEADER
  = has_flag opts DF_NO_INCREMENTAL_HEADER.
Proof. unfold has_flag. cbn [do_flags set_flags]. by rewrite Z.land_lor_distr_l, Z.lor_0_r. Qed.

Lemma dump_prepare_triple O prefix start_mid opts logs :
  Forall log_good logs →
  triple (between O) (dump_prepare rand fuel ra_fuel prefix start_mid opts logs)
    (λ r d, prepared_ok start_mid opts r ∧ between O d).
Proof.
  intros Hlogs. unfold dump_prepare. destruct start_mid.
  2:{ apply triple_ret. intros d Hb. split; [|done]. intros _. split_and!; [|by case_match|done].
      case_match; [exists 1|exists (do_start opts)]; (split; [by destruct opts|done]). }
  eapply triple_bind; [by apply fetch_all_triple|]. intros [l ret]. cbn [fst].
  apply triple_pure. intros Hl. apply triple_if; intros _; [by apply triple_ret|].
  apply triple_seq; [apply dump_history_harmless|]. intros [local ret'].
  apply triple_if; intros _; [by apply triple_ret|]. cbv zeta.
  intros d d' r Hb (d1 & log & Hlog & Hrun)%bind_done. injection Hrun as <- <-.
  split; [|by eapply log_at_harmless]. intros _. split_and!; [|by apply no_header_flag|done].
  exists (lr_revision log). split; [done|]. intros _.
  split; [exact (lg_rev _ (log_at_good _ _ Hl _ _ _ Hlog))|]. by apply log_at_spec in Hlog as [? _].
Qed.

Lemma dump_range_done prefix opts d d' r :
  dump_range prefix opts d = Done d' r → d' = d ∧ ∃ start end_, r.1 = set_range opts start end_.
Proof.
  unfold dump_range. destruct (dump_determine_end (do_end opts)) as [ret end_].
  case_match; [intros [= <- <-]; split; [done|by do 2 eexists]|].
  case_match.
  - intros (d1 & [[ret' s] e] & [-> _]%lift_done & [= <- <-])%bind_done. split; [done|by do 2 eexists].
  - intros [= <- <-]. split; [done|by do 2 eexists].
Qed.

(** The header of the file: the format, and perhaps the identifier. *)
Definition header_items (format : Z) (hdr : list dump_item) : Prop :=
  hdr = [VersionItem format] ∨ ∃ uuid, hdr = [VersionItem format; UuidItem uuid].

Lemma dump_file_header_done prefix start_mid opts d d' :
  (∀ uuid, svn_ra_get_uuid = Some uuid → nl ∉ uuid) → 0 <= do_dump_format opts →
  dump_file_header prefix start_mid opts d = Done d' 0 →
  ∃ hdr out, d' = put_out d (d_out d ++ out) ∧ stream hdr out ∧
    (hdr = [] ∧ start_mid = true ∧ has_flag opts DF_NO_INCREMENTAL_HEADER = true ∨
     header_items (do_dump_format opts) hdr).
Proof.
  intros Huuid Hfmt. unfold dump_file_header. destruct (negb (has_flag opts _) || negb start_mid) eqn:Hh.
  2:{ intros [= <-]. exists [], []. rewrite app_nil_r. split; [by destruct d|].
      split; [apply stream_nil|]. left. apply orb_false_iff in Hh as [H1'%negb_false_iff H2'%negb_false_iff]. done. }
  rewrite (run_bind _ _ _ _ _ (run_emit _ _)). pose proof (chunk_version _ Hfmt) as Hv.
  destruct (bool_decide _ && _).
  - destruct dump_fetch_uuid as [uuid|] eqn:Hu; [|done].
    rewrite (run_bind _ _ _ _ _ (run_emit _ _)), put_out_put. intros [= <-].
    exists ([VersionItem (do_dump_format opts)] ++ [UuidItem uuid]).
    eexists (_ ++ _). split; [cbn [d_out put_out]; by rewrite <-app_assoc|]. split.
    + apply stream_app; apply stream_chunk; [done|]. by apply chunk_uuid, Huuid.
    + right. right. by exists uuid.
  - intros [= <-]. do 2 eexists. split; [done|]. split; [by apply stream_chunk|]. right. by left.
Qed.

Lemma dump_init_ready start_mid opts logs local d :
  prefix_ok opts → Forall log_good logs → (start_mid = true → 0 <= do_start opts ∧ 0 <= local) →
  noted [] d →
  let v := dump_init start_mid opts logs local in vars_ok v ∧ ready (dv_opts v) (dv_local v) d.
Proof.
  intros Hp Hl Hs Hb v. unfold v, dump_init. destruct start_mid; (split; [by split|]);
    apply ready_start; try done; cbn [dv_local].
  - destruct (Hs eq_refl). by case_match.
  - case_match; lia.
Qed.

End dump.

Arguments between {_ _ _ _} _ _ _ _.

Lemma between_rebase `{HashIter} {T : Type} `{KV T} `{Codec} apr_md5 used O (d : de_state T) :
  between apr_md5 used O d → between apr_md5 used (written (d_out d) []) d.
Proof. intros [Hp Hn _]. split; [done|done|apply wrote_nil]. Qed.

(** What the loop adds to the output. *)
Lemma dump_loop_records `{HashIter} {T : Type} `{KV T} `{Codec} `{!RA} `{!RALog} `{!RADump}
    (rand : nat → Z) (fuel ra_fuel : nat)
    (apr_md5 : bytes → option bytes) (svn_path_dirname svn_md5_digest_to_cstring : bytes → bytes)
    (svn_property_regular : bytes → bool) (svndiff : bytes → bytes → bytes) (temp_ok : nat → bool)
    (uninit_kind : svn_node_kind) (uninit_rev : Z) (uninit_log : log_revision)
    (used : prop_hash → Prop) (Hused : props_closed used)
    (Hserver : server_ok svn_property_regular used)
    (Hdigest : ∀ b, nl ∉ svn_md5_digest_to_cstring b)
    (k : nat) (prefix : bytes) (start_mid : bool) opts logs local (d d' : de_state T) :
  between apr_md5 used (λ _, True) d → prefix_ok opts → Forall log_good logs →
  (start_mid = true → 0 <= do_start opts ∧ 0 <= local) →
  dump_loop rand fuel apr_md5 svn_path_dirname svn_md5_digest_to_cstring svn_property_regular
    svndiff temp_ok uninit_kind uninit_rev uninit_log k prefix
    (dump_init start_mid opts logs local) d = Done d' 0 →
  ∃ l out first, d_out d' = d_out d ++ out ∧ stream l out ∧ Forall item_ok l ∧ 0 <= first ∧
    revisions l = seqZ first (Z.of_nat (length (revisions l))).
Proof.
  intros Hb%between_rebase Hp Hl Hs Hloop.
  destruct (dump_init_ready rand fuel apr_md5 svn_path_dirname svndiff temp_ok used (d_out d)
    start_mid opts logs local d Hp Hl Hs Hb) as [Hv Hrd].
  destruct (dump_loop_triple rand fuel ra_fuel apr_md5 svn_path_dirname svn_md5_digest_to_cstring
    svn_property_regular svndiff temp_ok uninit_kind uninit_rev uninit_log used Hused Hserver Hdigest
    (d_out d) k prefix _ Hv d d' 0 Hrd Hloop eq_refl) as (last & first & Hfirst & [_ _ Hw]).
  destruct Hw as (l & out & Hout & Hst & Hi & Hrev). exists l, out, first.
  assert (0 <= last - first) as Hpos by lia. split_and!; [done..|lia|].
  rewrite Hrev, length_seqZ, Z2Nat.id by done. done.
Qed.

(** * Properties *)

(** C2. A dump is a well-formed dump file: when [dump] returns 0, what it has written is read, by a
    reader that relies on the announced lengths, from the first to the last byte as a sequence of
    records: first the format and possibly the repository's identifier (they are left out only
    for an incremental dump that is asked to), then revisions and nodes, where every node is an
    addition, a change or a deletion and the revision numbers are consecutive, padding included.
    This holds for every server that sends paths without newlines, known actions, log texts that
    are C strings and property tables that can be stored, and that answers a request for a single
    log entry with at least one entry, if not with an error, whatever order and batons its editor
    drives use; with or without deltas, obfuscation, a user prefix and an initial dry run. *)
Theorem dump_output_wellformed `{HashIter} {T : Type} `{KV T} `{Codec} `{!RA} `{!RALog} `{!RADump}
    (rand : nat → Z) (fuel ra_fuel : nat)
    (apr_md5 : bytes → option bytes) (svn_path_dirname svn_md5_digest_to_cstring : bytes → bytes)
    (svn_property_regular : bytes → bool) (svndiff : bytes → bytes → bytes) (temp_ok : nat → bool)
    (uninit_kind : svn_node_kind) (uninit_rev : Z) (uninit_log : log_revision)
    (used : prop_hash → Prop) (props_db repo_db : T) (k : nat) (opts : dump_options)
    (d d' : de_state T) :
  props_closed used → server_ok svn_property_regular used →
  (∀ b, nl ∉ svn_md5_digest_to_cstring b) →
  kv_models props_db ∅ → names_ok (se_obf (d_session d)) →
  (∀ p, do_prefix opts = Some p → nl ∉ p) → 0 <= do_dump_format opts →
  dump rand fuel ra_fuel apr_md5 svn_path_dirname svn_md5_digest_to_cstring svn_property_regular
    svndiff temp_ok uninit_kind uninit_rev uninit_log (Some props_db) (Some repo_db) k opts d
    = Done d' 0 →
  let format := if has_flag opts DF_USE_DELTAS then 3 else do_dump_format opts in
  ∃ out hdr l first, d_out d' = d_out d ++ out ∧ read_dump out = Some (hdr ++ l) ∧
    (hdr = [] ∧ has_flag opts DF_INCREMENTAL = true ∧
       has_flag opts DF_NO_INCREMENTAL_HEADER = true ∨ header_items format hdr) ∧
    Forall item_ok l ∧ 0 <= first ∧
    revisions l = seqZ first (Z.of_nat (length (revisions l))).
Proof.
  intros Hused Hserver Hdigest Hdb Hn Hp Hfmt Hrun format. unfold dump in Hrun.
  apply bind_done in Hrun as (d1 & x & [= <- <-] & Hrun).
  apply bind_done in Hrun as (d1 & prefix & [-> Hpre]%lift_done & Hrun). cbv zeta in Hrun.
  set (opts1 := if has_flag opts DF_USE_DELTAS then set_format opts 3 else opts) in Hrun.
  assert (do_prefix opts1 = do_prefix opts ∧ do_flags opts1 = do_flags opts ∧
    do_dump_format opts1 = format) as (Hp1 & Hf1 & Hfmt1) by (unfold opts1, format; by destruct (has_flag opts DF_USE_DELTAS)).
  apply bind_done in Hrun as (d1 & [opts2 ret] & Hr & Hrun).
  apply dump_range_done in Hr as (-> & start & end_ & Ho). cbn [fst] in Ho. subst opts2.
  destruct (negb (ret =? 0)); [done|]. destruct (negb _); [done|].
  set (logs := if (0 <? length prefix)%nat then [dummy_log] else []) in Hrun.
  assert (Forall log_good logs) as Hlogs.
  { unfold logs. destruct (0 <? length prefix)%nat; [|constructor]. apply Forall_singleton.
    split; [done|constructor|vm_compute; reflexivity|done]. }
  set (mid := has_flag opts1 DF_INCREMENTAL && negb (do_start opts1 =? 0)) in Hrun.
  apply bind_done in Hrun as (d1 & [] & [= <-] & Hrun). set (d1 := put_repo _ _) in Hrun.
  assert (between apr_md5 used (λ b, b = d_out d) d1) as Hb1.
  { split; [by eexists; eapply pm_wf, ps_create_models|done|done]. }
  apply bind_done in Hrun as (d2 & [[[opts3 logs3] local] ret3] & Hprep & Hrun).
  apply (dump_prepare_triple rand fuel ra_fuel apr_md5 svn_property_regular used Hserver _
    prefix mid _ _ Hlogs d1 d2 _ Hb1) in Hprep as [Hprep Hb2].
  destruct (negb (ret3 =? 0)) eqn:Hret3; [done|]. apply negb_false_iff, Z.eqb_eq in Hret3.
  destruct (Hprep Hret3) as ((start3 & Ho3 & Hs3) & Hnh & Hl3).
  assert (do_prefix opts3 = do_prefix opts ∧ do_dump_format opts3 = format ∧ do_start opts3 = start3)
    as (Hp3 & Hfmt3 & Hst3) by (rewrite Ho3; by split_and!).
  apply bind_done in Hrun as (d3 & ret4 & Hhdr & Hrun).
  destruct (negb (ret4 =? 0)) eqn:Hret4; [done|]. apply negb_false_iff, Z.eqb_eq in Hret4 as ->.
  apply dump_file_header_done in Hhdr as
    (hdr & hout & -> & Hhdr & Hcase); [|exact (so_uuid _ _ Hserver)|rewrite Hfmt3; unfold format; by destruct (has_flag opts DF_USE_DELTAS)].
  apply bind_done in Hrun as (d4 & opts4 & Ho4 & Hrun). set (d3 := put_out _ _) in *.
  assert (d4 = d3 ∧ do_prefix opts4 = do_prefix opts ∧ do_start opts4 = start3) as (-> & Hp4 & Hst4).
  { destruct mid; [|by injection Ho4 as <- <-].
    apply bind_done in Ho4 as (d5 & log & [-> _]%lift_done & [= <- <-]). by split_and!. }
  apply bind_done in Hrun as (d5 & ret5 & Hloop & Hrun).
  apply bind_done in Hrun as (d6 & [] & [= <-] & [= <- ->]).
  destruct (dump_loop_records rand fuel ra_fuel apr_md5 svn_path_dirname svn_md5_digest_to_cstring
    svn_property_regular svndiff temp_ok uninit_kind uninit_rev uninit_log used Hused Hserver Hdigest
    k prefix mid opts4 logs3 local d3 d5) as (l & lout & first & Hout & Hl & Hrest);
    [by destruct Hb2; split|unfold prefix_ok; by rewrite Hp4|done|by rewrite Hst4|done|].
  exists (hout ++ lout), hdr, l, first.
  split_and!; [| | |apply Hrest..].
  - change (d_out (delta_cleanup d5)) with (d_out d5). rewrite Hout. cbn [d3 d_out put_out]. by rewrite (bt_out _ _ _ _ Hb2), app_assoc.
  - by apply read_dump_stream, stream_app.
  - destruct Hcase as [(-> & Hmid & Hflag)|Hcase]; [left|right; by rewrite <-Hfmt3].
    split; [done|]. unfold mid in Hmid. apply andb_true_iff in Hmid as [Hinc _].
    unfold has_flag in *. rewrite Hf1 in Hinc. split; [done|]. rewrite Hnh in Hflag. cbn in Hflag.
    by rewrite Hf1 in Hflag.
Qed.

(** The sample repository of DumpFacts.v, with a server that answers every request. *)
Definition sample_log : RALog :=
  {| svn_ra_get_log start end_ limit :=
       (if limit =? 1 then (if start <=? 5 then take 1 sample_entries else drop 1 sample_entries)
        else sample_entries, true) |}.

Definition sample_file : outcome (de_state mukv) Z :=
  dump (H2 := ra_empty) (H3 := sample_log) (H4 := sample_ra) (λ _, 0) 10 10 sample_md5
    sample_dirname (λ _, str "0a1b") (λ _, true) (λ _ target, target) (λ _, true) svn_node_unknown 0
    dummy_log (Some (mukv_new large_device)) (Some (mukv_new large_device)) 10
    (mk_opts (Some (str "/tmp")) None 0 (-1) 0 2) (put_session sample_state sample_session).

Lemma sample_paths_ok (cp : gmap bytes svn_log_changed_path) path info :
  Forall (λ kv : bytes * svn_log_changed_path,
    nl ∉ kv.1 ∧ cp_action (kv.2) = "A"%char ∧ cp_copyfrom_path (kv.2) = None) (map_to_list cp) →
  cp !! path = Some info → nl ∉ path ∧ log_ok info.
Proof.
  intros Hcp Hp%elem_of_map_to_list. rewrite Forall_forall in Hcp.
  destruct (Hcp _ Hp) as (Hn & Ha & Hf). simpl in *. split; [done|].
  split; [right; by left|]. by rewrite Hf.
Qed.

Lemma sample_entries_ok : Forall entry_ok sample_entries.
Proof.
  repeat apply Forall_cons_2; [| |apply Forall_nil_2];
    (split; [discriminate|eval_decide|eval_decide|eval_decide|discriminate|]);
    intros cp path info [= <-]; apply sample_paths_ok; eval_decide.
Qed.

Lemma sample_server_ok : @server_ok _ sample_log sample_ra (λ _, true) sample_used.
Proof.
  split.
  - intros start end_ limit. unfold svn_ra_get_log, sample_log. cbn [fst].
    repeat case_match; auto using Forall_take, Forall_drop, sample_entries_ok.
  - intros start end_ es. unfold svn_ra_get_log, sample_log. rewrite Z.eqb_refl.
    destruct (start <=? 5); by intros [= <-].
  - intros src dest start_empty deltas. unfold svn_ra_do_diff2, sample_ra. cbn [fst].
    repeat case_match; repeat first [apply Forall_nil_2|apply Forall_cons_2];
      first [exact I|eval_decide].
  - intros uuid [= <-]. eval_decide.
Qed.

(** What the sample dump writes, evaluated. *)
Definition sample_items : option (Z * list dump_item) :=
  match sample_file with
  | Done d ret => l ← read_dump (d_out d); Some (ret, l)
  | _ => None
  end.

Lemma sample_items_two :
  (λ r, (r.1, take 1 r.2, revisions (drop 1 r.2))) <$> sample_items = Some (0, [VersionItem 2], [1; 2]).
Proof. vm_compute. reflexivity. Qed.

Lemma dump_output_wellformed_witness :
  ∃ d' l, sample_file = Done d' 0 ∧ read_dump (d_out d') = Some (VersionItem 2 :: l) ∧
    revisions l = [1; 2].
Proof.
  pose proof sample_items_two as Hs. unfold sample_items in Hs.
  destruct sample_file as [|d' m|d' ret] eqn:Hrun; [discriminate Hs..|].
  destruct (read_dump (d_out d')) as [items|] eqn:Hitems; [|discriminate Hs].
  injection Hs as -> Hl Hrevs.
  destruct (dump_output_wellformed (H2 := ra_empty) (H3 := sample_log) (H4 := sample_ra) (λ _, 0) 10
    10 sample_md5 sample_dirname (λ _, str "0a1b") (λ _, true) (λ _ target, target) (λ _, true)
    svn_node_unknown 0 dummy_log sample_used (mukv_new large_device) (mukv_new large_device) 10
    (mk_opts (Some (str "/tmp")) None 0 (-1) 0 2) (put_session sample_state sample_session) d'
    sample_used_closed sample_server_ok) as (out & hdr & l & first & Ho & Hr & _).
  - intros b. eval_decide.
  - apply large_steady.
  - intros k v Hk. discriminate Hk.
  - discriminate.
  - discriminate.
  - exact Hrun.
  - exists d', (drop 1 items). split; [reflexivity|].
    change (d_out (put_session sample_state sample_session)) with (@nil ascii) in Ho. cbn [app] in Ho.
    rewrite Ho, Hr in *. injection Hitems as <-. destruct (hdr ++ l); [discriminate Hl|].
    cbn [take] in Hl. injection Hl as ->. split; [reflexivity|exact Hrevs].
Defined.
