(* ===== verification/DumpLoad.v ===== *)
(** Loading a whole dump: when a whole history of edits is dumped, a consumer that loads the file gets
    every revision, with its properties and its tree, also of what has been copied; the
    dump is defined and ends, and succeeds if nothing fails. *)
From S2P Require Import Prelude CritBit Interfaces Mukv Utils Types Copyfrom Property PropStore.
From S2P Require Import PathRepo Session Log DumpFormat Stream Loader Delta Edits DeltaFacts.
From S2P Require Import DeltaDump DeltaOutput DeltaPlain DeltaRepo DeltaWrite DeltaSafe DeltaLoad.
From S2P Require Import Dump DumpFacts DumpOutput.

Open Scope Z_scope.

(** * Histories *)

(** A revision as a server has it: the log entry, and the edit that makes it. *)
Record revision := mk_revision { rv_entry : svn_log_entry; rv_edit : edits }.

Definition entry_changes (e : svn_log_entry) : gmap bytes svn_log_changed_path :=
  default ∅ (le_changed_paths e).

(** The properties of a revision. *)
Definition rev_props (e : svn_log_entry) : prop_hash :=
  lines_props (rev_line "svn:log" (le_message e) ++ rev_line "svn:author" (le_author e) ++
    rev_line "svn:date" (le_date e)).

(** The log entry and the changes [l] belong together: what the edit adds is reported as added or
    not at all, what it copies is reported with the source, and nothing is reported as deleted but
    what it deletes. *)
Record entry_agrees (e : svn_log_entry) (l : list change) : Prop := {
  ea_paths : ∀ key info, entry_changes e !! key = Some info → canonical key;
  ea_added : ∀ c info, c ∈ l → c_add c = true → c_copy c = None →
    entry_changes e !! (slash :: c_path c) = Some info →
    cp_action info = "A"%char ∧ cp_copyfrom_path info = None;
  ea_copied : ∀ c src rev, c ∈ l → c_copy c = Some (src, rev) →
    entry_changes e !! (slash :: c_path c) = Some (mk_changed "A" (Some (slash :: src)) rev);
  ea_deleted : ∀ path info, entry_changes e !! (slash :: path) = Some info →
    cp_action info = "D"%char → ∃ c, c ∈ l ∧ c_path c = path ∧ c_entry c = None
}.

(** The path repository can store the revision [n], which has the changes [l] to the tree [t]: its
    numbers and sizes are C integers. *)
Definition commit_fits (n : Z) (t : tree) (l : list change) : Prop :=
  let s := foldl spec_change (mk_spec (λ _, ∅) (n - 1) (dom t) 0) l in
  n < 2 ^ 31 ∧ Z.of_nat (sp_pend s) < 2 ^ 31 ∧ Z.of_nat (set_size (sp_work s)) < 2 ^ 31.

(** The revisions [revs] make the trees [ts], one after the other, from [t]; [n] is the number of
    the first, and [past] are the trees of the revisions before. *)
Inductive history (svn_property_regular : bytes → bool) (used : prop_hash → Prop) :
    Z → gmap Z tree → tree → list revision → list tree → Prop :=
  | history_nil n past t : history svn_property_regular used n past t [] []
  | history_cons n past t r l t' revs ts :
      edit_changes svn_property_regular past false [] (rv_edit r) t = Some (l, t') →
      NoDup (c_path <$> l) →
      Forall (λ c, ∀ e, c_entry c = Some e →
        used (entry_props e) ∧ ∀ k v, entry_props e !! k = Some v → cstr v) l →
      entry_ok (rv_entry r) → le_revision (rv_entry r) = n → entry_agrees (rv_entry r) l →
      commit_fits n t l →
      history svn_property_regular used (n + 1) (<[n := t']> past) t' revs ts →
      history svn_property_regular used n past t (r :: revs) (t' :: ts).

(** No directory is deleted with files in it, and the log entries tell all deletions. *)
Fixpoint orderly (svn_property_regular : bytes → bool) (n : Z) (past : gmap Z tree) (t : tree)
    (revs : list revision) : Prop :=
  match revs with
  | [] => True
  | r :: revs =>
      match edit_changes svn_property_regular past false [] (rv_edit r) t with
      | Some (l, t') =>
          tidy t l ∧ reported (λ path, entry_changes (rv_entry r) !! (slash :: path)) l ∧
          orderly svn_property_regular (n + 1) (<[n := t']> past) t' revs
      | None => False
      end
  end.

(** What a reader should get. *)
Fixpoint versions (n : Z) (revs : list revision) (ts : list tree) : list version :=
  match revs, ts with
  | r :: revs, t :: ts => mk_version n (rev_props (rv_entry r)) t :: versions (n + 1) revs ts
  | _, _ => []
  end.

(** A drive without the properties that are not regular, such as those of directory entries, which a
    server sends for every node, also for the root. *)
Definition relevant (svn_property_regular : bytes → bool) (calls : list editor_call) : list editor_call :=
  filter (λ c, match c with ChangeProp _ name _ => svn_property_regular name | _ => true end = true) calls.

(** The server answers according to the history, which ends with the revision [last]: one log
    entry at a time, and the edits as differences, the first to an empty directory. *)
Record serves `{!RALog} `{!RADump} (svn_property_regular : bytes → bool) (last : Z)
    (revs : list revision) : Prop := {
  sv_log : ∀ i r, revs !! i = Some r → svn_ra_get_log (Z.of_nat i) last 1 = ([rv_entry r], true);
  sv_diff : ∀ i r, revs !! i = Some r →
    ∃ calls, svn_ra_do_diff2 (Z.of_nat (i - 1)) (Z.of_nat i) (i =? 0)%nat true = (calls, true) ∧
      relevant svn_property_regular calls = relevant svn_property_regular (edit_drive (rv_edit r))
}.

(** Options for a whole dump with full texts. *)
Record plain_opts (temp_dir : option bytes) (o : dump_options) : Prop := {
  po_temp : do_temp_dir o = temp_dir;
  po_start : do_start o = 0;
  po_prefix : do_prefix o = None;
  po_deltas : has_flag o DF_USE_DELTAS = false;
  po_initial : has_flag o DF_INITIAL_DRY_RUN = false;
  po_dry : has_flag o DF_DRY_RUN = false;
  po_version : 0 <= do_dump_format o;
  po_format : do_dump_format o ≠ 3
}.

(** * Lemmas *)

Lemma has_flag_land o m f :
  has_flag o f = false → has_flag (set_flags o (Z.land (do_flags o) m)) f = false.
Proof.
  unfold has_flag. cbn [do_flags set_flags]. intros Hf%negb_false_iff%Z.eqb_eq.
  apply negb_false_iff, Z.eqb_eq. by rewrite <-Z.land_assoc, (Z.land_comm m), Z.land_assoc, Hf.
Qed.

Lemma plain_opts_cleared dir o m : plain_opts dir o → plain_opts dir (set_flags o (Z.land (do_flags o) m)).
Proof. intros [? ? ? ? ? ? ? ?]. split; try done; by apply has_flag_land. Qed.

Lemma plain_opts_env dir o logs log local :
  plain_opts dir o → plain_env (mk_env [] o logs log local).
Proof.
  intros [Ht Hs Hp Hd Hi Hdry Hv Hf]. split; try done. unfold whole_history. cbn. by rewrite Hs.
Qed.

(** A log entry of a repository that is dumped from its root. *)
Section receive.
Context `{HashIter}.
Variables (rand : nat → Z) (fuel : nat).

Lemma receive_plain se e :
  obfuscating se = false → se_prefix se = Some [] →
  (∀ key info, entry_changes e !! key = Some info → canonical key) →
  ∃ changed, log_receiver rand fuel se e =
      Some (se, mk_log (le_revision e) (le_author e) (le_date e) (le_message e) (Some changed)) ∧
    ∀ q info, changed !! q = Some info ↔
      ∃ info0, entry_changes e !! (slash :: q) = Some info0 ∧ info = strip_info info0.
Proof.
  intros Hf Hp Hcan. unfold log_receiver. rewrite Hp. cbn [mbind option_bind].
  rewrite !obfuscate_once_off by done. cbn [mbind option_bind].
  rewrite obfuscate_once_off by done. cbn [mbind option_bind]. unfold entry_changes in *.
  destruct (le_changed_paths e) as [cp|]; cbn [default] in *.
  - destruct (log_receive_paths_spec rand fuel se [] (hash_iter cp) ∅)
      as (changed & -> & Hspec); try done.
    + apply Forall_nil_2.
    + apply Forall_forall. intros [key info] Hin%hash_iter_elem. by eapply Hcan.
    + apply hash_iter_nodup.
    + exists changed. split; [done|]. intros q info. rewrite Hspec, lookup_empty.
      setoid_rewrite hash_iter_elem. cbn [root_path]. naive_solver.
  - exists ∅. split; [done|]. intros q info. rewrite lookup_empty.
    split; [done|]. intros (info0 & Hi & _). cbn in Hi. by rewrite lookup_empty in Hi.
Qed.

End receive.

(** The changes of a revision and its received log entry. *)
Lemma agrees_drive_ok used opts logs log local e l changed :
  NoDup (c_path <$> l) →
  Forall (λ c, ∀ e, c_entry c = Some e →
    used (entry_props e) ∧ ∀ k v, entry_props e !! k = Some v → cstr v) l →
  entry_agrees e l → lr_changed_paths log = Some changed →
  (∀ q info, changed !! q = Some info ↔
     ∃ info0, entry_changes e !! (slash :: q) = Some info0 ∧ info = strip_info info0) →
  drive_ok used (mk_env [] opts logs log local) l.
Proof.
  intros Hnd Hl [Hcan Hadd Hcopied Hdel] Hlog Hspec. split; [done| |].
  - apply Forall_forall. intros c Hc. rewrite Forall_forall in Hl. specialize (Hl c Hc). split.
    + intros Ha. exists changed. split; [done|]. unfold log_fits.
      destruct (c_copy c) as [[src rev]|] eqn:Hcopy.
      * apply Hspec. exists (mk_changed "A" (Some (slash :: src)) rev). split; [by apply Hcopied|].
        unfold strip_info. cbn. by rewrite decide_True.
      * intros info Hi. apply Hspec in Hi as (info0 & Hi & ->).
        destruct (Hadd c info0 Hc Ha Hcopy Hi) as [Hact Hcp].
        split; [done|]. unfold strip_info. cbn. by rewrite Hcp.
    + intros e' He. by apply Hl.
    + intros e' k v He. by apply Hl.
  - exists changed. split; [done|]. intros path info Hi Ha.
    apply Hspec in Hi as (info0 & Hi & ->). by eapply Hdel.
Qed.

Lemma agrees_reported opts logs log local e l changed :
  lr_changed_paths log = Some changed →
  (∀ q info, changed !! q = Some info ↔
     ∃ info0, entry_changes e !! (slash :: q) = Some info0 ∧ info = strip_info info0) →
  reported (λ path, entry_changes e !! (slash :: path)) l →
  reported (env_log (mk_env [] opts logs log local)) l.
Proof.
  intros Hlog Hspec Hl. eapply Forall_impl; [exact Hl|]. intros c Hc Hn.
  specialize (Hc Hn) as (info & Hi & Ha)%fmap_Some. unfold env_log. cbn [v_log_revision]. rewrite Hlog.
  apply fmap_Some. exists (strip_info info). split; [|done]. apply Hspec. by exists info.
Qed.

(** * The process *)

Section dump.
Context `{HashIter} {T : Type} `{KV T} `{Codec} `{!RA} `{!RALog} `{!RADump}.
Variables (rand : nat → Z) (fuel ra_fuel : nat).
Variables (apr_md5 : bytes → option bytes) (svn_path_dirname : bytes → bytes)
  (svn_md5_digest_to_cstring : bytes → bytes) (svn_property_regular : bytes → bool).
Variable svndiff : bytes → bytes → bytes.
Variable temp_ok : nat → bool.
Variables (uninit_kind : svn_node_kind) (uninit_rev : Z) (uninit_log : log_revision).
Variable used : prop_hash → Prop.

Hypothesis Huniv : hash_universe apr_md5 used.
Hypothesis Hempty : used ∅.
Hypothesis Hdigest : ∀ b, nl ∉ svn_md5_digest_to_cstring b.

(** The behaviour of the dump is known to be defined. *)
Variable calm : Prop.

Variables (last : Z) (revs : list revision) (temp_dir : option bytes) (se : session).

Hypothesis Hserves : serves svn_property_regular last revs.
Hypothesis Hplain : obfuscating se = false.
Hypothesis Hprefix : se_prefix se = Some [].
Hypothesis Hnames : names_ok (se_obf se).

Implicit Types (d : de_state T) (opts : dump_options).

Abbreviation holds := (holds temp_dir apr_md5 used [[slash]]).
Abbreviation history := (history svn_property_regular used).
Abbreviation orderly := (orderly svn_property_regular).
Abbreviation dump_nodes := (dump_nodes rand fuel apr_md5 svn_path_dirname svn_md5_digest_to_cstring
  svn_property_regular svndiff temp_ok uninit_kind uninit_rev).
Abbreviation dump_step := (dump_step rand fuel apr_md5 svn_path_dirname svn_md5_digest_to_cstring
  svn_property_regular svndiff temp_ok uninit_kind uninit_rev uninit_log).
Abbreviation dump_loop := (dump_loop rand fuel apr_md5 svn_path_dirname svn_md5_digest_to_cstring
  svn_property_regular svndiff temp_ok uninit_kind uninit_rev uninit_log).

(** Between two revisions: [n] is the number of the next one. *)
Record rests (n : Z) (past : gmap Z tree) (t : tree) d : Prop := {
  rs_holds : holds d t;
  rs_session : d_session d = se;
  rs_repo : ∃ s, pr_inv (d_repo d) s ∧ sp_work s = dom t ∧ sp_pend s = 0%nat ∧ sp_last s = n - 1 ∧
    recorded past s;
  rs_closed : closed t;
  rs_texts : calm → knows_only d t;
  rs_past : ∀ rev, is_Some (past !! rev) → 0 <= rev
}.

Lemma rests_put_out n past t d b : rests n past t d → rests n past t (put_out d b).
Proof.
  intros [[? ? ? ?] ? ? ? ? ?]. split; try done. split; try done. by apply (same_store_names _ d).
Qed.

Lemma run_cleanup n past t d :
  rests n past t d → ∃ d', storage_cleanup d = Done d' 0 ∧ rests n past t d' ∧ d_out d' = d_out d.
Proof.
  intros [[Hn Ht (A & m & HA & Hp) Hs] Hse ? ? ? ?]. unfold storage_cleanup.
  destruct (property_storage_cleanup_models apr_md5 used _ m (pm_wf _ _ _ _ _ HA))
    as (st & m' & -> & _ & Hm). eexists. split; [done|]. split; [|done]. split; [|done..].
  split; [by apply (same_store_names _ d)|done| |done]. exists A, m'. split; [by apply Hm|done].
Qed.

(** The commit after the drive of a revision. *)
Lemma run_commit n past t l t' d s :
  0 <= n → sp_last s = n - 1 → sp_work s = dom t → sp_pend s = 0%nat → recorded past s →
  (∀ rev, is_Some (past !! rev) → 0 <= rev) → commit_fits n t l → closed t' →
  ready_for apr_md5 used temp_dir d (foldl spec_change s l) t' → d_session d = se →
  (calm → knows_only d t') →
  ∃ d' ret, repo_commit n d = Done d' ret ∧ (reliable T temp_ok apr_md5 → ret = 0) ∧
    (ret = 0 → rests (n + 1) (<[n := t']> past) t' d' ∧ d_out d' = d_out d).
Proof.
  intros Hn Hlast Hw Hp Hrec Hpast (Hn31 & Hpend & Hsize) Hcl [[Ha Hb Hc Hd] Hinv Hw'] Hs Htexts.
  destruct (spec_changes_size s (mk_spec (λ _, ∅) (n - 1) (dom t) 0) l Hw Hp) as [Hw2 Hp2].
  destruct (spec_changes_hist s l) as [_ Hlast2].
  assert (pr_op_ok (foldl spec_change s l) (PCommit n)) as Hop.
  { split; [rewrite Hlast2; lia|]. split; [rewrite Hlast2, Hlast; intros; lia|]. by rewrite Hw2, Hp2. }
  destruct (path_repo_commit_safe apr_md5 temp_ok (d_repo d) _ n Hinv Hop) as (repo & ret & Hcommit & Hret).
  unfold repo_commit. rewrite Hcommit. do 2 eexists. split; [done|]. split; [done|]. intros ->.
  split; [|done]. apply commit_done with (s := foldl spec_change s l) in Hcommit; [|done..].
  split; [split; try done; by apply (same_store_names _ d)|done| |done..|].
  - exists (spec_commit (foldl spec_change s l) n). split_and!; [done..|cbn; lia|].
    apply recorded_commit; [by apply recorded_changes|done..|lia].
  - intros rev [<-|?]%lookup_insert_is_Some'; auto.
Qed.

(** Nothing is padded, and there is no prefix to create. *)
Lemma run_front opts local log d :
  plain_opts temp_dir opts → lr_revision log = local →
  dump_front opts local log d =
    Done (put_out d (d_out d ++ dump_revision_header log local)) (opts, local, 0).
Proof.
  intros [Ht Hs Hp _ Hi _ _ _] Hrev. unfold dump_front, initial_dry_run. rewrite Hi.
  assert ((if has_flag opts DF_KEEP_REVNUMS && negb false
           then dump_padding (S (Z.to_nat (lr_revision log - local))) opts local (lr_revision log)
           else mret (opts, local, 0)) d = Done d (opts, local, 0)) as Hpad.
  { destruct (has_flag opts DF_KEEP_REVNUMS && _); [|done]. rewrite Hrev. cbn [dump_padding].
    by rewrite (proj2 (Z.ltb_ge local local)) by lia. }
  rewrite (run_bind _ _ _ _ _ Hpad). cbn [negb Z.eqb]. rewrite Hi.
  rewrite (run_bind _ _ _ _ _ (run_emit _ _)). set (d1 := put_out _ _).
  rewrite (run_bind _ _ d1 d1 opts); [done|]. destruct (local =? 1); [|done].
  unfold create_user_prefix. rewrite Hp. cbn [dump_create_user_prefix].
  rewrite (run_bind _ _ _ _ _ (run_lift _ _)), (run_bind _ _ _ _ _ (run_emit _ _)), app_nil_r.
  destruct opts; cbn in *; by subst.
Qed.

(** The number of an earlier revision in the list of the logs is its number in the dump. *)
Lemma local_rev_same (i : nat) opts logs log local rev :
  lr_revision <$> logs = Z.of_nat <$> seq 0 i → 0 <= rev < Z.of_nat i →
  delta_get_local_copyfrom_rev rev opts (logs ++ [log]) local = rev.
Proof.
  intros Hlogs Hrev. unfold delta_get_local_copyfrom_rev. destruct (has_flag opts DF_KEEP_REVNUMS); [done|].
  assert (length logs = i) as Hlen.
  { apply (f_equal length) in Hlogs. by rewrite !length_fmap, length_seq in Hlogs. }
  rewrite length_app. cbn [length]. rewrite (proj2 (Nat.eqb_neq _ 0)) by lia.
  replace (length logs + 1 - 1)%nat with i by lia.
  assert (∀ j l, (logs ++ [log]) !! j = Some l → (j < i)%nat → lr_revision l = Z.of_nat j) as Hnth.
  { intros j l Hl Hj. rewrite lookup_app_l in Hl by lia.
    assert ((lr_revision <$> logs) !! j = Some (lr_revision l)) as Hl' by (by rewrite list_lookup_fmap, Hl).
    rewrite Hlogs, list_lookup_fmap, lookup_seq_lt in Hl' by lia. by injection Hl' as <-. }
  clear Hlogs. assert (∀ k, (Z.to_nat rev < k <= i)%nat → copyfrom_rev_loop k rev (logs ++ [log]) = rev) as Hloop;
    [|apply Hloop; lia].
  induction k as [|k IH]; intros Hk; [lia|]. cbn [copyfrom_rev_loop].
  destruct (lookup_lt_is_Some_2 (logs ++ [log]) k) as [l Hl]; [rewrite length_app; lia|]. rewrite Hl.
  rewrite (Hnth k l Hl) by lia. destruct (Z.eqb_spec rev (Z.of_nat k)) as [->|Hne]; [done|].
  rewrite (proj2 (Z.ltb_ge _ _)) by lia. apply IH. lia.
Qed.

Abbreviation ok := (reliable T temp_ok apr_md5).

(** What a computation that returns 0 on success has to guarantee: [Q] holds if it succeeds, and it
    does if nothing fails. *)
Definition returns {A} (ret : A → Z) (Q : de_state T → A → Prop) : de_state T → A → Prop :=
  λ d x, (calm → ok → ret x = 0) ∧ (ret x = 0 → Q d x).

(** The editor ignores properties that are not regular. *)
Lemma run_relevant env calls d :
  editor_run rand fuel apr_md5 svn_path_dirname svn_md5_digest_to_cstring svn_property_regular
    svndiff temp_ok uninit_kind uninit_rev env (relevant svn_property_regular calls) d =
  editor_run rand fuel apr_md5 svn_path_dirname svn_md5_digest_to_cstring svn_property_regular
    svndiff temp_ok uninit_kind uninit_rev env calls d.
Proof.
  revert d. induction calls as [|c calls IH]; intros d; [done|]. unfold relevant.
  rewrite filter_cons. case_decide as Hc.
  - cbn [editor_run]. unfold mbind, M_bind. destruct (editor_do _ _ _ _ _ _ _ _ _ _ _ _ _) as [| |d1 []]; [done..|].
    apply IH.
  - fold (relevant svn_property_regular calls). rewrite IH. destruct c as [| | | | |id name value| | | | | | | |]; try done.
    cbn [editor_run editor_do]. unfold de_change_prop. by apply not_true_is_false in Hc as ->.
Qed.

(** The difference of a revision. *)
Lemma diff_plain opts logs log r l i past s t t' d :
  plain_opts temp_dir opts → revs !! i = Some r →
  lr_revision log = Z.of_nat i → lr_revision <$> logs = Z.of_nat <$> seq 0 i →
  edit_changes svn_property_regular past false [] (rv_edit r) t = Some (l, t') →
  drive_ok used (mk_env [] opts (logs ++ [log]) log (Z.of_nat i)) l →
  (calm → tidy t l ∧ knows_only d t ∧ reported (env_log (mk_env [] opts (logs ++ [log]) log (Z.of_nat i))) l) →
  ready_for apr_md5 used temp_dir d s t → recorded past s → sp_last s = Z.of_nat i - 1 →
  (∀ rev, is_Some (past !! rev) → 0 <= rev) →
  wp calm True (dump_do_diff rand fuel apr_md5 svn_path_dirname svn_md5_digest_to_cstring svn_property_regular
      svndiff temp_ok uninit_kind uninit_rev (mk_env [] opts (logs ++ [log]) log (Z.of_nat i))
      (diff_base (Z.of_nat i) (do_start opts)) (lr_revision log) (Z.of_nat i =? do_start opts))
    (delta_setup_editor d) (returns id (λ d' _,
      ready_for apr_md5 used temp_dir d' (foldl spec_change s l) t' ∧ d_session d' = d_session d ∧
      (calm → knows_only d' t') ∧
      ∃ out nodes, d_out d' = d_out d ++ out ∧ stream (NodeItem <$> nodes) out ∧
        load_nodes past t nodes = Some t')).
Proof.
  intros Hopts Hr Hrev Hlogs He Hok Hcalm Hd Hrec Hlast Hpast.
  assert (wp calm ok (run_editor rand fuel apr_md5 svn_path_dirname svn_md5_digest_to_cstring svn_property_regular
    svndiff temp_ok uninit_kind uninit_rev (mk_env [] opts (logs ++ [log]) log (Z.of_nat i))
    (edit_drive (rv_edit r))) (delta_setup_editor d) (λ d' _,
      ready_for apr_md5 used temp_dir d' (foldl spec_change s l) t' ∧ d_session d' = d_session d ∧
      (calm → knows_only d' t') ∧
      ∃ out nodes, d_out d' = d_out d ++ out ∧ stream (NodeItem <$> nodes) out ∧
        load_nodes past t nodes = Some t')) as Hw.
  { rewrite <-(po_temp _ _ Hopts). eapply wp_weaken; [|intros Hc; exact (conj (proj1 (Hcalm Hc)) (proj1 (proj2 (Hcalm Hc))))].
    eapply wp_post; [eapply drive_loaded; try done; [by eapply plain_opts_env| | |]|].
    - split; [done|]. cbn [v_opts v_logs v_local_revnum]. intros rev t0 Ht0.
      apply local_rev_same with i; [done|]. destruct (rc_hist _ _ Hrec _ _ Ht0) as [_ Hle].
      split; [apply Hpast; by eexists|lia].
    - by apply edit_changes_applies.
    - cbn [v_opts]. by rewrite (po_temp _ _ Hopts).
    - cbv beta. intros d' [] _ (Hd' & Hs' & Hknows & Ho). split_and!; try done.
      intros Hc. destruct (Hcalm Hc) as (? & ? & ?). by apply Hknows. }
  unfold wp, dump_do_diff in *. cbn [v_opts]. rewrite (po_dry _ _ Hopts), (po_start _ _ Hopts), Hrev.
  replace (diff_base (Z.of_nat i) 0) with (Z.of_nat (i - 1)) by (unfold diff_base; repeat case_match; lia).
  replace (Z.of_nat i =? 0) with (i =? 0)%nat by (by destruct i).
  cbn [negb]. destruct (sv_diff _ _ _ Hserves _ _ Hr) as (calls & -> & Hcalls).
  rewrite <-run_relevant, <-Hcalls, run_relevant in Hw. unfold run_editor.
  destruct (editor_run _ _ _ _ _ _ _ _ _ _ _ _ _) as [|d3 msg|d3 []]; [done| |].
  - split; [|discriminate]. intros Hc Hrel. by destruct (Hw Hc).
  - by split.
Qed.

(** And its commit. *)
Lemma nodes_plain opts logs log r l i past t t' d :
  plain_opts temp_dir opts → revs !! i = Some r →
  lr_revision log = Z.of_nat i → lr_revision <$> logs = Z.of_nat <$> seq 0 i →
  edit_changes svn_property_regular past false [] (rv_edit r) t = Some (l, t') →
  drive_ok used (mk_env [] opts (logs ++ [log]) log (Z.of_nat i)) l →
  (calm → tidy t l ∧ reported (env_log (mk_env [] opts (logs ++ [log]) log (Z.of_nat i))) l) → commit_fits (Z.of_nat i) t l →
  rests (Z.of_nat i) past t d →
  wp calm True (dump_nodes [] opts (logs ++ [log]) log (Z.of_nat i) (Z.of_nat i)) d (returns id (λ d' _,
    rests (Z.of_nat (S i)) (<[Z.of_nat i := t']> past) t' d' ∧
    ∃ out nodes, d_out d' = d_out d ++ out ∧ stream (NodeItem <$> nodes) out ∧
      load_nodes past t nodes = Some t')).
Proof.
  intros Hopts Hr Hrev Hlogs He Hok Hcalm Hfits [Hh Hs (s & Hinv & Hw & Hp & Hlast & Hrec) Hcl Htexts Hpast].
  assert (closed t') as Hcl'.
  { eapply applies_closed; [by apply edit_changes_applies|done|done]. }
  unfold Dump.dump_nodes. eapply wp_step; [reflexivity|]. apply wp_bind.
  eapply wp_post; [eapply diff_plain; try done; naive_solver|]. cbv beta. intros d2 ret _ [Hret Hdone]. cbn [id] in *.
  destruct (Z.eqb_spec ret 0) as [->|Hne]; cbn [negb].
  2:{ eapply wp_done; [reflexivity|]. split; [intros Hc Hrel; by rewrite Hret in Hne|discriminate]. }
  destruct (Hdone eq_refl) as (Hr2 & Hs2 & Hk2 & out & nodes & Ho & Hst & Hl). unfold initial_dry_run.
  rewrite (po_initial _ _ Hopts).
  destruct (run_commit (Z.of_nat i) past t l t' d2 s) as (d3 & ret3 & Hcommit & Hret3 & Hr3);
    try done; [lia|by rewrite Hs2|].
  eapply wp_step; [exact Hcommit|].
  destruct (Z.eqb_spec ret3 0) as [->|Hne]; cbn [negb].
  2:{ eapply wp_done; [reflexivity|]. split; [intros Hc Hrel; by rewrite Hret3 in Hne|discriminate]. }
  destruct (Hr3 eq_refl) as [Hr3' Ho3]. destruct (run_cleanup _ _ _ _ Hr3') as (d4 & Hclean & Hr4 & Ho4).
  eapply wp_step; [exact Hclean|]. eapply wp_done; [reflexivity|].
  split; [done|]. intros _. split; [by replace (Z.of_nat (S i)) with (Z.of_nat i + 1) by lia|].
  exists out, nodes. by rewrite Ho4, Ho3.
Qed.

(** The variables of the loop in front of the revision [i]. *)
Record vars_at (i : nat) (v : dump_vars) : Prop := {
  va_opts : plain_opts temp_dir (dv_opts v);
  va_end : do_end (dv_opts v) = last;
  va_fetched : dv_logs_fetched v = false;
  va_global : dv_global v = Z.of_nat i;
  va_local : dv_local v = Z.of_nat i;
  va_logs : lr_revision <$> dv_logs v = Z.of_nat <$> seq 0 i
}.

(** The log entry of a revision is fetched. *)
Lemma run_fetch i v r past t d changed :
  vars_at i v → revs !! i = Some r → rests (Z.of_nat i) past t d →
  let e := rv_entry r in
  let log := mk_log (le_revision e) (le_author e) (le_date e) (le_message e) (Some changed) in
  log_receiver rand fuel se e = Some (se, log) →
  dump_fetch rand fuel uninit_log v d =
    Done d (mk_vars (dv_opts v) (dv_logs v ++ [log]) false (Z.of_nat i) (Z.of_nat i) (Z.of_nat i), 0).
Proof.
  intros [Hopts Hend Hfet Hgl Hlo Hlogs] Hr Hd e log Hrec. subst e.
  pose proof (rs_session _ _ _ _ Hd) as Hsess. unfold dump_fetch. rewrite Hfet. erewrite run_bind.
  2:{ unfold fetch_single, log_fetch_single. rewrite Hgl, Hend, (sv_log _ _ _ Hserves _ _ Hr), Hsess.
      cbn [foldl mbind option_bind]. rewrite Hrec. reflexivity. }
  cbn [negb Z.eqb]. rewrite Hgl, Hlo.
  replace (put_session d se) with d by (rewrite <-Hsess; by destruct d).
  replace (Z.of_nat (length (dv_logs v ++ [log])) - 1) with (Z.of_nat i); [done|].
  apply (f_equal length) in Hlogs. rewrite !length_fmap, length_seq in Hlogs.
  rewrite length_app, Hlogs. cbn [length]. lia.
Qed.

(** One revision of the history. *)
Lemma step_plain i v r ts past t rest d :
  vars_at i v → revs !! i = Some r → history (Z.of_nat i) past t (r :: rest) ts →
  rests (Z.of_nat i) past t d → (calm → orderly (Z.of_nat i) past t (r :: rest)) →
  wp calm True (dump_step [] v) d (returns snd (λ d' x,
    vars_at (S i) (x.1) ∧ ∃ ls t' ts' out nodes,
      let past' := <[Z.of_nat i := t']> past in
      ts = t' :: ts' ∧ rests (Z.of_nat (S i)) past' t' d' ∧
      history (Z.of_nat (S i)) past' t' rest ts' ∧ (calm → orderly (Z.of_nat (S i)) past' t' rest) ∧
      d_out d' = d_out d ++ out ∧ stream (RevisionItem (Z.of_nat i) ls :: (NodeItem <$> nodes)) out ∧
      lines_props ls = rev_props (rv_entry r) ∧ load_nodes past t nodes = Some t')).
Proof.
  intros Hv Hr Hhist Hd Hcalm. pose proof Hv as [Hopts Hend Hfet Hgl Hlo Hlogs].
  inversion Hhist as [|n past0 t0 r0 l t' revs0 ts' He Hnd Hl Hok Hrev Hag Hfits Hnext]; subst.
  cbn [DumpLoad.orderly] in Hcalm. rewrite He in Hcalm.
  destruct (receive_plain rand fuel se (rv_entry r) Hplain Hprefix (ea_paths _ _ Hag))
    as (changed & Hrec & Hspec).
  destruct (log_receiver_good rand fuel se (rv_entry r) _ _ Hnames Hok Hrec) as [_ Hgood].
  pose proof (run_fetch i v r past t d changed Hv Hr Hd Hrec) as Hfetch.
  set (log := mk_log _ _ _ _ _) in *.
  unfold Dump.dump_step. eapply wp_step; [exact Hfetch|].
  cbn [negb Z.eqb dv_logs dv_idx dv_opts dv_local dv_global dv_logs_fetched].
  assert (length (dv_logs v) = i) as Hlen.
  { apply (f_equal length) in Hlogs. by rewrite !length_fmap, length_seq in Hlogs. }
  assert (log_at (dv_logs v ++ [log]) (Z.of_nat i) d = Done d log) as Hat.
  { unfold log_at. rewrite (proj2 (Z.ltb_ge _ _)) by lia.
    rewrite lookup_app_r by lia. by rewrite Nat2Z.id, Hlen, Nat.sub_diag. }
  eapply wp_step; [exact Hat|]. eapply wp_step; [by apply run_front|]. cbn [negb Z.eqb]. apply wp_bind.
  eapply wp_post; [eapply nodes_plain;
    [done|exact Hr|exact Hrev|exact Hlogs|exact He|by eapply agrees_drive_ok| |exact Hfits|
     by apply rests_put_out]|].
  { intros Hc. destruct (Hcalm Hc) as (Ht & Hrep & _). split; [done|]. by eapply agrees_reported. }
  cbv beta. intros d3 ret _ [Hret Hdone]. cbn [id] in *.
  destruct (Z.eqb_spec ret 0) as [->|Hne]; cbn [negb]; (eapply wp_done; [reflexivity|]).
  2:{ split; [intros Hc Hrel; by rewrite Hret in Hne|discriminate]. }
  split; [done|]. intros _. destruct (Hdone eq_refl) as (Hr3 & out & nodes & Ho & Hst & Hload). split.
  { split; cbn [fst dv_opts dv_logs dv_logs_fetched dv_global dv_local]; try done; [by apply plain_opts_cleared|..].
    - cbn [lr_revision log]. lia.
    - lia.
    - rewrite fmap_app, Hlogs, seq_S, fmap_app. cbn. by rewrite Hrev. }
  exists (rev_lines log), t', ts', (dump_revision_header log (Z.of_nat i) ++ out), nodes.
  split; [done|]. split; [done|]. replace (Z.of_nat (S i)) with (Z.of_nat i + 1) by lia.
  split; [done|]. split; [intros Hc; apply (Hcalm Hc)|]. split; [rewrite Ho; cbn [d_out put_out]; by rewrite app_assoc|]. split; [|done].
  apply (stream_app [_]); [|done]. apply stream_chunk, header_chunk; [lia|done].
Qed.

(** The loop, from the revision [i] to the last one. *)
Lemma loop_plain k i v rest past t ts d :
  vars_at i v → rest ≠ [] → drop i revs = rest → last = Z.of_nat (length revs) - 1 →
  history (Z.of_nat i) past t rest ts → rests (Z.of_nat i) past t d →
  (calm → orderly (Z.of_nat i) past t rest ∧ (length rest <= k)%nat) →
  wp calm True (dump_loop k [] v) d (returns id (λ d' _,
    ∃ out items, d_out d' = d_out d ++ out ∧ stream items out ∧
      ∀ before open, close_past open t before = past →
        load_items before open t items = Some (close_version open t ++ versions (Z.of_nat i) rest ts))).
Proof.
  revert i v rest past t ts d. induction k as [|k IH];
    intros i v rest past t ts d Hv Hne Hdrop Hlast Hhist Hd Hcalm; (destruct rest as [|r rest]; [done|]).
  { intros Hc. destruct (Hcalm Hc) as [_ Hk]. simpl in Hk. lia. }
  assert (revs !! i = Some r) as Hr.
  { pose proof (lookup_drop revs i 0) as Hl. rewrite Hdrop in Hl. by rewrite Nat.add_0_r in Hl. }
  assert (drop (S i) revs = rest) as Hrest by (by eapply drop_S in Hr; rewrite Hdrop in Hr; injection Hr).
  cbn [Dump.dump_loop]. apply wp_bind. eapply wp_post; [eapply step_plain; try done; naive_solver|].
  cbv beta. intros d1 [v1 ret] _ [Hret Hdone]. cbn [snd fst] in *.
  destruct (Z.eqb_spec ret 0) as [->|Hne']; cbn [negb].
  2:{ eapply wp_done; [reflexivity|]. split; [intros Hc Hrel; by apply Hret|done]. }
  destruct (Hdone eq_refl) as (Hv1 & ls & t' & ts' & out & nodes & -> & Hr1 & Hh1 & Hc1 & Ho & Hst & Hls & Hload).
  assert (∀ before open items vs, close_past open t before = past →
    load_items past (Some (Z.of_nat i, lines_props ls)) t' items = Some vs →
    load_items before open t ((RevisionItem (Z.of_nat i) ls :: (NodeItem <$> nodes)) ++ items) =
      Some (close_version open t ++ vs)) as Hitems.
  { intros before open items vs Hpast Hvs. cbn [app load_items]. rewrite Hpast.
    rewrite (load_items_nodes _ _ t nodes t') by done. by rewrite Hvs. }
  pose proof (f_equal length Hrest) as Hlen. rewrite length_drop in Hlen.
  rewrite (va_global _ _ Hv1), (va_end _ _ Hv1). destruct (Z.leb_spec (Z.of_nat (S i)) last) as [Hmore|Hmore].
  - destruct rest as [|r2 rest]; [simpl in Hlen; lia|].
    eapply wp_post; [apply (IH (S i) v1 (r2 :: rest) (<[Z.of_nat i := t']> past) t' ts' d1 Hv1); try done|].
    { intros Hc. split; [by apply Hc1|]. destruct (Hcalm Hc) as [_ Hk]. simpl in *. lia. }
    cbv beta. intros d2 ret _ [Hret2 Hdone2]. split; [done|]. intros Heq.
    destruct (Hdone2 Heq) as (out2 & items & Ho2 & Hst2 & Hl2).
    exists (out ++ out2), ((RevisionItem (Z.of_nat i) ls :: (NodeItem <$> nodes)) ++ items).
    split; [by rewrite Ho2, Ho, app_assoc|]. split; [by apply stream_app|]. intros before open Hpast.
    rewrite (Hitems before open items _ Hpast (Hl2 past (Some (Z.of_nat i, lines_props ls)) eq_refl)), Hls. cbn [close_version versions app].
    by replace (Z.of_nat (S i)) with (Z.of_nat i + 1) by lia.
  - eapply wp_done; [reflexivity|]. split; [done|]. intros _. destruct rest as [|r2 rest].
    + exists out, ((RevisionItem (Z.of_nat i) ls :: (NodeItem <$> nodes)) ++ []).
      split; [done|]. split; [by rewrite app_nil_r|]. intros before open Hpast.
      erewrite Hitems by done. cbn [close_version versions]. rewrite Hls. by destruct ts'.
    + simpl in Hlen. lia.
Qed.

(** The header of the file. *)
Lemma run_header opts d :
  ∃ d' ret, dump_file_header [] false opts d = Done d' ret ∧ (is_Some svn_ra_get_uuid → ret = 0).
Proof.
  unfold dump_file_header. rewrite orb_true_r, (run_bind _ _ _ _ _ (run_emit _ _)).
  destruct (_ && _); [|by do 2 eexists]. unfold dump_fetch_uuid.
  destruct svn_ra_get_uuid as [uuid|]; [by do 2 eexists|]. do 2 eexists. split; [done|]. by intros [].
Qed.

(** New repositories for properties and paths. *)
Lemma rests_start d props_db repo_db b :
  kv_models props_db ∅ → kv_models repo_db ∅ → d_session d = se → d_delta_hash d = ∅ →
  rests 0 ∅ ∅ (put_out (put_repo (put_props d (property_storage_create props_db))
    (path_repo_create repo_db)) b).
Proof.
  intros Hp Hr Hs Hd. split; [|done| |apply closed_empty| |].
  - split; [| | |cbn; by rewrite Hs].
    + split; [intros p f|intros p q f]; cbn; by rewrite Hd.
    + intros p ps x Hx. by rewrite lookup_empty in Hx.
    + exists ∅, ∅. split; [by apply ps_create_models|]. intros p e He. by rewrite lookup_empty in He.
  - exists pr_spec_init. split; [by apply path_repo_create_inv|]. split_and!; [done..|apply recorded_none].
  - intros _ p [f Hf]. cbn in Hf. by rewrite Hd in Hf.
  - intros rev [t Ht]. by rewrite lookup_empty in Ht.
Qed.

(** What is left when the repositories are there: the header, the loop and the cleanup. *)
Lemma rest_plain k opts ts d :
  plain_opts temp_dir opts → do_end opts = last → last = Z.of_nat (length revs) - 1 →
  history 0 ∅ ∅ revs ts → revs ≠ [] → rests 0 ∅ ∅ d →
  (calm → orderly 0 ∅ ∅ revs ∧ (length revs <= k)%nat) →
  (∀ uuid, svn_ra_get_uuid = Some uuid → nl ∉ uuid) →
  wp calm True (
    ret ← dump_file_header [] false opts;
    if negb (ret =? 0) then mret 1
    else
      opts ← mret opts;
      ret ← dump_loop k [] (dump_init false opts [] (-1));
      _ ← modify delta_cleanup;
      mret ret) d
    (λ d' ret, (calm → ok → is_Some svn_ra_get_uuid → ret = 0) ∧
      (ret = 0 → ∃ out, d_out d' = d_out d ++ out ∧ load_dump out = Some (versions 0 revs ts))).
Proof.
  intros Ho Hend Hlast Hhist Hne Hd Hcalm Huuid.
  destruct (run_header opts d) as (dh & ret & Hhdr & Hret). eapply wp_step; [exact Hhdr|].
  destruct (Z.eqb_spec ret 0) as [->|Hnz]; cbn [negb].
  2:{ eapply wp_done; [reflexivity|]. split; [intros _ _ Hu; by destruct Hnz; apply Hret|done]. }
  apply dump_file_header_done in Hhdr as (hdr & hout & -> & Hhdr & Hcase);
    [|exact Huuid|exact (po_version _ _ Ho)].
  eapply wp_step; [reflexivity|]. apply wp_bind. eapply wp_post.
  { apply (loop_plain k 0 (dump_init false opts [] (-1)) revs ∅ ∅ ts); try done; [|by apply rests_put_out].
    split; try done; unfold dump_init; cbn [dv_opts dv_global dv_local]; by rewrite (po_start _ _ Ho). }
  cbv beta. intros d3 ret _ [Hzero Hdone]. eapply wp_step; [reflexivity|]. eapply wp_done; [reflexivity|].
  split; [intros Hc Hrel _; by apply Hzero|]. intros Hz.
  destruct (Hdone Hz) as (out & items & Hout & Hst & Hl). exists (hout ++ out). split.
  - change (d_out (delta_cleanup d3)) with (d_out d3). rewrite Hout. cbn. by rewrite app_assoc.
  - unfold load_dump. rewrite (read_dump_stream (hdr ++ items)) by by apply stream_app.
    cbn [mbind option_bind]. destruct Hcase as [(_ & ? & _)|[->|[uuid ->]]]; [done|by apply Hl..].
Qed.

(** The whole dump. *)
Lemma dump_plain props_db repo_db k opts ts d :
  last = Z.of_nat (length revs) - 1 → (∀ uuid, svn_ra_get_uuid = Some uuid → nl ∉ uuid) →
  kv_models props_db ∅ → kv_models repo_db ∅ → history 0 ∅ ∅ revs ts → revs ≠ [] →
  svn_ra_stat_created_rev (do_end opts) = Some (Some last) → plain_opts temp_dir opts →
  d_session d = se → d_delta_hash d = ∅ → (calm → orderly 0 ∅ ∅ revs ∧ (length revs <= k)%nat) →
  wp calm True (dump rand fuel ra_fuel apr_md5 svn_path_dirname svn_md5_digest_to_cstring
      svn_property_regular svndiff temp_ok uninit_kind uninit_rev uninit_log (Some props_db)
      (Some repo_db) k opts) d
    (λ d' ret, (calm → ok → svn_ra_check_path [] 0 = Some svn_node_dir → is_Some svn_ra_get_uuid → ret = 0) ∧
      (ret = 0 → ∃ out, d_out d' = d_out d ++ out ∧ load_dump out = Some (versions 0 revs ts))).
Proof.
  intros Hlast Huuid Hdb Hrdb Hhist Hne Hhead Hopts Hsess Hdh Hcalm. unfold dump. eapply wp_step; [reflexivity|]. rewrite Hsess, Hprefix.
  eapply wp_step; [apply run_lift|]. cbv zeta.
  rewrite (po_deltas _ _ Hopts), (po_start _ _ Hopts). cbn [Z.eqb negb]. rewrite andb_false_r.
  set (opts2 := set_range opts 0 last).
  assert (plain_opts temp_dir opts2) as Ho2 by (destruct Hopts; by split).
  eapply wp_step with (d' := d) (x := (opts2, if decide (dump_check_path [] 0 = svn_node_none) then 1 else 0)).
  { unfold dump_range, dump_determine_end. rewrite Hhead. cbn [negb Z.eqb].
    by rewrite andb_false_r, (po_start _ _ Hopts). }
  destruct (decide (dump_check_path [] 0 = svn_node_none)) as [Hnone|_].
  { eapply wp_done; [reflexivity|]. split; [|done]. intros _ _ Hdir _. unfold dump_check_path in Hnone.
    by rewrite Hdir in Hnone. }
  change (do_start opts2) with 0. cbn [negb Z.eqb].
  destruct (Z.eqb_spec (session_check_reparent 0) 0) as [_|Hrep]; cbn [negb].
  2:{ eapply wp_done; [reflexivity|]. split; [|done]. intros _ _ Hdir _. destruct Hrep.
      unfold session_check_reparent. by rewrite Hdir. }
  eapply wp_step; [reflexivity|]. set (d1 := put_repo _ _).
  eapply wp_step; [reflexivity|]. cbn [negb Z.eqb length Nat.ltb Nat.leb].
  eapply wp_post; [eapply rest_plain with (ts := ts); try done; by apply rests_start with (b := d_out d)|].
  cbv beta. intros d' ret _ [Hzero Hdone]. split; [intros Hc Hrel _; by apply Hzero|exact Hdone].
Qed.

End dump.

(** * Properties *)

(** C1. Dumping a history of edits and loading the dump gives the history.  The server has revisions
    [revs], numbered from 0, whose edits (Edits.v) make the trees [ts] one after the other from an
    empty one.  An edit adds entries, sets properties and replaces texts of entries, deletes
    entries, and copies files and directories from any earlier revision without changing anything in
    them.  It never deletes a property nor sets one of the root, changes every path at most once, so
    that nothing is deleted and added again, and the names and values of properties are C strings;
    for repositories with other revisions the statement fails (see the deviations in Prelude.v).  The
    server answers requests for log entries accordingly, and requests for differences with the drive
    of the edit, to which it may add properties that are not regular, and says that its last revision
    is the last of [revs].  [dump] is asked for the whole history with full texts, without a prefix
    or obfuscation.  If it returns 0, then the file it has written is readable, every node record
    fits the tree that the records before it have made, and the revisions a consumer gets are
    exactly those of the server: the same numbers, log messages, authors and dates, and the same
    trees with all properties and texts, those of copies included, which the file only names by
    their source.  And if no directory is deleted with files in it and the log entries tell all
    deletions, then the behaviour of [dump] is defined, it ends after at most one iteration per
    revision, and it returns 0 if the server answers and no temporary file, digest or store
    fails. *)
Theorem dump_loads `{HashIter} {T : Type} `{KV T} `{Codec} `{!RA} `{!RALog} `{!RADump}
    (rand : nat → Z) (fuel ra_fuel : nat)
    (apr_md5 : bytes → option bytes) (svn_path_dirname svn_md5_digest_to_cstring : bytes → bytes)
    (svn_property_regular : bytes → bool) (svndiff : bytes → bytes → bytes) (temp_ok : nat → bool)
    (uninit_kind : svn_node_kind) (uninit_rev : Z) (uninit_log : log_revision)
    (used : prop_hash → Prop) (props_db repo_db : T) (k : nat) (opts : dump_options)
    (revs : list revision) (ts : list tree) (d : de_state T) :
  hash_universe apr_md5 used → used ∅ → (∀ b, nl ∉ svn_md5_digest_to_cstring b) →
  (∀ uuid, svn_ra_get_uuid = Some uuid → nl ∉ uuid) →
  kv_models props_db ∅ → kv_models repo_db ∅ →
  history svn_property_regular used 0 ∅ ∅ revs ts → revs ≠ [] →
  serves svn_property_regular (Z.of_nat (length revs) - 1) revs →
  svn_ra_stat_created_rev (do_end opts) = Some (Some (Z.of_nat (length revs) - 1)) →
  plain_opts (do_temp_dir opts) opts →
  obfuscating (d_session d) = false → se_prefix (d_session d) = Some [] →
  names_ok (se_obf (d_session d)) → d_delta_hash d = ∅ →
  let run := dump rand fuel ra_fuel apr_md5 svn_path_dirname svn_md5_digest_to_cstring
    svn_property_regular svndiff temp_ok uninit_kind uninit_rev uninit_log (Some props_db)
    (Some repo_db) k opts d in
  (∀ d', run = Done d' 0 → ∃ out, d_out d' = d_out d ++ out ∧ load_dump out = Some (versions 0 revs ts)) ∧
  (orderly svn_property_regular 0 ∅ ∅ revs → (length revs <= k)%nat →
   ∃ d' ret, run = Done d' ret ∧
     (reliable T temp_ok apr_md5 → svn_ra_check_path [] 0 = Some svn_node_dir →
      is_Some svn_ra_get_uuid → ret = 0)).
Proof.
  intros Huniv Hempty Hdigest Huuid Hdb Hrdb Hhist Hne Hserves Hhead Hopts Hplain Hprefix Hnames Hdh run.
  set (calm := orderly svn_property_regular 0 ∅ ∅ revs ∧ (length revs <= k)%nat).
  pose proof (dump_plain rand fuel ra_fuel apr_md5 svn_path_dirname svn_md5_digest_to_cstring
    svn_property_regular svndiff temp_ok uninit_kind uninit_rev uninit_log used Huniv Hempty Hdigest
    calm _ revs _ _ Hserves Hplain Hprefix Hnames props_db repo_db k opts ts d eq_refl Huuid Hdb Hrdb
    Hhist Hne Hhead Hopts eq_refl Hdh (λ Hc, Hc)) as Hw.
  unfold wp in Hw. fold run in Hw. destruct run as [|d1 msg|d1 ret].
  - split; [done|]. intros Ho Hk. by destruct Hw.
  - split; [done|]. intros Ho Hk. by destruct Hw.
  - split; [intros d' [= <- ->]; by apply Hw|]. intros Ho Hk. exists d1, ret. split; [done|]. by apply Hw.
Qed.

(** The two revisions of DeltaLoad.v, after the revision 0. *)
Definition sample_revs : list revision :=
  [mk_revision (mk_entry None 0 None (Some (str "2024-01-01")) None) EditEnd;
   mk_revision (mk_entry (Some {[str "/trunk" := mk_changed "A" None (-1);
                                 str "/trunk/f" := mk_changed "A" None (-1);
                                 str "/trunk/g" := mk_changed "A" None (-1)]})
                  1 (Some (str "joe")) (Some (str "2024-01-02")) (Some (str "start"))) sample_edit1;
   mk_revision (mk_entry (Some {[str "/branch" := mk_changed "A" (Some (str "/trunk")) 1;
                                 str "/trunk/f" := mk_changed "M" None (-1);
                                 str "/trunk/g" := mk_changed "D" None (-1)]})
                  2 (Some (str "ann")) (Some (str "2024-01-03")) None) sample_edit2].

(** The properties of directory entries are not regular. *)
Definition sample_regular (name : bytes) : bool := negb (bool_decide (take 10 name = str "svn:entry:")).

(** The drive of an edit, with such a property of the root. *)
Definition sample_sent (e : edits) : list editor_call :=
  match edit_drive e with
  | target :: root :: calls =>
      target :: root :: ChangeProp 0 (str "svn:entry:committed-rev") (Some (str "7")) :: calls
  | calls => calls
  end.

Definition sample_trees : list tree := [∅; sample_tree1; sample_tree2].

Definition history_log : RALog :=
  {| svn_ra_get_log start end_ limit :=
       (rv_entry <$> option_list (sample_revs !! Z.to_nat start), true) |}.

Definition history_ra : RADump :=
  {| svn_ra_stat_created_rev rev := Some (Some 2);
     svn_ra_check_path path rev := Some svn_node_dir;
     svn_ra_get_uuid := Some (str "uuid");
     svn_ra_do_diff2 src dest start_empty text_deltas :=
       (sample_sent (default EditEnd (rv_edit <$> sample_revs !! Z.to_nat dest)), true) |}.

(** The dump with two empty stores [db], from the state [d]. *)
Abbreviation history_dump db d :=
  (dump (H2 := ra_empty) (H3 := history_log) (H4 := history_ra) (λ _, 0) 10 10 sample_md5
    sample_dirname (λ _, str "0a1b") sample_regular (λ _ target, target) (λ _, true) svn_node_unknown 0
    dummy_log (Some db) (Some db) 10 (sample_opts 0 2) (put_session d (Log.sample_session []))).

(** Checks of the entries of the sample. *)
Definition sample_info_ok (key : bytes) (info : svn_log_changed_path) : Prop :=
  canonical_b key = true ∧ nl ∉ key ∧ cp_action info ∈ str "MADR" ∧
  (cp_copyfrom_path info ≠ None → nl ∉ default [] (cp_copyfrom_path info) ∧ 0 <= cp_copyfrom_rev info).

Lemma sample_infos_ok e key info :
  map_Forall sample_info_ok (entry_changes e) → entry_changes e !! key = Some info →
  canonical key ∧ nl ∉ key ∧ log_ok info.
Proof.
  intros He Hk. destruct (He _ _ Hk) as (Hc & Hn & Ha & Hcp). split; [by apply canonical_check|].
  split; [done|]. split; [unfold known_action; set_solver|].
  intros p Hp. rewrite Hp in Hcp. by apply Hcp.
Qed.

Lemma sample_props_ok l :
  Forall (λ c, entry_props <$> c_entry c ∈ [None; Some ∅; Some sample_native]) l →
  Forall (λ c, ∀ e, c_entry c = Some e →
    sample_used (entry_props e) ∧ ∀ k v, entry_props e !! k = Some v → cstr v) l.
Proof.
  intros Hl. eapply Forall_impl; [exact Hl|]. intros c Hc e He. cbv beta in Hc. rewrite He in Hc.
  assert (sample_used (entry_props e)) as Hp.
  { unfold sample_used. apply elem_of_cons in Hc as [Hc|Hc]; [done|].
    apply elem_of_cons in Hc as [[= Hc]|[[= Hc]|[]%elem_of_nil]%elem_of_cons]; [by left|by right]. }
  split; [done|]. intros k v Hk. destruct Hp as [Hp|Hp]; rewrite Hp in Hk; [done|].
  apply lookup_singleton_Some in Hk as [<- <-]. eval_decide.
Qed.

Lemma sample_entry_ok e :
  bool_decide (0 <= le_revision e ∧ cstr (default [] (le_author e)) ∧ cstr (default [] (le_date e)) ∧
    cstr (default [] (le_message e)) ∧
    opt_len (le_author e) + opt_len (le_date e) + opt_len (le_message e) + 200 <= 2 ^ 31) = true →
  map_Forall sample_info_ok (entry_changes e) → entry_ok e.
Proof.
  rewrite bool_decide_eq_true. intros (? & ? & ? & ? & ?) Hp. split; [done..|].
  intros cp path info Hcp Hi. apply (sample_infos_ok e path info Hp). unfold entry_changes.
  by rewrite Hcp.
Qed.

#[local] Instance changed_path_eq_dec : EqDecision svn_log_changed_path.
Proof. solve_decision. Defined.

(** What the log may say of an addition. *)
Definition sample_logged (copy : option (bytes * Z)) : list (option svn_log_changed_path) :=
  match copy with
  | None => [None; Some (mk_changed "A" None (-1))]
  | Some (src, rev) => [Some (mk_changed "A" (Some (slash :: src)) rev)]
  end.

(** The log is fine if it reports the additions as such, and deletes what is listed. *)
Lemma sample_agrees e l :
  map_Forall sample_info_ok (entry_changes e) →
  Forall (λ c, c_add c = true ∨ c_copy c ≠ None →
    entry_changes e !! (slash :: c_path c) ∈ sample_logged (c_copy c)) l →
  map_Forall (λ key info, cp_action info = "D"%char →
    drop 1 key ∈ c_path <$> filter (λ c, c_entry c = None) l) (entry_changes e) →
  entry_agrees e l.
Proof.
  intros He Hadd Hdel. rewrite Forall_forall in Hadd. split.
  - intros key info Hk. by eapply sample_infos_ok.
  - intros c info Hc Ha Hcopy Hi. specialize (Hadd c Hc (or_introl Ha)). rewrite Hi, Hcopy in Hadd.
    apply elem_of_cons in Hadd as [?|[= ->]%list_elem_of_singleton]; done.
  - intros c src rev Hc Hcopy. assert (c_copy c ≠ None) as Hne by congruence.
    specialize (Hadd c Hc (or_intror Hne)). rewrite Hcopy in Hadd. by apply list_elem_of_singleton in Hadd.
  - intros path info Hi Ha. specialize (Hdel _ _ Hi Ha). cbn in Hdel. rewrite drop_0 in Hdel.
    apply list_elem_of_fmap in Hdel as (c & -> & Hc). apply list_elem_of_filter in Hc as [? ?]. by exists c.
Qed.

Lemma sample_revision n past t r l t' revs ts :
  l = from_option fst [] (edit_changes sample_regular past false [] (rv_edit r) t) →
  edit_changes sample_regular past false [] (rv_edit r) t = Some (l, t') → NoDup (c_path <$> l) →
  Forall (λ c, entry_props <$> c_entry c ∈ [None; Some ∅; Some sample_native]) l →
  entry_ok (rv_entry r) → le_revision (rv_entry r) = n → entry_agrees (rv_entry r) l →
  commit_fits n t l →
  history sample_regular sample_used (n + 1) (<[n := t']> past) t' revs ts →
  history sample_regular sample_used n past t (r :: revs) (t' :: ts).
Proof. intros _ ? ? ?. intros. eapply history_cons; try done. by apply sample_props_ok. Qed.

Lemma sample_history : history sample_regular sample_used 0 ∅ ∅ sample_revs sample_trees.
Proof.
  repeat (eapply sample_revision; [reflexivity|eval_decide|eval_decide|eval_decide|
    apply sample_entry_ok; eval_decide|reflexivity|apply sample_agrees; eval_decide|
    split_and!; vm_compute; reflexivity|]).
  constructor.
Qed.

(** Evaluates the edits, then decides. *)
Lemma sample_orderly : orderly sample_regular 0 ∅ ∅ sample_revs.
Proof.
  repeat (cbn [orderly sample_revs]; match goal with |- context [edit_changes ?a ?b ?c ?d ?e ?t] =>
    let r := eval vm_compute in (edit_changes a b c d e t) in
    replace (edit_changes a b c d e t) with r by eval_decide end; split; [eval_decide|split; [eval_decide|]]).
  done.
Qed.

Lemma sample_serves : @serves history_log history_ra sample_regular 2 sample_revs.
Proof.
  split; intros i r Hr.
  - unfold svn_ra_get_log, history_log. by rewrite Nat2Z.id, Hr.
  - unfold svn_ra_do_diff2, history_ra. rewrite Nat2Z.id, Hr. cbn [fmap option_fmap option_map default].
    by eexists.
Qed.

Lemma sample_digest : ∀ b : bytes, nl ∉ str "0a1b".
Proof. intros b. eval_decide. Qed.

Lemma sample_uuid : ∀ uuid, @svn_ra_get_uuid history_ra = Some uuid → nl ∉ uuid.
Proof. intros uuid [= <-]. eval_decide. Qed.

Lemma sample_store : kv_models (mukv_new large_device) ∅.
Proof. exact large_steady. Qed.

Lemma sample_map_store : kv_models (∅ : gmap bytes bytes) ∅.
Proof. reflexivity. Qed.

Lemma sample_names : names_ok (se_obf (Log.sample_session [])).
Proof. intros k v Hk. discriminate Hk. Qed.

Lemma sample_plain : plain_opts (do_temp_dir (sample_opts 0 2)) (sample_opts 0 2).
Proof. by split. Qed.

Lemma history_dump_ret :
  (λ o : outcome (de_state mukv) Z, match o with Done _ r => Some r | _ => None end)
    (history_dump (mukv_new large_device) sample_state) = Some 0.
Proof. vm_compute. reflexivity. Qed.

(** With a store that may fail the dump is evaluated; with one that cannot, the theorem says that it
    succeeds. *)
Lemma dump_loads_witness :
  (∃ d', history_dump (mukv_new large_device) sample_state = Done d' 0 ∧
    load_dump (d_out d') = Some (versions 0 sample_revs sample_trees)) ∧
  (∃ d', history_dump (∅ : gmap bytes bytes) map_state = Done d' 0 ∧
    load_dump (d_out d') = Some (versions 0 sample_revs sample_trees)).
Proof.
  assert (length sample_revs <= 10)%nat as Hk by (apply Nat.leb_le; reflexivity).
  assert (sample_revs ≠ []) as Hne by discriminate. split.
  - destruct (dump_loads (H2 := ra_empty) (H3 := history_log) (H4 := history_ra) (λ _, 0) 10 10 sample_md5
      sample_dirname (λ _, str "0a1b") sample_regular (λ _ target, target) (λ _, true) svn_node_unknown 0
      dummy_log sample_used (mukv_new large_device) (mukv_new large_device) 10 (sample_opts 0 2) sample_revs sample_trees
      (put_session sample_state (Log.sample_session [])) sample_universe (or_introl eq_refl)
      sample_digest sample_uuid sample_store sample_store
      sample_history Hne sample_serves eq_refl sample_plain eq_refl eq_refl sample_names eq_refl)
      as [Hload _].
    pose proof history_dump_ret as Hret. destruct (history_dump (mukv_new large_device) sample_state) as [|d' m|d' ret]; [discriminate Hret..|].
    injection Hret as ->. destruct (Hload d' eq_refl) as (out & Ho & Hl).
    exists d'. split; [reflexivity|]. rewrite Ho. exact Hl.
  - destruct (dump_loads (H2 := ra_empty) (H3 := history_log) (H4 := history_ra) (λ _, 0) 10 10 sample_md5
      sample_dirname (λ _, str "0a1b") sample_regular (λ _ target, target) (λ _, true) svn_node_unknown 0
      dummy_log sample_used (∅ : gmap bytes bytes) ∅ 10 (sample_opts 0 2) sample_revs sample_trees
      (put_session map_state (Log.sample_session [])) sample_universe (or_introl eq_refl)
      sample_digest sample_uuid sample_map_store sample_map_store
      sample_history Hne sample_serves eq_refl sample_plain eq_refl eq_refl sample_names eq_refl)
      as [Hload Hruns].
    destruct (Hruns sample_orderly Hk) as (d' & ret & Hrun & Hzero).
    rewrite (Hzero sample_reliable eq_refl (mk_is_Some _ _ eq_refl)) in Hrun.
    destruct (Hload d' Hrun) as (out & Ho & Hl). exists d'. split; [exact Hrun|]. rewrite Ho. exact Hl.
Defined.
