(* ===== verification/Main.v ===== *)
(** The program: src/main.c (arguments and the course of a run) and the verbosity levels of
    src/logger.c.  Help, version and error texts are left out. *)
From S2P Require Import Prelude Interfaces Types Session SessionOpen Revnum Log PropStore PathRepo.
From S2P Require Import Delta Dump.

Open Scope Z_scope.

(** * Logging *)

(** Whether a message of a level is printed: [L0], [L1], [L2] and [LDEBUG]. *)
Definition log_enabled (level loglevel : Z) : bool := negb (loglevel <? level).
Definition L0 (loglevel : Z) (msg : bytes) : bytes := if log_enabled 0 loglevel then msg else [].
Definition L1 (loglevel : Z) (msg : bytes) : bytes := if log_enabled 1 loglevel then msg else [].
Definition L2 (loglevel : Z) (msg : bytes) : bytes := if log_enabled 2 loglevel then msg else [].
Definition LDEBUG (loglevel : Z) (msg : bytes) : bytes :=
  if log_enabled 3 loglevel then msg else [].

(** * Arguments *)

Inductive opt :=
  | OHelp | OVersion | OQuiet | OVerbose | ODryRun | OObfuscate | ONoAuthCache | ONonInteractive
  | OKeepRevnums | ONoIncrementalHeader | ODeltas | OIncremental | ORevision | OUsername
  | OPassword | OConfigDir | OPrefix | OStop | ODeprecated | ODownloadDir | ONoCheckCertificate
  | OOutfile.

(** The [strcmp] chain, in its order. *)
Definition option_table : list (list string * opt) :=
  [(["-h"; "--help"], OHelp); (["--version"], OVersion); (["-q"; "--quiet"], OQuiet);
   (["-v"; "--verbose"], OVerbose); (["-n"; "--dry-run"], ODryRun);
   (["--obfuscate"], OObfuscate); (["--no-auth-cache"], ONoAuthCache);
   (["--non-interactive"], ONonInteractive); (["--keep-revnums"], OKeepRevnums);
   (["--no-incremental-header"], ONoIncrementalHeader); (["--deltas"], ODeltas);
   (["--incremental"], OIncremental); (["-r"; "--revision"], ORevision);
   (["-u"; "--username"], OUsername); (["-p"; "--password"], OPassword);
   (["--config-dir"], OConfigDir); (["--prefix"], OPrefix); (["--stop"], OStop);
   (["--online"; "--dump-uuid"], ODeprecated); (["-d"; "--download-dir"], ODownloadDir);
   (["--no-check-certificate"], ONoCheckCertificate); (["-o"; "--outfile"], OOutfile)]%string.

Fixpoint find_option (table : list (list string * opt)) (arg : bytes) : option opt :=
  match table with
  | [] => None
  | (names, o) :: table => if bool_decide (arg ∈ str <$> names) then Some o else find_option table arg
  end.

Definition the_option (arg : bytes) : option opt := find_option option_table arg.

(** The variables the loop changes: [session], [opts], [loglevel] and the strings of [argv]. *)
Record main_state := mk_main {
  m_session : session;
  m_opts : dump_options;
  m_loglevel : Z;
  m_argv : list bytes
}.

Definition m_set_flag (st : main_state) (f : Z) : main_state :=
  let o := m_opts st in
  mk_main (m_session st)
    (mk_opts (do_temp_dir o) (do_prefix o) (do_start o) (do_end o) (Z.lor (do_flags o) f)
       (do_dump_format o)) (m_loglevel st) (m_argv st).

Definition m_set_session_flag (st : main_state) (f : Z) : main_state :=
  let se := m_session st in
  mk_main
    (mk_session (se_url se) (se_encoded_url se) (se_root se) (se_prefix se) (se_username se)
       (se_password se) (se_config_dir se) (Z.lor (se_flags se) f) (se_obf_hash se)
       (se_obf_taken se) (se_rand se)) (m_opts st) (m_loglevel st) (m_argv st).

Definition m_set_opts (st : main_state) (o : dump_options) : main_state :=
  mk_main (m_session st) o (m_loglevel st) (m_argv st).

Definition m_set_prefix (st : main_state) (prefix : bytes) : main_state :=
  let o := m_opts st in
  m_set_opts st (mk_opts (do_temp_dir o) (Some prefix) (do_start o) (do_end o) (do_flags o)
                   (do_dump_format o)).

Definition m_set_loglevel (st : main_state) (l : Z) : main_state :=
  mk_main (m_session st) (m_opts st) l (m_argv st).

(** The strings of the session that are set by arguments. *)
Definition m_set_strings (st : main_state) (url username password config_dir : option bytes)
    : main_state :=
  let se := m_session st in
  mk_main
    (mk_session url (se_encoded_url se) (se_root se) (se_prefix se) username password config_dir
       (se_flags se) (se_obf_hash se) (se_obf_taken se) (se_rand se))
    (m_opts st) (m_loglevel st) (m_argv st).

Definition m_set_url (st : main_state) (v : bytes) : main_state :=
  let se := m_session st in
  m_set_strings st (Some v) (se_username se) (se_password se) (se_config_dir se).
Definition m_set_username (st : main_state) (v : bytes) : main_state :=
  let se := m_session st in
  m_set_strings st (se_url se) (Some v) (se_password se) (se_config_dir se).
Definition m_set_password (st : main_state) (v : bytes) : main_state :=
  let se := m_session st in
  m_set_strings st (se_url se) (se_username se) (Some v) (se_config_dir se).
Definition m_set_config_dir (st : main_state) (v : bytes) : main_state :=
  let se := m_session st in
  m_set_strings st (se_url se) (se_username se) (se_password se) (Some v).

(** [memset(argv[i], ' ', strlen(argv[i]))] *)
Definition blank (arg : bytes) : bytes := replicate (length arg) " "%char.

Definition m_blank_arg (st : main_state) (i : nat) : main_state :=
  mk_main (m_session st) (m_opts st) (m_loglevel st) (alter blank i (m_argv st)).

Inductive args_end := ArgsFinish | ArgsFailure | ArgsDone.

Section main.
Context `{!SvnClient}.
Variable svn_path_is_url : bytes → bool.

(** The argument of the option at [i], if there is one. *)
Definition with_arg (st : main_state) (i : nat)
    (k : bytes → option (main_state * nat * option args_end))
    : option (main_state * nat * option args_end) :=
  if (length (m_argv st) <=? S i)%nat then Some (st, i, Some ArgsFailure)
  else arg ← m_argv st !! S i; k arg.

(** A revision range for two fields of the options. *)
Definition set_revision (st : main_state) (i : nat) (arg : bytes) (start end_ : rev_field)
    : option (main_state * nat * option args_end) :=
  '(o, ret) ← parse_revnum arg start end_ (m_opts st);
  Some (m_set_opts st o, i, if negb (ret =? 0) then Some ArgsFailure else None).

(** One iteration: the new state and index, and how the loop is left. *)
Definition parse_arg (st : main_state) (i : nat) : option (main_state * nat * option args_end) :=
  arg ← m_argv st !! i;
  match the_option arg with
  | Some OHelp | Some OVersion => Some (st, i, Some ArgsFinish)
  | Some OQuiet => Some (m_set_loglevel st (-1), i, None)
  | Some OVerbose =>
      let l := if m_loglevel st <? 0 then 0 else m_loglevel st in
      Some (m_set_loglevel st (l + 1), i, None)
  | Some ODryRun => Some (m_set_flag st DF_DRY_RUN, i, None)
  | Some OObfuscate => Some (m_set_session_flag st SF_OBFUSCATE, i, None)
  | Some ONoAuthCache => Some (m_set_session_flag st SF_NO_AUTH_CACHE, i, None)
  | Some ONonInteractive => Some (m_set_session_flag st SF_NON_INTERACTIVE, i, None)
  | Some OKeepRevnums => Some (m_set_flag st DF_KEEP_REVNUMS, i, None)
  | Some ONoIncrementalHeader => Some (m_set_flag st DF_NO_INCREMENTAL_HEADER, i, None)
  | Some ODeltas => Some (m_set_flag st DF_USE_DELTAS, i, None)
  | Some OIncremental => Some (m_set_flag st DF_INCREMENTAL, i, None)
  | Some ORevision => with_arg st i (λ arg, set_revision st (S i) arg RStart REnd)
  | Some OUsername =>
      with_arg st i (λ arg, Some (m_blank_arg (m_set_username st arg) (S i), S i, None))
  | Some OPassword =>
      with_arg st i (λ arg, Some (m_blank_arg (m_set_password st arg) (S i), S i, None))
  | Some OConfigDir => with_arg st i (λ arg, Some (m_set_config_dir st arg, S i, None))
  | Some OPrefix => with_arg st i (λ arg, Some (m_set_prefix st arg, S i, None))
  | Some OStop =>
      with_arg st i (λ arg,
        set_revision (m_set_opts st (rev_set (m_opts st) RStart 0)) (S i) arg REnd REnd)
  | Some ODeprecated | Some ONoCheckCertificate => Some (st, i, None)
  | Some ODownloadDir | Some OOutfile => Some (st, S i, None)
  | None =>
      if svn_path_is_url arg then
        match se_url (m_session st) with
        | Some _ => Some (st, i, Some ArgsFailure)
        | None => Some (m_set_url st arg, i, None)
        end
      else Some (st, i, Some ArgsFailure)
  end.

(** [for (i = 1; i < argc; i++)]; the number of arguments is fuel enough. *)
Fixpoint parse_args (k : nat) (st : main_state) (i : nat) : option (main_state * args_end) :=
  match k with
  | O => None
  | S k =>
      if (i <? length (m_argv st))%nat then
        '(st, i, e) ← parse_arg st i;
        match (e : option args_end) with
        | Some e => Some (st, e)
        | None => parse_args k st (S i)
        end
      else Some (st, ArgsDone)
  end.

Definition main_args (seed : nat) (argv : list bytes) : option (main_state * args_end) :=
  parse_args (S (length argv)) (mk_main (session_create seed) dump_options_create 0 argv) 1.

(** * The run *)

Context `{HashIter} {T : Type} `{KV T} `{Codec} `{!RA} `{!RALog} `{!RADump}.
Variables (rand : nat → Z) (fuel ra_fuel : nat).
Variables (apr_md5 : bytes → option bytes) (svn_path_dirname : bytes → bytes)
  (svn_md5_digest_to_cstring : bytes → bytes) (svn_property_regular : bytes → bool)
  (svndiff : bytes → bytes → bytes) (temp_ok : nat → bool) (uninit_kind : svn_node_kind)
  (uninit_rev : Z) (uninit_log : log_revision) (props_db repo_db : option T).

(** The outcome of [svn_cmdline_init], the environment variable TMPDIR, [mkdtemp], what memory of a
    cleared pool is reused for, and the static variables of the program. *)
Variables (svn_cmdline_init : bool) (tmpdir : option bytes) (mkdtemp : bytes → option bytes)
  (reused : bytes → bytes) (statics : de_state T).

Definition EXIT_SUCCESS : Z := 0.
Definition EXIT_FAILURE : Z := 1.
Definition PACKAGE : bytes := str "rsvndump".

(** The exit status, the directories that are removed, and the dump. *)
Record main_result := mk_result { r_status : Z; r_removed : list bytes; r_dump : bytes }.

(** The template given to [mkdtemp]. *)
Definition temp_template : bytes :=
  svn_path_canonicalize (default (str "/tmp") tmpdir ++ str "/" ++ PACKAGE ++ str "XXXXXX").

Definition with_temp_dir (o : dump_options) (dir : bytes) : dump_options :=
  mk_opts (Some dir) (do_prefix o) (do_start o) (do_end o) (do_flags o) (do_dump_format o).

(** [ret] after the work is done decides between success and failure. *)
Definition exit_status (ret : Z) : Z := if ret =? 0 then EXIT_SUCCESS else EXIT_FAILURE.

(** From [session_open] on, with the temporary directory [dir]; [k] bounds the revisions. *)
Definition main_work (k : nat) (se : session) (opts : dump_options) (dir : bytes)
    : option main_result :=
  let temp_dir := Live dir in
  '(se, ret) ← session_open rand fuel se;
  if ret =? 0 then
    match dump rand fuel ra_fuel apr_md5 svn_path_dirname svn_md5_digest_to_cstring
            svn_property_regular svndiff temp_ok uninit_kind uninit_rev uninit_log props_db repo_db
            k opts (put_session statics se) with
    | Done d ret =>
        (* session_close clears the pool the name of the directory is in *)
        let temp_dir := clear_pool temp_dir in
        Some (mk_result (exit_status ret)
                (if ret =? 0 then [pool_read reused temp_dir] else []) (d_out d))
    | _ => None
    end
  else Some (mk_result (exit_status 0) [pool_read reused temp_dir] []).

Definition main (k seed : nat) (argv : list bytes) : option main_result :=
  if negb svn_cmdline_init then Some (mk_result EXIT_FAILURE [] [])
  else
    '(st, e) ← main_args seed argv;
    match e with
    | ArgsFinish => Some (mk_result EXIT_SUCCESS [] [])
    | ArgsFailure => Some (mk_result EXIT_FAILURE [] [])
    | ArgsDone =>
        match se_url (m_session st) with
        | None => Some (mk_result EXIT_FAILURE [] [])
        | Some _ =>
            match mkdtemp temp_template with
            | None => Some (mk_result EXIT_FAILURE [] [])
            | Some dir => main_work k (m_session st) (with_temp_dir (m_opts st) dir) dir
            end
        end
    end.

End main.
