(* ===== verification/MainFacts.v ===== *)
(** What the arguments of the program mean and how it ends: theorems about Main.v. *)
From S2P Require Import Prelude Interfaces Types Session SessionOpen Revnum Log PropStore PathRepo.
From S2P Require Import Delta Dump Main Mukv Property DeltaFacts DumpFacts.

Open Scope Z_scope.

(** * Command lines *)

Inductive setting :=
  | Switch (name : bytes) (o : opt)
  | Revision (name : bytes) (r : rev_arg)
  | WithString (name : bytes) (o : opt) (v : bytes)
  | Url (u : bytes).

Definition dump_flag (o : opt) : option Z :=
  match o with
  | ODryRun => Some DF_DRY_RUN
  | OKeepRevnums => Some DF_KEEP_REVNUMS
  | ONoIncrementalHeader => Some DF_NO_INCREMENTAL_HEADER
  | ODeltas => Some DF_USE_DELTAS
  | OIncremental => Some DF_INCREMENTAL
  | _ => None
  end.

Definition session_flag_of (o : opt) : option Z :=
  match o with
  | OObfuscate => Some SF_OBFUSCATE
  | ONoAuthCache => Some SF_NO_AUTH_CACHE
  | ONonInteractive => Some SF_NON_INTERACTIVE
  | _ => None
  end.

(** The options without an argument. *)
Definition is_switch (o : opt) : bool :=
  match o with
  | OHelp | OVersion | ORevision | OUsername | OPassword | OConfigDir | OPrefix | OStop
  | ODownloadDir | OOutfile => false
  | _ => true
  end.

Definition takes_string (o : opt) : bool :=
  match o with OUsername | OPassword | OConfigDir | OPrefix => true | _ => false end.

Definition setting_ok (is_url : bytes → bool) (s : setting) : Prop :=
  match s with
  | Switch name o => the_option name = Some o ∧ is_switch o = true
  | Revision name r => the_option name = Some ORevision ∧ rev_arg_ok r
  | WithString name o _ => the_option name = Some o ∧ takes_string o = true
  | Url u => the_option u = None ∧ is_url u = true
  end.

(** The arguments of a setting, before and after they have been read. *)
Definition render (s : setting) : list bytes :=
  match s with
  | Switch name _ => [name]
  | Revision name r => [name; rev_print r]
  | WithString name _ v => [name; v]
  | Url u => [u]
  end.

Definition scrub (s : setting) : list bytes :=
  match s with
  | WithString name OUsername v | WithString name OPassword v => [name; blank v]
  | _ => render s
  end.

(** The parts of a setting. *)
Definition dump_flag_in (s : setting) : option Z :=
  match s with Switch _ o => dump_flag o | _ => None end.
Definition session_flag_in (s : setting) : option Z :=
  match s with Switch _ o => session_flag_of o | _ => None end.
Definition verbosity_in (s : setting) : option opt :=
  match s with Switch _ OQuiet => Some OQuiet | Switch _ OVerbose => Some OVerbose | _ => None end.
Definition revision_in (s : setting) : option rev_arg :=
  match s with Revision _ r => Some r | _ => None end.
Definition username_in (s : setting) : option bytes :=
  match s with WithString _ OUsername v => Some v | _ => None end.
Definition password_in (s : setting) : option bytes :=
  match s with WithString _ OPassword v => Some v | _ => None end.
Definition config_dir_in (s : setting) : option bytes :=
  match s with WithString _ OConfigDir v => Some v | _ => None end.
Definition prefix_in (s : setting) : option bytes :=
  match s with WithString _ OPrefix v => Some v | _ => None end.
Definition url_in (s : setting) : option bytes :=
  match s with Url u => Some u | _ => None end.

(** ["-q"] silences, ["-v"] starts over from there. *)
Definition verbosity (l : Z) (o : opt) : Z :=
  match o with OQuiet => -1 | _ => Z.max l 0 + 1 end.

(** What the settings say, whatever their order. *)
Record config_of (l : list setting) (seed : nat) (st : main_state) : Prop := {
  cf_flags : do_flags (m_opts st) = foldl Z.lor 0 (omap dump_flag_in l);
  cf_session_flags : se_flags (m_session st) = foldl Z.lor 0 (omap session_flag_in l);
  cf_loglevel : m_loglevel st = foldl verbosity 0 (omap verbosity_in l);
  cf_range : (do_start (m_opts st), do_end (m_opts st))
    = default (0, -1) (rev_meaning <$> last (omap revision_in l));
  cf_username : se_username (m_session st) = last (omap username_in l);
  cf_password : se_password (m_session st) = last (omap password_in l);
  cf_config_dir : se_config_dir (m_session st) = last (omap config_dir_in l);
  cf_prefix : do_prefix (m_opts st) = last (omap prefix_in l);
  cf_url : se_url (m_session st) = last (omap url_in l);
  cf_rest : se_encoded_url (m_session st) = None ∧ se_root (m_session st) = None ∧
    se_prefix (m_session st) = None ∧ se_obf_hash (m_session st) = ∅ ∧
    se_obf_taken (m_session st) = ∅ ∧ se_rand (m_session st) = seed ∧
    do_temp_dir (m_opts st) = None ∧ do_dump_format (m_opts st) = 2
}.

(** ** One setting *)

Definition m_set_argv (st : main_state) (argv : list bytes) : main_state :=
  mk_main (m_session st) (m_opts st) (m_loglevel st) argv.

Definition apply_switch (st : main_state) (o : opt) : main_state :=
  match dump_flag o, session_flag_of o with
  | Some f, _ => m_set_flag st f
  | None, Some f => m_set_session_flag st f
  | None, None =>
      match o with
      | OQuiet | OVerbose => m_set_loglevel st (verbosity (m_loglevel st) o)
      | _ => st
      end
  end.

Definition apply (st : main_state) (s : setting) : main_state :=
  match s with
  | Switch _ o => apply_switch st o
  | Revision _ r =>
      m_set_opts st (rev_set (rev_set (m_opts st) RStart (rev_meaning r).1) REnd (rev_meaning r).2)
  | WithString _ OUsername v => m_set_username st v
  | WithString _ OPassword v => m_set_password st v
  | WithString _ OConfigDir v => m_set_config_dir st v
  | WithString _ OPrefix v => m_set_prefix st v
  | WithString _ _ _ => st
  | Url u => m_set_url st u
  end.

Lemma apply_argv st s argv : apply (m_set_argv st argv) s = m_set_argv (apply st s) argv.
Proof. destruct s as [? []| |? []|]; reflexivity. Qed.

Lemma apply_url st s :
  se_url (m_session (apply st s)) =
    match url_in s with Some u => Some u | None => se_url (m_session st) end.
Proof. destruct s as [? []| |? []|]; reflexivity. Qed.

Lemma m_set_argv_id st : m_set_argv st (m_argv st) = st.
Proof. by destruct st. Qed.

Lemma foldl_apply_argv l st argv :
  foldl apply (m_set_argv st argv) l = m_set_argv (foldl apply st l) argv.
Proof.
  revert st. induction l as [|s l IH]; intros st; [done|]. cbn [foldl]. by rewrite apply_argv, IH.
Qed.

Lemma m_set_argv_twice st a b : m_set_argv (m_set_argv st a) b = m_set_argv st b.
Proof. done. Qed.

Section args.
Variable is_url : bytes → bool.

Lemma argv_at st pre x post :
  m_argv st = pre ++ x :: post → m_argv st !! length pre = Some x.
Proof. intros ->. by rewrite lookup_app_r, Nat.sub_diag by done. Qed.

Lemma with_arg_at st pre x y post k :
  m_argv st = pre ++ x :: y :: post → with_arg st (length pre) k = k y.
Proof.
  intros E. unfold with_arg. rewrite (proj2 (Nat.leb_gt _ _)) by (rewrite E, length_app; simpl; lia).
  by rewrite E, lookup_app_r, Nat.sub_succ_l, Nat.sub_diag by lia.
Qed.

Lemma blank_arg_at st pre x y post :
  m_argv st = pre ++ x :: y :: post →
  m_blank_arg st (S (length pre)) = m_set_argv st (pre ++ x :: blank y :: post).
Proof.
  intros E. unfold m_blank_arg, m_set_argv. rewrite E. f_equal.
  replace (S (length pre)) with (length pre + 1)%nat by lia. by rewrite alter_app_r.
Qed.

Lemma parse_switch st pre name o post :
  m_argv st = pre ++ name :: post → the_option name = Some o → is_switch o = true →
  parse_arg is_url st (length pre) = Some (apply_switch st o, length pre, None).
Proof.
  intros Hargv Ho Hs. unfold parse_arg. rewrite (argv_at _ _ _ _ Hargv). cbn [mbind option_bind].
  rewrite Ho. destruct o; try discriminate Hs; try reflexivity.
  unfold apply_switch. simpl. do 4 f_equal. destruct (Z.ltb_spec (m_loglevel st) 0); lia.
Qed.

Lemma parse_with_string st pre name o v post :
  m_argv st = pre ++ name :: v :: post → the_option name = Some o → takes_string o = true →
  parse_arg is_url st (length pre) =
    Some (m_set_argv (apply st (WithString name o v)) (pre ++ scrub (WithString name o v) ++ post),
          S (length pre), None).
Proof.
  intros Hargv Ho Hs. unfold parse_arg. rewrite (argv_at _ _ _ _ Hargv). cbn [mbind option_bind].
  rewrite Ho. destruct o; try discriminate Hs; erewrite with_arg_at by done;
    try erewrite blank_arg_at by done; try reflexivity; simpl; rewrite <-Hargv; by destruct st.
Qed.

Lemma parse_revision st pre name r post :
  m_argv st = pre ++ name :: rev_print r :: post → the_option name = Some ORevision → rev_arg_ok r →
  parse_arg is_url st (length pre) = Some (apply st (Revision name r), S (length pre), None).
Proof.
  intros Hargv Ho Hr. unfold parse_arg. rewrite (argv_at _ _ _ _ Hargv). cbn [mbind option_bind].
  rewrite Ho. erewrite with_arg_at by done. unfold set_revision. by rewrite parse_rev_arg.
Qed.

Lemma parse_url st pre u post :
  m_argv st = pre ++ u :: post → the_option u = None → is_url u = true →
  se_url (m_session st) = None →
  parse_arg is_url st (length pre) = Some (m_set_url st u, length pre, None).
Proof.
  intros Hargv Ho Hu Hnone. unfold parse_arg. rewrite (argv_at _ _ _ _ Hargv). cbn [mbind option_bind].
  by rewrite Ho, Hu, Hnone.
Qed.

Lemma parse_arg_setting st pre s post :
  m_argv st = pre ++ render s ++ post → setting_ok is_url s →
  (is_Some (url_in s) → se_url (m_session st) = None) →
  parse_arg is_url st (length pre) =
    Some (m_set_argv (apply st s) (pre ++ scrub s ++ post),
          (length pre + length (render s) - 1)%nat, None).
Proof.
  intros Hargv Hok Hurl.
  assert (scrub s = render s → m_set_argv (apply st s) (pre ++ scrub s ++ post) = apply st s) as Hid.
  { intros ->. rewrite <-Hargv, <-apply_argv. by rewrite m_set_argv_id. }
  destruct s as [name o|name r|name o v|u]; destruct Hok as [Ho Hs]; simpl in Hargv.
  - rewrite Hid by done. rewrite Nat.add_sub. by eapply parse_switch.
  - rewrite Hid by done. replace (length pre + _ - 1)%nat with (S (length pre)) by (simpl; lia).
    by eapply parse_revision.
  - replace (length pre + _ - 1)%nat with (S (length pre)) by (simpl; lia).
    by apply parse_with_string.
  - rewrite Hid by done. rewrite Nat.add_sub. eapply parse_url; eauto.
Qed.

(** ** All settings *)

Lemma parse_args_settings k l st pre :
  m_argv st = pre ++ concat (render <$> l) → Forall (setting_ok is_url) l →
  (length (omap url_in l) <= (if se_url (m_session st) then 0 else 1))%nat → (length l < k)%nat →
  parse_args is_url k st (length pre) =
    Some (m_set_argv (foldl apply st l) (pre ++ concat (scrub <$> l)), ArgsDone).
Proof.
  intros Hargv Hok Hurl Hk. revert k st pre Hargv Hurl Hk.
  induction Hok as [|s l Hs Hok IH]; intros [|k] st pre Hargv Hurl Hk; simpl in Hk; try lia.
  - cbn [parse_args]. simpl in *. rewrite app_nil_r in *. rewrite Hargv, Nat.ltb_irrefl.
    by rewrite <-Hargv, m_set_argv_id.
  - cbn [parse_args]. rewrite fmap_cons, concat_cons in Hargv.
    assert (1 <= length (render s))%nat as Hlen by (destruct s; simpl; lia).
    rewrite (proj2 (Nat.ltb_lt _ _)) by (rewrite Hargv, !length_app; lia).
    assert (is_Some (url_in s) → se_url (m_session st) = None) as Hnone.
    { intros [u Hu]. simpl in Hurl. rewrite Hu in Hurl. simpl in Hurl. by destruct (se_url _); [lia|]. }
    rewrite (parse_arg_setting st pre s (concat (render <$> l))) by done. cbn [mbind option_bind].
    assert (length (scrub s) = length (render s)) as Hsc by by destruct s as [| |? []|].
    replace (S (length pre + length (render s) - 1)) with (length (pre ++ scrub s))
      by (rewrite length_app; lia).
    rewrite IH; [|by rewrite <-app_assoc| |lia].
    + rewrite <-app_assoc, fmap_cons, concat_cons. cbn [foldl]. do 2 f_equal.
      by rewrite foldl_apply_argv, m_set_argv_twice.
    + simpl. rewrite apply_url. simpl in Hurl.
      destruct (url_in s), (se_url (m_session st)); simpl in *; unfold omap in *; lia.
Qed.

End args.

(** ** The resulting configuration *)

Lemma config_nil seed argv : config_of [] seed (mk_main (session_create seed) dump_options_create 0 argv).
Proof. by split. Qed.

Lemma config_snoc l s seed st is_url :
  setting_ok is_url s → config_of l seed st → config_of (l ++ [s]) seed (apply st s).
Proof.
  intros Hok []. destruct s as [name []|name r|name [] v|u]; destruct Hok as [_ Hs];
    try discriminate Hs; split; rewrite ?omap_app; simpl;
    rewrite ?app_nil_r, ?foldl_app, ?last_snoc; simpl; solve [done | congruence | by destruct (rev_meaning _)].
Qed.

Lemma config_all l seed argv is_url :
  Forall (setting_ok is_url) l →
  config_of l seed (foldl apply (mk_main (session_create seed) dump_options_create 0 argv) l).
Proof.
  induction l as [|s l IH] using rev_ind; intros Hok; [apply config_nil|].
  apply Forall_app in Hok as [Hl [Hs _]%Forall_cons]. rewrite foldl_app. cbn [foldl].
  exact (config_snoc _ _ _ _ _ Hs (IH Hl)).
Qed.

Lemma settings_length l : (length l <= length (concat (render <$> l)))%nat.
Proof.
  induction l as [|s l IH]; [done|]. rewrite fmap_cons, concat_cons, length_app.
  destruct s; cbn [render length]; lia.
Qed.

Lemma main_args_run is_url seed prog l :
  Forall (setting_ok is_url) l → (length (omap url_in l) <= 1)%nat →
  ∃ st, main_args is_url seed (prog :: concat (render <$> l)) = Some (st, ArgsDone) ∧
    config_of l seed st ∧ m_argv st = prog :: concat (scrub <$> l).
Proof.
  intros Hok Hurl. unfold main_args. pose proof (settings_length l).
  rewrite (parse_args_settings is_url _ l _ [prog]); [|done|done|done|cbn [length]; lia].
  eexists. split; [done|]. split; [|done].
  by destruct (config_all l seed (prog :: concat (render <$> l)) is_url Hok).
Qed.

(** * Properties *)

(** C29. Command lines are understood whatever the order of their options: switches add up, [-v]
    counts from the last [-q] on, of an option with a value the last one counts, and the
    session and the dump options are otherwise as created.  Afterwards no user name and no
    password can be read in the arguments: they have been overwritten with blanks of the same
    length, and every other argument is untouched. *)
Theorem main_args_correct (is_url : bytes → bool) (seed : nat) (prog : bytes)
    (l : list setting) :
  Forall (setting_ok is_url) l → (length (omap url_in l) <= 1)%nat →
  ∃ st, main_args is_url seed (prog :: concat (render <$> l)) = Some (st, ArgsDone) ∧
    config_of l seed st ∧ m_argv st = prog :: concat (scrub <$> l).
Proof. apply main_args_run. Qed.

Definition sample_url (arg : bytes) : bool := bool_decide (take 7 arg = str "http://").

Definition sample_settings : list setting :=
  [Switch (str "-v") OVerbose; WithString (str "-p") OPassword (str "secret");
   Url (str "http://host/repo"); Revision (str "--revision") (ArgFrom 17 (str "HEAD"));
   Switch (str "--incremental") OIncremental; Switch (str "--verbose") OVerbose].

Lemma sample_settings_ok : Forall (setting_ok sample_url) sample_settings.
Proof.
  repeat constructor; try reflexivity; try (vm_compute; congruence).
Qed.

Lemma main_args_correct_witness :
  ∃ st, main_args sample_url 0
          (str <$> ["rsvndump"; "-v"; "-p"; "secret"; "http://host/repo"; "--revision"; "17:HEAD";
                    "--incremental"; "--verbose"]%string) = Some (st, ArgsDone) ∧
    m_loglevel st = 2 ∧ do_flags (m_opts st) = DF_INCREMENTAL ∧ do_start (m_opts st) = 17 ∧
    se_password (m_session st) = Some (str "secret") ∧ m_argv st !! 3%nat = Some (str "      ").
Proof.
  destruct (main_args_correct sample_url 0 (str "rsvndump") sample_settings sample_settings_ok) as
    (st & Hrun & [] & Hargv); [vm_compute; lia|].
  exists st. split; [exact Hrun|]. rewrite Hargv.
  split; [exact cf_loglevel0|]. split; [exact cf_flags0|].
  split; [injection cf_range0 as Hs _; exact Hs|]. split; [exact cf_password0|]. reflexivity.
Defined.


Section run.
Context `{!SvnClient} `{HashIter} {T : Type} `{KV T} `{Codec} `{!RA} `{!RALog} `{!RADump}.
Variables (is_url : bytes → bool) (rand : nat → Z) (fuel ra_fuel : nat).
Variables (apr_md5 : bytes → option bytes) (svn_path_dirname : bytes → bytes)
  (svn_md5_digest_to_cstring : bytes → bytes) (svn_property_regular : bytes → bool)
  (svndiff : bytes → bytes → bytes) (temp_ok : nat → bool) (uninit_kind : svn_node_kind)
  (uninit_rev : Z) (uninit_log : log_revision) (props_db repo_db : option T)
  (tmpdir : option bytes) (mkdtemp : bytes → option bytes) (reused : bytes → bytes)
  (statics : de_state T) (k seed : nat).

Abbreviation run := (main is_url rand fuel ra_fuel apr_md5 svn_path_dirname
  svn_md5_digest_to_cstring svn_property_regular svndiff temp_ok uninit_kind uninit_rev uninit_log
  props_db repo_db true tmpdir mkdtemp reused statics k seed).
Abbreviation work := (main_work rand fuel ra_fuel apr_md5 svn_path_dirname
  svn_md5_digest_to_cstring svn_property_regular svndiff temp_ok uninit_kind uninit_rev uninit_log
  props_db repo_db reused statics k).

(** With a good command line the program gets to its work. *)
Lemma main_reaches_work prog l u dir :
  Forall (setting_ok is_url) l → omap url_in l = [u] → mkdtemp (temp_template tmpdir) = Some dir →
  ∃ st, config_of l seed st ∧ se_url (m_session st) = Some u ∧
    run (prog :: concat (render <$> l)) =
      work (m_session st) (with_temp_dir (m_opts st) dir) dir.
Proof.
  intros Hok Hu Hdir. destruct (main_args_run is_url seed prog l Hok) as (st & Hargs & Hcf & _);
    [by rewrite Hu|].
  assert (se_url (m_session st) = Some u) as Hurl by by rewrite (cf_url _ _ _ Hcf), Hu.
  exists st. split; [done|]. split; [done|]. unfold main. simpl negb. cbn match.
  rewrite Hargs. cbn [mbind option_bind]. by rewrite Hurl, Hdir.
Qed.

(** The name of the temporary directory is read after its pool has been cleared: what is removed
    after a successful dump is what is found in that memory. *)
Lemma main_work_stale se se' opts dir d :
  session_open rand fuel se = Some (se', 0) →
  dump rand fuel ra_fuel apr_md5 svn_path_dirname svn_md5_digest_to_cstring
    svn_property_regular svndiff temp_ok uninit_kind uninit_rev uninit_log props_db repo_db
    k opts (put_session statics se') = Done d 0 →
  work se opts dir = Some (mk_result EXIT_SUCCESS [reused dir] (d_out d)).
Proof. intros Ho Hd. unfold main_work. rewrite Ho. cbn [mbind option_bind]. simpl. by rewrite Hd. Qed.

(** C40. A dump that could not even be started counts as a success: when the server cannot be
    reached, the program with a well-formed command line removes its temporary directory, dumps
    nothing and exits with EXIT_SUCCESS. *)
Theorem main_session_failure_succeeds (prog : bytes) (l : list setting) (u dir : bytes) :
  Forall (setting_ok is_url) l → omap url_in l = [u] → mkdtemp (temp_template tmpdir) = Some dir →
  svn_client_open_ra_session (svn_path_uri_encode (svn_path_canonicalize u)) = false →
  run (prog :: concat (render <$> l)) = Some (mk_result EXIT_SUCCESS [dir] []).
Proof.
  intros Hok Hu Hdir Hopen. destruct (main_reaches_work prog l u dir Hok Hu Hdir) as (st & _ & Hurl & ->).
  destruct (session_open_refused rand fuel (m_session st) u Hurl Hopen) as [se' Hse].
  unfold main_work. rewrite Hse. done.
Qed.

End run.

(** Libraries that work, and a server that cannot be reached. *)
Definition sample_client (reachable : bool) : SvnClient :=
  {| svn_path_canonicalize := id; svn_path_uri_encode := id; svn_fs_initialize := true;
     svn_ra_initialize := true; svn_config_ensure := true; svn_client_create_context := true;
     svn_config_get_config := true; svn_utf_cstring_to_utf8 := Some;
     svn_cmdline_setup_auth_baton _ _ _ _ _ := true; svn_client_open_ra_session _ := reachable;
     svn_ra_get_repos_root := Some (str "http://host") |}.

Definition sample_main (client : SvnClient) (argv : list bytes) : option main_result :=
  main (H := client) (H3 := ra_empty) (H4 := sample_ralog) (H5 := sample_ra) sample_url (λ _, 0) 10
    10 sample_md5 sample_dirname id (λ _, true) (λ _ target, target) (λ _, true) svn_node_unknown 0
    dummy_log (Some (mukv_new large_device)) (Some (mukv_new large_device)) true (Some (str "/var/tmp"))
    (λ _, Some (str "/var/tmp/rsvndump1a2b3c")) id sample_state 10 0 argv.

Lemma main_session_failure_succeeds_witness :
  sample_main (sample_client false) (str <$> ["rsvndump"; "http://host/repo"]%string)
    = Some (mk_result EXIT_SUCCESS [str "/var/tmp/rsvndump1a2b3c"] []).
Proof.
  apply (main_session_failure_succeeds (H := sample_client false) sample_url) with
    (l := [Url (str "http://host/repo")]) (u := str "http://host/repo");
    [repeat constructor|reflexivity|reflexivity|reflexivity].
Defined.
